(** * AutomaticCameraCalibrator: a shallow embedding and its properties

    The development follows
    [Src/Modules/Configuration/CameraCalibrator/AutomaticCameraCalibrator.cpp].

    Conventions of the embedding:
    - [float] values are exact rationals ([Q]); a value that may be
      non-finite (the optimizer's step delta) is an [fpval];
    - [int], [unsigned] and [size_t] values are [Z] or [nat]; the one
      counter that can wrap ([optimizationSteps]) wraps explicitly;
    - [std::vector] is [list], read with [!!] and written with [<[ _ := _ ]>];
    - an [ASSERT] that fails, or a null pointer that is dereferenced, is
      [None] in the [option] monad;
    - code outside the file (Eigen, Geometry, Transformation, the
      Gauss-Newton optimizer, [acos]) enters as Section variables. *)

From Stdlib Require Import ZArith QArith Qabs Lia Lqa Bool Sorted.
From stdpp Require Import base option list.

Open Scope Z_scope.

(** ** Sample types and sample configurations *)

(** Modelled from the spec: the enumeration [SampleType] is declared in the
    header [AutomaticCameraCalibrator.h]; the order of its enumerators is the
    order of the sample variants in the data model. *)
Inductive SampleType : Type :=
| cornerAngle
| parallelAngle
| parallelLinesDistance
| goalAreaDistance
| groundLineDistance.

Definition sampleTypeIndex (t : SampleType) : nat :=
  match t with
  | cornerAngle => 0
  | parallelAngle => 1
  | parallelLinesDistance => 2
  | goalAreaDistance => 3
  | groundLineDistance => 4
  end%nat.

Definition allSampleTypes : list SampleType :=
  [cornerAngle; parallelAngle; parallelLinesDistance; goalAreaDistance; groundLineDistance].

#[global] Instance SampleType_eq_dec : EqDecision SampleType.
Proof. solve_decision. Defined.

(** [bit(x)] is [1 << x]. *)
Definition bit (t : SampleType) : Z := Z.shiftl 1 (Z.of_nat (sampleTypeIndex t)).

Inductive Camera : Type := lower | upper.

#[global] Instance Camera_eq_dec : EqDecision Camera.
Proof. solve_decision. Defined.

Record SampleConfiguration : Type := mkSampleConfiguration {
  camera : Camera;
  headPan : Q;
  headTilt : Q;
  sampleTypes : Z;
  sampleIndexBase : nat
}.

(** [sampleTypes & bit(sampleType)] as a condition. *)
Definition requested (cfg : SampleConfiguration) (t : SampleType) : bool :=
  negb (Z.land (sampleTypes cfg) (bit t) =? 0).

(** [FOREACH_ENUM(SampleType, x, sampleType)] visits the enumerators before
    [sampleType]; the body increments [sampleIndex] for each requested one. *)
Definition sampleIndexOf (cfg : SampleConfiguration) (t : SampleType) : nat :=
  fold_left (fun sampleIndex x => if requested cfg x then S sampleIndex else sampleIndex)
            (take (sampleTypeIndex t) allSampleTypes)
            (sampleIndexBase cfg).

Section SampleTable.
Context {Smp : Type}.

(** [!samples[sampleIndex]] behind [ASSERT(sampleIndex < samples.size())]. *)
Definition needToRecord (cfg : SampleConfiguration) (samples : list (option Smp))
           (sampleType : SampleType) : option bool :=
  if negb (requested cfg sampleType) then Some false
  else
    match samples !! sampleIndexOf cfg sampleType with
    | None => None
    | Some None => Some true
    | Some (Some _) => Some false
    end.

Definition record (cfg : SampleConfiguration) (samples : list (option Smp))
           (sampleType : SampleType) (sample : Smp) : option (list (option Smp)) :=
  if negb (requested cfg sampleType) then None
  else
    let sampleIndex := sampleIndexOf cfg sampleType in
    if decide (sampleIndex < length samples)%nat
    then Some (<[sampleIndex := Some sample]> samples)
    else None.

(** The loop of [samplesExist]: [Some b] is an early [return b], [None] an
    access past the end of the table (the source does not check it). *)
Fixpoint samplesExistFrom (cfg : SampleConfiguration) (samples : list (option Smp))
         (ts : list SampleType) (sampleIndex : nat) : option bool :=
  match ts with
  | [] => Some true
  | t :: ts' =>
      if requested cfg t then
        match samples !! sampleIndex with
        | None => None
        | Some None => Some false
        | Some (Some _) => samplesExistFrom cfg samples ts' (sampleIndex + 1)%nat
        end
      else samplesExistFrom cfg samples ts' sampleIndex
  end.

Definition samplesExist (cfg : SampleConfiguration) (samples : list (option Smp)) : option bool :=
  samplesExistFrom cfg samples allSampleTypes (sampleIndexBase cfg).
End SampleTable.

(** A configuration requests exactly the two types [a] and [c]. *)
Definition requestsExactly (cfg : SampleConfiguration) (a c : SampleType) : Prop :=
  forall t, requested cfg t = bool_decide (t = a \/ t = c).

(** ** Vectors, lines and ranges *)

Record Vector2f : Type := mkVector2f { vx : Q; vy : Q }.
Record Vector2i : Type := mkVector2i { ix : Z; iy : Z }.

Definition castf (v : Vector2i) : Vector2f := mkVector2f (inject_Z (ix v)) (inject_Z (iy v)).
Definition vadd (a b : Vector2f) : Vector2f := mkVector2f (vx a + vx b) (vy a + vy b).
Definition vsub (a b : Vector2f) : Vector2f := mkVector2f (vx a - vx b) (vy a - vy b).
Definition vscale (a : Vector2f) (s : Q) : Vector2f := mkVector2f (vx a * s) (vy a * s).
Definition squaredNorm (a : Vector2f) : Q := vx a * vx a + vy a * vy a.
Definition vzero : Vector2f := mkVector2f 0 0.

(** The comparisons of the source on [float]s, as booleans. *)
Definition Qltb (a b : Q) : bool := negb (Qle_bool b a).
Definition Qleb (a b : Q) : bool := Qle_bool a b.
Definition Qminf (a b : Q) : Q := if Qltb b a then b else a.
Definition Qmaxf (a b : Q) : Q := if Qltb a b then b else a.

(** [Geometry::Line]: a base point and a direction. *)
Record GeoLine : Type := mkGeoLine { base : Vector2f; direction : Vector2f }.

(** Modelled from the spec: [Rangef] ([Tools/Math/Range.h]) is a closed
    interval; [isInside] tests membership, bounds included. *)
Record Rangef : Type := mkRangef { rmin : Q; rmax : Q }.
Definition isInside (r : Rangef) (t : Q) : bool := Qleb (rmin r) t && Qleb t (rmax r).

(** One entry of [theLinesPercept.lines]. *)
Record PerceptLine : Type := mkPerceptLine {
  firstImg : Vector2i;
  lastImg : Vector2i;
  firstField : Vector2f;
  lastField : Vector2f;
  line : GeoLine
}.

(** [CorrectedLine]; the source builds it from the two image points, the
    field points and the offset are left to [fitLine]. *)
Record CorrectedLine : Type := mkCorrectedLine {
  aInImage : Vector2f;
  bInImage : Vector2f;
  aOnField : Vector2f;
  bOnField : Vector2f;
  offset : Q
}.

Definition correctedLineOf (first last : Vector2i) : CorrectedLine :=
  mkCorrectedLine (castf first) (castf last) vzero vzero 0.

(** [static_cast<int>] of a [float]: truncation towards zero. *)
Definition truncate (q : Q) : Z := Z.quot (Qnum q) (Zpos (Qden q)).

(** The image section [fitLine] processes (lines 133 to 136). *)
Record ImagePatch : Type := mkImagePatch { startX : Z; startY : Z; sizeX : Z; sizeY : Z }.

Definition patchOf (correctedStart correctedEnd : Vector2f) : ImagePatch :=
  let midX := truncate ((vx correctedStart + vx correctedEnd) * (1 # 2)) in
  let midY := truncate ((vy correctedStart + vy correctedEnd) * (1 # 2)) in
  let sizeX := Z.quot (Z.max 32 (truncate (vx correctedEnd - vx correctedStart)) + 15) 16 * 16 in
  let sizeY := Z.max 32 (Z.abs (truncate (vy correctedEnd - vy correctedStart))) in
  mkImagePatch (midX - Z.quot sizeX 2) (midY - Z.quot sizeY 2) sizeX sizeY.

(** [dMax], the ceiling of [std::hypot(height, width)] of the patch. *)
Definition dMaxOf (p : ImagePatch) : Z := Z.sqrt_up (sizeY p * sizeY p + sizeX p * sizeX p).

(** ** External code

    Eigen's hyperplanes and [normalized], the functions of
    [Tools/Math/Geometry], [std::acos] and [std::sort] are not part of the
    file.  [std::sort] is not stable, so all that is known of its result is
    that it is an ordered permutation. *)

Record Maximum : Type := mkMaximum { maxAcc : Z; angleIndex : Z; distanceIndex : Z }.

Class Externals : Type := {
  Hyperplane : Type;
  hyperplane : Vector2f -> Vector2f -> Hyperplane;
  intersection : Hyperplane -> Hyperplane -> Vector2f;
  signedDistance : Hyperplane -> Vector2f -> Q;
  absDistance : Hyperplane -> Vector2f -> Q;
  normalized : Vector2f -> Vector2f;
  acos : Q -> Q;
  getDistanceToEdge : GeoLine -> Vector2f -> Q;
  getDistanceToLine : GeoLine -> Vector2f -> Q;
  getDistanceToLineSigned : GeoLine -> Vector2f -> Q;
  isPointLeftOfLine : Vector2f -> Vector2f -> Vector2f -> bool;
  sortMaxima : list Maximum -> list Maximum
}.


(** Constants of the module: [numOfAngles], the look-up tables filled by
    [createLookUpTables], and the parameters loaded from the configuration. *)
Class ModuleParameters : Type := {
  numOfAngles : Z;
  cosAngles : Z -> Q;
  sinAngles : Z -> Q;
  minDisImage : Q;
  fieldLinesWidth : Q;
  discardsUntilIncrease : Z;
  increase : Q;
  terminationCriterion : Q;
  minSuccessiveConvergences : Z;
  notValidError : Q;
  one_deg : Q;
  RAND_MAX : Z
}.

(** [x_deg], an angle literal. *)
Definition deg `{ModuleParameters} (x : Q) : Q := x * one_deg.

(** ** Local maxima of the Hough space *)

(** [houghSpace[index][j]]; the accumulator has [numOfAngles] rows of equal
    length and the source reads it inside these bounds only. *)
Definition houghAt (houghSpace : list (list Z)) (index j : Z) : Z :=
  if (index <? 0) || (j <? 0) then 0
  else default 0 (row ← houghSpace !! Z.to_nat index; row !! Z.to_nat j).

(** The lambda [localMaximum] of [determineLocalMaxima]. *)
Definition localMaximum (houghSpace : list (list Z)) (maxDisIndex : Z)
           (value angleIndex distanceIndex numOfAngles : Z) : bool :=
  forallb (fun i =>
    let index := Z.rem ((angleIndex + i) + numOfAngles) numOfAngles in
    let jFirst := Z.max 0 (distanceIndex - 1) in
    let jLast := Z.min (maxDisIndex - 1) (distanceIndex + 1) in
    forallb (fun j =>
      if (index =? angleIndex) && (j =? distanceIndex) then true
      else negb (value <? houghAt houghSpace index j))
      (seqZ jFirst (jLast - jFirst + 1)))
    [-1; 0; 1].

(** The inner loop over [distanceIndex], with [push_back]. *)
Definition scanDistances (houghSpace : list (list Z)) (maxDisIndex numOfAngles angleIndex : Z)
           (localMaxima : list Maximum) : list Maximum :=
  fold_left (fun acc distanceIndex =>
    let value := houghAt houghSpace angleIndex distanceIndex in
    if negb (value =? 0) && localMaximum houghSpace maxDisIndex value angleIndex distanceIndex numOfAngles
    then acc ++ [mkMaximum value angleIndex distanceIndex]
    else acc)
    (seqZ 0 maxDisIndex) localMaxima.

(** The outer loop [for(angleIndex = minIndex; angleIndex != maxIndex; ++angleIndex)]
    with its wrap from [numOfAngles - 1] to [0].  The loop has no bound of
    its own, so it runs on fuel; [None] is a loop that is still running when
    the fuel is spent. *)
Fixpoint scanAngles (fuel : nat) (houghSpace : list (list Z)) (maxDisIndex numOfAngles : Z)
         (minIndex maxIndex : Z) (angleIndex : Z) (localMaxima : list Maximum)
  : option (list Maximum) :=
  match fuel with
  | O => None
  | S fuel' =>
      if angleIndex =? maxIndex then Some localMaxima
      else
        let localMaxima' := scanDistances houghSpace maxDisIndex numOfAngles angleIndex localMaxima in
        let angleIndex' :=
          if (maxIndex <? minIndex) && (angleIndex =? numOfAngles - 1) then -1 else angleIndex in
        scanAngles fuel' houghSpace maxDisIndex numOfAngles minIndex maxIndex (angleIndex' + 1) localMaxima'
  end.

(** The number of columns, [houghSpace[0].size()]. *)
Definition maxDisIndexOf (houghSpace : list (list Z)) : Z :=
  Z.of_nat (length (default [] (houghSpace !! 0%nat))).

Definition determineLocalMaxima `{ModuleParameters} (fuel : nat) (houghSpace : list (list Z))
           (minIndex maxIndex : Z) : option (list Maximum) :=
  let maxDisIndex := maxDisIndexOf houghSpace in
  scanAngles fuel houghSpace maxDisIndex numOfAngles minIndex maxIndex minIndex [].

(** The angle buckets the loops of [calcHoughSpace] and
    [determineLocalMaxima] visit, in order. *)
Definition sector (numOfAngles minIndex maxIndex : Z) : list Z :=
  if maxIndex <? minIndex
  then seqZ minIndex (numOfAngles - minIndex) ++ seqZ 0 maxIndex
  else seqZ minIndex (maxIndex - minIndex).

(** A cell that no neighbour exceeds: the neighbours are the cells one
    bucket away in angle (circularly) and in distance (inside the table). *)
Definition neighbourOf (numOfAngles maxDisIndex a d a' d' : Z) : Prop :=
  (exists i, -1 <= i <= 1 /\ a' = Z.rem (a + i + numOfAngles) numOfAngles) /\
  Z.max 0 (d - 1) <= d' <= Z.min (maxDisIndex - 1) (d + 1) /\
  ~ (a' = a /\ d' = d).

(** A cell that is not zero and that no neighbour exceeds. *)
Definition isLocalMaximum (houghSpace : list (list Z)) (numOfAngles maxDisIndex a d : Z) : Prop :=
  houghAt houghSpace a d <> 0 /\
  forall a' d', neighbourOf numOfAngles maxDisIndex a d a' d' ->
                houghAt houghSpace a' d' <= houghAt houghSpace a d.

(** The test of the inner loop, and the maxima one row contributes. *)
Definition cellReported (houghSpace : list (list Z)) (maxDisIndex numOfAngles a d : Z) : bool :=
  negb (houghAt houghSpace a d =? 0)
  && localMaximum houghSpace maxDisIndex (houghAt houghSpace a d) a d numOfAngles.

Definition rowMaxima (houghSpace : list (list Z)) (maxDisIndex numOfAngles a : Z) : list Maximum :=
  (fun d => mkMaximum (houghAt houghSpace a d) a d)
    <$> List.filter (cellReported houghSpace maxDisIndex numOfAngles a) (seqZ 0 maxDisIndex).

(** ** Representations read in a cycle *)

Module CameraCalibrationStatus.
Inductive State : Type := idle | recordSamples | optimize.

#[global] Instance State_eq_dec : EqDecision State.
Proof. solve_decision. Defined.
End CameraCalibrationStatus.

Module CameraInfo.
Record t : Type := mk { camera : Camera; width : Z; height : Z }.
End CameraInfo.

Module PenaltyMarkPercept.
Record t : Type := mk { wasSeen : bool; positionInImage : Vector2i; positionOnField : Vector2f }.
End PenaltyMarkPercept.

Module SampleConfigurationRequest.
Record t : Type := mk {
  index : Z;
  camera : Camera;
  headPan : Q;
  headTilt : Q;
  sampleTypes : Z;
  doRecord : bool
}.
End SampleConfigurationRequest.

Module CalibrationRequest.
Record t : Type := mk {
  targetState : CameraCalibrationStatus.State;
  totalNumOfSamples : nat;
  sampleConfigurationRequest : option SampleConfigurationRequest.t
}.
End CalibrationRequest.

Record Vector3a : Type := mkVector3a { ax : Q; ay : Q; az : Q }.

(** [CameraCalibration]: the rotation corrections of the two cameras and of
    the body. *)
Record CameraCalibration : Type := mkCameraCalibration {
  lowerCameraRotationCorrection : Vector3a;
  upperCameraRotationCorrection : Vector3a;
  bodyRotationCorrection : Vector3a
}.

(** The kinematic context a sample freezes when it is recorded
    ([theTorsoMatrix], [theRobotModel], [theCameraInfo],
    [theImageCoordinateSystem]); the matrices are kept as their entries. *)
Record Snapshot : Type := mkSnapshot {
  snapTorsoMatrix : list Q;
  snapRobotModel : list Q;
  snapCameraInfo : CameraInfo.t;
  snapImageCoordinateSystem : list Q
}.

(** What [fitLine] computes from the image for a segment: the sector of
    angle buckets around the direction of the segment (lines 145 to 151)
    and the accumulator that [extractImagePatch], [Sobel::sobelSSE] and
    [calcHoughSpace] fill (lines 139 to 156). *)
Record HoughWindow : Type := mkHoughWindow {
  minIndex : Z;
  maxIndex : Z;
  houghSpace : list (list Z)
}.

(** The inputs of one cycle.  [houghWindow] stands for the image
    ([theOptionalECImage]) as [fitLine] sees it, [imageToRobot p] for
    [Transformation::imageToRobot(theImageCoordinateSystem.toCorrected(p),
    theCameraMatrix, theCameraInfo, out)], [rand k] for the [k]-th call of
    [rand()] in the cycle and [debugConverge] for the debug request
    [module:AutomaticCameraCalibrator:converge]. *)
Record Inputs : Type := mkInputs {
  theCameraInfo : CameraInfo.t;
  theLinesPercept : list PerceptLine;
  thePenaltyMarkPercept : PenaltyMarkPercept.t;
  theCalibrationRequest : CalibrationRequest.t;
  theCameraCalibration : CameraCalibration;
  theFrameInfoTime : Z;
  theOptionalECImage : bool;
  theSnapshot : Snapshot;
  houghWindow : Vector2f -> Vector2f -> HoughWindow;
  imageToRobot : Vector2f -> option Vector2f;
  rand : nat -> Z;
  debugConverge : bool
}.

(** ** The line fitter *)

Section LineFitter.
Context `{Ext : Externals} `{MP : ModuleParameters}.

(** The line of a maximum, [Hyperplane(n0, pointOnLine)]. *)
Definition lineOfMaximum (w : ImagePatch) (m : Maximum) : Hyperplane :=
  let angle := angleIndex m in
  let distance := inject_Z (distanceIndex m - dMaxOf w) in
  let pointOnLine :=
    vadd (mkVector2f (distance * cosAngles angle) (distance * sinAngles angle))
         (mkVector2f (inject_Z (startX w)) (inject_Z (startY w))) in
  hyperplane (mkVector2f (cosAngles angle) (sinAngles angle)) pointOnLine.

(** [CHECK_LINE_PROJECTION]: both end points are projected to the field,
    the second only if the first succeeded. *)
Definition CHECK_LINE_PROJECTION (inp : Inputs) (cline : CorrectedLine) : bool * CorrectedLine :=
  match imageToRobot inp (aInImage cline) with
  | None => (false, cline)
  | Some a =>
      let cline1 := mkCorrectedLine (aInImage cline) (bInImage cline) a (bOnField cline) (offset cline) in
      match imageToRobot inp (bInImage cline) with
      | None => (false, cline1)
      | Some b => (true, mkCorrectedLine (aInImage cline) (bInImage cline) a b (offset cline))
      end
  end.

(** The condition under which a candidate for the opposite edge is
    skipped ([continue]). *)
Definition oppositeRejected (optimalLine : Hyperplane) (startOpposite endOpposite : Vector2f) : bool :=
  negb (eqb (Qltb (signedDistance optimalLine startOpposite) 0)
            (Qltb (signedDistance optimalLine endOpposite) 0))
  || Qltb (absDistance optimalLine startOpposite) minDisImage
  || Qltb (absDistance optimalLine endOpposite) minDisImage.

Definition disInImageOf (w : ImagePatch) (optimalLine lineStart lineEnd : Hyperplane)
           (m : Maximum) : Q :=
  let oppositeOptimalLine := lineOfMaximum w m in
  let startOpposite := intersection oppositeOptimalLine lineStart in
  let endOpposite := intersection oppositeOptimalLine lineEnd in
  signedDistance optimalLine (vscale (vadd startOpposite endOpposite) (1 # 2)).

Definition candidateRejected (w : ImagePatch) (optimalLine lineStart lineEnd : Hyperplane)
           (m : Maximum) : bool :=
  let oppositeOptimalLine := lineOfMaximum w m in
  oppositeRejected optimalLine (intersection oppositeOptimalLine lineStart)
                   (intersection oppositeOptimalLine lineEnd).

Definition widthOffset (disInImage : Q) : Q :=
  if Qltb 0 disInImage then fieldLinesWidth / 2 else - fieldLinesWidth / 2.

Definition setOffset (cline : CorrectedLine) (o : Q) : CorrectedLine :=
  mkCorrectedLine (aInImage cline) (bInImage cline) (aOnField cline) (bOnField cline) o.

(** The loop [for(i = 1; i < localMaxima.size(); ++i)] over the maxima
    after the strongest one. *)
Fixpoint scanOpposite (inp : Inputs) (w : ImagePatch) (optimalLine lineStart lineEnd : Hyperplane)
         (cline : CorrectedLine) (candidates : list Maximum) : bool * CorrectedLine :=
  match candidates with
  | [] => (false, cline)
  | m :: rest =>
      if candidateRejected w optimalLine lineStart lineEnd m
      then scanOpposite inp w optimalLine lineStart lineEnd cline rest
      else CHECK_LINE_PROJECTION inp
             (setOffset cline (widthOffset (disInImageOf w optimalLine lineStart lineEnd m)))
  end.

Definition swapEnds (cline : CorrectedLine) : CorrectedLine :=
  mkCorrectedLine (bInImage cline) (aInImage cline) (aOnField cline) (bOnField cline) (offset cline).

(** The segment with its ends in the order [fitLine] works on. *)
Definition ordered (cline : CorrectedLine) : CorrectedLine :=
  if Qltb (vx (bInImage cline)) (vx (aInImage cline)) then swapEnds cline else cline.

Definition boundNormal (correctedStart correctedEnd : Vector2f) : Vector2f :=
  if Qltb (Qabs (vx correctedStart - vx correctedEnd)) (Qabs (vy correctedStart - vy correctedEnd))
  then mkVector2f 0 1 else mkVector2f 1 0.

(** The local maxima [fitLine] works on. *)
Definition maximaOf (w : HoughWindow) : option (list Maximum) :=
  determineLocalMaxima (S (Z.to_nat numOfAngles)) (houghSpace w) (minIndex w) (maxIndex w).

(** [fitLine]: the result is the returned [bool] and the line as the call
    leaves it; [None] only if the scan of the accumulator does not end. *)
Definition fitLine (inp : Inputs) (cline0 : CorrectedLine) : option (bool * CorrectedLine) :=
  let cline := ordered cline0 in
  let correctedStart := aInImage cline in
  let correctedEnd := bInImage cline in
  let patch := patchOf correctedStart correctedEnd in
  let w := houghWindow inp correctedStart correctedEnd in
  localMaxima ← maximaOf w;
  if (1 <? length localMaxima)%nat then
    match sortMaxima localMaxima with
    | [] => Some (false, cline)
    | m0 :: candidates =>
        let optimalLine := lineOfMaximum patch m0 in
        let norm := boundNormal correctedStart correctedEnd in
        let lineStart := hyperplane norm correctedStart in
        let lineEnd := hyperplane norm correctedEnd in
        let cline1 :=
          mkCorrectedLine (intersection optimalLine lineStart) (intersection optimalLine lineEnd)
                          (aOnField cline) (bOnField cline) (offset cline) in
        Some (scanOpposite inp patch optimalLine lineStart lineEnd cline1 candidates)
    end
  else Some (false, cline).
End LineFitter.

(** ** Samples and the state of the sample collector *)

Inductive Sample : Type :=
| CornerAngleSample (snap : Snapshot) (cLine1 cLine2 : CorrectedLine)
| ParallelAngleSample (snap : Snapshot) (cLine1 cLine2 : CorrectedLine)
| ParallelLinesDistanceSample (snap : Snapshot) (cLine1 cLine2 : CorrectedLine)
| GoalAreaDistanceSample (snap : Snapshot) (penaltyMarkInImage : Vector2i) (cLine : CorrectedLine)
| GroundLineDistanceSample (snap : Snapshot) (penaltyMarkInImage : Vector2i) (cLine : CorrectedLine).

(** The members of the module that [recordSamples] reads and writes. *)
Record Collector : Type := mkCollector {
  samples : list (option Sample);
  allRequiredFeaturesVisible : bool;
  parallelDisRangeLower : Rangef;
  parallelDisRangeUpper : Rangef;
  goalAreaDisRangeLower : Rangef;
  goalAreaDisRangeUpper : Rangef;
  groundLineDisRangeLower : Rangef;
  groundLineDisRangeUpper : Rangef;
  numOfDiscardedParallelLines : Z;
  numOfDiscardedGoalAreaLines : Z;
  numOfDiscardedGroundLines : Z
}.

Definition setSamples (c : Collector) (v : list (option Sample)) : Collector :=
  mkCollector v (allRequiredFeaturesVisible c)
    (parallelDisRangeLower c) (parallelDisRangeUpper c) (goalAreaDisRangeLower c)
    (goalAreaDisRangeUpper c) (groundLineDisRangeLower c) (groundLineDisRangeUpper c)
    (numOfDiscardedParallelLines c) (numOfDiscardedGoalAreaLines c) (numOfDiscardedGroundLines c).

Definition setVisible (c : Collector) (v : bool) : Collector :=
  mkCollector (samples c) v
    (parallelDisRangeLower c) (parallelDisRangeUpper c) (goalAreaDisRangeLower c)
    (goalAreaDisRangeUpper c) (groundLineDisRangeLower c) (groundLineDisRangeUpper c)
    (numOfDiscardedParallelLines c) (numOfDiscardedGoalAreaLines c) (numOfDiscardedGroundLines c).

Definition setDiscardCounters (c : Collector) (p ga gl : Z) : Collector :=
  mkCollector (samples c) (allRequiredFeaturesVisible c)
    (parallelDisRangeLower c) (parallelDisRangeUpper c) (goalAreaDisRangeLower c)
    (goalAreaDisRangeUpper c) (groundLineDisRangeLower c) (groundLineDisRangeUpper c)
    p ga gl.

(** The references [parallelLinesRange], [goalAreaDisRange] and
    [groundLineDisRange]: the range of the configuration's camera. *)
Definition parallelLinesRange (cam : Camera) (c : Collector) : Rangef :=
  match cam with upper => parallelDisRangeUpper c | lower => parallelDisRangeLower c end.
Definition goalAreaDisRange (cam : Camera) (c : Collector) : Rangef :=
  match cam with upper => goalAreaDisRangeUpper c | lower => goalAreaDisRangeLower c end.
Definition groundLineDisRange (cam : Camera) (c : Collector) : Rangef :=
  match cam with upper => groundLineDisRangeUpper c | lower => groundLineDisRangeLower c end.

Definition setParallelLinesRange (cam : Camera) (c : Collector) (r : Rangef) : Collector :=
  mkCollector (samples c) (allRequiredFeaturesVisible c)
    (match cam with lower => r | upper => parallelDisRangeLower c end)
    (match cam with upper => r | lower => parallelDisRangeUpper c end)
    (goalAreaDisRangeLower c) (goalAreaDisRangeUpper c)
    (groundLineDisRangeLower c) (groundLineDisRangeUpper c)
    (numOfDiscardedParallelLines c) (numOfDiscardedGoalAreaLines c) (numOfDiscardedGroundLines c).

Definition setGoalAreaDisRange (cam : Camera) (c : Collector) (r : Rangef) : Collector :=
  mkCollector (samples c) (allRequiredFeaturesVisible c)
    (parallelDisRangeLower c) (parallelDisRangeUpper c)
    (match cam with lower => r | upper => goalAreaDisRangeLower c end)
    (match cam with upper => r | lower => goalAreaDisRangeUpper c end)
    (groundLineDisRangeLower c) (groundLineDisRangeUpper c)
    (numOfDiscardedParallelLines c) (numOfDiscardedGoalAreaLines c) (numOfDiscardedGroundLines c).

Definition setGroundLineDisRange (cam : Camera) (c : Collector) (r : Rangef) : Collector :=
  mkCollector (samples c) (allRequiredFeaturesVisible c)
    (parallelDisRangeLower c) (parallelDisRangeUpper c)
    (goalAreaDisRangeLower c) (goalAreaDisRangeUpper c)
    (match cam with lower => r | upper => groundLineDisRangeLower c end)
    (match cam with upper => r | lower => groundLineDisRangeUpper c end)
    (numOfDiscardedParallelLines c) (numOfDiscardedGoalAreaLines c) (numOfDiscardedGroundLines c).

(** A [for] loop whose body can fail. *)
Fixpoint forM {A St : Type} (xs : list A) (body : St -> A -> option St) (s : St) : option St :=
  match xs with
  | [] => Some s
  | x :: xs' => s' ← body s x; forM xs' body s'
  end.

(** [a || b] and [a && b] where the operands can fail and the right one is
    evaluated only when the left one does not decide. *)
Definition orElse (a b : option bool) : option bool :=
  a ≫= fun x : bool => if x then Some true else b.
Definition andAlso (a b : option bool) : option bool :=
  a ≫= fun x : bool => if x then b else Some false.

Definition midpoint (a b : Vector2f) : Vector2f := vscale (vadd a b) (1 # 2).
Definition vdot (a b : Vector2f) : Q := vx a * vx b + vy a * vy b.

(** ** The sample collector *)

Section SampleCollector.
Context `{Ext : Externals} `{MP : ModuleParameters}.

Definition calculateAngle (lineAFirst lineASecond lineBFirst lineBSecond : Vector2f) : Q :=
  let dot :=
    Qmaxf (-1) (Qminf (vdot (normalized (vsub lineAFirst lineASecond))
                            (normalized (vsub lineBFirst lineBSecond))) 1) in
  acos dot.

(** [ADD_SAMPLE]. *)
Definition ADD_SAMPLE (cfg : SampleConfiguration) (smps : list (option Sample))
           (sampleType : SampleType) (s : Sample) : option (list (option Sample)) :=
  needToRecord cfg smps sampleType ≫= fun b : bool =>
  if b then record cfg smps sampleType s else Some smps.

(** [INCREASE_RANGE]: the new counter and the new range. *)
Definition INCREASE_RANGE (discarded found : bool) (numDiscarded : Z) (range : Rangef)
  : Z * Rangef :=
  let numDiscarded1 := if discarded && negb found then numDiscarded + 1 else numDiscarded in
  if discardsUntilIncrease <=? numDiscarded1
  then (0, mkRangef (rmin range - increase) (rmax range + increase))
  else (numDiscarded1, range).

(** *** The search for a corner and two parallel lines *)

(** What the triple loop carries: the sample table, the visibility flag
    and the two local flags. *)
Record TripleScan : Type := mkTripleScan {
  tsSamples : list (option Sample);
  tsVisible : bool;
  discardedParallelLines : bool;
  foundParallelLines : bool
}.

(** The check (a): the nearer end of line [i] is at most 100 away from the
    edge [l]. *)
Definition endNear (l li : PerceptLine) : bool :=
  negb (Qltb 100 (Qminf (getDistanceToEdge (line l) (firstField li))
                        (getDistanceToEdge (line l) (lastField li)))).

Definition squaredDistanceTo (l : PerceptLine) : Q :=
  squaredNorm (midpoint (firstField l) (lastField l)).

(** The check (b): neither [j] nor [k] is nearer than [i]. *)
Definition shortLineClosest (li lj lk : PerceptLine) : bool :=
  negb (Qltb (squaredDistanceTo lj) (squaredDistanceTo li)
        || Qltb (squaredDistanceTo lk) (squaredDistanceTo li)).

Definition imgAngle (a b : PerceptLine) : Q :=
  calculateAngle (castf (firstImg a)) (castf (lastImg a)) (castf (firstImg b)) (castf (lastImg b)).

(** The check (c): the angles in the image. *)
Definition anglesReasonable (li lj lk : PerceptLine) : bool :=
  let angleIJ := imgAngle li lj in
  let angleIK := imgAngle li lk in
  let angleJK := imgAngle lj lk in
  negb (Qltb angleIJ (deg 20) || Qltb (deg 160) angleIJ
        || Qltb angleIK (deg 20) || Qltb (deg 160) angleIK
        || Qltb (deg 40) angleJK).

(** The part of the body after the three lines were fitted. *)
Definition acceptTriple (inp : Inputs) (cfg : SampleConfiguration) (range : Rangef)
           (cLine1 cLine2 cLine3 : CorrectedLine) (s : TripleScan) : option TripleScan :=
  let line2 := mkGeoLine (aOnField cLine2) (normalized (vsub (bOnField cLine2) (aOnField cLine2))) in
  let distance := getDistanceToLineSigned line2 (midpoint (aOnField cLine3) (bOnField cLine3)) in
  let combinedOffset :=
    (if Qltb 0 distance then offset cLine2 - offset cLine3 else offset cLine3 - offset cLine2)%Q in
  if isInside range (Qabs distance - combinedOffset) then
    let snap := theSnapshot inp in
    let orthogonal :=
      if Qltb (squaredNorm (vsub (bOnField cLine2) (aOnField cLine2)))
              (squaredNorm (vsub (bOnField cLine3) (aOnField cLine3)))
      then cLine2 else cLine3 in
    s1 ← ADD_SAMPLE cfg (tsSamples s) cornerAngle (CornerAngleSample snap cLine1 orthogonal);
    s2 ← ADD_SAMPLE cfg s1 parallelAngle (ParallelAngleSample snap cLine2 cLine3);
    s3 ← ADD_SAMPLE cfg s2 parallelLinesDistance (ParallelLinesDistanceSample snap cLine2 cLine3);
    Some (mkTripleScan s3 (tsVisible s) (discardedParallelLines s) true)
  else Some (mkTripleScan (tsSamples s) (tsVisible s) true (foundParallelLines s)).

(** The body of the innermost loop for the lines [i], [j] and [k];
    returning [s] unchanged is a [continue]. *)
Definition tripleBody (inp : Inputs) (cfg : SampleConfiguration) (doRecord : bool)
           (range : Rangef) (li lj lk : PerceptLine) (s : TripleScan) : option TripleScan :=
  if negb (endNear lj li) then Some s
  else if negb (endNear lk li) then Some s
  else if negb (shortLineClosest li lj lk) then Some s
  else if negb (anglesReasonable li lj lk) then Some s
  else
    let s := mkTripleScan (tsSamples s) true (discardedParallelLines s) (foundParallelLines s) in
    if negb doRecord then Some s
    else
      r1 ← fitLine inp (correctedLineOf (firstImg li) (lastImg li));
      if negb (fst r1) then Some s else
      r2 ← fitLine inp (correctedLineOf (firstImg lj) (lastImg lj));
      if negb (fst r2) then Some s else
      r3 ← fitLine inp (correctedLineOf (firstImg lk) (lastImg lk));
      if negb (fst r3) then Some s else
      acceptTriple inp cfg range (snd r1) (snd r2) (snd r3) s.

(** The three nested loops over [theLinesPercept.lines]. *)
Definition tripleLoop (inp : Inputs) (cfg : SampleConfiguration) (doRecord : bool)
           (range : Rangef) (s0 : TripleScan) : option TripleScan :=
  let lines := theLinesPercept inp in
  let n := length lines in
  forM (seq 0 n) (fun s i =>
    forM (seq 0 n) (fun s j =>
      if decide (i = j) then Some s
      else
        forM (seq (j + 1) (n - (j + 1))) (fun s k =>
          if decide (i = k) then Some s
          else
            li ← lines !! i; lj ← lines !! j; lk ← lines !! k;
            tripleBody inp cfg doRecord range li lj lk s) s) s) s0.

Definition cornerSearch (inp : Inputs) (cfg : SampleConfiguration) (doRecord : bool)
           (c : Collector) : option Collector :=
  let range := parallelLinesRange (camera cfg) c in
  s ← tripleLoop inp cfg doRecord range
        (mkTripleScan (samples c) (allRequiredFeaturesVisible c) false false);
  let c1 := setVisible (setSamples c (tsSamples s)) (tsVisible s) in
  if doRecord then
    let '(num, range') :=
      INCREASE_RANGE (discardedParallelLines s) (foundParallelLines s)
                     (numOfDiscardedParallelLines c1) range in
    Some (setParallelLinesRange (camera cfg)
            (setDiscardCounters c1 num (numOfDiscardedGoalAreaLines c1) (numOfDiscardedGroundLines c1))
            range')
  else Some c1.

(** The condition of the first search: between 3 and 8 lines, an angle
    or parallel-distance sample still needed, no mark distance needed. *)
Definition cornerGuard (inp : Inputs) (cfg : SampleConfiguration) (c : Collector) : option bool :=
  let n := length (theLinesPercept inp) in
  let need := needToRecord cfg (samples c) in
  if (3 <=? n)%nat && (n <=? 8)%nat then
    andAlso (orElse (need cornerAngle) (orElse (need parallelAngle) (need parallelLinesDistance)))
            (negb <$> orElse (need goalAreaDistance) (need groundLineDistance))
  else Some false.
End SampleCollector.

Section MarkSearch.
Context `{Ext : Externals} `{MP : ModuleParameters}.

(** *** The search for two lines behind the penalty mark *)

Record PairScan : Type := mkPairScan {
  psSamples : list (option Sample);
  psVisible : bool;
  discardedGoalAreaLine : bool;
  foundGoalAreaLine : bool;
  discardedGroundLine : bool;
  foundGroundLine : bool
}.

Definition spansHalfImage (inp : Inputs) (l : PerceptLine) : bool :=
  negb (Z.abs (ix (firstImg l) - ix (lastImg l)) <? Z.quot (CameraInfo.width (theCameraInfo inp)) 2).

Definition sameSide (li lj : PerceptLine) : bool :=
  eqb (isPointLeftOfLine (firstField li) (lastField li) (firstField lj))
      (isPointLeftOfLine (firstField li) (lastField li) (lastField lj)).

Definition behindMark (inp : Inputs) (li lj : PerceptLine) : bool :=
  negb (Qltb (Qminf (squaredDistanceTo li) (squaredDistanceTo lj))
             (squaredNorm (PenaltyMarkPercept.positionOnField (thePenaltyMarkPercept inp)))).

Definition distanceToMark (inp : Inputs) (cLine : CorrectedLine) : Q :=
  getDistanceToLine
    (mkGeoLine (aOnField cLine) (normalized (vsub (bOnField cLine) (aOnField cLine))))
    (PenaltyMarkPercept.positionOnField (thePenaltyMarkPercept inp)).

(** The part of the body after the two lines were fitted. *)
Definition acceptPair (inp : Inputs) (cfg : SampleConfiguration) (goalRange groundRange : Rangef)
           (cLineGoalArea cLineGroundLine : CorrectedLine) (s : PairScan) : option PairScan :=
  let goalAreaLineDistance := distanceToMark inp cLineGoalArea in
  let groundLineDistance_ := distanceToMark inp cLineGroundLine in
  let goalAreaLineDistanceValid :=
    isInside goalRange (goalAreaLineDistance - offset cLineGoalArea) in
  let groundLineDistanceValid :=
    isInside groundRange (groundLineDistance_ - offset cLineGroundLine) in
  let s1 :=
    mkPairScan (psSamples s) (psVisible s)
      (if goalAreaLineDistanceValid then discardedGoalAreaLine s else true)
      (if goalAreaLineDistanceValid then true else foundGoalAreaLine s)
      (if groundLineDistanceValid then discardedGroundLine s else true)
      (if groundLineDistanceValid then true else foundGroundLine s) in
  if negb goalAreaLineDistanceValid || negb groundLineDistanceValid then Some s1
  else
    let snap := theSnapshot inp in
    let mark := PenaltyMarkPercept.positionInImage (thePenaltyMarkPercept inp) in
    t1 ← ADD_SAMPLE cfg (psSamples s1) goalAreaDistance (GoalAreaDistanceSample snap mark cLineGoalArea);
    t2 ← ADD_SAMPLE cfg t1 groundLineDistance (GroundLineDistanceSample snap mark cLineGroundLine);
    t3 ← ADD_SAMPLE cfg t2 parallelAngle (ParallelAngleSample snap cLineGoalArea cLineGroundLine);
    t4 ← ADD_SAMPLE cfg t3 parallelLinesDistance
           (ParallelLinesDistanceSample snap cLineGoalArea cLineGroundLine);
    Some (mkPairScan t4 (psVisible s1) (discardedGoalAreaLine s1) (foundGoalAreaLine s1)
                     (discardedGroundLine s1) (foundGroundLine s1)).

Definition pairBody (inp : Inputs) (cfg : SampleConfiguration) (doRecord : bool)
           (goalRange groundRange : Rangef) (li lj : PerceptLine) (s : PairScan) : option PairScan :=
  if negb (spansHalfImage inp li) || negb (spansHalfImage inp lj) then Some s
  else if negb (sameSide li lj) then Some s
  else if negb (behindMark inp li lj) then Some s
  else
    let s := mkPairScan (psSamples s) true (discardedGoalAreaLine s) (foundGoalAreaLine s)
                        (discardedGroundLine s) (foundGroundLine s) in
    if negb doRecord then Some s
    else
      let cI := correctedLineOf (firstImg li) (lastImg li) in
      let cJ := correctedLineOf (firstImg lj) (lastImg lj) in
      let swapped := Qltb (squaredDistanceTo lj) (squaredDistanceTo li) in
      let cLineGoalArea := if swapped then cJ else cI in
      let cLineGroundLine := if swapped then cI else cJ in
      r1 ← fitLine inp cLineGoalArea;
      if negb (fst r1) then Some s else
      r2 ← fitLine inp cLineGroundLine;
      if negb (fst r2) then Some s else
      acceptPair inp cfg goalRange groundRange (snd r1) (snd r2) s.

Definition pairLoop (inp : Inputs) (cfg : SampleConfiguration) (doRecord : bool)
           (goalRange groundRange : Rangef) (s0 : PairScan) : option PairScan :=
  let lines := theLinesPercept inp in
  let n := length lines in
  forM (seq 0 n) (fun s i =>
    forM (seq (i + 1) (n - (i + 1))) (fun s j =>
      li ← lines !! i; lj ← lines !! j;
      pairBody inp cfg doRecord goalRange groundRange li lj s) s) s0.

Definition markSearch (inp : Inputs) (cfg : SampleConfiguration) (doRecord : bool)
           (c : Collector) : option Collector :=
  let goalRange := goalAreaDisRange (camera cfg) c in
  let groundRange := groundLineDisRange (camera cfg) c in
  s ← pairLoop inp cfg doRecord goalRange groundRange
        (mkPairScan (samples c) (allRequiredFeaturesVisible c) false false false false);
  let c1 := setVisible (setSamples c (psSamples s)) (psVisible s) in
  if doRecord then
    let '(numGoal, goalRange') :=
      INCREASE_RANGE (discardedGoalAreaLine s) (foundGoalAreaLine s)
                     (numOfDiscardedGoalAreaLines c1) goalRange in
    let '(numGround, groundRange') :=
      INCREASE_RANGE (discardedGroundLine s) (foundGroundLine s)
                     (numOfDiscardedGroundLines c1) groundRange in
    Some (setGroundLineDisRange (camera cfg)
            (setGoalAreaDisRange (camera cfg)
               (setDiscardCounters c1 (numOfDiscardedParallelLines c1) numGoal numGround)
               goalRange')
            groundRange')
  else Some c1.

(** The condition of the second search: the mark was seen, between 2 and
    8 lines, a mark distance still needed. *)
Definition markGuard (inp : Inputs) (cfg : SampleConfiguration) (c : Collector) : option bool :=
  let n := length (theLinesPercept inp) in
  let need := needToRecord cfg (samples c) in
  if PenaltyMarkPercept.wasSeen (thePenaltyMarkPercept inp) && (2 <=? n)%nat && (n <=? 8)%nat
  then orElse (need goalAreaDistance) (need groundLineDistance)
  else Some false.

(** The condition of the last block: no sample type is outstanding. *)
Definition nothingOutstanding (cfg : SampleConfiguration) (c : Collector) : option bool :=
  let need := needToRecord cfg (samples c) in
  andAlso (negb <$> need cornerAngle)
    (andAlso (negb <$> need parallelAngle)
       (andAlso (negb <$> need parallelLinesDistance)
          (andAlso (negb <$> need goalAreaDistance)
             (negb <$> need groundLineDistance)))).

(** [recordSamples], for the configuration [cfg] and the request [req]
    that [update] found present.  The drawing block at its start calls
    [fitLine] on local copies only and leaves no trace in the state. *)
Definition recordSamples (inp : Inputs) (cfg : SampleConfiguration)
           (req : SampleConfigurationRequest.t) (c : Collector) : option Collector :=
  if negb (bool_decide (CameraInfo.camera (theCameraInfo inp) = camera cfg)) then Some c
  else
    let doRecord := SampleConfigurationRequest.doRecord req in
    let c0 := setVisible c false in
    g1 ← cornerGuard inp cfg c0;
    c1 ← (if g1 : bool then cornerSearch inp cfg doRecord c0 else Some c0);
    g2 ← markGuard inp cfg c1;
    c2 ← (if g2 : bool then markSearch inp cfg doRecord c1 else Some c1);
    g3 ← nothingOutstanding cfg c2;
    Some (if g3 : bool then setVisible (setDiscardCounters c2 0 0 0) true else c2).
End MarkSearch.

(** ** The optimizer *)

(** [Parameters]: the vector of the six angles, indexed by the enumeration
    [ParameterTranslation]. *)
Record Parameters : Type := mkParameters {
  lowerCameraRollCorrection : Q;
  lowerCameraTiltCorrection : Q;
  upperCameraRollCorrection : Q;
  upperCameraTiltCorrection : Q;
  bodyRollCorrection : Q;
  bodyTiltCorrection : Q
}.

(** A [float] that may be non-finite. *)
Inductive fpval : Type :=
| finite (q : Q)
| nonfinite.

(** [std::numeric_limits<float>::max()]. *)
Definition FLT_MAX : Q := inject_Z ((2 ^ 24 - 1) * 2 ^ 104).

(** [std::fmod] on finite values: the remainder of the division truncated
    towards zero; [fmod x 0] is not a number and is left at [x - 0]. *)
Definition fmod (x y : Q) : Q := (x - inject_Z (truncate (x / y)) * y)%Q.

(** The code of the optimizer library and of the error model that the file
    calls: [computeError s c] is [s->computeError(c)], and [iterate f n p]
    is [optimizer->iterate(p, Parameters::Constant(0.0001f))] for the
    functor [f] with [n] measurements: the step delta and the vector [p]
    is left with ([None] if the functor reads a sample that is missing). *)
Class Optimizer : Type := {
  computeError : Sample -> CameraCalibration -> Q;
  iterate : (Parameters -> nat -> option Q) -> nat -> Parameters -> option (fpval * Parameters)
}.

Record Optimization : Type := mkOptimization {
  optimizer : bool;
  optimizationParameters : Parameters;
  successiveConvergences : Z;
  optimizationSteps : Z;
  lowestDelta : Q;
  lowestDeltaParameters : Parameters;
  lowestError : Q;
  lowestErrorParameters : Parameters
}.

(** The members of the module. *)
Record Calibrator : Type := mkCalibrator {
  state : CameraCalibrationStatus.State;
  inStateSince : Z;
  numOfSamples : nat;
  lastSampleConfigurationIndex : Z;
  currentSampleConfiguration : option SampleConfiguration;
  collector : Collector;
  optimization : Optimization;
  nextCameraCalibration : CameraCalibration
}.

Definition setState (cal : Calibrator) (s : CameraCalibrationStatus.State) (since : Z) : Calibrator :=
  mkCalibrator s since (numOfSamples cal) (lastSampleConfigurationIndex cal)
    (currentSampleConfiguration cal) (collector cal) (optimization cal) (nextCameraCalibration cal).

Definition setCollector (cal : Calibrator) (c : Collector) : Calibrator :=
  mkCalibrator (state cal) (inStateSince cal) (numOfSamples cal) (lastSampleConfigurationIndex cal)
    (currentSampleConfiguration cal) c (optimization cal) (nextCameraCalibration cal).

Definition setOptimization (cal : Calibrator) (o : Optimization) : Calibrator :=
  mkCalibrator (state cal) (inStateSince cal) (numOfSamples cal) (lastSampleConfigurationIndex cal)
    (currentSampleConfiguration cal) (collector cal) o (nextCameraCalibration cal).

Definition setNextCameraCalibration (cal : Calibrator) (c : CameraCalibration) : Calibrator :=
  mkCalibrator (state cal) (inStateSince cal) (numOfSamples cal) (lastSampleConfigurationIndex cal)
    (currentSampleConfiguration cal) (collector cal) (optimization cal) c.

Section Optimize.
Context `{MP : ModuleParameters} `{Opt : Optimizer}.

Definition pack (cameraCalibration : CameraCalibration) : Parameters :=
  mkParameters
    (ax (lowerCameraRotationCorrection cameraCalibration))
    (ay (lowerCameraRotationCorrection cameraCalibration))
    (ax (upperCameraRotationCorrection cameraCalibration))
    (ay (upperCameraRotationCorrection cameraCalibration))
    (ax (bodyRotationCorrection cameraCalibration))
    (ay (bodyRotationCorrection cameraCalibration)).

Definition unpack (params : Parameters) (cameraCalibration : CameraCalibration) : CameraCalibration :=
  mkCameraCalibration
    (mkVector3a (fmod (lowerCameraRollCorrection params) (deg 360))
                (fmod (lowerCameraTiltCorrection params) (deg 360))
                (az (lowerCameraRotationCorrection cameraCalibration)))
    (mkVector3a (fmod (upperCameraRollCorrection params) (deg 360))
                (fmod (upperCameraTiltCorrection params) (deg 360))
                (az (upperCameraRotationCorrection cameraCalibration)))
    (mkVector3a (fmod (bodyRollCorrection params) (deg 360))
                (fmod (bodyTiltCorrection params) (deg 360))
                (az (bodyRotationCorrection cameraCalibration))).

(** [Functor::operator()]. *)
Definition functor (cal : Calibrator) (params : Parameters) (measurement : nat) : option Q :=
  match samples (collector cal) !! measurement with
  | Some (Some s) => Some (computeError s (unpack params (nextCameraCalibration cal)))
  | _ => None
  end.

(** Modelled from the spec: [Functor::getNumOfMeasurements] is declared in
    the header; the residuals are those of every slot of the sample table. *)
Definition getNumOfMeasurements (cal : Calibrator) : nat := length (samples (collector cal)).

(** One draw of the restart: [(float(rand()) / float(RAND_MAX)) * 1_deg - 0.5_deg]. *)
Definition randomAngle (r : Z) : Q := (inject_Z r / inject_Z RAND_MAX * deg 1 - deg (1 # 2))%Q.

(** The vector the restart draws, from the calls [rand 0] to [rand 5]. *)
Definition randomParameters (inp : Inputs) : Parameters :=
  mkParameters (randomAngle (rand inp 0)) (randomAngle (rand inp 1))
               (randomAngle (rand inp 2)) (randomAngle (rand inp 3))
               (randomAngle (rand inp 4)) (randomAngle (rand inp 5)).

(** [Parameters()] leaves the vector uninitialised; its content is not
    read before it is assigned again. *)
Definition uninitialisedParameters : Parameters := mkParameters 0 0 0 0 0 0.

Definition resetOptimization (inp : Inputs) (finished : bool) (cal : Calibrator) : Calibrator :=
  let cal1 :=
    if finished
    then setState cal CameraCalibrationStatus.idle (inStateSince cal)
    else
      let o := optimization cal in
      let params := randomParameters inp in
      setNextCameraCalibration
        (setOptimization cal
           (mkOptimization (optimizer o) params (successiveConvergences o) (optimizationSteps o)
                           (lowestDelta o) (lowestDeltaParameters o) (lowestError o)
                           (lowestErrorParameters o)))
        (unpack params (nextCameraCalibration cal)) in
  let o1 := optimization cal1 in
  setOptimization cal1
    (mkOptimization false (optimizationParameters o1) (successiveConvergences o1) 0
                    FLT_MAX uninitialisedParameters (lowestError o1) (lowestErrorParameters o1)).

(** The first loop of [optimize]: does a measurement reach [notValidError]? *)
Fixpoint anyNotValid (f : nat -> option Q) (measurements : list nat) : option bool :=
  match measurements with
  | [] => Some false
  | i :: rest =>
      f i ≫= fun e : Q => if Qleb notValidError e then Some true else anyNotValid f rest
  end.

(** The second loop: the sum of the errors. *)
Fixpoint sumErrors (f : nat -> option Q) (measurements : list nat) (error : Q) : option Q :=
  match measurements with
  | [] => Some error
  | i :: rest => f i ≫= fun e : Q => sumErrors f rest (error + e)%Q
  end.

(** [optimizationSteps / 500 * 50], at least 1, on [unsigned]. *)
Definition plateau (optimizationSteps : Z) : Z := Z.max 1 (optimizationSteps / 500 * 50).

(** The test [std::abs(delta) < terminationCriterion * max(1u, ...)]. *)
Definition belowThreshold (delta : Q) (optimizationSteps : Z) : bool :=
  Qltb (Qabs delta) (terminationCriterion * inject_Z (plateau optimizationSteps)).

(** The part of [optimize] after the two divergence tests, for a finite
    [delta] and the vector [params] the step produced. *)
Definition acceptStep (inp : Inputs) (cal : Calibrator) (delta : Q) (params : Parameters)
  : option Calibrator :=
  let o := optimization cal in
  let better := Qltb (Qabs delta) (lowestDelta o) in
  let lowestDelta1 := if better then Qabs delta else lowestDelta o in
  let lowestDeltaParameters1 := if better then params else lowestDeltaParameters o in
  let optimizationSteps1 := (optimizationSteps o + 1) mod 2 ^ 32 in
  let successiveConvergences1 :=
    if belowThreshold delta optimizationSteps1 then successiveConvergences o + 1 else 0 in
  tracked ←
    (if 0 <? successiveConvergences1 then
       let n := length (samples (collector cal)) in
       sumErrors (functor cal params) (seq 0 n) 0%Q ≫= fun total : Q =>
       let error := (total / inject_Z (Z.of_nat n))%Q in
       if (successiveConvergences1 =? 1) || Qltb error (lowestError o)
       then Some (error, params)
       else Some (lowestError o, lowestErrorParameters o)
     else Some (lowestError o, lowestErrorParameters o));
  let cal1 :=
    setOptimization cal
      (mkOptimization (optimizer o) params successiveConvergences1 optimizationSteps1
                      lowestDelta1 lowestDeltaParameters1 (fst tracked) (snd tracked)) in
  if minSuccessiveConvergences <=? successiveConvergences1 then
    Some (resetOptimization inp true
            (setNextCameraCalibration cal1 (unpack (snd tracked) (nextCameraCalibration cal1))))
  else
    Some (setNextCameraCalibration cal1 (unpack params (nextCameraCalibration cal1))).

Definition setOptimizationParameters (cal : Calibrator) (params : Parameters) : Calibrator :=
  let o := optimization cal in
  setOptimization cal
    (mkOptimization (optimizer o) params (successiveConvergences o) (optimizationSteps o)
                    (lowestDelta o) (lowestDeltaParameters o) (lowestError o)
                    (lowestErrorParameters o)).

Definition optimize (inp : Inputs) (cal : Calibrator) : option Calibrator :=
  let o := optimization cal in
  if negb (optimizer o) then
    Some (setOptimization cal
            (mkOptimization true (pack (theCameraCalibration inp)) 0 (optimizationSteps o)
                            (lowestDelta o) (lowestDeltaParameters o) (lowestError o)
                            (lowestErrorParameters o)))
  else
    step ← iterate (functor cal) (getNumOfMeasurements cal) (optimizationParameters o);
    let cal1 := setOptimizationParameters cal (snd step) in
    match fst step with
    | nonfinite => Some (resetOptimization inp false cal1)
    | finite delta =>
        invalid ← anyNotValid (functor cal1 (snd step)) (seq 0 (getNumOfMeasurements cal1));
        if invalid : bool then Some (resetOptimization inp false cal1)
        else acceptStep inp cal1 delta (snd step)
    end.
End Optimize.

(** ** The update of the calibration *)

Section Update.
Context `{Ext : Externals} `{MP : ModuleParameters} `{Opt : Optimizer}.

Definition updateSampleConfiguration (inp : Inputs) (cal : Calibrator) : Calibrator :=
  match CalibrationRequest.sampleConfigurationRequest (theCalibrationRequest inp) with
  | None => cal
  | Some request =>
      if SampleConfigurationRequest.index request =? lastSampleConfigurationIndex cal then cal
      else
        let cfg :=
          mkSampleConfiguration
            (SampleConfigurationRequest.camera request)
            (SampleConfigurationRequest.headPan request)
            (SampleConfigurationRequest.headTilt request)
            (SampleConfigurationRequest.sampleTypes request)
            (numOfSamples cal) in
        let numOfSamples1 :=
          fold_left (fun n sampleType => if requested cfg sampleType then S n else n)
                    allSampleTypes (numOfSamples cal) in
        mkCalibrator (state cal) (inStateSince cal) numOfSamples1
          (SampleConfigurationRequest.index request) (Some cfg)
          (collector cal) (optimization cal) (nextCameraCalibration cal)
  end.

(** "Calibration start requested." *)
Definition startRequested (inp : Inputs) (cal : Calibrator) : Calibrator :=
  let request := theCalibrationRequest inp in
  if bool_decide (state cal = CameraCalibrationStatus.idle)
     && bool_decide (CalibrationRequest.targetState request = CameraCalibrationStatus.recordSamples)
  then
    let o := optimization cal in
    let o1 := mkOptimization false (optimizationParameters o) 0 0 (lowestDelta o)
                             (lowestDeltaParameters o) (lowestError o) (lowestErrorParameters o) in
    let c1 := setSamples (collector cal)
                         (replicate (CalibrationRequest.totalNumOfSamples request) None) in
    setState
      (setNextCameraCalibration (setCollector (setOptimization cal o1) c1) (theCameraCalibration inp))
      CameraCalibrationStatus.recordSamples (theFrameInfoTime inp)
  else cal.

(** "Abort requested." *)
Definition abortRequested (inp : Inputs) (cal : Calibrator) : Calibrator :=
  if bool_decide (CalibrationRequest.targetState (theCalibrationRequest inp) = CameraCalibrationStatus.idle)
     && negb (bool_decide (state cal = CameraCalibrationStatus.idle))
  then setState cal CameraCalibrationStatus.idle (theFrameInfoTime inp)
  else cal.

(** The debug response [module:AutomaticCameraCalibrator:converge]. *)
Definition convergeResponse (inp : Inputs) (cal : Calibrator) : Calibrator :=
  if debugConverge inp then
    let o := optimization cal in
    if optimizer o && negb (Qeq_bool (lowestDelta o) FLT_MAX) then
      resetOptimization inp true
        (setNextCameraCalibration cal (unpack (lowestDeltaParameters o) (nextCameraCalibration cal)))
    else cal
  else cal.

Definition recordStep (inp : Inputs) (cal : Calibrator) : option Calibrator :=
  if bool_decide (state cal = CameraCalibrationStatus.recordSamples) then
    match currentSampleConfiguration cal,
          CalibrationRequest.sampleConfigurationRequest (theCalibrationRequest inp) with
    | Some cfg, Some req =>
        if theOptionalECImage inp
        then setCollector cal <$> recordSamples inp cfg req (collector cal)
        else Some cal
    | _, _ => Some cal
    end
  else Some cal.

Definition optimizeRequested (inp : Inputs) (cal : Calibrator) : Calibrator :=
  if bool_decide (CalibrationRequest.targetState (theCalibrationRequest inp) = CameraCalibrationStatus.optimize)
     && negb (bool_decide (state cal = CameraCalibrationStatus.optimize))
  then setState cal CameraCalibrationStatus.optimize (theFrameInfoTime inp)
  else cal.

(** [update(CameraCalibration&)]: the module after the cycle and the
    calibration written to the output. *)
Definition update (inp : Inputs) (cal : Calibrator) : option (Calibrator * CameraCalibration) :=
  let cal1 := setNextCameraCalibration cal (theCameraCalibration inp) in
  let cal2 := updateSampleConfiguration inp cal1 in
  let cal3 := startRequested inp cal2 in
  let cal4 := abortRequested inp cal3 in
  let cal5 := convergeResponse inp cal4 in
  cal6 ← recordStep inp cal5;
  let cal7 := optimizeRequested inp cal6 in
  cal8 ← (if bool_decide (state cal7 = CameraCalibrationStatus.optimize)
          then optimize inp cal7 else Some cal7);
  Some (cal8, nextCameraCalibration cal8).
End Update.

(** The multiplier as the specification words it: one more for every 500
    steps taken, at least 1. *)
Definition specPlateau (optimizationSteps : Z) : Z := Z.max 1 (optimizationSteps / 500).

(** ** Notions used in the statements *)

(** The six components of a vector, in the order of the enumeration. *)
Definition components (p : Parameters) : list Q :=
  [lowerCameraRollCorrection p; lowerCameraTiltCorrection p;
   upperCameraRollCorrection p; upperCameraTiltCorrection p;
   bodyRollCorrection p; bodyTiltCorrection p].

(** The six angles of a calibration that [unpack] writes, in the same
    order. *)
Definition angles (c : CameraCalibration) : list Q :=
  [ax (lowerCameraRotationCorrection c); ay (lowerCameraRotationCorrection c);
   ax (upperCameraRotationCorrection c); ay (upperCameraRotationCorrection c);
   ax (bodyRotationCorrection c); ay (bodyRotationCorrection c)].

(** Every slot of the sample table holds a sample. *)
Definition allRecorded (cal : Calibrator) : Prop :=
  forall i, (i < length (samples (collector cal)))%nat ->
            exists s, samples (collector cal) !! i = Some (Some s).

(** The debug response fires: it was requested while an optimizer exists
    and a lowest delta is tracked. *)
Definition convergeFires (inp : Inputs) (cal : Calibrator) : bool :=
  debugConverge inp && optimizer (optimization cal)
  && negb (Qeq_bool (lowestDelta (optimization cal)) FLT_MAX).

(** The two tests of [optimize] that lead to a restart: the delta is not
    finite, or the error of a recorded sample reaches [notValidError]. *)
Definition diverges `{MP : ModuleParameters} `{Opt : Optimizer}
           (cal : Calibrator) (delta : fpval) (params : Parameters) : Prop :=
  delta = nonfinite \/
  (allRecorded cal /\
   exists i s, samples (collector cal) !! i = Some (Some s) /\
               (notValidError <= computeError s (unpack params (nextCameraCalibration cal)))%Q).

(** No test leads to a restart: the delta is finite and every slot holds a
    sample whose error stays below [notValidError]. *)
Definition proceeds `{MP : ModuleParameters} `{Opt : Optimizer}
           (cal : Calibrator) (params : Parameters) : Prop :=
  forall i, (i < length (samples (collector cal)))%nat ->
    exists s, samples (collector cal) !! i = Some (Some s) /\
              (computeError s (unpack params (nextCameraCalibration cal)) < notValidError)%Q.

(** The table has a slot for every requested type: the assertions of
    [needToRecord] and [record] hold. *)
Definition tableFits {Smp : Type} (cfg : SampleConfiguration) (smps : list (option Smp)) : Prop :=
  forall t, requested cfg t = true -> (sampleIndexOf cfg t < length smps)%nat.

(** No sample type is outstanding. *)
Definition noneOutstanding {Smp : Type} (cfg : SampleConfiguration) (smps : list (option Smp)) : Prop :=
  forall t, needToRecord cfg smps t = Some false.

(** The checks (a) and (b) of the triple search, as the code has them: an
    end of line [i] within 100 of the edge [j] and an end within 100 of the
    edge [k]; neither mid point nearer than that of [i]. *)
Definition oneEndNear `{Ext : Externals} (l li : PerceptLine) : Prop :=
  (getDistanceToEdge (line l) (firstField li) <= 100)%Q \/
  (getDistanceToEdge (line l) (lastField li) <= 100)%Q.

Definition noneNearer `{Ext : Externals} (li lj lk : PerceptLine) : Prop :=
  (squaredDistanceTo li <= squaredDistanceTo lj)%Q /\
  (squaredDistanceTo li <= squaredDistanceTo lk)%Q.

(** The check (a) as the specification words it: both ends of line [i] within
    100 of both edges. *)
Definition bothEndsNear `{Ext : Externals} (li lj lk : PerceptLine) : Prop :=
  (getDistanceToEdge (line lj) (firstField li) <= 100)%Q /\
  (getDistanceToEdge (line lj) (lastField li) <= 100)%Q /\
  (getDistanceToEdge (line lk) (firstField li) <= 100)%Q /\
  (getDistanceToEdge (line lk) (lastField li) <= 100)%Q.

(** The range widened by [increase] on both sides. *)
Definition widened `{MP : ModuleParameters} (r : Rangef) : Rangef :=
  mkRangef (rmin r - increase) (rmax r + increase).

(** ** A concrete scene

    The statements below are instantiated on a small scene: a robot in
    front of the penalty area, with rational stand-ins for the external
    code that are exact on the axis-parallel data of the scene. *)

Module Scene.

(** *** Rational geometry *)

(** The length of a vector that is parallel to an axis. *)
Definition axisNorm (v : Vector2f) : Q := (Qabs (vx v) + Qabs (vy v))%Q.

Definition axisNormalized (v : Vector2f) : Vector2f :=
  if Qeq_bool (axisNorm v) 0 then v else vscale v (/ axisNorm v).

(** [Eigen::Hyperplane<float, 2>]: a unit normal [n] and an offset [o],
    the points [p] with [n.p + o = 0]. *)
Definition plane (n e : Vector2f) : Vector2f * Q := (n, (- vdot n e)%Q).

Definition planeSignedDistance (h : Vector2f * Q) (p : Vector2f) : Q :=
  (vdot (fst h) p + snd h)%Q.

Definition planeIntersection (h1 h2 : Vector2f * Q) : Vector2f :=
  let det := (vx (fst h1) * vy (fst h2) - vy (fst h1) * vx (fst h2))%Q in
  mkVector2f ((vy (fst h1) * snd h2 - vy (fst h2) * snd h1) / det)
             ((vx (fst h2) * snd h1 - vx (fst h1) * snd h2) / det).

(** [Geometry::getDistanceToLineSigned] and [getDistanceToLine]. *)
Definition lineDistanceSigned (l : GeoLine) (p : Vector2f) : Q :=
  let normal := axisNormalized (mkVector2f (vy (direction l)) (- vx (direction l))) in
  (vdot normal p - vdot normal (base l))%Q.

(** [Geometry::getDistanceToEdge]: the distance to the segment from
    [base] to [base + direction]. *)
Definition edgeDistance (l : GeoLine) (p : Vector2f) : Q :=
  if Qeq_bool (vdot (direction l) (direction l)) 0 then axisNorm (vsub p (base l))
  else
    let d := (vdot (vsub p (base l)) (direction l) / vdot (direction l) (direction l))%Q in
    if Qltb d 0 then axisNorm (vsub p (base l))
    else if Qltb 1 d then axisNorm (vsub p (vadd (base l) (direction l)))
    else Qabs (lineDistanceSigned l p).

Definition pointLeftOfLine (start end_ point : Vector2f) : bool :=
  Qltb 0 ((vx end_ - vx start) * (vy point - vy start)
          - (vy end_ - vy start) * (vx point - vx start)).

(** 355/113 for pi. *)
Definition oneDegree : Q := 355 # 20340.

(** [std::acos], exact at -1, 0 and 1 and interpolated in between. *)
Definition acosApprox (x : Q) : Q := (90 * (1 - x) * oneDegree)%Q.

(** One admissible result of [std::sort]: insertion, strongest first. *)
Fixpoint insertMaximum (m : Maximum) (l : list Maximum) : list Maximum :=
  match l with
  | [] => [m]
  | x :: l' => if maxAcc x <=? maxAcc m then m :: l else x :: insertMaximum m l'
  end.

Definition insertionSort (l : list Maximum) : list Maximum := fold_right insertMaximum [] l.

#[export] Instance externals : Externals := {|
  Hyperplane := Vector2f * Q;
  hyperplane := plane;
  intersection := planeIntersection;
  signedDistance := planeSignedDistance;
  absDistance := fun h p => Qabs (planeSignedDistance h p);
  normalized := axisNormalized;
  acos := acosApprox;
  getDistanceToEdge := edgeDistance;
  getDistanceToLine := fun l p => Qabs (lineDistanceSigned l p);
  getDistanceToLineSigned := lineDistanceSigned;
  isPointLeftOfLine := pointLeftOfLine;
  sortMaxima := insertionSort
|}.

(** *** Parameters of the module *)

(** The look-up tables, exact at the buckets 0 and 64 (0 and 90 degrees)
    that the scene uses. *)
Definition cosTable (k : Z) : Q := (1 - inject_Z k / 64)%Q.
Definition sinTable (k : Z) : Q := (1 - Qabs (inject_Z k - 64) / 64)%Q.

#[export] Instance parameters : ModuleParameters := {|
  numOfAngles := 128;
  cosAngles := cosTable;
  sinAngles := sinTable;
  minDisImage := 4;
  fieldLinesWidth := 50;
  discardsUntilIncrease := 3;
  increase := 10;
  terminationCriterion := 1 # 1000;
  minSuccessiveConvergences := 5;
  notValidError := 1000000;
  one_deg := oneDegree;
  RAND_MAX := 2147483647
|}.

(** *** The accumulator of a painted line

    A horizontal line in the image whose two edges are 13 and 19 rows
    below the top of the patch: two cells of row 64 (90 degrees) hold the
    votes, all others are empty. *)
Definition twoEdges (dMax : Z) : list (list Z) :=
  <[64%nat := <[Z.to_nat (13 + dMax) := 110]> (<[Z.to_nat (19 + dMax) := 109]>
                (replicate (Z.to_nat (2 * dMax + 1)) 0))]>
    (replicate 128 (replicate (Z.to_nat (2 * dMax + 1)) 0)).

(** Two neighbouring cells of one row with the same number of votes. *)
Definition twinCells : list (list Z) :=
  <[64%nat := [0; 0; 0; 5; 5; 0; 0]]> (replicate 128 (replicate 7 0)).

Definition window (correctedStart correctedEnd : Vector2f) : HoughWindow :=
  mkHoughWindow 56 71 (twoEdges (dMaxOf (patchOf correctedStart correctedEnd))).

(** *** The cycle inputs *)

Definition cameraInfo : CameraInfo.t := CameraInfo.mk upper 160 120.

Definition snapshot : Snapshot := mkSnapshot [] [] cameraInfo [].

Definition zeroCalibration : CameraCalibration :=
  mkCameraCalibration (mkVector3a 0 0 0) (mkVector3a 0 0 0) (mkVector3a 0 0 0).

Definition tenDegreesCalibration : CameraCalibration :=
  mkCameraCalibration (mkVector3a (deg 10) (deg 10) 0) (mkVector3a (deg 10) (deg 10) 0)
                      (mkVector3a (deg 10) (deg 10) 0).

(** The refined end points on the field: the rows around 300 show the
    front line of the goal area, [goalAreaAhead] in front of the robot,
    the rows around 200 the ground line, which the uncalibrated camera
    puts 2400 ahead. *)
Definition project (goalAreaAhead : Q) (p : Vector2f) : option Vector2f :=
  if Qltb 60 (vy p)
  then Some (mkVector2f goalAreaAhead ((80 - vx p) * 22))
  else Some (mkVector2f 2400 ((80 - vx p) * 30)).

Definition segment (a b : Vector2f) : GeoLine := mkGeoLine a (vsub b a).

Definition perceptLine (aImg bImg : Vector2i) (aField bField : Vector2f) : PerceptLine :=
  mkPerceptLine aImg bImg aField bField (segment aField bField).

(** The front line of the goal area and the ground line, both across more
    than half of the image, and the penalty mark 1000 ahead. *)
Definition goalAreaLine (goalAreaAhead : Q) : PerceptLine :=
  perceptLine (mkVector2i 30 80) (mkVector2i 130 80)
              (mkVector2f goalAreaAhead 1100) (mkVector2f goalAreaAhead (-1100)).

Definition groundLine : PerceptLine :=
  perceptLine (mkVector2i 30 40) (mkVector2i 130 40)
              (mkVector2f 2400 1500) (mkVector2f 2400 (-1500)).

Definition mark : PenaltyMarkPercept.t :=
  PenaltyMarkPercept.mk true (mkVector2i 80 110) (mkVector2f 1000 0).

Definition markRequest : SampleConfigurationRequest.t :=
  SampleConfigurationRequest.mk 0 upper 0 0 (Z.lor (bit goalAreaDistance) (bit groundLineDistance)) true.

Definition markConfiguration : SampleConfiguration :=
  mkSampleConfiguration upper 0 0 (Z.lor (bit goalAreaDistance) (bit groundLineDistance)) 0.

Definition inputsWith (lines : list PerceptLine) (request : CalibrationRequest.t)
           (calibration : CameraCalibration) (goalAreaAhead : Q) (converge : bool) : Inputs :=
  mkInputs cameraInfo lines mark request calibration 1000 true snapshot window
           (project goalAreaAhead)
           (fun k => (Z.of_nat k * 400000000) mod 2147483648) converge.

(** A cycle of the mark search in which the front line of the goal area
    is measured [goalAreaAhead] in front of the robot. *)
Definition markInputs (goalAreaAhead : Q) : Inputs :=
  inputsWith [goalAreaLine goalAreaAhead; groundLine]
             (CalibrationRequest.mk CameraCalibrationStatus.recordSamples 2 (Some markRequest))
             zeroCalibration goalAreaAhead false.

(** The ranges as the constructor sets them for a field with the ground
    line at 4500, the goal area at 3900 and the penalty mark at 3200, and
    one discard counted for the goal area range. *)
Definition collectorWith (smps : list (option Sample)) (numGoalArea : Z) : Collector :=
  mkCollector smps false
    (mkRangef 550 650) (mkRangef 550 650)
    (mkRangef 650 750) (mkRangef 650 750)
    (mkRangef 1250 1350) (mkRangef 1250 1350)
    0 numGoalArea 0.

Definition markCollector : Collector := collectorWith [None; None] 0.

(** The corner of the goal area seen from the side: the short line [i]
    from (1000, 0) to (1600, 0) joins the two long lines [j] and [k],
    which are 600 apart. *)
Definition shortLine : PerceptLine :=
  perceptLine (mkVector2i 100 100) (mkVector2i 100 70)
              (mkVector2f 1000 0) (mkVector2f 1600 0).

Definition longLineJ : PerceptLine :=
  perceptLine (mkVector2i 100 100) (mkVector2i 10 100)
              (mkVector2f 1000 0) (mkVector2f 1000 3000).

Definition longLineK : PerceptLine :=
  perceptLine (mkVector2i 100 70) (mkVector2i 30 70)
              (mkVector2f 1600 0) (mkVector2f 1600 3000).

Definition cornerTypes : Z :=
  Z.lor (bit cornerAngle) (Z.lor (bit parallelAngle) (bit parallelLinesDistance)).

Definition cornerRequest : SampleConfigurationRequest.t :=
  SampleConfigurationRequest.mk 0 upper 0 0 cornerTypes false.

Definition cornerConfiguration : SampleConfiguration :=
  mkSampleConfiguration upper 0 0 cornerTypes 0.

Definition cornerInputs : Inputs :=
  inputsWith [shortLine; longLineJ; longLineK]
             (CalibrationRequest.mk CameraCalibrationStatus.recordSamples 3 (Some cornerRequest))
             zeroCalibration 1700 false.

Definition cornerCollector : Collector := collectorWith [None; None; None] 0.

(** Nine lines, more than the searches accept. *)
Definition crowdedInputs : Inputs :=
  inputsWith (replicate 9 shortLine)
             (CalibrationRequest.mk CameraCalibrationStatus.recordSamples 3 (Some cornerRequest))
             zeroCalibration 1700 false.

(** *** The optimizer *)

(** Three stand-ins for the optimizer and the error model: a step that is
    not finite; a step with a delta of 0.01 and no residual; the same step
    with every sample at the sentinel error. *)
Definition failingOptimizer : Optimizer := {|
  computeError := fun _ _ => 0%Q;
  iterate := fun _ _ p => Some (nonfinite, p)
|}.

Definition creepingOptimizer : Optimizer := {|
  computeError := fun _ _ => 0%Q;
  iterate := fun f n p => f p 0%nat ≫= fun _ : Q => Some (finite (1 # 100), p)
|}.

Definition rejectingOptimizer : Optimizer := {|
  computeError := fun _ _ => 1000000%Q;
  iterate := fun f n p => f p 0%nat ≫= fun _ : Q => Some (finite (1 # 100), p)
|}.

Definition tenDegrees : Parameters :=
  mkParameters (deg 10) (deg 10) (deg 10) (deg 10) (deg 10) (deg 10).

Definition oneSample : list (option Sample) :=
  [Some (ParallelAngleSample snapshot (correctedLineOf (mkVector2i 30 80) (mkVector2i 130 80))
                             (correctedLineOf (mkVector2i 30 40) (mkVector2i 130 40)))].

(** A module in the middle of an optimization, after [steps] steps: the
    current vector, the tracked vectors and the calibration are all at
    10 degrees. *)
Definition optimizing (steps : Z) : Calibrator :=
  mkCalibrator CameraCalibrationStatus.optimize 0 1 0 None
    (collectorWith oneSample 0)
    (mkOptimization true tenDegrees 0 steps (1 # 50) tenDegrees 0 tenDegrees)
    tenDegreesCalibration.

(** The same module after an abort: idle, the optimizer still there. *)
Definition aborted : Calibrator :=
  mkCalibrator CameraCalibrationStatus.idle 0 1 0 None
    (collectorWith oneSample 0)
    (mkOptimization true tenDegrees 0 7 (1 # 50) tenDegrees 0 tenDegrees)
    zeroCalibration.

Definition optimizeInputs : Inputs :=
  inputsWith [] (CalibrationRequest.mk CameraCalibrationStatus.optimize 1 None)
             tenDegreesCalibration 1700 false.

(** A cycle with the target state idle and the calibration at zero. *)
Definition idleInputs (converge : bool) : Inputs :=
  inputsWith [] (CalibrationRequest.mk CameraCalibrationStatus.idle 1 None)
             zeroCalibration 1700 converge.

(** An optimization is aborted, and in the next cycle the debug response
    [converge] is requested: the module after each of the two cycles and
    the calibration the second cycle writes. *)
Definition abortThenConverge : option (Calibrator * Calibrator * CameraCalibration) :=
  first ← @update externals parameters creepingOptimizer (idleInputs false) (optimizing 7);
  second ← @update externals parameters creepingOptimizer (idleInputs true) (fst first);
  Some (fst first, fst second, snd second).

(** Three recording cycles of the mark search in a row: the front line
    of the goal area is measured outside its range, inside it, and
    outside again; the ground line is outside its range every time. *)
Definition threeCycles (c : Collector) : option (Collector * Collector * Collector) :=
  c1 ← recordSamples (markInputs 1800) markConfiguration markRequest c;
  c2 ← recordSamples (markInputs 1700) markConfiguration markRequest c1;
  c3 ← recordSamples (markInputs 1800) markConfiguration markRequest c2;
  Some (c1, c2, c3).
End Scene.

(** * Further parts of the module *)

From Stdlib Require Import Qround.

(** ** Slots of a configuration *)

(** The number of sample types a configuration requests: what the loop of
    [updateSampleConfiguration] adds to [numOfSamples]. *)
Definition numRequested (cfg : SampleConfiguration) : nat :=
  fold_left (fun n sampleType => if requested cfg sampleType then S n else n) allSampleTypes 0%nat.

(** [T'] comes from the table [T] by filling empty slots of the types in
    [allowed] of the configuration: no slot is added, no sample is removed
    or replaced, and every other slot is as it was. *)
Definition fills {Smp : Type} (allowed : SampleType -> Prop) (cfg : SampleConfiguration)
           (T T' : list (option Smp)) : Prop :=
  length T' = length T /\
  (forall i s, T !! i = Some (Some s) -> T' !! i = Some (Some s)) /\
  (forall i, (forall t, allowed t -> requested cfg t = true -> i <> sampleIndexOf cfg t) ->
             T' !! i = T !! i).

(** The types the two searches record. *)
Definition cornerSearchTypes (t : SampleType) : Prop :=
  t = cornerAngle \/ t = parallelAngle \/ t = parallelLinesDistance.

Definition markSearchTypes (t : SampleType) : Prop :=
  t = goalAreaDistance \/ t = groundLineDistance \/ t = parallelAngle \/ t = parallelLinesDistance.

(** The sector [fitLine] derives from a segment lies inside the table, for
    every segment: the result of [% numOfAngles] on a value that is not
    negative. *)
Definition windowsFit `{MP : ModuleParameters} (inp : Inputs) : Prop :=
  forall s e, 0 <= minIndex (houghWindow inp s e) < numOfAngles /\
              0 <= maxIndex (houghWindow inp s e) < numOfAngles.

Definition otherCamera (cam : Camera) : Camera :=
  match cam with lower => upper | upper => lower end.

(** A range stays, or is widened once. *)
Definition rangeStep `{MP : ModuleParameters} (r r' : Rangef) : Prop := r' = r \/ r' = widened r.

Definition rangesStep `{MP : ModuleParameters} (cam : Camera) (c c' : Collector) : Prop :=
  rangeStep (parallelLinesRange cam c) (parallelLinesRange cam c') /\
  rangeStep (goalAreaDisRange cam c) (goalAreaDisRange cam c') /\
  rangeStep (groundLineDisRange cam c) (groundLineDisRange cam c').

(** The three ranges of a camera are at least as wide in [c'] as in [c]. *)
Definition rangeWithin (r r' : Rangef) : Prop := (rmin r' <= rmin r)%Q /\ (rmax r <= rmax r')%Q.

Definition rangesWiden (cam : Camera) (c c' : Collector) : Prop :=
  rangeWithin (parallelLinesRange cam c) (parallelLinesRange cam c') /\
  rangeWithin (goalAreaDisRange cam c) (goalAreaDisRange cam c') /\
  rangeWithin (groundLineDisRange cam c) (groundLineDisRange cam c').

Definition rangesEqual (cam : Camera) (c c' : Collector) : Prop :=
  parallelLinesRange cam c' = parallelLinesRange cam c /\
  goalAreaDisRange cam c' = goalAreaDisRange cam c /\
  groundLineDisRange cam c' = groundLineDisRange cam c.

Definition countersEqual (c c' : Collector) : Prop :=
  numOfDiscardedParallelLines c' = numOfDiscardedParallelLines c /\
  numOfDiscardedGoalAreaLines c' = numOfDiscardedGoalAreaLines c /\
  numOfDiscardedGroundLines c' = numOfDiscardedGroundLines c.


(** The three discard counters are below the threshold and not negative. *)
Definition countersBounded `{MP : ModuleParameters} (c : Collector) : Prop :=
  0 <= numOfDiscardedParallelLines c < discardsUntilIncrease /\
  0 <= numOfDiscardedGoalAreaLines c < discardsUntilIncrease /\
  0 <= numOfDiscardedGroundLines c < discardsUntilIncrease.

(** A run of recording cycles for one configuration. *)
Fixpoint recordCycles `{Ext : Externals} `{MP : ModuleParameters}
         (cycles : list (Inputs * SampleConfigurationRequest.t)) (cfg : SampleConfiguration)
         (c : Collector) : option Collector :=
  match cycles with
  | [] => Some c
  | (inp, req) :: rest => recordSamples inp cfg req c ≫= recordCycles rest cfg
  end.

(** The members that neither the optimizer nor the debug response
    touches. *)
Definition sameRecording (cal cal' : Calibrator) : Prop :=
  collector cal' = collector cal /\ numOfSamples cal' = numOfSamples cal /\
  lastSampleConfigurationIndex cal' = lastSampleConfigurationIndex cal /\
  currentSampleConfiguration cal' = currentSampleConfiguration cal /\
  inStateSince cal' = inStateSince cal.

(** The configuration [updateSampleConfiguration] creates for a request. *)
Definition configurationOf (request : SampleConfigurationRequest.t) (base : nat)
  : SampleConfiguration :=
  mkSampleConfiguration
    (SampleConfigurationRequest.camera request)
    (SampleConfigurationRequest.headPan request)
    (SampleConfigurationRequest.headTilt request)
    (SampleConfigurationRequest.sampleTypes request)
    base.

(** The slots of the current configuration are allocated: its block ends
    at or before [numOfSamples]. *)
Definition slotsAllocated (cal : Calibrator) : Prop :=
  forall cfg, currentSampleConfiguration cal = Some cfg ->
              (sampleIndexBase cfg + numRequested cfg <= numOfSamples cal)%nat.

(** The number of slots the table has when the cycle records: a start
    from idle resizes it to [totalNumOfSamples]. *)
Definition slotsInCycle (inp : Inputs) (cal : Calibrator) : nat :=
  if bool_decide (state cal = CameraCalibrationStatus.idle)
     && bool_decide (CalibrationRequest.targetState (theCalibrationRequest inp)
                     = CameraCalibrationStatus.recordSamples)
  then CalibrationRequest.totalNumOfSamples (theCalibrationRequest inp)
  else length (samples (collector cal)).
(** ** The adaptive ranges in a recording cycle *)

Section RangeEvents.
Context `{Ext : Externals} `{MP : ModuleParameters}.

(** The value the triple search tests against the range of the parallel
    lines: [std::abs(distance) - combinedOffset] for the fitted lines 2
    and 3. *)
Definition parallelLinesMeasure (cLine2 cLine3 : CorrectedLine) : Q :=
  let line2 := mkGeoLine (aOnField cLine2) (normalized (vsub (bOnField cLine2) (aOnField cLine2))) in
  let distance := getDistanceToLineSigned line2 (midpoint (aOnField cLine3) (bOnField cLine3)) in
  let combinedOffset :=
    (if Qltb 0 distance then offset cLine2 - offset cLine3 else offset cLine3 - offset cLine2)%Q in
  (Qabs distance - combinedOffset)%Q.

(** The lines [i], [j] and [k] of the percept reach the range test of the
    triple search while recording: the loops visit the three indices, the
    lines pass the checks on the distances, the mid points and the angles,
    and [fitLine] succeeds on all three; [cLine2] and [cLine3] are the
    fitted lines [j] and [k]. *)
Definition tripleMeasured (inp : Inputs) (i j k : nat) (cLine2 cLine3 : CorrectedLine) : Prop :=
  exists li lj lk cLine1,
    i <> j /\ i <> k /\ (j < k)%nat /\
    theLinesPercept inp !! i = Some li /\
    theLinesPercept inp !! j = Some lj /\
    theLinesPercept inp !! k = Some lk /\
    endNear lj li = true /\ endNear lk li = true /\
    shortLineClosest li lj lk = true /\ anglesReasonable li lj lk = true /\
    fitLine inp (correctedLineOf (firstImg li) (lastImg li)) = Some (true, cLine1) /\
    fitLine inp (correctedLineOf (firstImg lj) (lastImg lj)) = Some (true, cLine2) /\
    fitLine inp (correctedLineOf (firstImg lk) (lastImg lk)) = Some (true, cLine3).

(** The cycle has a discard for the range of the parallel lines: a triple
    reaches the range test with a value outside the range. *)
Definition parallelLinesDiscarded (inp : Inputs) (range : Rangef) : Prop :=
  exists i j k cLine2 cLine3,
    tripleMeasured inp i j k cLine2 cLine3 /\
    isInside range (parallelLinesMeasure cLine2 cLine3) = false.

(** The cycle has an acceptance for the range of the parallel lines. *)
Definition parallelLinesAccepted (inp : Inputs) (range : Rangef) : Prop :=
  exists i j k cLine2 cLine3,
    tripleMeasured inp i j k cLine2 cLine3 /\
    isInside range (parallelLinesMeasure cLine2 cLine3) = true.

(** The lines [i] and [j] of the percept reach the range tests of the mark
    search while recording: the loops visit the two indices, both lines
    span half of the image, they do not intersect, both are behind the
    mark, and [fitLine] succeeds on both; the nearer one is fitted as
    [cLineGoalArea], the farther one as [cLineGroundLine]. *)
Definition pairMeasured (inp : Inputs) (i j : nat) (cLineGoalArea cLineGroundLine : CorrectedLine)
  : Prop :=
  exists li lj,
    (i < j)%nat /\
    theLinesPercept inp !! i = Some li /\
    theLinesPercept inp !! j = Some lj /\
    spansHalfImage inp li = true /\ spansHalfImage inp lj = true /\
    sameSide li lj = true /\ behindMark inp li lj = true /\
    let cI := correctedLineOf (firstImg li) (lastImg li) in
    let cJ := correctedLineOf (firstImg lj) (lastImg lj) in
    let swapped := Qltb (squaredDistanceTo lj) (squaredDistanceTo li) in
    fitLine inp (if swapped then cJ else cI) = Some (true, cLineGoalArea) /\
    fitLine inp (if swapped then cI else cJ) = Some (true, cLineGroundLine).

(** The value the mark search tests against a range: the distance of the
    fitted line to the penalty mark less the offset of the line. *)
Definition markDistanceMeasure (inp : Inputs) (cLine : CorrectedLine) : Q :=
  (distanceToMark inp cLine - offset cLine)%Q.

(** The cycle has a discard, or an acceptance, for the range of the goal
    area line. *)
Definition goalAreaLineDiscarded (inp : Inputs) (range : Rangef) : Prop :=
  exists i j cLineGoalArea cLineGroundLine,
    pairMeasured inp i j cLineGoalArea cLineGroundLine /\
    isInside range (markDistanceMeasure inp cLineGoalArea) = false.

Definition goalAreaLineAccepted (inp : Inputs) (range : Rangef) : Prop :=
  exists i j cLineGoalArea cLineGroundLine,
    pairMeasured inp i j cLineGoalArea cLineGroundLine /\
    isInside range (markDistanceMeasure inp cLineGoalArea) = true.

(** The same for the range of the ground line. *)
Definition groundLineDiscarded (inp : Inputs) (range : Rangef) : Prop :=
  exists i j cLineGoalArea cLineGroundLine,
    pairMeasured inp i j cLineGoalArea cLineGroundLine /\
    isInside range (markDistanceMeasure inp cLineGroundLine) = false.

Definition groundLineAccepted (inp : Inputs) (range : Rangef) : Prop :=
  exists i j cLineGoalArea cLineGroundLine,
    pairMeasured inp i j cLineGoalArea cLineGroundLine /\
    isInside range (markDistanceMeasure inp cLineGroundLine) = true.

(** What a recording cycle does to the discard counter [num] and the
    range [range] of one adaptive range. [counted] says that the search
    of the range ran and had a discard and no acceptance for it,
    [finished] that no sample type is outstanding when the cycle ends.
    The counter is incremented exactly in the counted cycles that stay
    below the threshold; a counted cycle that reaches the threshold sets
    the counter to 0 and widens the range by [increase] on both sides;
    no other cycle changes the range; a counted cycle is never finished;
    a cycle that is neither counted nor finished leaves the counter, and
    a finished one sets it to 0. *)
Definition rangePolicy (counted finished : Prop) (num : Z) (range : Rangef)
           (num' : Z) (range' : Rangef) : Prop :=
  (num' = num + 1 <-> counted /\ num + 1 < discardsUntilIncrease) /\
  (counted -> discardsUntilIncrease <= num + 1 ->
   num' = 0 /\ range' = mkRangef (rmin range - increase) (rmax range + increase)) /\
  (~ (counted /\ discardsUntilIncrease <= num + 1) -> range' = range) /\
  (counted -> ~ finished) /\
  (~ counted -> ~ finished -> num' = num) /\
  (finished -> num' = 0).
End RangeEvents.

(** ** The cycles of the module that run to their end *)

Section CycleConditions.
Context `{Ext : Externals} `{MP : ModuleParameters} `{Opt : Optimizer}.

(** The cycle can reach [recordSamples]: the module is recording, or it
    is idle and the start is requested, and no abort is requested. *)
Definition recordingCycle (inp : Inputs) (cal : Calibrator) : Prop :=
  let target := CalibrationRequest.targetState (theCalibrationRequest inp) in
  target <> CameraCalibrationStatus.idle /\
  (state cal = CameraCalibrationStatus.recordSamples \/
   (state cal = CameraCalibrationStatus.idle /\ target = CameraCalibrationStatus.recordSamples)).

(** What the assertions and the table accesses of a recording cycle
    need: the sectors of [fitLine] lie inside the Hough table, the slots
    of the current configuration are allocated, and the table of the
    cycle has a slot for every sample counted. *)
Definition recordingReady (inp : Inputs) (cal : Calibrator) : Prop :=
  windowsFit inp /\ slotsAllocated cal /\
  (numOfSamples (updateSampleConfiguration inp cal) <= slotsInCycle inp cal)%nat.

(** The cycle calls [optimize] with an optimizer instance in place, so
    that a step of the optimizer runs: the optimization is requested, or
    it is running and not aborted; the instance exists and the debug
    response [converge] does not drop it. *)
Definition optimizerSteps (inp : Inputs) (cal : Calibrator) : Prop :=
  let target := CalibrationRequest.targetState (theCalibrationRequest inp) in
  (target = CameraCalibrationStatus.optimize \/
   (state cal = CameraCalibrationStatus.optimize /\
    target = CameraCalibrationStatus.recordSamples)) /\
  optimizer (optimization cal) = true /\
  convergeFires inp cal = false.

(** The step of the optimizer in the cycle: [optimizer->iterate] on the
    vector of the module, with the functor reading the sample table and
    the input calibration. *)
Definition stepOfCycle (inp : Inputs) (cal : Calibrator) : option (fpval * Parameters) :=
  let cal1 := setNextCameraCalibration cal (theCameraCalibration inp) in
  iterate (functor cal1) (getNumOfMeasurements cal1) (optimizationParameters (optimization cal)).

(** The module when the cycle reaches the call of [recordSamples]: after
    the input calibration was taken over, the sample configuration was
    updated and the requests for a start and an abort and the debug
    response were handled. *)
Definition beforeRecording (inp : Inputs) (cal : Calibrator) : Calibrator :=
  convergeResponse inp
    (abortRequested inp
       (startRequested inp
          (updateSampleConfiguration inp
             (setNextCameraCalibration cal (theCameraCalibration inp))))).
End CycleConditions.

(** ** Further scenes *)

Module MoreScene.
Import Scene.

(** The collector of the mark scene with a range for the ground line that
    admits the measured distance of 1400. *)
Definition wideCollector (smps : list (option Sample)) (numGoalArea : Z) : Collector :=
  mkCollector smps false
    (mkRangef 550 650) (mkRangef 550 650)
    (mkRangef 650 750) (mkRangef 650 750)
    (mkRangef 1250 1450) (mkRangef 1250 1450)
    0 numGoalArea 0.

(** The corner scene with a request that records; the rows below row 85
    of the image show the nearer long line, 1000 ahead, the rows above it
    the farther one, 1600 ahead. *)
Definition cornerRecordRequest : SampleConfigurationRequest.t :=
  SampleConfigurationRequest.mk 0 upper 0 0 cornerTypes true.

Definition projectCorner (p : Vector2f) : option Vector2f :=
  Some (mkVector2f (if Qltb 85 (vy p) then 1000 else 1600) ((80 - vx p) * 22)).

Definition cornerRecordInputs : Inputs :=
  mkInputs cameraInfo [shortLine; longLineJ; longLineK] mark
           (CalibrationRequest.mk CameraCalibrationStatus.recordSamples 3 (Some cornerRecordRequest))
           zeroCalibration 1000 true snapshot window projectCorner
           (fun k => (Z.of_nat k * 400000000) mod 2147483648) false.

(** Two recording cycles of the mark search. *)
Definition twoCycles : list (Inputs * SampleConfigurationRequest.t) :=
  [(markInputs 1800, markRequest); (markInputs 1700, markRequest)].

(** The module as the constructor leaves it, for the field of the scene;
    the members the constructor does not set are 0. *)
Definition constructed : Calibrator :=
  mkCalibrator CameraCalibrationStatus.idle 0 0 (-1) None
    (wideCollector [] 0)
    (mkOptimization false (mkParameters 0 0 0 0 0 0) 0 0 0 (mkParameters 0 0 0 0 0 0) 0
                    (mkParameters 0 0 0 0 0 0))
    zeroCalibration.

(** The module after a restart of the optimization: in the state
    [optimize], without an optimizer. *)
Definition restarted : Calibrator :=
  mkCalibrator CameraCalibrationStatus.optimize 0 1 0 None
    (collectorWith oneSample 0)
    (mkOptimization false tenDegrees 0 0 FLT_MAX (mkParameters 0 0 0 0 0 0) 0 tenDegrees)
    tenDegreesCalibration.
End MoreScene.
(** ** A scene for the cycle of the module *)

Module CycleScene.
Import Scene.

(** A module in the middle of an optimization that was requested before
    the second sample was recorded: the second slot of the table is
    empty. *)
Definition halfRecorded : Calibrator :=
  mkCalibrator CameraCalibrationStatus.optimize 0 2 0 None
    (collectorWith (oneSample ++ [None]) 0)
    (mkOptimization true tenDegrees 0 7 (1 # 50) tenDegrees 0 tenDegrees)
    tenDegreesCalibration.

(** The collector of the mark scene with two discards counted for the
    goal area range. *)
Definition twiceDiscarded : Collector := collectorWith [None; None] 2.
End CycleScene.

(** ** The Hough transform of a patch *)

(** Modelled from the spec: [Sobel::SobelImage]
    ([Tools/ImageProcessing/Sobel.h]) is the gradient image of a patch,
    [width] by [height] pixels, each with the components [x] and [y] of the
    gradient; [sobelAt img y x] is [sobelImage[y][x]]. The components are
    small enough for the sum of their squares not to overflow an [int]. *)
Record SobelPixel : Type := mkSobelPixel { gx : Z; gy : Z }.

Record SobelImage : Type := mkSobelImage {
  sobelWidth : Z;
  sobelHeight : Z;
  sobelAt : Z -> Z -> SobelPixel
}.

(** The parameter [sobelThreshValue] of the module and [std::sqrt]. *)
Class SobelParameters : Type := {
  sobelThreshValue : Q;
  sqrtf : Q -> Q
}.

(** [pixel.x * pixel.x + pixel.y * pixel.y]. *)
Definition gradientSquared (pixel : SobelPixel) : Z := gx pixel * gx pixel + gy pixel * gy pixel.

(** The pixels the two loops [for(y = 1; y < height - 1; ++y)] and
    [for(x = 1; x < width - 1; ++x)] visit, in order, for an image of at
    least one row and one column. *)
Definition interior (sobelImage : SobelImage) : list (Z * Z) :=
  y ← seqZ 1 (sobelHeight sobelImage - 2);
  x ← seqZ 1 (sobelWidth sobelImage - 2);
  [(y, x)].

(** The loop of [determineSobelThresh]: the largest squared gradient. *)
Definition maxGradient (sobelImage : SobelImage) : Z :=
  fold_left (fun thresh '(y, x) =>
               let value := gradientSquared (sobelAt sobelImage y x) in
               if thresh <? value then value else thresh)
            (interior sobelImage) 0.

Definition sqr (a : Q) : Q := a * a.

Definition determineSobelThresh `{SP : SobelParameters} (sobelImage : SobelImage) : Q :=
  sqr (sqrtf (inject_Z (maxGradient sobelImage)) * sobelThreshValue).

(** [++houghSpace[index][d]]; [None] is an access outside of the table. *)
Definition vote (houghSpace : list (list Z)) (index d : Z) : option (list (list Z)) :=
  if (index <? 0) || (d <? 0) then None
  else
    row ← houghSpace !! Z.to_nat index;
    v ← row !! Z.to_nat d;
    Some (<[Z.to_nat index := <[Z.to_nat d := v + 1]> row]> houghSpace).

(** The loop [for(int index = minIndex; index != maxIndex; ++index)] of
    [calcHoughSpace] with its wrap from [numOfAngles - 1] to [0], on fuel
    as the loop of [determineLocalMaxima]. *)
Fixpoint sectorLoop {St : Type} (fuel : nat) (body : St -> Z -> option St)
         (numOfAngles minIndex maxIndex : Z) (index : Z) (s : St) : option St :=
  match fuel with
  | O => None
  | S fuel' =>
      if index =? maxIndex then Some s
      else
        s' ← body s index;
        let index' :=
          if (maxIndex <? minIndex) && (index =? numOfAngles - 1) then -1 else index in
        sectorLoop fuel' body numOfAngles minIndex maxIndex (index' + 1) s'
  end.

(** [static_cast<int>(std::ceil(x * cosAngles[index] + y * sinAngles[index]))]. *)
Definition distanceOf `{MP : ModuleParameters} (x y index : Z) : Z :=
  Qceiling (inject_Z x * cosAngles index + inject_Z y * sinAngles index).

(** The test [pixel.x * pixel.x + pixel.y * pixel.y >= thresh]. *)
Definition votes `{SP : SobelParameters} (sobelImage : SobelImage) (y x : Z) : bool :=
  Qleb (determineSobelThresh sobelImage) (inject_Z (gradientSquared (sobelAt sobelImage y x))).

Definition calcHoughSpace `{MP : ModuleParameters} `{SP : SobelParameters}
           (sobelImage : SobelImage) (minIndex maxIndex dMax : Z) (houghSpace : list (list Z))
  : option (list (list Z)) :=
  forM (interior sobelImage) (fun houghSpace '(y, x) =>
    if votes sobelImage y x then
      sectorLoop (S (Z.to_nat numOfAngles))
                 (fun houghSpace index => vote houghSpace index (distanceOf x y index + dMax))
                 numOfAngles minIndex maxIndex minIndex houghSpace
    else Some houghSpace) houghSpace.

(** The accumulator [fitLine] creates (line 154): [numOfAngles] rows of
    [2 * dMax + 1] zeros. *)
Definition emptyHoughSpace `{MP : ModuleParameters} (dMax : Z) : list (list Z) :=
  replicate (Z.to_nat numOfAngles) (replicate (Z.to_nat (2 * dMax + 1)) 0).

(** The part of [fitLine] from the accumulator to the local maxima (lines
    153 to 160) for a gradient image and a sector. *)
Definition houghMaxima `{MP : ModuleParameters} `{SP : SobelParameters}
           (sobelImage : SobelImage) (minIndex maxIndex dMax : Z) : option (list Maximum) :=
  houghSpace ← calcHoughSpace sobelImage minIndex maxIndex dMax (emptyHoughSpace dMax);
  determineLocalMaxima (S (Z.to_nat numOfAngles)) houghSpace minIndex maxIndex.

(** A table of [rows] rows of [cols] cells. *)
Definition tableShape (houghSpace : list (list Z)) (rows cols : Z) : Prop :=
  Z.of_nat (length houghSpace) = rows /\
  Forall (fun row => Z.of_nat (length row) = cols) houghSpace.

(** The votes in a row of the table. *)
Definition rowVotes (houghSpace : list (list Z)) (index : Z) : Z :=
  fold_right Z.add 0 (default [] (houghSpace !! Z.to_nat index)).

(** The number of pixels of the image that vote. *)
Definition votingPixels `{SP : SobelParameters} (sobelImage : SobelImage) : Z :=
  Z.of_nat (length (List.filter (fun p : Z * Z => votes sobelImage (fst p) (snd p))
                                (interior sobelImage))).

(** The look-up tables hold points of the unit disc. *)
Definition tablesBounded `{MP : ModuleParameters} : Prop :=
  forall index, 0 <= index < numOfAngles ->
    (cosAngles index * cosAngles index + sinAngles index * sinAngles index <= 1)%Q.

(** [sqrtf] does not exceed the square root at the largest gradient, and
    the threshold is a fraction of it. *)
Definition thresholdBelowMaximum `{SP : SobelParameters} (sobelImage : SobelImage) : Prop :=
  (0 <= sobelThreshValue <= 1)%Q /\
  (0 <= sqrtf (inject_Z (maxGradient sobelImage)))%Q /\
  (sqr (sqrtf (inject_Z (maxGradient sobelImage))) <= inject_Z (maxGradient sobelImage))%Q.

(** ** The errors of the samples *)

(** The code of the error model that is not part of the file:
    [projectWith snap c p] is [Transformation::imageToRobot] of
    [coordSys.toCorrected(p)] with the camera matrix that
    [Sample::computeError] builds from the torso matrix, the robot model
    and the camera of the sample and from the calibration [c]; [vnorm] is
    Eigen's [norm]; the others are parameters of the module and
    dimensions of the field. *)
Class ErrorModel : Type := {
  projectWith : Snapshot -> CameraCalibration -> Vector2f -> option Vector2f;
  vnorm : Vector2f -> Q;
  angleErrorDivisor : Q;
  distanceErrorDivisor : Q;
  pixelInaccuracyPerMeter : Q;
  xPosOpponentGroundLine : Q;
  xPosOpponentGoalArea : Q;
  xPosOpponentPenaltyMark : Q
}.

Section SampleErrors.
Context `{Ext : Externals} `{MP : ModuleParameters} `{EM : ErrorModel}.

(** [CHECK_LINE_PROJECTION] in the context of a sample: the line with its
    two end points on the field, if both can be projected. The sample's
    copy of the line is overwritten by every call before it is read. *)
Definition projectLine (proj : Vector2f -> option Vector2f) (cline : CorrectedLine)
  : option CorrectedLine :=
  a ← proj (aInImage cline);
  b ← proj (bInImage cline);
  Some (mkCorrectedLine (aInImage cline) (bInImage cline) a b (offset cline)).

(** [Geometry::Line(cLine.aOnField, (cLine.bOnField - cLine.aOnField).normalized())]. *)
Definition fieldLineOf (cline : CorrectedLine) : GeoLine :=
  mkGeoLine (aOnField cline) (normalized (vsub (bOnField cline) (aOnField cline))).

Definition angleBetween (cLine1 cLine2 : CorrectedLine) : Q :=
  calculateAngle (aOnField cLine1) (bOnField cLine1) (aOnField cLine2) (bOnField cLine2).

(** [*std::max_element]: the first of the largest elements. *)
Definition maxElement (first : Q) (rest : list Q) : Q :=
  fold_left (fun largest e => if Qltb largest e then e else largest) rest first.

Definition cornerAngleError (cLine1 cLine2 : CorrectedLine) : Q :=
  let cornerAngle := angleBetween cLine1 cLine2 in
  let cornerAngleError := Qabs (deg 90 - cornerAngle) in
  (cornerAngleError / angleErrorDivisor)%Q.

Definition parallelAngleError (cLine1 cLine2 : CorrectedLine) : Q :=
  let parallelAngle := angleBetween cLine1 cLine2 in
  let parallelAngleError := Qminf parallelAngle (deg 180 - parallelAngle) in
  (parallelAngleError / angleErrorDivisor)%Q.

Definition parallelLinesDistanceError (cLine1 cLine2 : CorrectedLine) : Q :=
  let line1 := fieldLineOf cLine1 in
  let line2 := fieldLineOf cLine2 in
  let distance1 := getDistanceToLineSigned line1 (aOnField cLine2) in
  let distance2 := getDistanceToLineSigned line1 (bOnField cLine2) in
  let distance3 := getDistanceToLineSigned line2 (aOnField cLine1) in
  let distance4 := getDistanceToLineSigned line2 (bOnField cLine1) in
  let distance1ErrorRange := (vnorm (aOnField cLine2) / 1000 * pixelInaccuracyPerMeter)%Q in
  let distance2ErrorRange := (vnorm (bOnField cLine2) / 1000 * pixelInaccuracyPerMeter)%Q in
  let distance3ErrorRange := (vnorm (aOnField cLine1) / 1000 * pixelInaccuracyPerMeter)%Q in
  let distance4ErrorRange := (vnorm (bOnField cLine1) / 1000 * pixelInaccuracyPerMeter)%Q in
  let combinedOffset :=
    (if Qltb 0 distance1 then offset cLine1 - offset cLine2 else offset cLine2 - offset cLine1)%Q in
  let optimalDistance := (xPosOpponentGroundLine - xPosOpponentGoalArea + combinedOffset)%Q in
  let lineDistanceError :=
    maxElement
      (Qmaxf 0 (Qabs (Qabs distance1 - optimalDistance) - distance1ErrorRange))
      [Qmaxf 0 (Qabs (Qabs distance2 - optimalDistance) - distance2ErrorRange);
       Qmaxf 0 (Qabs (Qabs distance3 - optimalDistance) - distance3ErrorRange);
       Qmaxf 0 (Qabs (Qabs distance4 - optimalDistance) - distance4ErrorRange)] in
  (lineDistanceError / distanceErrorDivisor)%Q.

Definition goalAreaDistanceError (cLine : CorrectedLine) (penaltyMarkOnField : Vector2f) : Q :=
  let goalAreaDistance := getDistanceToLine (fieldLineOf cLine) penaltyMarkOnField in
  let goalAreaDistanceError :=
    Qabs (goalAreaDistance - (xPosOpponentGoalArea - xPosOpponentPenaltyMark + offset cLine)) in
  (goalAreaDistanceError / distanceErrorDivisor)%Q.

Definition groundLineDistanceError (cLine : CorrectedLine) (penaltyMarkOnField : Vector2f) : Q :=
  let groundLineDistance := getDistanceToLine (fieldLineOf cLine) penaltyMarkOnField in
  let groundLineDistanceError :=
    Qabs (groundLineDistance - (xPosOpponentGroundLine - xPosOpponentPenaltyMark + offset cLine)) in
  (groundLineDistanceError / distanceErrorDivisor)%Q.

(** [CHECK_PROJECTION_2_LINES] followed by the rest of the function. *)
Definition withTwoLines (proj : Vector2f -> option Vector2f) (cLine1 cLine2 : CorrectedLine)
           (error : CorrectedLine -> CorrectedLine -> Q) : Q :=
  match projectLine proj cLine1 with
  | None => notValidError
  | Some line1 =>
      match projectLine proj cLine2 with
      | None => notValidError
      | Some line2 => error line1 line2
      end
  end.

(** [CHECK_PROJECTION_LINE_PENALTY] followed by the rest of the function. *)
Definition withLineAndMark (proj : Vector2f -> option Vector2f) (cLine : CorrectedLine)
           (penaltyMarkInImage : Vector2i) (error : CorrectedLine -> Vector2f -> Q) : Q :=
  match projectLine proj cLine with
  | None => notValidError
  | Some line1 =>
      match proj (castf penaltyMarkInImage) with
      | None => notValidError
      | Some penaltyMarkOnField => error line1 penaltyMarkOnField
      end
  end.

(** [Sample::computeError(const CameraCalibration&)] with the five
    overrides of [computeError(const CameraMatrix&)]. *)
Definition computeErrorOf (s : Sample) (cameraCalibration : CameraCalibration) : Q :=
  match s with
  | CornerAngleSample snap cLine1 cLine2 =>
      withTwoLines (projectWith snap cameraCalibration) cLine1 cLine2 cornerAngleError
  | ParallelAngleSample snap cLine1 cLine2 =>
      withTwoLines (projectWith snap cameraCalibration) cLine1 cLine2 parallelAngleError
  | ParallelLinesDistanceSample snap cLine1 cLine2 =>
      withTwoLines (projectWith snap cameraCalibration) cLine1 cLine2 parallelLinesDistanceError
  | GoalAreaDistanceSample snap penaltyMarkInImage cLine =>
      withLineAndMark (projectWith snap cameraCalibration) cLine penaltyMarkInImage
                      goalAreaDistanceError
  | GroundLineDistanceSample snap penaltyMarkInImage cLine =>
      withLineAndMark (projectWith snap cameraCalibration) cLine penaltyMarkInImage
                      groundLineDistanceError
  end.

(** The optimizer library with this error model. *)
Definition optimizerWith
           (iter : (Parameters -> nat -> option Q) -> nat -> Parameters -> option (fpval * Parameters))
  : Optimizer :=
  {| computeError := computeErrorOf; iterate := iter |}.

(** The image points a sample projects, and its context. *)
Definition projectedPoints (s : Sample) : list Vector2f :=
  match s with
  | CornerAngleSample _ cLine1 cLine2
  | ParallelAngleSample _ cLine1 cLine2
  | ParallelLinesDistanceSample _ cLine1 cLine2 =>
      [aInImage cLine1; bInImage cLine1; aInImage cLine2; bInImage cLine2]
  | GoalAreaDistanceSample _ penaltyMarkInImage cLine
  | GroundLineDistanceSample _ penaltyMarkInImage cLine =>
      [aInImage cLine; bInImage cLine; castf penaltyMarkInImage]
  end.

Definition snapshotOf (s : Sample) : Snapshot :=
  match s with
  | CornerAngleSample snap _ _ | ParallelAngleSample snap _ _
  | ParallelLinesDistanceSample snap _ _
  | GoalAreaDistanceSample snap _ _ | GroundLineDistanceSample snap _ _ => snap
  end.

Definition projectable (s : Sample) (cameraCalibration : CameraCalibration) : Prop :=
  forall p, p ∈ projectedPoints s -> is_Some (projectWith (snapshotOf s) cameraCalibration p).

Definition isAngleSample (s : Sample) : bool :=
  match s with
  | CornerAngleSample _ _ _ | ParallelAngleSample _ _ _ => true
  | _ => false
  end.

(** [std::acos] on its domain. *)
Definition acosInRange : Prop :=
  forall x, (-1 <= x <= 1)%Q -> (0 <= acos x <= deg 180)%Q.
End SampleErrors.

(** ** The projection of field lines into the image *)

Record Vector3f : Type := mkVector3f { x3 : Q; y3 : Q; z3 : Q }.

Definition v3sub (a b : Vector3f) : Vector3f :=
  mkVector3f (x3 a - x3 b) (y3 a - y3 b) (z3 a - z3 b).
Definition v3add (a b : Vector3f) : Vector3f :=
  mkVector3f (x3 a + x3 b) (y3 a + y3 b) (z3 a + z3 b).
Definition v3scale (a : Vector3f) (s : Q) : Vector3f :=
  mkVector3f (x3 a * s) (y3 a * s) (z3 a * s).
Definition v3div (a : Vector3f) (s : Q) : Vector3f :=
  mkVector3f (x3 a / s) (y3 a / s) (z3 a / s).

(** The members of [CameraInfo] that [projectLineOnFieldIntoImage]
    reads. *)
Record CameraOptics : Type := mkCameraOptics {
  focalLength : Q;
  opticalCenter : Vector2f
}.

(** The first part of [projectLineOnFieldIntoImage] (lines 813 to 837):
    what becomes of [p1Camera] and [p2Camera]; [None] is [return false].
    With a positive focal length no division is by zero. *)
Definition clipToImagePlane (f : Q) (p1Camera p2Camera : Vector3f)
  : option (Vector3f * Vector3f) :=
  let p1Behind := Qltb (x3 p1Camera) f in
  let p2Behind := Qltb (x3 p2Camera) f in
  if p1Behind && p2Behind then None
  else if negb p1Behind && negb p2Behind then
    Some (v3div p1Camera (x3 p1Camera / f), v3div p2Camera (x3 p2Camera / f))
  else
    let direction := v3sub p1Camera p2Camera in
    let scale := ((f - x3 p1Camera) / x3 direction)%Q in
    let intersection := v3add p1Camera (v3scale direction scale) in
    if p1Behind then Some (intersection, v3div p2Camera (x3 p2Camera / f))
    else Some (v3div p1Camera (x3 p1Camera / f), intersection).

(** [projectLineOnFieldIntoImage]; [cameraMatrixInv] is the inverse of the
    camera matrix as a map of points. *)
Definition projectLineOnFieldIntoImage (lineOnField : GeoLine)
           (cameraMatrixInv : Vector3f -> Vector3f) (cameraInfo : CameraOptics)
  : option GeoLine :=
  let f := focalLength cameraInfo in
  let p1 := base lineOnField in
  let p2 := vadd p1 (direction lineOnField) in
  let p1Camera := cameraMatrixInv (mkVector3f (vx p1) (vy p1) 0) in
  let p2Camera := cameraMatrixInv (mkVector3f (vx p2) (vy p2) 0) in
  ends ← clipToImagePlane f p1Camera p2Camera;
  let lineBase := mkVector2f (vx (opticalCenter cameraInfo) - y3 (fst ends))
                             (vy (opticalCenter cameraInfo) - z3 (fst ends)) in
  Some (mkGeoLine lineBase
          (vsub (mkVector2f (vx (opticalCenter cameraInfo) - y3 (snd ends))
                            (vy (opticalCenter cameraInfo) - z3 (snd ends)))
                lineBase)).

(** Equality of points up to the equality of rationals. *)
Definition v3eq (a b : Vector3f) : Prop := (x3 a == x3 b /\ y3 a == y3 b /\ z3 a == z3 b)%Q.
Definition v2eq (a b : Vector2f) : Prop := (vx a == vx b /\ vy a == vy b)%Q.

(** A point of the segment from [a] to [b]. *)
Definition onSegment (a b q : Vector3f) : Prop :=
  exists t, (0 <= t <= 1)%Q /\ v3eq q (v3add a (v3scale (v3sub b a) t)).

(** The line with its ends exchanged. *)
Definition reversed (l : GeoLine) : GeoLine :=
  mkGeoLine (vadd (base l) (direction l)) (vsub (base l) (vadd (base l) (direction l))).

(** ** The status of the calibration *)

(** Modelled from the spec: [SampleConfigurationStatus] is declared in
    [CameraCalibrationStatus.h]; these are the values the file assigns. *)
Module SampleConfigurationStatus.
Inductive t : Type := none | visible | notVisible | recording | finished.
End SampleConfigurationStatus.

Record StatusRepresentation : Type := mkStatus {
  statusState : CameraCalibrationStatus.State;
  statusInStateSince : Z;
  sampleConfigurationStatus : SampleConfigurationStatus.t
}.

Section Status.
Context `{Ext : Externals} `{MP : ModuleParameters} `{Opt : Optimizer}.

(** [update(CameraCalibrationStatus&)]: the module after the call and the
    representation; [None] is a read of [samplesExist] outside of the
    table. *)
Definition updateStatus (inp : Inputs) (cal : Calibrator)
  : option (Calibrator * StatusRepresentation) :=
  match CalibrationRequest.sampleConfigurationRequest (theCalibrationRequest inp) with
  | None => Some (cal, mkStatus (state cal) (inStateSince cal) SampleConfigurationStatus.none)
  | Some request =>
      let visible := allRequiredFeaturesVisible (collector cal) in
      let status1 :=
        if visible then SampleConfigurationStatus.visible
        else SampleConfigurationStatus.notVisible in
      let status2 :=
        if visible && SampleConfigurationRequest.doRecord request
        then SampleConfigurationStatus.recording else status1 in
      let cal1 := updateSampleConfiguration inp cal in
      match currentSampleConfiguration cal1 with
      | None => Some (cal1, mkStatus (state cal) (inStateSince cal) status2)
      | Some cfg =>
          exist ← samplesExist cfg (samples (collector cal1));
          Some (cal1, mkStatus (state cal) (inStateSince cal)
                               (if exist : bool then SampleConfigurationStatus.finished
                                else status2))
      end
  end.
End Status.

(** ** The image patch *)

(** [grayImage[y][x] = v]. *)
Definition setPixel (grayImage : Z -> Z -> Z) (y x v : Z) : Z -> Z -> Z :=
  fun y' x' => if (y' =? y) && (x' =? x) then v else grayImage y' x'.

(** [extractImagePatch]: [grayscaled y x] is [theECImage.grayscaled[y][x]],
    and a patch is the map from row and column to the value it holds. *)
Definition extractImagePatch (cameraInfo : CameraInfo.t) (grayscaled : Z -> Z -> Z)
           (start size : Vector2i) (grayImage : Z -> Z -> Z) : Z -> Z -> Z :=
  fold_left (fun grayImage y =>
    let currentY := iy start + y in
    if (CameraInfo.height cameraInfo <=? currentY) || (currentY <? 0) then grayImage
    else
      fold_left (fun grayImage x =>
        let currentX := ix start + x in
        if (currentX <? CameraInfo.width cameraInfo) && (0 <=? currentX)
        then setPixel grayImage y x (grayscaled currentY currentX)
        else grayImage)
        (seqZ 0 (ix size)) grayImage)
    (seqZ 0 (iy size)) grayImage.

(** The patch [fitLine] extracts for a segment (lines 133 to 140). *)
Definition patchImage (cameraInfo : CameraInfo.t) (grayscaled : Z -> Z -> Z)
           (correctedStart correctedEnd : Vector2f) (grayImage : Z -> Z -> Z) : Z -> Z -> Z :=
  let patch := patchOf correctedStart correctedEnd in
  extractImagePatch cameraInfo grayscaled (mkVector2i (startX patch) (startY patch))
                    (mkVector2i (sizeX patch) (sizeY patch)) grayImage.

(** A position of the image. *)
Definition insideImage (cameraInfo : CameraInfo.t) (y x : Z) : Prop :=
  0 <= y < CameraInfo.height cameraInfo /\ 0 <= x < CameraInfo.width cameraInfo.

(** ** Scenes for the Hough transform, the errors and the projection *)

Module FurtherScene.
Import Scene MoreScene.

(** A patch of 5 by 5 pixels with one edge pixel in its middle. *)
Definition edgePixel : SobelImage :=
  mkSobelImage 5 5 (fun y x => if (y =? 2) && (x =? 2) then mkSobelPixel 3 4 else mkSobelPixel 0 0).

(** A threshold of 0.3 and the integer square root. *)
#[export] Instance sobelParameters : SobelParameters := {|
  sobelThreshValue := 3 # 10;
  sqrtf := fun q => inject_Z (Z.sqrt (Qfloor q))
|}.

(** An error model for the field of the scene: the projection of the
    scene, which fails for a body tilt of more than 45 degrees. *)
#[export] Instance errorModel : ErrorModel := {|
  projectWith := fun _ c p =>
    if Qltb (deg 45) (Qabs (ay (bodyRotationCorrection c))) then None else project 1700 p;
  vnorm := axisNorm;
  angleErrorDivisor := 1 # 100;
  distanceErrorDivisor := 10;
  pixelInaccuracyPerMeter := 1;
  xPosOpponentGroundLine := 4500;
  xPosOpponentGoalArea := 3900;
  xPosOpponentPenaltyMark := 3200
|}.

Definition twoLinesSample : Sample :=
  ParallelAngleSample snapshot (correctedLineOf (mkVector2i 30 80) (mkVector2i 130 80))
                      (correctedLineOf (mkVector2i 30 40) (mkVector2i 130 40)).

(** A vector with a body tilt of 50 degrees, and a step that ends there. *)
Definition steepParameters : Parameters := mkParameters 0 0 0 0 0 (deg 50).

Definition steepStep (f : Parameters -> nat -> option Q) (n : nat) (p : Parameters)
  : option (fpval * Parameters) :=
  Some (finite (1 # 100), steepParameters).

(** A camera 500 above the ground that looks along the first axis, with
    a focal length of 100, and a line on the field that starts behind its
    image plane. *)
Definition cameraAbove (p : Vector3f) : Vector3f := mkVector3f (x3 p) (y3 p) (z3 p - 500).

Definition optics : CameraOptics := mkCameraOptics 100 (mkVector2f 80 60).

Definition crossingLine : GeoLine := mkGeoLine (mkVector2f 50 100) (mkVector2f 250 (-200)).

(** The module while it records the mark configuration. *)
Definition recordingMark : Calibrator :=
  mkCalibrator CameraCalibrationStatus.recordSamples 1000 2 0 (Some markConfiguration)
    (wideCollector [None; None] 0)
    (mkOptimization false (mkParameters 0 0 0 0 0 0) 0 0 0 (mkParameters 0 0 0 0 0 0) 0
                    (mkParameters 0 0 0 0 0 0))
    zeroCalibration.

(** The module four successive convergences into an optimization, after
    600 steps. *)
Definition converging : Calibrator :=
  mkCalibrator CameraCalibrationStatus.optimize 0 1 0 None
    (collectorWith oneSample 0)
    (mkOptimization true tenDegrees 4 600 (1 # 50) tenDegrees 0 tenDegrees)
    tenDegreesCalibration.

(** An image whose pixels tell their position, and a patch of 4 by 4
    pixels at its lower left corner that sticks out of it. *)
Definition positions (y x : Z) : Z := y * 1000 + x.

Definition cornerPatch : Z -> Z -> Z :=
  extractImagePatch cameraInfo positions (mkVector2i (-2) 118) (mkVector2i 4 4) (fun _ _ => 255).
End FurtherScene.

(** * Properties *)

(** ** The sample table *)

Section SampleTableFacts.
Context {Smp : Type}.
Implicit Types (cfg : SampleConfiguration) (samples : list (option Smp)).

Lemma requestsExactly_requested cfg a c :
  requestsExactly cfg a c -> requested cfg a = true /\ requested cfg c = true.
Proof.
  intros Hreq. rewrite !Hreq. split; apply bool_decide_eq_true; auto.
Qed.

Lemma requestsExactly_other cfg a c b :
  requestsExactly cfg a c -> b <> a -> b <> c -> requested cfg b = false.
Proof.
  intros Hreq Ha Hc. rewrite Hreq. apply bool_decide_eq_false. intros [?|?]; congruence.
Qed.

(** The slots of the two requested types: the earlier type of the
    enumeration has the slot [sampleIndexBase], the later one the next. *)
Lemma requestsExactly_slots cfg a c :
  requestsExactly cfg a c -> a <> c ->
  sampleIndexOf cfg a =
    (if (sampleTypeIndex c <? sampleTypeIndex a)%nat
     then S (sampleIndexBase cfg) else sampleIndexBase cfg) /\
  sampleIndexOf cfg c =
    (if (sampleTypeIndex c <? sampleTypeIndex a)%nat
     then sampleIndexBase cfg else S (sampleIndexBase cfg)).
Proof.
  intros Hreq Hne. unfold sampleIndexOf.
  destruct a, c; try congruence; simpl; rewrite ?Hreq; simpl; auto.
Qed.

Lemma samplesExist_two cfg a c samples :
  requestsExactly cfg a c -> a <> c ->
  samplesExist cfg samples =
    match samples !! sampleIndexBase cfg with
    | None => None
    | Some None => Some false
    | Some (Some _) =>
        match samples !! S (sampleIndexBase cfg) with
        | None => None
        | Some None => Some false
        | Some (Some _) => Some true
        end
    end.
Proof.
  intros Hreq Hne. unfold samplesExist.
  destruct a, c; try congruence;
    simpl; rewrite ?Hreq; simpl;
    destruct (samples !! sampleIndexBase cfg) as [[?|]|]; try reflexivity;
    rewrite ?Nat.add_1_r;
    destruct (samples !! S (sampleIndexBase cfg)) as [[?|]|]; reflexivity.
Qed.

(** C7. For a configuration that requests exactly the types [a] and [c],
    over a table whose two slots for it are empty: [needToRecord] is true
    for [a] and false for any type [b] that is not requested; once a
    sample is recorded for [a], [needToRecord] is false for [a] and
    [samplesExist] is still false; once a sample is recorded for [c] as
    well, [samplesExist] is true. *)
Theorem sample_table_round_trip cfg (a b c : SampleType) samples (x y : Smp) :
  requestsExactly cfg a c -> a <> c -> b <> a -> b <> c ->
  samples !! sampleIndexBase cfg = Some None ->
  samples !! S (sampleIndexBase cfg) = Some None ->
  needToRecord cfg samples a = Some true /\
  needToRecord cfg samples b = Some false /\
  exists t1,
    record cfg samples a x = Some t1 /\
    needToRecord cfg t1 a = Some false /\
    samplesExist cfg t1 = Some false /\
    exists t2,
      record cfg t1 c y = Some t2 /\
      samplesExist cfg t2 = Some true.
Proof.
  intros Hreq Hac Hba Hbc H0 H1.
  destruct (requestsExactly_requested _ _ _ Hreq) as [Ra Rc].
  pose proof (requestsExactly_other _ _ _ _ Hreq Hba Hbc) as Rb.
  destruct (requestsExactly_slots _ _ _ Hreq Hac) as [Sa Sc].
  pose proof (lookup_lt_Some _ _ _ H0) as L0.
  pose proof (lookup_lt_Some _ _ _ H1) as L1.
  pose proof (samplesExist_two cfg a c) as HE.
  unfold needToRecord, record. rewrite Ra, Rb, Rc, Sa, Sc. simpl.
  destruct (sampleTypeIndex c <? sampleTypeIndex a)%nat.
  - rewrite H1, decide_True by lia.
    split; [reflexivity|]. split; [reflexivity|].
    eexists; split; [reflexivity|].
    rewrite decide_True by (rewrite length_insert; lia).
    rewrite !HE by assumption.
    rewrite list_lookup_insert_eq by lia.
    rewrite list_lookup_insert_ne by lia. rewrite H0.
    split; [reflexivity|]. split; [reflexivity|].
    eexists; split; [reflexivity|].
    rewrite HE by assumption.
    rewrite list_lookup_insert_eq by (rewrite length_insert; lia).
    rewrite list_lookup_insert_ne by lia.
    rewrite list_lookup_insert_eq by lia. reflexivity.
  - rewrite H0, decide_True by lia.
    split; [reflexivity|]. split; [reflexivity|].
    eexists; split; [reflexivity|].
    rewrite decide_True by (rewrite length_insert; lia).
    rewrite !HE by assumption.
    rewrite list_lookup_insert_eq by lia.
    rewrite list_lookup_insert_ne by lia. rewrite H1.
    split; [reflexivity|]. split; [reflexivity|].
    eexists; split; [reflexivity|].
    rewrite HE by assumption.
    rewrite list_lookup_insert_ne by lia.
    rewrite list_lookup_insert_eq by lia.
    rewrite list_lookup_insert_eq by (rewrite length_insert; lia). reflexivity.
Qed.
End SampleTableFacts.

(** ** Comparisons and [fmod] *)

Lemma Qltb_lt (a b : Q) : Qltb a b = true <-> (a < b)%Q.
Proof.
  unfold Qltb. rewrite negb_true_iff. split.
  - intros H. apply Qnot_le_lt. intros Hle. apply Qle_bool_iff in Hle. congruence.
  - intros H. apply not_true_is_false. intros Hle. apply Qle_bool_iff in Hle.
    apply (Qlt_not_le _ _ H Hle).
Qed.

Lemma Qltb_ge (a b : Q) : Qltb a b = false <-> (b <= a)%Q.
Proof.
  unfold Qltb. rewrite negb_false_iff. apply Qle_bool_iff.
Qed.

Lemma Qleb_le (a b : Q) : Qleb a b = true <-> (a <= b)%Q.
Proof. apply Qle_bool_iff. Qed.

Lemma Qleb_gt (a b : Q) : Qleb a b = false <-> (b < a)%Q.
Proof.
  unfold Qleb. split.
  - intros H. apply Qnot_le_lt. intros Hle. apply Qle_bool_iff in Hle. congruence.
  - intros H. apply not_true_is_false. intros Hle. apply Qle_bool_iff in Hle.
    apply (Qlt_not_le _ _ H Hle).
Qed.

Lemma Qminf_le_iff (a b c : Q) : (Qminf a b <= c)%Q <-> (a <= c)%Q \/ (b <= c)%Q.
Proof.
  unfold Qminf. destruct (Qltb b a) eqn:E.
  - apply Qltb_lt in E. split; [auto|]. intros [H|H]; lra.
  - apply Qltb_ge in E. split; [auto|]. intros [H|H]; lra.
Qed.

(** The part of a rational that truncation cuts off is smaller than 1. *)
Lemma truncation_remainder (q : Q) :
  (Qabs (q - inject_Z (truncate q)) < 1)%Q.
Proof.
  unfold truncate. destruct q as [num den]. simpl Qnum. simpl Qden.
  pose proof (Z.quot_rem' num (Zpos den)) as Hqr.
  pose proof (Z.rem_bound_abs num (Zpos den) ltac:(lia)) as Hb.
  set (t := Z.quot num (Zpos den)) in *.
  set (r := Z.rem num (Zpos den)) in *.
  apply Qabs_Qlt_condition. unfold Qlt, Qminus, Qplus, Qopp, inject_Z. simpl.
  rewrite !Pos.mul_1_r. split; nia.
Qed.

(** The result of [fmod] is smaller in magnitude than the divisor. *)
Lemma fmod_bound (x y : Q) : ~ (y == 0)%Q -> (Qabs (fmod x y) < Qabs y)%Q.
Proof.
  intros Hy. unfold fmod.
  set (t := inject_Z (truncate (x / y))).
  assert (E : (x - t * y == (x / y - t) * y)%Q) by (field; exact Hy).
  rewrite E, Qabs_Qmult.
  pose proof (truncation_remainder (x / y)) as Ht. fold t in Ht.
  assert (Hpos : (0 < Qabs y)%Q).
  { apply Qabs_case; intros H.
    - destruct (Qlt_le_dec 0 y); trivial. exfalso. apply Hy. lra.
    - destruct (Qlt_le_dec 0 (- y)); trivial. exfalso. apply Hy. lra. }
  pose proof (Qabs_nonneg (x / y - t)). nra.
Qed.

(** [fmod] leaves a value alone that is already smaller than the divisor. *)
Lemma fmod_small (x y : Q) : (0 < y)%Q -> (Qabs x < y)%Q -> (fmod x y == x)%Q.
Proof.
  intros Hy Hx. unfold fmod, truncate.
  assert (Hq : (Qabs (x / y) < 1)%Q).
  { unfold Qdiv. rewrite Qabs_Qmult, Qabs_Qinv.
    rewrite (Qabs_pos y) by lra.
    apply Qlt_shift_div_r; lra. }
  destruct (x / y)%Q as [num den]. simpl Qnum. simpl Qden.
  assert (Hs : Z.abs num < Zpos den).
  { unfold Qlt, Qabs in Hq. simpl in Hq. lia. }
  rewrite (proj2 (Z.quot_small_iff num (Zpos den) ltac:(lia))) by lia.
  unfold inject_Z. lra.
Qed.

(** ** Local maxima of the Hough space *)

Section LocalMaxima.
Variables (houghSpace : list (list Z)) (maxDisIndex n : Z).

Lemma localMaximum_spec value a d :
  localMaximum houghSpace maxDisIndex value a d n = true <->
  forall a' d', neighbourOf n maxDisIndex a d a' d' -> houghAt houghSpace a' d' <= value.
Proof.
  unfold localMaximum, neighbourOf. rewrite forallb_forall. split.
  - intros H a' d' [[i [Hi ->]] [Hd Hne]].
    assert (Hin : In i [-1; 0; 1]) by (simpl; lia).
    specialize (H i Hin). cbv zeta in H. rewrite forallb_forall in H.
    specialize (H d'). rewrite <- list_elem_of_In, elem_of_seqZ in H.
    specialize (H ltac:(lia)).
    destruct (Z.eqb_spec (Z.rem (a + i + n) n) a), (Z.eqb_spec d' d); simpl in H;
      try (exfalso; apply Hne; split; assumption);
      apply negb_true_iff, Z.ltb_ge in H; exact H.
  - intros H i Hi. cbv zeta. rewrite forallb_forall. intros j Hj.
    rewrite <- list_elem_of_In, elem_of_seqZ in Hj.
    destruct (Z.eqb_spec (Z.rem (a + i + n) n) a), (Z.eqb_spec j d); simpl; trivial;
      apply negb_true_iff, Z.ltb_ge, H;
      (split; [exists i; split; [simpl in Hi; lia | reflexivity] | split; [lia | intros [? ?]; congruence]]).
Qed.

Lemma cellReported_spec a d :
  cellReported houghSpace maxDisIndex n a d = true <->
  isLocalMaximum houghSpace n maxDisIndex a d.
Proof.
  unfold cellReported, isLocalMaximum.
  rewrite andb_true_iff, negb_true_iff, Z.eqb_neq, localMaximum_spec. reflexivity.
Qed.

(** The inner loop appends the maxima of the row. *)
Lemma scanDistances_rowMaxima a acc :
  scanDistances houghSpace maxDisIndex n a acc = acc ++ rowMaxima houghSpace maxDisIndex n a.
Proof.
  unfold scanDistances, rowMaxima, cellReported.
  generalize (seqZ 0 maxDisIndex) as ds. intros ds. revert acc.
  induction ds as [|d ds IH]; intros acc; simpl.
  - now rewrite app_nil_r.
  - rewrite IH.
    destruct (negb (houghAt houghSpace a d =? 0)
              && localMaximum houghSpace maxDisIndex (houghAt houghSpace a d) a d n); simpl.
    + now rewrite <- app_assoc.
    + reflexivity.
Qed.

Lemma elem_of_rowMaxima a m :
  m ∈ rowMaxima houghSpace maxDisIndex n a <->
  angleIndex m = a /\ 0 <= distanceIndex m < maxDisIndex /\
  maxAcc m = houghAt houghSpace a (distanceIndex m) /\
  isLocalMaximum houghSpace n maxDisIndex a (distanceIndex m).
Proof.
  unfold rowMaxima. rewrite list_elem_of_fmap. split.
  - intros [d [-> Hd]]. rewrite list_elem_of_In, filter_In in Hd.
    destruct Hd as [Hd Hc]. rewrite <- list_elem_of_In, elem_of_seqZ in Hd.
    apply cellReported_spec in Hc. simpl. repeat split; trivial; try lia; apply Hc.
  - intros (Ha & Hd & Hv & Hm). exists (distanceIndex m). split.
    + destruct m as [v a0 d0]; simpl in *. congruence.
    + rewrite list_elem_of_In, filter_In. split.
      * rewrite <- list_elem_of_In, elem_of_seqZ. lia.
      * now apply cellReported_spec.
Qed.

Lemma NoDup_rowMaxima a : NoDup (rowMaxima houghSpace maxDisIndex n a).
Proof.
  unfold rowMaxima. apply NoDup_fmap_2_strong.
  - intros d1 d2 _ _ H. now inversion H.
  - apply NoDup_ListNoDup, List.NoDup_filter, NoDup_ListNoDup, NoDup_seqZ.
Qed.

(** A run of the outer loop that does not wrap: [k] rows from [a] to
    [maxIndex]. *)
Lemma scanAngles_run minIndex maxIndex (k : nat) : forall fuel a acc,
  a + Z.of_nat k = maxIndex ->
  (k < fuel)%nat ->
  (maxIndex <= minIndex -> maxIndex <= n - 1) ->
  scanAngles fuel houghSpace maxDisIndex n minIndex maxIndex a acc =
    Some (acc ++ (seqZ a (Z.of_nat k) ≫= rowMaxima houghSpace maxDisIndex n)).
Proof.
  induction k as [|k IH]; intros fuel a acc Ha Hf Hw.
  - destruct fuel as [|fuel]; [lia|]. simpl.
    rewrite (proj2 (Z.eqb_eq a maxIndex)) by lia.
    now rewrite app_nil_r.
  - destruct fuel as [|fuel]; [lia|]. simpl.
    rewrite (proj2 (Z.eqb_neq a maxIndex)) by lia.
    assert (Hnw : (maxIndex <? minIndex) && (a =? n - 1) = false).
    { destruct (Z.ltb_spec maxIndex minIndex); simpl; trivial. apply Z.eqb_neq. lia. }
    rewrite Hnw, scanDistances_rowMaxima.
    rewrite IH by lia.
    rewrite (seqZ_cons a) by lia.
    replace (Z.pred (Z.of_nat (S k))) with (Z.of_nat k) by lia.
    replace (Z.succ a) with (a + 1) by lia.
    simpl. now rewrite <- app_assoc.
Qed.

(** A run that starts above [maxIndex]: up to [n - 1], then from 0. *)
Lemma scanAngles_wrap minIndex maxIndex (k : nat) : forall fuel a acc,
  0 <= maxIndex < minIndex -> minIndex <= a ->
  a + Z.of_nat k = n - 1 ->
  (S k + Z.to_nat maxIndex < fuel)%nat ->
  scanAngles fuel houghSpace maxDisIndex n minIndex maxIndex a acc =
    Some (acc ++ ((seqZ a (Z.of_nat (S k)) ++ seqZ 0 maxIndex) ≫= rowMaxima houghSpace maxDisIndex n)).
Proof.
  induction k as [|k IH]; intros fuel a acc Hm Ha Hk Hf;
    (destruct fuel as [|fuel]; [lia|]); simpl scanAngles;
    rewrite (proj2 (Z.eqb_neq a maxIndex)) by lia;
    rewrite (proj2 (Z.ltb_lt maxIndex minIndex)) by lia;
    rewrite scanDistances_rowMaxima; simpl andb.
  - rewrite (proj2 (Z.eqb_eq a (n - 1))) by lia.
    rewrite (scanAngles_run minIndex maxIndex (Z.to_nat maxIndex)) by lia.
    rewrite Z2Nat.id by lia.
    change (Z.of_nat 1) with 1. rewrite (seqZ_cons a) by lia.
    change (Z.pred 1) with 0. rewrite bind_app.
    rewrite (seqZ_nil (Z.succ a) 0) by lia.
    simpl. rewrite app_nil_r, <- app_assoc. reflexivity.
  - rewrite (proj2 (Z.eqb_neq a (n - 1))) by lia.
    rewrite IH by lia.
    rewrite (seqZ_cons a (Z.of_nat (S (S k)))) by lia.
    replace (Z.pred (Z.of_nat (S (S k)))) with (Z.of_nat (S k)) by lia.
    replace (Z.succ a) with (a + 1) by lia.
    simpl. now rewrite <- app_assoc.
Qed.

(** With [numOfAngles + 1] units of fuel the scan ends, and its result is
    the maxima of the rows of the sector, row by row. *)
Lemma scanAngles_sector minIndex maxIndex :
  0 <= minIndex < n -> 0 <= maxIndex < n ->
  scanAngles (S (Z.to_nat n)) houghSpace maxDisIndex n minIndex maxIndex minIndex [] =
    Some (sector n minIndex maxIndex ≫= rowMaxima houghSpace maxDisIndex n).
Proof.
  intros Hmin Hmax. unfold sector.
  destruct (Z.ltb_spec maxIndex minIndex) as [Hw|Hw].
  - rewrite (scanAngles_wrap minIndex maxIndex (Z.to_nat (n - 1 - minIndex))) by lia.
    simpl app. do 4 f_equal. lia.
  - rewrite (scanAngles_run minIndex maxIndex (Z.to_nat (maxIndex - minIndex))) by lia.
    simpl app. do 3 f_equal. lia.
Qed.

Lemma NoDup_sector minIndex maxIndex :
  0 <= minIndex < n -> 0 <= maxIndex < n -> NoDup (sector n minIndex maxIndex).
Proof.
  intros Hmin Hmax. unfold sector. destruct (Z.ltb_spec maxIndex minIndex).
  - apply NoDup_app. split; [apply NoDup_seqZ|]. split; [|apply NoDup_seqZ].
    intros x. rewrite !elem_of_seqZ. lia.
  - apply NoDup_seqZ.
Qed.

Lemma elem_of_sector minIndex maxIndex a :
  0 <= minIndex < n -> 0 <= maxIndex < n ->
  a ∈ sector n minIndex maxIndex <->
  (if maxIndex <? minIndex then minIndex <= a < n \/ 0 <= a < maxIndex
   else minIndex <= a < maxIndex).
Proof.
  intros Hmin Hmax. unfold sector. destruct (Z.ltb_spec maxIndex minIndex).
  - rewrite elem_of_app, !elem_of_seqZ. lia.
  - rewrite elem_of_seqZ. lia.
Qed.

Lemma elem_of_sector_maxima (rows : list Z) m :
  m ∈ rows ≫= rowMaxima houghSpace maxDisIndex n <->
  angleIndex m ∈ rows /\ 0 <= distanceIndex m < maxDisIndex /\
  maxAcc m = houghAt houghSpace (angleIndex m) (distanceIndex m) /\
  isLocalMaximum houghSpace n maxDisIndex (angleIndex m) (distanceIndex m).
Proof.
  rewrite list_elem_of_bind. split.
  - intros [a [Hm Ha]]. apply elem_of_rowMaxima in Hm as (<- & ? & ? & ?). auto.
  - intros (Ha & ? & ? & ?). exists (angleIndex m). split; trivial.
    apply elem_of_rowMaxima. auto.
Qed.

Lemma NoDup_sector_maxima (rows : list Z) :
  NoDup rows -> NoDup (rows ≫= rowMaxima houghSpace maxDisIndex n).
Proof.
  intros Hrows. apply NoDup_bind; trivial.
  - intros a1 a2 m _ _ H1 H2.
    apply elem_of_rowMaxima in H1 as [<- _]. apply elem_of_rowMaxima in H2 as [<- _].
    reflexivity.
  - intros a _. apply NoDup_rowMaxima.
Qed.
End LocalMaxima.

Section LocalMaximaOfModule.
Context `{MP : ModuleParameters}.

(** The loop of [determineLocalMaxima] ends and yields the maxima of the
    sector. *)
Lemma determineLocalMaxima_sector houghSpace minIndex maxIndex :
  0 <= minIndex < numOfAngles -> 0 <= maxIndex < numOfAngles ->
  determineLocalMaxima (S (Z.to_nat numOfAngles)) houghSpace minIndex maxIndex =
    Some (sector numOfAngles minIndex maxIndex
            ≫= rowMaxima houghSpace (maxDisIndexOf houghSpace) numOfAngles).
Proof. intros. unfold determineLocalMaxima. now apply scanAngles_sector. Qed.

(** When all cells that are not zero hold the same positive value, no
    cell exceeds another: every such cell is a local maximum. *)
Lemma flat_isLocalMaximum houghSpace maxDisIndex v a d :
  0 < v -> houghAt houghSpace a d = v ->
  (forall a' d', houghAt houghSpace a' d' = 0 \/ houghAt houghSpace a' d' = v) ->
  isLocalMaximum houghSpace numOfAngles maxDisIndex a d.
Proof.
  intros Hv Hc Hflat. split; [lia|].
  intros a' d' _. destruct (Hflat a' d'); lia.
Qed.

(** C4, as amended. For a sector inside the table the scan ends; a cell is
    reported exactly when it lies in a row of the sector, is not zero and
    no neighbour (one bucket away in angle, circularly, and in distance)
    is strictly greater, and no cell is reported twice. Hence an
    accumulator whose only cell that is not zero lies in the sector yields
    exactly that maximum, and an accumulator whose only cells that are not
    zero are two cells of the sector with the same value yields both of
    them, adjacent or not. *)
Theorem local_maxima_reported houghSpace minIndex maxIndex :
  0 <= minIndex < numOfAngles -> 0 <= maxIndex < numOfAngles ->
  let maxDisIndex := maxDisIndexOf houghSpace in
  let rows := sector numOfAngles minIndex maxIndex in
  exists localMaxima,
    determineLocalMaxima (S (Z.to_nat numOfAngles)) houghSpace minIndex maxIndex = Some localMaxima /\
    NoDup localMaxima /\
    (forall m, m ∈ localMaxima <->
               angleIndex m ∈ rows /\ 0 <= distanceIndex m < maxDisIndex /\
               maxAcc m = houghAt houghSpace (angleIndex m) (distanceIndex m) /\
               isLocalMaximum houghSpace numOfAngles maxDisIndex (angleIndex m) (distanceIndex m)) /\
    (forall a d v,
        a ∈ rows -> 0 <= d < maxDisIndex -> 0 < v -> houghAt houghSpace a d = v ->
        (forall a' d', (a', d') <> (a, d) -> houghAt houghSpace a' d' = 0) ->
        localMaxima = [mkMaximum v a d]) /\
    (forall a1 d1 a2 d2 v,
        a1 ∈ rows -> 0 <= d1 < maxDisIndex -> a2 ∈ rows -> 0 <= d2 < maxDisIndex ->
        (a1, d1) <> (a2, d2) -> 0 < v ->
        houghAt houghSpace a1 d1 = v -> houghAt houghSpace a2 d2 = v ->
        (forall a' d', (a', d') <> (a1, d1) -> (a', d') <> (a2, d2) -> houghAt houghSpace a' d' = 0) ->
        localMaxima ≡ₚ [mkMaximum v a1 d1; mkMaximum v a2 d2] /\ length localMaxima = 2%nat).
Proof.
  intros Hmin Hmax maxDisIndex rows.
  eexists. split; [now apply determineLocalMaxima_sector|].
  fold maxDisIndex rows.
  pose proof (NoDup_sector_maxima houghSpace maxDisIndex numOfAngles rows
                (NoDup_sector numOfAngles minIndex maxIndex Hmin Hmax)) as Hnd.
  pose proof (elem_of_sector_maxima houghSpace maxDisIndex numOfAngles rows) as Hin.
  split; [exact Hnd|]. split; [exact Hin|]. split.
  - intros a d v Ha Hd Hv Hc Hz.
    apply Permutation_singleton_r, NoDup_Permutation; trivial.
    { apply NoDup_singleton. }
    intros m. rewrite Hin, list_elem_of_singleton. split.
    + intros (_ & _ & Hm & [Hnz _]).
      destruct m as [v' a' d']; simpl in *.
      destruct (decide ((a', d') = (a, d))) as [E|E].
      * inversion E; subst. reflexivity.
      * specialize (Hz a' d' E). congruence.
    + intros ->. simpl. repeat split; trivial; try lia.
      apply (flat_isLocalMaximum houghSpace maxDisIndex v); trivial.
      intros a' d'. destruct (decide ((a', d') = (a, d))) as [E|E].
      * inversion E; subst. now right.
      * left. now apply Hz.
  - intros a1 d1 a2 d2 v Ha1 Hd1 Ha2 Hd2 Hne Hv Hc1 Hc2 Hz.
    assert (HP : rows ≫= rowMaxima houghSpace maxDisIndex numOfAngles
                 ≡ₚ [mkMaximum v a1 d1; mkMaximum v a2 d2]).
    { assert (Hflat : forall a' d', houghAt houghSpace a' d' = 0 \/ houghAt houghSpace a' d' = v).
      { intros a' d'. destruct (decide ((a', d') = (a1, d1))) as [E1|E1].
        - inversion E1; subst. now right.
        - destruct (decide ((a', d') = (a2, d2))) as [E2|E2].
          + inversion E2; subst. now right.
          + left. now apply Hz. }
      apply NoDup_Permutation; trivial.
      { apply NoDup_cons. split.
        - rewrite list_elem_of_singleton. intros E. inversion E; subst. now apply Hne.
        - apply NoDup_singleton. }
      intros m. rewrite Hin, elem_of_cons, list_elem_of_singleton. split.
      - intros (_ & _ & Hm & [Hnz _]).
        destruct m as [v' a' d']; simpl in *.
        destruct (decide ((a', d') = (a1, d1))) as [E1|E1].
        + left. inversion E1; subst. reflexivity.
        + destruct (decide ((a', d') = (a2, d2))) as [E2|E2].
          * right. inversion E2; subst. congruence.
          * specialize (Hz a' d' E1 E2). congruence.
      - intros [-> | ->]; simpl; repeat split; trivial; try lia;
          now apply (flat_isLocalMaximum houghSpace maxDisIndex v). }
    split; [exact HP|]. now rewrite HP.
Qed.
End LocalMaximaOfModule.

(** ** The line fitter *)

Section LineFitterFacts.
Context `{Ext : Externals} `{MP : ModuleParameters}.




Variables (inp : Inputs) (w : ImagePatch) (optimalLine lineStart lineEnd : Hyperplane).




End LineFitterFacts.

Section FitLineOutcome.
Context `{Ext : Externals} `{MP : ModuleParameters}.

Lemma maximaOf_total (w : HoughWindow) :
  0 <= minIndex w < numOfAngles -> 0 <= maxIndex w < numOfAngles ->
  exists localMaxima, maximaOf w = Some localMaxima.
Proof.
  intros Hmin Hmax. unfold maximaOf. rewrite determineLocalMaxima_sector by assumption. eauto.
Qed.

End FitLineOutcome.

(** ** The optimizer *)

Section OptimizerFacts.
Context `{MP : ModuleParameters} `{Opt : Optimizer}.

Lemma deg_pos (x : Q) : (0 < one_deg)%Q -> (0 < x)%Q -> (0 < deg x)%Q.
Proof. unfold deg. intros. nra. Qed.

Lemma randomAngle_bounds (r : Z) :
  (0 < one_deg)%Q -> 0 < RAND_MAX -> 0 <= r <= RAND_MAX ->
  (- deg (1 # 2) <= randomAngle r <= deg (1 # 2))%Q.
Proof.
  intros Hdeg HM Hr. unfold randomAngle, deg.
  assert (H0 : (0 <= inject_Z r / inject_Z RAND_MAX)%Q).
  { apply Qle_shift_div_l.
    - change 0%Q with (inject_Z 0). rewrite <- Zlt_Qlt. lia.
    - rewrite Qmult_0_l. change 0%Q with (inject_Z 0). rewrite <- Zle_Qle. lia. }
  assert (H1 : (inject_Z r / inject_Z RAND_MAX <= 1)%Q).
  { apply Qle_shift_div_r.
    - change 0%Q with (inject_Z 0). rewrite <- Zlt_Qlt. lia.
    - rewrite Qmult_1_l. rewrite <- Zle_Qle. lia. }
  split; nra.
Qed.

(** What [unpack] writes: each angle is [fmod] of the component by a full
    turn, and smaller than a full turn. *)
Lemma unpack_angles params c :
  angles (unpack params c) = (fun x => fmod x (deg 360)) <$> components params.
Proof. reflexivity. Qed.

Lemma unpack_bounded params c :
  (0 < one_deg)%Q ->
  Forall (fun x => (Qabs x < deg 360)%Q) (angles (unpack params c)).
Proof.
  intros Hdeg. rewrite unpack_angles.
  assert (Hpos : (0 < deg 360)%Q) by (apply deg_pos; [assumption | reflexivity]).
  apply Forall_fmap, Forall_forall. intros x _. simpl.
  pose proof (fmod_bound x (deg 360)) as H.
  rewrite (Qabs_pos (deg 360)) in H by lra. apply H. lra.
Qed.

Lemma functor_recorded cal params i :
  allRecorded cal -> (i < length (samples (collector cal)))%nat ->
  exists s, samples (collector cal) !! i = Some (Some s) /\
            functor cal params i = Some (computeError s (unpack params (nextCameraCalibration cal))).
Proof.
  intros Hall Hi. destruct (Hall i Hi) as [s Hs]. exists s. split; trivial.
  unfold functor. now rewrite Hs.
Qed.

Lemma sumErrors_total (f : nat -> option Q) (l : list nat) : forall acc,
  (forall i, i ∈ l -> is_Some (f i)) -> is_Some (sumErrors f l acc).
Proof.
  induction l as [|i l IH]; intros acc H; simpl.
  - eauto.
  - destruct (H i ltac:(left)) as [e He]. rewrite He. simpl.
    apply IH. intros j Hj. apply H. now right.
Qed.

Lemma anyNotValid_none (f : nat -> option Q) (l : list nat) :
  (forall i, i ∈ l -> exists e, f i = Some e /\ (e < notValidError)%Q) ->
  anyNotValid f l = Some false.
Proof.
  induction l as [|i l IH]; intros H; simpl; trivial.
  destruct (H i ltac:(left)) as [e [He Hlt]]. rewrite He. simpl.
  rewrite (proj2 (Qleb_gt notValidError e) Hlt).
  apply IH. intros j Hj. apply H. now right.
Qed.

Lemma anyNotValid_some (f : nat -> option Q) (l : list nat) :
  (forall i, i ∈ l -> is_Some (f i)) ->
  (exists i e, i ∈ l /\ f i = Some e /\ (notValidError <= e)%Q) ->
  anyNotValid f l = Some true.
Proof.
  induction l as [|i l IH]; intros Htot (k & e & Hk & He & Hle).
  - inversion Hk.
  - simpl. destruct (Htot i ltac:(left)) as [ei Hei]. rewrite Hei. simpl.
    destruct (Qleb notValidError ei) eqn:E; trivial.
    apply IH.
    + intros j Hj. apply Htot. now right.
    + apply elem_of_cons in Hk as [->|Hk].
      * rewrite He in Hei. inversion Hei; subst ei.
        apply Qleb_le in Hle. congruence.
      * exists k, e. auto.
Qed.

Lemma resetOptimization_restart inp cal :
  let cal' := resetOptimization inp false cal in
  optimizer (optimization cal') = false /\
  optimizationSteps (optimization cal') = 0 /\
  lowestDelta (optimization cal') = FLT_MAX /\
  lowestDeltaParameters (optimization cal') = uninitialisedParameters /\
  optimizationParameters (optimization cal') = randomParameters inp /\
  nextCameraCalibration cal' = unpack (randomParameters inp) (nextCameraCalibration cal) /\
  state cal' = state cal /\ collector cal' = collector cal.
Proof. simpl. repeat split. Qed.

(** C1, as amended. When the step delta is not finite, or the error of a
    recorded sample under the new vector reaches [notValidError], the
    optimizer restarts: the optimizer instance is dropped, the step
    counter is 0 and the tracked lowest delta is forgotten; the parameter
    vector is replaced by six fresh draws, each between -0.5 and +0.5
    degrees (whatever the vector was before), and the calibration
    written to the output holds exactly these draws. *)
Theorem divergence_restarts (inp : Inputs) (cal : Calibrator) (delta : fpval) (params : Parameters) :
  (0 < one_deg)%Q -> 0 < RAND_MAX -> (forall k, 0 <= rand inp k <= RAND_MAX) ->
  optimizer (optimization cal) = true ->
  iterate (functor cal) (getNumOfMeasurements cal) (optimizationParameters (optimization cal))
    = Some (delta, params) ->
  diverges cal delta params ->
  exists cal',
    optimize inp cal = Some cal' /\
    optimizer (optimization cal') = false /\
    optimizationSteps (optimization cal') = 0 /\
    lowestDelta (optimization cal') = FLT_MAX /\
    lowestDeltaParameters (optimization cal') = uninitialisedParameters /\
    optimizationParameters (optimization cal') = randomParameters inp /\
    Forall (fun x => (- deg (1 # 2) <= x <= deg (1 # 2))%Q) (components (randomParameters inp)) /\
    nextCameraCalibration cal' = unpack (randomParameters inp) (nextCameraCalibration cal) /\
    Forall2 Qeq (angles (nextCameraCalibration cal')) (components (randomParameters inp)) /\
    state cal' = state cal /\ collector cal' = collector cal.
Proof.
  intros Hdeg HM Hrand Hopt Hit Hdiv.
  assert (Hb : Forall (fun x => (- deg (1 # 2) <= x <= deg (1 # 2))%Q)
                      (components (randomParameters inp))).
  { unfold components, randomParameters; simpl.
    repeat constructor; apply randomAngle_bounds; auto. }
  assert (Hw : Forall2 Qeq (angles (unpack (randomParameters inp) (nextCameraCalibration cal)))
                       (components (randomParameters inp))).
  { rewrite unpack_angles. apply Forall2_fmap_l, Forall_Forall2_diag.
    eapply Forall_impl; [exact Hb|]. intros x Hx. simpl.
    assert (H360 : (0 < deg 360)%Q) by (apply deg_pos; [assumption|reflexivity]).
    apply fmod_small; trivial.
    apply Qabs_Qlt_condition. unfold deg in *. split; nra. }
  exists (resetOptimization inp false (setOptimizationParameters cal params)).
  split.
  - unfold optimize. rewrite Hopt. simpl negb. cbv iota.
    rewrite Hit. simpl.
    destruct Hdiv as [-> | (Hall & i & s & Hs & Hle)]; trivial.
    destruct delta as [d|]; trivial.
    rewrite (anyNotValid_some _ (seq 0 (length (samples (collector cal))))); trivial.
    + intros j Hj. apply elem_of_seq in Hj.
      destruct (functor_recorded cal params j Hall ltac:(lia)) as (sj & _ & Hf).
      unfold functor in *. simpl. rewrite Hf. eauto.
    + exists i, (computeError s (unpack params (nextCameraCalibration cal))).
      split; [|split; trivial].
      * apply elem_of_seq. pose proof (lookup_lt_Some _ _ _ Hs). lia.
      * unfold functor. simpl. now rewrite Hs.
  - simpl. repeat split; trivial.
Qed.

(** C8. Whenever [optimize] runs a step it writes the calibration through
    [unpack], from the lowest-error vector after an accepted convergence
    and from the current vector after a step that is not yet accepted or
    after a restart: each of the six angles written is [fmod] of the
    component by 360 degrees and so smaller than a full turn. *)
Theorem written_parameters_normalised (inp : Inputs) (cal cal' : Calibrator) :
  (0 < one_deg)%Q ->
  optimizer (optimization cal) = true ->
  optimize inp cal = Some cal' ->
  exists raw,
    ((optimizer (optimization cal') = true /\
      raw = optimizationParameters (optimization cal')) \/
     (optimizer (optimization cal') = false /\
      state cal' = CameraCalibrationStatus.idle /\
      raw = lowestErrorParameters (optimization cal')) \/
     (optimizer (optimization cal') = false /\
      raw = randomParameters inp /\
      raw = optimizationParameters (optimization cal'))) /\
    nextCameraCalibration cal' = unpack raw (nextCameraCalibration cal) /\
    angles (nextCameraCalibration cal') = (fun x => fmod x (deg 360)) <$> components raw /\
    Forall (fun x => (Qabs x < deg 360)%Q) (angles (nextCameraCalibration cal')).
Proof.
  intros Hdeg Hopt Hrun. unfold optimize in Hrun. rewrite Hopt in Hrun. simpl in Hrun.
  destruct (iterate _ _ _) as [[delta params]|]; [|discriminate]. simpl in Hrun.
  assert (Hrestart :
    Some (resetOptimization inp false (setOptimizationParameters cal params)) = Some cal' ->
    exists raw,
      ((optimizer (optimization cal') = true /\
        raw = optimizationParameters (optimization cal')) \/
       (optimizer (optimization cal') = false /\
        state cal' = CameraCalibrationStatus.idle /\
        raw = lowestErrorParameters (optimization cal')) \/
       (optimizer (optimization cal') = false /\
        raw = randomParameters inp /\
        raw = optimizationParameters (optimization cal'))) /\
      nextCameraCalibration cal' = unpack raw (nextCameraCalibration cal) /\
      angles (nextCameraCalibration cal') = (fun x => fmod x (deg 360)) <$> components raw /\
      Forall (fun x => (Qabs x < deg 360)%Q) (angles (nextCameraCalibration cal'))).
  { intros H. inversion H; subst cal'. exists (randomParameters inp). simpl.
    split; [right; right; auto|]. repeat split. now apply unpack_bounded. }
  destruct delta as [d|]; [|now apply Hrestart].
  destruct (anyNotValid _ _) as [[|]|]; simpl in Hrun; [now apply Hrestart| |discriminate].
  unfold acceptStep in Hrun. simpl in Hrun.
  match type of Hrun with
  | (?t ≫= _) = _ => destruct t as [tracked|] eqn:Ht; [|discriminate]
  end.
  simpl in Hrun.
  destruct (minSuccessiveConvergences <=? _) eqn:Hconv; inversion Hrun; subst cal'; simpl.
  - exists (snd tracked). split; [right; left; auto|].
    repeat split. now apply unpack_bounded.
  - exists params. split; [left; auto|].
    repeat split. now apply unpack_bounded.
Qed.

Lemma plateau_shape (steps : Z) :
  0 <= steps ->
  plateau steps = (if steps <? 500 then 1 else 50 * (steps / 500)).
Proof.
  intros H. unfold plateau. destruct (Z.ltb_spec steps 500).
  - rewrite Z.div_small by lia. reflexivity.
  - assert (1 <= steps / 500) by (apply Z.div_le_lower_bound; lia). lia.
Qed.

Lemma plateau_grows (steps : Z) :
  500 <= steps -> plateau (steps + 500) = plateau steps + 50.
Proof.
  intros H. rewrite !plateau_shape by lia.
  rewrite (proj2 (Z.ltb_ge steps 500)), (proj2 (Z.ltb_ge (steps + 500) 500)) by lia.
  replace (steps + 500) with (steps + 1 * 500) by lia.
  rewrite Z.div_add by lia. lia.
Qed.

(** The counter after a step that was not a restart. *)
Lemma acceptStep_counter inp cal delta params cal' :
  acceptStep inp cal delta params = Some cal' ->
  successiveConvergences (optimization cal') =
    (if belowThreshold delta ((optimizationSteps (optimization cal) + 1) mod 2 ^ 32)
     then successiveConvergences (optimization cal) + 1 else 0).
Proof.
  unfold acceptStep. intros H.
  match type of H with
  | (?t ≫= _) = _ => destruct t as [tracked|]; [|discriminate]
  end.
  simpl in H.
  destruct (minSuccessiveConvergences <=? _); inversion H; reflexivity.
Qed.

(** A step that was not a restart ends when every slot holds a sample. *)
Lemma acceptStep_total inp cal delta params :
  allRecorded cal -> exists cal', acceptStep inp cal delta params = Some cal'.
Proof.
  intros Hall. unfold acceptStep.
  destruct (sumErrors_total (functor cal params) (seq 0 (length (samples (collector cal)))) 0%Q)
    as [total Htotal].
  { intros i Hi. apply elem_of_seq in Hi.
    destruct (functor_recorded cal params i Hall ltac:(lia)) as (s & _ & Hf).
    rewrite Hf. eauto. }
  rewrite Htotal. simpl.
  destruct (0 <? _); simpl;
    [destruct (_ || _); simpl|]; destruct (minSuccessiveConvergences <=? _); eauto.
Qed.

(** C2, as amended. A step that does not restart counts as a successive
    convergence exactly when the magnitude of its delta is below
    [terminationCriterion] times a multiplier; a step that does not count
    sets the counter to 0. With [steps] the number of steps taken, this
    one included, the multiplier is 1 below 500 steps and 50 times the
    number of completed blocks of 500 steps from then on: it grows by 50,
    not by 1, with every 500 steps. *)
Theorem convergence_counting (inp : Inputs) (cal : Calibrator) (delta : Q) (params : Parameters) :
  optimizer (optimization cal) = true ->
  iterate (functor cal) (getNumOfMeasurements cal) (optimizationParameters (optimization cal))
    = Some (finite delta, params) ->
  proceeds cal params ->
  let steps := (optimizationSteps (optimization cal) + 1) mod 2 ^ 32 in
  let threshold := (terminationCriterion * inject_Z (plateau steps))%Q in
  exists cal',
    optimize inp cal = Some cal' /\
    ((Qabs delta < threshold)%Q ->
     successiveConvergences (optimization cal') = successiveConvergences (optimization cal) + 1) /\
    (~ (Qabs delta < threshold)%Q -> successiveConvergences (optimization cal') = 0) /\
    plateau steps = (if steps <? 500 then 1 else 50 * (steps / 500)) /\
    (forall s, 500 <= s -> plateau (s + 500) = plateau s + 50).
Proof.
  intros Hopt Hit Hok steps threshold.
  assert (Hsteps : 0 <= steps) by (apply Z.mod_pos_bound; lia).
  unfold optimize. rewrite Hopt. simpl negb. cbv iota. rewrite Hit. simpl.
  rewrite anyNotValid_none.
  2:{ intros i Hi. apply elem_of_seq in Hi. simpl in Hi.
      destruct (Hok i ltac:(unfold getNumOfMeasurements in Hi; simpl in Hi; lia)) as (s & Hs & Hlt).
      exists (computeError s (unpack params (nextCameraCalibration cal))). split; trivial.
      unfold functor. simpl. now rewrite Hs. }
  simpl.
  destruct (acceptStep_total inp (setOptimizationParameters cal params) delta params)
    as [cal' Hcal'].
  { intros i Hi. destruct (Hok i Hi) as (s & Hs & _). eauto. }
  exists cal'. split; trivial.
  pose proof (acceptStep_counter _ _ _ _ _ Hcal') as Hc. simpl in Hc.
  fold steps in Hc. unfold belowThreshold in Hc. fold threshold in Hc.
  repeat split; auto using plateau_shape, plateau_grows.
  - intros Hlt. apply Qltb_lt in Hlt. now rewrite Hlt in Hc.
  - intros Hge. destruct (Qltb (Qabs delta) threshold) eqn:E; trivial.
    apply Qltb_lt in E. contradiction.
Qed.
End OptimizerFacts.

(** ** The update of the calibration *)

Section UpdateFacts.
Context `{Ext : Externals} `{MP : ModuleParameters} `{Opt : Optimizer}.

(** [updateSampleConfiguration] touches the configuration and the sample
    count only. *)
Lemma updateSampleConfiguration_frame inp cal :
  let cal' := updateSampleConfiguration inp cal in
  state cal' = state cal /\ inStateSince cal' = inStateSince cal /\
  collector cal' = collector cal /\ optimization cal' = optimization cal /\
  nextCameraCalibration cal' = nextCameraCalibration cal.
Proof.
  unfold updateSampleConfiguration.
  destruct (CalibrationRequest.sampleConfigurationRequest _) as [req|]; simpl; auto.
  destruct (_ =? _); simpl; auto.
Qed.
End UpdateFacts.

(** ** The sample collector *)

Lemma forM_unchanged {A St : Type} (xs : list A) (body : St -> A -> option St) (s : St) :
  (forall x, x ∈ xs -> body s x = Some s) -> forM xs body s = Some s.
Proof.
  induction xs as [|x xs IH]; intros H; simpl; trivial.
  rewrite (H x ltac:(left)). simpl. apply IH. intros y Hy. apply H. now right.
Qed.

Section NeedToRecord.
Context {Smp : Type}.
Implicit Types (cfg : SampleConfiguration) (smps : list (option Smp)).

Lemma needToRecord_total cfg smps t :
  tableFits cfg smps -> is_Some (needToRecord cfg smps t).
Proof.
  intros Hfit. unfold needToRecord.
  destruct (requested cfg t) eqn:Hr; simpl; [|eauto].
  destruct (lookup_lt_is_Some_2 smps _ (Hfit t Hr)) as [[s|] Hs]; rewrite Hs; eauto.
Qed.

End NeedToRecord.

Section CollectorFacts.
Context `{Ext : Externals} `{MP : ModuleParameters}.

(** The last block decides on the five types. *)
Lemma nothingOutstanding_spec cfg c :
  tableFits cfg (samples c) ->
  exists b, nothingOutstanding cfg c = Some b /\
            (b = true <-> noneOutstanding cfg (samples c)).
Proof.
  intros Hfit. unfold nothingOutstanding, noneOutstanding.
  destruct (needToRecord_total cfg (samples c) cornerAngle Hfit) as [b1 H1].
  destruct (needToRecord_total cfg (samples c) parallelAngle Hfit) as [b2 H2].
  destruct (needToRecord_total cfg (samples c) parallelLinesDistance Hfit) as [b3 H3].
  destruct (needToRecord_total cfg (samples c) goalAreaDistance Hfit) as [b4 H4].
  destruct (needToRecord_total cfg (samples c) groundLineDistance Hfit) as [b5 H5].
  rewrite H1, H2, H3, H4, H5. simpl.
  exists (negb b1 && (negb b2 && (negb b3 && (negb b4 && negb b5)))). split.
  - destruct b1, b2, b3, b4, b5; reflexivity.
  - split.
    + intros Hb t. destruct b1, b2, b3, b4, b5; try discriminate. destruct t; assumption.
    + intros Hall.
      rewrite (Hall cornerAngle) in H1. rewrite (Hall parallelAngle) in H2.
      rewrite (Hall parallelLinesDistance) in H3. rewrite (Hall goalAreaDistance) in H4.
      rewrite (Hall groundLineDistance) in H5.
      inversion H1; inversion H2; inversion H3; inversion H4; inversion H5. reflexivity.
Qed.

Lemma cornerGuard_lines inp cfg c :
  cornerGuard inp cfg c = Some true ->
  (3 <= length (theLinesPercept inp) <= 8)%nat.
Proof.
  unfold cornerGuard.
  destruct (3 <=? _)%nat eqn:E1; [|discriminate].
  destruct (_ <=? 8)%nat eqn:E2; [|discriminate].
  apply Nat.leb_le in E1, E2. lia.
Qed.

Lemma markGuard_lines inp cfg c :
  markGuard inp cfg c = Some true ->
  (2 <= length (theLinesPercept inp) <= 8)%nat /\
  PenaltyMarkPercept.wasSeen (thePenaltyMarkPercept inp) = true.
Proof.
  unfold markGuard.
  destruct (PenaltyMarkPercept.wasSeen _); [|discriminate].
  destruct (2 <=? _)%nat eqn:E1; [|discriminate].
  destruct (_ <=? 8)%nat eqn:E2; [|discriminate].
  apply Nat.leb_le in E1, E2. intros _. split; [lia|reflexivity].
Qed.

(** C10. The triple search runs only for 3 to 8 lines and the pair search
    only for 2 to 8 lines and a seen mark. Hence a cycle with more than 8
    lines records no sample and leaves the ranges alone, and after it the
    required features count as visible exactly when no sample type is
    outstanding (a cycle for the other camera changes nothing at all). *)
Theorem many_lines_nothing_recorded (inp : Inputs) (cfg : SampleConfiguration)
        (req : SampleConfigurationRequest.t) (c : Collector) :
  tableFits cfg (samples c) ->
  let n := length (theLinesPercept inp) in
  (forall c0, cornerGuard inp cfg c0 = Some true -> (3 <= n <= 8)%nat) /\
  (forall c0, markGuard inp cfg c0 = Some true ->
              (2 <= n <= 8)%nat /\ PenaltyMarkPercept.wasSeen (thePenaltyMarkPercept inp) = true) /\
  ((8 < n)%nat ->
   exists c',
     recordSamples inp cfg req c = Some c' /\
     samples c' = samples c /\
     (forall cam, parallelLinesRange cam c' = parallelLinesRange cam c /\
                  goalAreaDisRange cam c' = goalAreaDisRange cam c /\
                  groundLineDisRange cam c' = groundLineDisRange cam c) /\
     (CameraInfo.camera (theCameraInfo inp) <> camera cfg -> c' = c) /\
     (CameraInfo.camera (theCameraInfo inp) = camera cfg ->
      (allRequiredFeaturesVisible c' = true <-> noneOutstanding cfg (samples c)))).
Proof.
  intros Hfit n. split; [intros c0; apply cornerGuard_lines|].
  split; [intros c0; apply markGuard_lines|].
  intros Hn. unfold recordSamples.
  destruct (decide (CameraInfo.camera (theCameraInfo inp) = camera cfg)) as [Hcam|Hcam].
  - rewrite bool_decide_eq_true_2 by assumption. simpl.
    assert (G1 : cornerGuard inp cfg (setVisible c false) = Some false).
    { unfold cornerGuard. fold n. rewrite (proj2 (Nat.leb_gt n 8)) by lia.
      now rewrite andb_false_r. }
    rewrite G1. simpl.
    assert (G2 : markGuard inp cfg (setVisible c false) = Some false).
    { unfold markGuard. fold n. rewrite (proj2 (Nat.leb_gt n 8)) by lia.
      now rewrite andb_false_r. }
    rewrite G2. simpl.
    destruct (nothingOutstanding_spec cfg (setVisible c false) Hfit) as (b & Hb & Hiff).
    rewrite Hb. simpl. eexists. split; [reflexivity|].
    destruct b; simpl.
    + repeat split; try (destruct cam; reflexivity); try contradiction; tauto.
    + repeat split; try (destruct cam; reflexivity); try contradiction.
      * discriminate.
      * intros Hnone. apply Hiff in Hnone. discriminate.
  - rewrite bool_decide_eq_false_2 by assumption. simpl.
    exists c. repeat split; trivial; contradiction.
Qed.

Lemma endNear_spec l li : endNear l li = true <-> oneEndNear l li.
Proof.
  unfold endNear, oneEndNear. rewrite negb_true_iff, Qltb_ge. apply Qminf_le_iff.
Qed.

Lemma shortLineClosest_spec li lj lk : shortLineClosest li lj lk = true <-> noneNearer li lj lk.
Proof.
  unfold shortLineClosest, noneNearer.
  rewrite negb_true_iff, orb_false_iff, !Qltb_ge. reflexivity.
Qed.

(** A triple that fails check (a) or check (b) is skipped. *)
Lemma tripleBody_skips inp cfg doRecord range li lj lk s :
  ~ (oneEndNear lj li /\ oneEndNear lk li /\ noneNearer li lj lk) ->
  tripleBody inp cfg doRecord range li lj lk s = Some s.
Proof.
  intros Hfail. unfold tripleBody.
  destruct (endNear lj li) eqn:E1; simpl; trivial.
  destruct (endNear lk li) eqn:E2; simpl; trivial.
  destruct (shortLineClosest li lj lk) eqn:E3; simpl; trivial.
  exfalso. apply Hfail.
  apply endNear_spec in E1. apply endNear_spec in E2. apply shortLineClosest_spec in E3.
  auto.
Qed.

(** C5, as amended. In the triple search a triple of lines [i], [j], [k]
    is skipped unless an end of line [i] lies within 100 of the edge [j]
    and an end of line [i] lies within 100 of the edge [k] (one end for
    each edge is enough, not both ends for both edges), and skipped
    unless neither mid point of [j] and [k] is nearer to the robot than
    that of [i]. When no triple with [i] distinct from [j] and [k] and
    [j < k] passes these checks, the search marks nothing visible, records
    no sample and counts no discard. *)
Theorem triple_search_checks (inp : Inputs) (cfg : SampleConfiguration) (doRecord : bool)
        (range : Rangef) :
  (forall li lj lk s,
      ~ (oneEndNear lj li /\ oneEndNear lk li) \/ ~ noneNearer li lj lk ->
      tripleBody inp cfg doRecord range li lj lk s = Some s) /\
  (forall s0,
      (forall i j k li lj lk,
          i <> j -> i <> k -> (j < k)%nat ->
          theLinesPercept inp !! i = Some li ->
          theLinesPercept inp !! j = Some lj ->
          theLinesPercept inp !! k = Some lk ->
          ~ (oneEndNear lj li /\ oneEndNear lk li /\ noneNearer li lj lk)) ->
      tripleLoop inp cfg doRecord range s0 = Some s0).
Proof.
  split.
  - intros li lj lk s Hfail. apply tripleBody_skips. tauto.
  - intros s0 Hnone. unfold tripleLoop.
    apply forM_unchanged. intros i Hi.
    apply forM_unchanged. intros j Hj.
    destruct (decide (i = j)) as [|Hij]; trivial.
    apply forM_unchanged. intros k Hk.
    destruct (decide (i = k)) as [|Hik]; trivial.
    apply elem_of_seq in Hi, Hj, Hk.
    destruct (lookup_lt_is_Some_2 (theLinesPercept inp) i ltac:(lia)) as [li Hli].
    destruct (lookup_lt_is_Some_2 (theLinesPercept inp) j ltac:(lia)) as [lj Hlj].
    destruct (lookup_lt_is_Some_2 (theLinesPercept inp) k ltac:(lia)) as [lk Hlk].
    rewrite Hli, Hlj, Hlk. simpl.
    apply tripleBody_skips. apply (Hnone i j k); trivial. lia.
Qed.
End CollectorFacts.

(** * Further properties *)

(** ** Slots of a configuration *)

Section SlotFacts.
Context {Smp : Type}.
Implicit Types (cfg : SampleConfiguration) (T : list (option Smp)).

Lemma fold_count_shift cfg (ts : list SampleType) (n : nat) :
  fold_left (fun k x => if requested cfg x then S k else k) ts n =
  (n + fold_left (fun k x => if requested cfg x then S k else k) ts 0)%nat.
Proof.
  revert n. induction ts as [|t ts IH]; intros n; simpl; [lia|].
  destruct (requested cfg t).
  - rewrite (IH (S n)), (IH 1%nat). lia.
  - apply IH.
Qed.

(** The slot of a requested type is the base plus its rank among the
    requested types: inside the block of the configuration, and in the
    order of the enumeration. *)
Lemma slot_rank cfg t t' :
  requested cfg t = true -> requested cfg t' = true ->
  (sampleIndexBase cfg <= sampleIndexOf cfg t < sampleIndexBase cfg + numRequested cfg)%nat /\
  ((sampleTypeIndex t < sampleTypeIndex t')%nat <-> (sampleIndexOf cfg t < sampleIndexOf cfg t')%nat).
Proof.
  unfold sampleIndexOf, numRequested. intros Ht Ht'.
  destruct t, t'; simpl in *;
    destruct (requested cfg cornerAngle), (requested cfg parallelAngle),
             (requested cfg parallelLinesDistance), (requested cfg goalAreaDistance),
             (requested cfg groundLineDistance);
    try discriminate; simpl; lia.
Qed.

Lemma sampleTypeIndex_inj t t' : sampleTypeIndex t = sampleTypeIndex t' -> t = t'.
Proof. destruct t, t'; simpl; congruence. Qed.

Lemma slot_inj cfg t t' :
  requested cfg t = true -> requested cfg t' = true ->
  sampleIndexOf cfg t = sampleIndexOf cfg t' -> t = t'.
Proof.
  intros Ht Ht' E.
  destruct (slot_rank cfg t t' Ht Ht') as [_ Ho].
  destruct (slot_rank cfg t' t Ht' Ht) as [_ Ho'].
  apply sampleTypeIndex_inj.
  destruct (lt_eq_lt_dec (sampleTypeIndex t) (sampleTypeIndex t')) as [[H|H]|H]; trivial.
  - apply Ho in H. lia.
  - apply Ho' in H. lia.
Qed.

(** X1. Every requested type of a configuration has a slot of its own
    inside the block of [numRequested] slots that starts at
    [sampleIndexBase], and the slots follow the order of the enumeration. *)
Theorem slot_layout cfg t t' :
  requested cfg t = true -> requested cfg t' = true ->
  (sampleIndexBase cfg <= sampleIndexOf cfg t < sampleIndexBase cfg + numRequested cfg)%nat /\
  (sampleIndexOf cfg t = sampleIndexOf cfg t' -> t = t') /\
  ((sampleTypeIndex t < sampleTypeIndex t')%nat <-> (sampleIndexOf cfg t < sampleIndexOf cfg t')%nat).
Proof.
  intros Ht Ht'.
  destruct (slot_rank cfg t t' Ht Ht') as [Hb Ho].
  split; [exact Hb|]. split; [|exact Ho].
  now apply slot_inj.
Qed.

Lemma needToRecord_requested cfg T t :
  requested cfg t = true ->
  needToRecord cfg T t =
    match T !! sampleIndexOf cfg t with
    | None => None
    | Some None => Some true
    | Some (Some _) => Some false
    end.
Proof. intros H. unfold needToRecord. now rewrite H. Qed.

Lemma needToRecord_unrequested cfg T t :
  requested cfg t = false -> needToRecord cfg T t = Some false.
Proof. intros H. unfold needToRecord. now rewrite H. Qed.

(** [needToRecord] sees a table only through the slot of the type. *)
Lemma needToRecord_same_slot cfg T T' t :
  (requested cfg t = true -> T' !! sampleIndexOf cfg t = T !! sampleIndexOf cfg t) ->
  needToRecord cfg T' t = needToRecord cfg T t.
Proof.
  intros H. destruct (requested cfg t) eqn:Hr.
  - rewrite !needToRecord_requested by assumption. now rewrite H.
  - now rewrite !needToRecord_unrequested.
Qed.

Lemma record_is_Some cfg T t (s : Smp) :
  is_Some (record cfg T t s) <->
  requested cfg t = true /\ (sampleIndexOf cfg t < length T)%nat.
Proof.
  unfold record.
  destruct (requested cfg t); simpl.
  - destruct (decide (sampleIndexOf cfg t < length T)%nat); split.
    + auto.
    + intros _. eauto.
    + intros [? ?]. discriminate.
    + intros [_ ?]. lia.
  - split; [intros [? ?]; discriminate | intros [? _]; discriminate].
Qed.

Lemma record_writes cfg T t (s : Smp) T' :
  record cfg T t s = Some T' ->
  length T' = length T /\
  T' !! sampleIndexOf cfg t = Some (Some s) /\
  (forall i, i <> sampleIndexOf cfg t -> T' !! i = T !! i) /\
  needToRecord cfg T' t = Some false /\
  (forall t', t' <> t -> needToRecord cfg T' t' = needToRecord cfg T t').
Proof.
  unfold record. intros H.
  destruct (requested cfg t) eqn:Hr; simpl in H; [|discriminate].
  destruct (decide (sampleIndexOf cfg t < length T)%nat) as [Hlt|]; [|discriminate].
  inversion H; subst T'. clear H.
  assert (Hslot : <[sampleIndexOf cfg t:=Some s]> T !! sampleIndexOf cfg t = Some (Some s))
    by now apply list_lookup_insert_eq.
  split; [apply length_insert|]. split; [exact Hslot|].
  split; [intros i Hi; now apply list_lookup_insert_ne|].
  split.
  - rewrite needToRecord_requested by assumption. now rewrite Hslot.
  - intros t' Hne. apply needToRecord_same_slot. intros Hr'.
    apply list_lookup_insert_ne. intros E. apply Hne. symmetry.
    now apply (slot_inj cfg t t').
Qed.

(** X2. [record] succeeds exactly for a requested type whose slot exists.
    It then writes the sample into the slot of the type and nothing else:
    the table keeps its length, every other slot is as before, the type is
    no longer needed and the need for every other type is unchanged. *)
Theorem record_effect cfg T t (s : Smp) :
  (is_Some (record cfg T t s) <->
   requested cfg t = true /\ (sampleIndexOf cfg t < length T)%nat) /\
  (forall T', record cfg T t s = Some T' ->
     length T' = length T /\
     T' !! sampleIndexOf cfg t = Some (Some s) /\
     (forall i, i <> sampleIndexOf cfg t -> T' !! i = T !! i) /\
     needToRecord cfg T' t = Some false /\
     (forall t', t' <> t -> needToRecord cfg T' t' = needToRecord cfg T t')).
Proof.
  split; [apply record_is_Some | intros T'; apply record_writes].
Qed.

(** The loop of [samplesExist], from any point of the enumeration. *)
Lemma samplesExistFrom_spec cfg T (ts : list SampleType) : forall pre,
  allSampleTypes = pre ++ ts ->
  forall i,
    i = fold_left (fun k x => if requested cfg x then S k else k) pre (sampleIndexBase cfg) ->
    (forall t, t ∈ ts -> requested cfg t = true -> is_Some (T !! sampleIndexOf cfg t)) ->
    exists b, samplesExistFrom cfg T ts i = Some b /\
              (b = true <-> forall t, t ∈ ts -> needToRecord cfg T t = Some false).
Proof.
  induction ts as [|t ts IH]; intros pre Hsplit i Hi Hfit.
  - exists true. split; [reflexivity|]. split; trivial. intros _ t Ht. inversion Ht.
  - assert (Hslot : sampleIndexOf cfg t = i).
    { unfold sampleIndexOf. subst i. f_equal.
      assert (Hlen : sampleTypeIndex t = length pre).
      { assert (Hn : allSampleTypes !! sampleTypeIndex t = Some t) by (destruct t; reflexivity).
        assert (Hp : allSampleTypes !! length pre = Some t).
        { rewrite Hsplit. rewrite lookup_app_r by lia. now rewrite Nat.sub_diag. }
        assert (Hnd : NoDup allSampleTypes).
        { apply (NoDup_fmap_1 sampleTypeIndex). change (NoDup (seq 0 5)). apply NoDup_seq. }
        exact (NoDup_lookup _ _ _ _ Hnd Hn Hp). }
      rewrite Hlen, Hsplit. now rewrite take_app_length. }
    specialize (IH (pre ++ [t])). rewrite <- app_assoc in IH. specialize (IH Hsplit).
    simpl. destruct (requested cfg t) eqn:Hr.
    + destruct (Hfit t ltac:(left) Hr) as [o Ho]. rewrite Hslot in Ho. rewrite Ho.
      destruct o as [s|].
      * destruct (IH (i + 1)%nat) as (b & Hb & Hiff).
        { rewrite fold_left_app. simpl. rewrite Hr. lia. }
        { intros t' Ht'. apply Hfit. now right. }
        exists b. split; trivial. rewrite Hiff. split.
        -- intros H t' Ht'. apply elem_of_cons in Ht' as [->|Ht']; [|now apply H].
           rewrite needToRecord_requested by assumption. now rewrite Hslot, Ho.
        -- intros H t' Ht'. apply H. now right.
      * exists false. split; trivial. split; [discriminate|].
        intros H. specialize (H t ltac:(left)).
        rewrite needToRecord_requested in H by assumption.
        rewrite Hslot, Ho in H. discriminate.
    + destruct (IH i) as (b & Hb & Hiff).
      { rewrite fold_left_app. simpl. now rewrite Hr. }
      { intros t' Ht'. apply Hfit. now right. }
      exists b. split; trivial. rewrite Hiff. split.
      * intros H t' Ht'. apply elem_of_cons in Ht' as [->|Ht']; [|now apply H].
        now apply needToRecord_unrequested.
      * intros H t' Ht'. apply H. now right.
Qed.

Lemma samplesExist_spec cfg T :
  tableFits cfg T ->
  exists b, samplesExist cfg T = Some b /\ (b = true <-> noneOutstanding cfg T).
Proof.
  intros Hfit. unfold samplesExist.
  destruct (samplesExistFrom_spec cfg T allSampleTypes [] eq_refl (sampleIndexBase cfg) eq_refl)
    as (b & Hb & Hiff).
  - intros t _ Hr. apply lookup_lt_is_Some_2. now apply Hfit.
  - exists b. split; trivial. rewrite Hiff. unfold noneOutstanding. split.
    + intros H t. apply H. destruct t; repeat constructor.
    + intros H t _. apply H.
Qed.

(** X3. When the table has a slot for every requested type, [samplesExist]
    returns, and it returns [true] exactly when [needToRecord] is false for
    every type: the samples of a configuration exist when none is
    outstanding. *)
Theorem samplesExist_iff_none_outstanding cfg T :
  tableFits cfg T ->
  exists b, samplesExist cfg T = Some b /\ (b = true <-> noneOutstanding cfg T).
Proof. apply samplesExist_spec. Qed.
End SlotFacts.

(** ** Invariants of the sample collector *)

Lemma forM_invariant {A St : Type} (P : St -> Prop) (xs : list A) (body : St -> A -> option St) :
  (forall x s1 s2, x ∈ xs -> P s1 -> body s1 x = Some s2 -> P s2) ->
  forall s s', P s -> forM xs body s = Some s' -> P s'.
Proof.
  induction xs as [|x xs IH]; intros Hbody s s' Hs Hrun; simpl in Hrun.
  - inversion Hrun; subst; assumption.
  - destruct (body s x) as [s1|] eqn:Hb; [|discriminate]. simpl in Hrun.
    apply (IH (fun y a b Hy => Hbody y a b (list_elem_of_further _ _ _ Hy)) s1 s'); trivial.
    apply (Hbody x s s1); trivial. left.
Qed.

Lemma forM_total {A St : Type} (P : St -> Prop) (xs : list A) (body : St -> A -> option St) :
  (forall x s1, x ∈ xs -> P s1 -> exists s2, body s1 x = Some s2 /\ P s2) ->
  forall s, P s -> exists s', forM xs body s = Some s' /\ P s'.
Proof.
  induction xs as [|x xs IH]; intros Hbody s Hs; simpl.
  - eauto.
  - destruct (Hbody x s ltac:(left) Hs) as (s1 & Hb & Hs1). rewrite Hb. simpl.
    apply IH; trivial. intros y a Hy. apply Hbody. now right.
Qed.

Section FillFacts.
Context {Smp : Type}.
Implicit Types (cfg : SampleConfiguration) (T : list (option Smp)).

Lemma fills_refl allowed cfg T : fills allowed cfg T T.
Proof. repeat split; auto. Qed.

Lemma fills_trans allowed cfg T1 T2 T3 :
  fills allowed cfg T1 T2 -> fills allowed cfg T2 T3 -> fills allowed cfg T1 T3.
Proof.
  intros (L1 & K1 & O1) (L2 & K2 & O2). repeat split.
  - congruence.
  - auto.
  - intros i Hi. rewrite O2, O1; auto.
Qed.

Lemma fills_weaken (allowed allowed' : SampleType -> Prop) cfg T T' :
  (forall t, allowed t -> allowed' t) -> fills allowed cfg T T' -> fills allowed' cfg T T'.
Proof.
  intros Hsub (L & K & O). repeat split; trivial.
  intros i Hi. apply O. intros t Ht. apply Hi. auto.
Qed.

Lemma fills_tableFits allowed cfg T T' : fills allowed cfg T T' -> tableFits cfg T -> tableFits cfg T'.
Proof. intros (L & _) Hfit t Ht. rewrite L. auto. Qed.

(** Filling slots of other types does not change the need for a type. *)
Lemma fills_needToRecord (allowed : SampleType -> Prop) cfg T T' t :
  fills allowed cfg T T' -> ~ allowed t ->
  needToRecord cfg T' t = needToRecord cfg T t.
Proof.
  intros (_ & _ & O) Hna. apply needToRecord_same_slot. intros Hr.
  apply O. intros t' Ha Hr' E. apply Hna.
  now rewrite (slot_inj cfg t t' Hr Hr' E).
Qed.
End FillFacts.

Section CollectorInvariants.
Context `{Ext : Externals} `{MP : ModuleParameters}.

Lemma ADD_SAMPLE_fills (allowed : SampleType -> Prop) cfg T t s T' :
  allowed t -> ADD_SAMPLE cfg T t s = Some T' -> fills allowed cfg T T'.
Proof.
  unfold ADD_SAMPLE. intros Ha H.
  destruct (needToRecord cfg T t) as [[|]|] eqn:Hneed; simpl in H; try discriminate.
  - destruct (requested cfg t) eqn:Hr.
    2:{ rewrite needToRecord_unrequested in Hneed by assumption. discriminate. }
    rewrite needToRecord_requested in Hneed by assumption.
    destruct (record_writes cfg T t s T' H) as (L & _ & O & _).
    repeat split; trivial.
    + intros i s0 Hi. destruct (decide (i = sampleIndexOf cfg t)) as [->|Hne].
      * rewrite Hi in Hneed. discriminate.
      * now rewrite O.
    + intros i Hi. apply O. now apply Hi.
  - inversion H; subst. apply fills_refl.
Qed.

Lemma ADD_SAMPLE_total cfg T t s :
  tableFits cfg T -> is_Some (ADD_SAMPLE cfg T t s).
Proof.
  intros Hfit. unfold ADD_SAMPLE.
  destruct (needToRecord_total cfg T t Hfit) as [b Hb]. rewrite Hb. simpl.
  destruct b; [|eauto].
  apply record_is_Some.
  destruct (requested cfg t) eqn:Hr.
  - split; trivial. now apply Hfit.
  - rewrite needToRecord_unrequested in Hb by assumption. discriminate.
Qed.

Lemma fitLine_total inp cline : windowsFit inp -> is_Some (fitLine inp cline).
Proof.
  intros Hw. unfold fitLine.
  destruct (Hw (aInImage (ordered cline)) (bInImage (ordered cline))) as [Hmin Hmax].
  destruct (maximaOf_total _ Hmin Hmax) as [l Hl]. rewrite Hl. simpl.
  destruct (1 <? length l)%nat; [|eauto].
  destruct (sortMaxima l); eauto.
Qed.

(** *** The triple search *)

Lemma acceptTriple_fills inp cfg range c1 c2 c3 s s' :
  acceptTriple inp cfg range c1 c2 c3 s = Some s' ->
  fills cornerSearchTypes cfg (tsSamples s) (tsSamples s').
Proof.
  unfold acceptTriple. intros H.
  destruct (isInside range _).
  - destruct (ADD_SAMPLE cfg (tsSamples s) cornerAngle _) as [t1|] eqn:H1; [|discriminate].
    simpl in H.
    destruct (ADD_SAMPLE cfg t1 parallelAngle _) as [t2|] eqn:H2; [|discriminate].
    simpl in H.
    destruct (ADD_SAMPLE cfg t2 parallelLinesDistance _) as [t3|] eqn:H3; [|discriminate].
    simpl in H. inversion H; subst s'; simpl.
    eapply fills_trans; [|eapply fills_trans].
    + eapply ADD_SAMPLE_fills; [|exact H1]. unfold cornerSearchTypes. auto.
    + eapply ADD_SAMPLE_fills; [|exact H2]. unfold cornerSearchTypes. auto.
    + eapply ADD_SAMPLE_fills; [|exact H3]. unfold cornerSearchTypes. auto.
  - inversion H; subst s'; simpl. apply fills_refl.
Qed.

Lemma acceptTriple_total inp cfg range c1 c2 c3 s :
  tableFits cfg (tsSamples s) -> is_Some (acceptTriple inp cfg range c1 c2 c3 s).
Proof.
  intros Hfit. unfold acceptTriple.
  destruct (isInside range _); [|eauto].
  destruct (ADD_SAMPLE_total cfg (tsSamples s) cornerAngle
              (CornerAngleSample (theSnapshot inp) c1
                 (if Qltb (squaredNorm (vsub (bOnField c2) (aOnField c2)))
                          (squaredNorm (vsub (bOnField c3) (aOnField c3))) then c2 else c3)) Hfit)
    as [t1 H1].
  rewrite H1. simpl.
  assert (F1 : tableFits cfg t1).
  { eapply fills_tableFits; [|exact Hfit]. eapply (ADD_SAMPLE_fills (fun _ => True)); [|exact H1]. exact I. }
  destruct (ADD_SAMPLE_total cfg t1 parallelAngle (ParallelAngleSample (theSnapshot inp) c2 c3) F1)
    as [t2 H2].
  rewrite H2. simpl.
  assert (F2 : tableFits cfg t2).
  { eapply fills_tableFits; [|exact F1]. eapply (ADD_SAMPLE_fills (fun _ => True)); [|exact H2]. exact I. }
  destruct (ADD_SAMPLE_total cfg t2 parallelLinesDistance
              (ParallelLinesDistanceSample (theSnapshot inp) c2 c3) F2) as [t3 H3].
  rewrite H3. simpl. eauto.
Qed.

(** The body either leaves the state, or only sets the flag, or goes on to
    [acceptTriple] while recording. *)
Lemma tripleBody_cases inp cfg doRecord range li lj lk s s' :
  tripleBody inp cfg doRecord range li lj lk s = Some s' ->
  s' = s \/
  s' = mkTripleScan (tsSamples s) true (discardedParallelLines s) (foundParallelLines s) \/
  (doRecord = true /\
   exists c1 c2 c3,
     acceptTriple inp cfg range c1 c2 c3
       (mkTripleScan (tsSamples s) true (discardedParallelLines s) (foundParallelLines s)) = Some s').
Proof.
  unfold tripleBody. intros H.
  destruct (negb (endNear lj li)); [inversion H; auto|].
  destruct (negb (endNear lk li)); [inversion H; auto|].
  destruct (negb (shortLineClosest li lj lk)); [inversion H; auto|].
  destruct (negb (anglesReasonable li lj lk)); [inversion H; auto|].
  destruct doRecord; simpl in H; [|inversion H; auto].
  destruct (fitLine inp (correctedLineOf (firstImg li) (lastImg li))) as [r1|]; [|discriminate].
  simpl in H. destruct (negb (fst r1)); [inversion H; auto|].
  destruct (fitLine inp (correctedLineOf (firstImg lj) (lastImg lj))) as [r2|]; [|discriminate].
  simpl in H. destruct (negb (fst r2)); [inversion H; auto|].
  destruct (fitLine inp (correctedLineOf (firstImg lk) (lastImg lk))) as [r3|]; [|discriminate].
  simpl in H. destruct (negb (fst r3)); [inversion H; auto|].
  right. right. split; trivial. eauto.
Qed.

Lemma tripleBody_total inp cfg doRecord range li lj lk s :
  windowsFit inp -> tableFits cfg (tsSamples s) ->
  is_Some (tripleBody inp cfg doRecord range li lj lk s).
Proof.
  intros Hw Hfit. unfold tripleBody.
  destruct (negb (endNear lj li)); [eauto|].
  destruct (negb (endNear lk li)); [eauto|].
  destruct (negb (shortLineClosest li lj lk)); [eauto|].
  destruct (negb (anglesReasonable li lj lk)); [eauto|].
  destruct (negb doRecord); [eauto|].
  destruct (fitLine_total inp (correctedLineOf (firstImg li) (lastImg li)) Hw) as [r1 H1].
  rewrite H1. simpl. destruct (negb (fst r1)); [eauto|].
  destruct (fitLine_total inp (correctedLineOf (firstImg lj) (lastImg lj)) Hw) as [r2 H2].
  rewrite H2. simpl. destruct (negb (fst r2)); [eauto|].
  destruct (fitLine_total inp (correctedLineOf (firstImg lk) (lastImg lk)) Hw) as [r3 H3].
  rewrite H3. simpl. destruct (negb (fst r3)); [eauto|].
  now apply acceptTriple_total.
Qed.

(** A property of the loop state that every step of the body keeps is kept
    by the three nested loops. *)
Lemma tripleLoop_invariant (P : TripleScan -> Prop) inp cfg doRecord range :
  (forall li lj lk s s', P s -> tripleBody inp cfg doRecord range li lj lk s = Some s' -> P s') ->
  forall s0 s', P s0 -> tripleLoop inp cfg doRecord range s0 = Some s' -> P s'.
Proof.
  intros Hbody s0 s' H0. unfold tripleLoop.
  apply forM_invariant; trivial. intros i s1 s2 _ H1.
  apply forM_invariant; trivial. intros j s3 s4 _ H3.
  destruct (decide (i = j)); [intros E; inversion E; subst; trivial|].
  apply forM_invariant; trivial. intros k s5 s6 _ H5.
  destruct (decide (i = k)); [intros E; inversion E; subst; trivial|].
  destruct (theLinesPercept inp !! i) as [li|]; [|discriminate]. simpl.
  destruct (theLinesPercept inp !! j) as [lj|]; [|discriminate]. simpl.
  destruct (theLinesPercept inp !! k) as [lk|]; [|discriminate]. simpl.
  now apply Hbody.
Qed.

Lemma tripleLoop_total (P : TripleScan -> Prop) inp cfg doRecord range :
  (forall li lj lk s, P s -> exists s', tripleBody inp cfg doRecord range li lj lk s = Some s' /\ P s') ->
  forall s0, P s0 -> exists s', tripleLoop inp cfg doRecord range s0 = Some s' /\ P s'.
Proof.
  intros Hbody s0 H0. unfold tripleLoop.
  apply (forM_total P); trivial. intros i s1 Hi H1.
  apply (forM_total P); trivial. intros j s3 Hj H3.
  destruct (decide (i = j)); [eauto|].
  apply (forM_total P); trivial. intros k s5 Hk H5.
  destruct (decide (i = k)); [eauto|].
  apply elem_of_seq in Hi, Hj, Hk.
  destruct (lookup_lt_is_Some_2 (theLinesPercept inp) i ltac:(lia)) as [li Hli].
  destruct (lookup_lt_is_Some_2 (theLinesPercept inp) j ltac:(lia)) as [lj Hlj].
  destruct (lookup_lt_is_Some_2 (theLinesPercept inp) k ltac:(lia)) as [lk Hlk].
  rewrite Hli, Hlj, Hlk. simpl. now apply Hbody.
Qed.

Lemma tripleBody_fills inp cfg doRecord range li lj lk s s' :
  tripleBody inp cfg doRecord range li lj lk s = Some s' ->
  fills cornerSearchTypes cfg (tsSamples s) (tsSamples s').
Proof.
  intros H. destruct (tripleBody_cases _ _ _ _ _ _ _ _ _ H) as [->|[->|(_ & c1 & c2 & c3 & Ha)]];
    try apply fills_refl.
  apply (acceptTriple_fills _ _ _ _ _ _ _ _ Ha).
Qed.

Lemma tripleLoop_fills inp cfg doRecord range s0 s' :
  tripleLoop inp cfg doRecord range s0 = Some s' ->
  fills cornerSearchTypes cfg (tsSamples s0) (tsSamples s').
Proof.
  apply (tripleLoop_invariant (fun s => fills cornerSearchTypes cfg (tsSamples s0) (tsSamples s))).
  - intros li lj lk s s1 Hs Hb. eapply fills_trans; [exact Hs|]. eapply tripleBody_fills. exact Hb.
  - apply fills_refl.
Qed.

(** Without [doRecord] the loop can only set the visibility flag. *)
Lemma tripleLoop_not_recording inp cfg range s0 s' :
  tripleLoop inp cfg false range s0 = Some s' ->
  tsSamples s' = tsSamples s0 /\
  discardedParallelLines s' = discardedParallelLines s0 /\
  foundParallelLines s' = foundParallelLines s0.
Proof.
  apply (tripleLoop_invariant
           (fun s => tsSamples s = tsSamples s0 /\
                     discardedParallelLines s = discardedParallelLines s0 /\
                     foundParallelLines s = foundParallelLines s0)); auto.
  intros li lj lk s s1 Hs Hb.
  destruct (tripleBody_cases _ _ _ _ _ _ _ _ _ Hb) as [->|[->|(Hd & _)]]; trivial; discriminate.
Qed.

Lemma tripleLoop_returns inp cfg doRecord range s0 :
  windowsFit inp -> tableFits cfg (tsSamples s0) ->
  exists s', tripleLoop inp cfg doRecord range s0 = Some s'.
Proof.
  intros Hw Hfit.
  destruct (tripleLoop_total (fun s => tableFits cfg (tsSamples s)) inp cfg doRecord range) with (s0 := s0)
    as (s' & Hs' & _); eauto.
  intros li lj lk s Hs.
  destruct (tripleBody_total inp cfg doRecord range li lj lk s Hw Hs) as [s1 H1].
  exists s1. split; trivial.
  eapply fills_tableFits; [|exact Hs]. eapply tripleBody_fills. exact H1.
Qed.
End CollectorInvariants.

Section PairInvariants.
Context `{Ext : Externals} `{MP : ModuleParameters}.

(** *** The search behind the penalty mark *)

Lemma acceptPair_fills inp cfg goalRange groundRange c1 c2 s s' :
  acceptPair inp cfg goalRange groundRange c1 c2 s = Some s' ->
  fills markSearchTypes cfg (psSamples s) (psSamples s').
Proof.
  unfold acceptPair. intros H.
  destruct (negb _ || negb _).
  - inversion H; subst s'; simpl. apply fills_refl.
  - simpl in H.
    destruct (ADD_SAMPLE cfg (psSamples s) goalAreaDistance _) as [t1|] eqn:H1; [|discriminate].
    simpl in H.
    destruct (ADD_SAMPLE cfg t1 groundLineDistance _) as [t2|] eqn:H2; [|discriminate].
    simpl in H.
    destruct (ADD_SAMPLE cfg t2 parallelAngle _) as [t3|] eqn:H3; [|discriminate].
    simpl in H.
    destruct (ADD_SAMPLE cfg t3 parallelLinesDistance _) as [t4|] eqn:H4; [|discriminate].
    simpl in H. inversion H; subst s'; simpl.
    eapply fills_trans; [|eapply fills_trans; [|eapply fills_trans]].
    + eapply ADD_SAMPLE_fills; [|exact H1]. unfold markSearchTypes. auto.
    + eapply ADD_SAMPLE_fills; [|exact H2]. unfold markSearchTypes. auto.
    + eapply ADD_SAMPLE_fills; [|exact H3]. unfold markSearchTypes. auto.
    + eapply ADD_SAMPLE_fills; [|exact H4]. unfold markSearchTypes. auto.
Qed.

Lemma ADD_SAMPLE_keeps_fit cfg T t s T' :
  tableFits cfg T -> ADD_SAMPLE cfg T t s = Some T' -> tableFits cfg T'.
Proof.
  intros Hfit H. eapply fills_tableFits; [|exact Hfit].
  eapply (ADD_SAMPLE_fills (fun _ => True)); [exact I|exact H].
Qed.

Lemma acceptPair_total inp cfg goalRange groundRange c1 c2 s :
  tableFits cfg (psSamples s) -> is_Some (acceptPair inp cfg goalRange groundRange c1 c2 s).
Proof.
  intros Hfit. unfold acceptPair.
  destruct (negb _ || negb _); [eauto|]. simpl.
  match goal with |- context [ADD_SAMPLE cfg (psSamples s) goalAreaDistance ?x] =>
    destruct (ADD_SAMPLE_total cfg (psSamples s) goalAreaDistance x Hfit) as [t1 H1] end.
  rewrite H1. simpl.
  pose proof (ADD_SAMPLE_keeps_fit _ _ _ _ _ Hfit H1) as F1.
  match goal with |- context [ADD_SAMPLE cfg t1 groundLineDistance ?x] =>
    destruct (ADD_SAMPLE_total cfg t1 groundLineDistance x F1) as [t2 H2] end.
  rewrite H2. simpl.
  pose proof (ADD_SAMPLE_keeps_fit _ _ _ _ _ F1 H2) as F2.
  match goal with |- context [ADD_SAMPLE cfg t2 parallelAngle ?x] =>
    destruct (ADD_SAMPLE_total cfg t2 parallelAngle x F2) as [t3 H3] end.
  rewrite H3. simpl.
  pose proof (ADD_SAMPLE_keeps_fit _ _ _ _ _ F2 H3) as F3.
  match goal with |- context [ADD_SAMPLE cfg t3 parallelLinesDistance ?x] =>
    destruct (ADD_SAMPLE_total cfg t3 parallelLinesDistance x F3) as [t4 H4] end.
  rewrite H4. simpl. eauto.
Qed.

Lemma pairBody_cases inp cfg doRecord goalRange groundRange li lj s s' :
  pairBody inp cfg doRecord goalRange groundRange li lj s = Some s' ->
  s' = s \/
  s' = mkPairScan (psSamples s) true (discardedGoalAreaLine s) (foundGoalAreaLine s)
                  (discardedGroundLine s) (foundGroundLine s) \/
  (doRecord = true /\
   exists c1 c2,
     acceptPair inp cfg goalRange groundRange c1 c2
       (mkPairScan (psSamples s) true (discardedGoalAreaLine s) (foundGoalAreaLine s)
                   (discardedGroundLine s) (foundGroundLine s)) = Some s').
Proof.
  unfold pairBody. intros H.
  destruct (negb (spansHalfImage inp li) || negb (spansHalfImage inp lj)); [inversion H; auto|].
  destruct (negb (sameSide li lj)); [inversion H; auto|].
  destruct (negb (behindMark inp li lj)); [inversion H; auto|].
  destruct doRecord; simpl in H; [|inversion H; auto].
  match type of H with (fitLine inp ?x ≫= _) = _ => destruct (fitLine inp x) as [r1|] end;
    [|discriminate].
  simpl in H. destruct (negb (fst r1)); [inversion H; auto|].
  match type of H with (fitLine inp ?x ≫= _) = _ => destruct (fitLine inp x) as [r2|] end;
    [|discriminate].
  simpl in H. destruct (negb (fst r2)); [inversion H; auto|].
  right. right. split; trivial. eauto.
Qed.

Lemma pairBody_total inp cfg doRecord goalRange groundRange li lj s :
  windowsFit inp -> tableFits cfg (psSamples s) ->
  is_Some (pairBody inp cfg doRecord goalRange groundRange li lj s).
Proof.
  intros Hw Hfit. unfold pairBody.
  destruct (negb (spansHalfImage inp li) || negb (spansHalfImage inp lj)); [eauto|].
  destruct (negb (sameSide li lj)); [eauto|].
  destruct (negb (behindMark inp li lj)); [eauto|].
  destruct (negb doRecord); [eauto|]. simpl.
  match goal with |- context [fitLine inp ?x ≫= _] =>
    destruct (fitLine_total inp x Hw) as [r1 H1] end.
  rewrite H1. simpl. destruct (negb (fst r1)); [eauto|].
  match goal with |- context [fitLine inp ?x ≫= _] =>
    destruct (fitLine_total inp x Hw) as [r2 H2] end.
  rewrite H2. simpl. destruct (negb (fst r2)); [eauto|].
  now apply acceptPair_total.
Qed.

Lemma pairLoop_invariant (P : PairScan -> Prop) inp cfg doRecord goalRange groundRange :
  (forall li lj s s', P s ->
     pairBody inp cfg doRecord goalRange groundRange li lj s = Some s' -> P s') ->
  forall s0 s', P s0 -> pairLoop inp cfg doRecord goalRange groundRange s0 = Some s' -> P s'.
Proof.
  intros Hbody s0 s' H0. unfold pairLoop.
  apply forM_invariant; trivial. intros i s1 s2 _ H1.
  apply forM_invariant; trivial. intros j s3 s4 _ H3.
  destruct (theLinesPercept inp !! i) as [li|]; [|discriminate]. simpl.
  destruct (theLinesPercept inp !! j) as [lj|]; [|discriminate]. simpl.
  now apply Hbody.
Qed.

Lemma pairLoop_total (P : PairScan -> Prop) inp cfg doRecord goalRange groundRange :
  (forall li lj s, P s ->
     exists s', pairBody inp cfg doRecord goalRange groundRange li lj s = Some s' /\ P s') ->
  forall s0, P s0 ->
    exists s', pairLoop inp cfg doRecord goalRange groundRange s0 = Some s' /\ P s'.
Proof.
  intros Hbody s0 H0. unfold pairLoop.
  apply (forM_total P); trivial. intros i s1 Hi H1.
  apply (forM_total P); trivial. intros j s3 Hj H3.
  apply elem_of_seq in Hi, Hj.
  destruct (lookup_lt_is_Some_2 (theLinesPercept inp) i ltac:(lia)) as [li Hli].
  destruct (lookup_lt_is_Some_2 (theLinesPercept inp) j ltac:(lia)) as [lj Hlj].
  rewrite Hli, Hlj. simpl. now apply Hbody.
Qed.

Lemma pairBody_fills inp cfg doRecord goalRange groundRange li lj s s' :
  pairBody inp cfg doRecord goalRange groundRange li lj s = Some s' ->
  fills markSearchTypes cfg (psSamples s) (psSamples s').
Proof.
  intros H. destruct (pairBody_cases _ _ _ _ _ _ _ _ _ H) as [->|[->|(_ & c1 & c2 & Ha)]];
    try apply fills_refl.
  apply (acceptPair_fills _ _ _ _ _ _ _ _ Ha).
Qed.

Lemma pairLoop_fills inp cfg doRecord goalRange groundRange s0 s' :
  pairLoop inp cfg doRecord goalRange groundRange s0 = Some s' ->
  fills markSearchTypes cfg (psSamples s0) (psSamples s').
Proof.
  apply (pairLoop_invariant (fun s => fills markSearchTypes cfg (psSamples s0) (psSamples s))).
  - intros li lj s s1 Hs Hb. eapply fills_trans; [exact Hs|]. eapply pairBody_fills. exact Hb.
  - apply fills_refl.
Qed.

Lemma pairLoop_not_recording inp cfg goalRange groundRange s0 s' :
  pairLoop inp cfg false goalRange groundRange s0 = Some s' ->
  psSamples s' = psSamples s0.
Proof.
  apply (pairLoop_invariant (fun s => psSamples s = psSamples s0)); auto.
  intros li lj s s1 Hs Hb.
  destruct (pairBody_cases _ _ _ _ _ _ _ _ _ Hb) as [->|[->|(Hd & _)]]; trivial; discriminate.
Qed.

Lemma pairLoop_returns inp cfg doRecord goalRange groundRange s0 :
  windowsFit inp -> tableFits cfg (psSamples s0) ->
  exists s', pairLoop inp cfg doRecord goalRange groundRange s0 = Some s'.
Proof.
  intros Hw Hfit.
  destruct (pairLoop_total (fun s => tableFits cfg (psSamples s)) inp cfg doRecord
              goalRange groundRange) with (s0 := s0) as (s' & Hs' & _); eauto.
  intros li lj s Hs.
  destruct (pairBody_total inp cfg doRecord goalRange groundRange li lj s Hw Hs) as [s1 H1].
  exists s1. split; trivial.
  eapply fills_tableFits; [|exact Hs]. eapply pairBody_fills. exact H1.
Qed.

(** *** One cycle *)

Lemma INCREASE_RANGE_cases discarded found num range num' range' :
  INCREASE_RANGE discarded found num range = (num', range') ->
  ((if discarded && negb found then num + 1 else num) < discardsUntilIncrease /\
   num' = (if discarded && negb found then num + 1 else num) /\ range' = range) \/
  (discardsUntilIncrease <= (if discarded && negb found then num + 1 else num) /\
   num' = 0 /\ range' = widened range).
Proof.
  unfold INCREASE_RANGE. intros H.
  destruct (discardsUntilIncrease <=? _) eqn:E; inversion H; subst.
  - right. apply Z.leb_le in E. auto.
  - left. apply Z.leb_gt in E. auto.
Qed.

Lemma INCREASE_RANGE_bounded discarded found num range num' range' :
  0 <= num < discardsUntilIncrease ->
  INCREASE_RANGE discarded found num range = (num', range') ->
  0 <= num' < discardsUntilIncrease.
Proof.
  intros Hn H. destruct (INCREASE_RANGE_cases _ _ _ _ _ _ H) as [(? & -> & _)|(? & -> & _)].
  - destruct (discarded && negb found); lia.
  - lia.
Qed.

(** What a search leaves of the collector: the table of the loop, and the
    counters and ranges of the search passed through [INCREASE_RANGE] when
    recording. *)
Lemma cornerSearch_effect inp cfg doRecord c c' :
  cornerSearch inp cfg doRecord c = Some c' ->
  fills cornerSearchTypes cfg (samples c) (samples c') /\
  (doRecord = false -> samples c' = samples c /\ countersEqual c c' /\
                       rangesEqual (camera cfg) c c') /\
  rangesStep (camera cfg) c c' /\
  rangesEqual (otherCamera (camera cfg)) c c' /\
  (countersBounded c -> countersBounded c').
Proof.
  unfold cornerSearch. intros H.
  destruct (tripleLoop _ _ _ _ _) as [s|] eqn:Hloop; [|discriminate]. simpl in H.
  pose proof (tripleLoop_fills _ _ _ _ _ _ Hloop) as Hf. simpl in Hf.
  destruct doRecord.
  - destruct (INCREASE_RANGE _ _ _ _) as [n1 r1] eqn:Hinc.
    inversion H; subst c'. clear H. simpl in Hinc.
    split; [destruct (camera cfg); exact Hf|].
    split; [discriminate|].
    pose proof (INCREASE_RANGE_cases _ _ _ _ _ _ Hinc) as Hcases.
    split; [|split].
    + unfold rangesStep, rangeStep.
      destruct (camera cfg); simpl in *; repeat split; auto;
        destruct Hcases as [(_ & _ & ->)|(_ & _ & ->)]; auto.
    + unfold rangesEqual. destruct (camera cfg); simpl; auto.
    + intros (Hp & Hg & Hl). unfold countersBounded.
      pose proof (INCREASE_RANGE_bounded _ _ _ _ _ _ Hp Hinc).
      destruct (camera cfg); simpl; auto.
  - inversion H; subst c'. clear H. simpl.
    destruct (tripleLoop_not_recording _ _ _ _ _ Hloop) as (Hs & _). simpl in Hs.
    split; [exact Hf|].
    split; [intros _; unfold countersEqual, rangesEqual; destruct (camera cfg); simpl; auto|].
    split; [|split].
    + unfold rangesStep, rangeStep. destruct (camera cfg); simpl; auto.
    + unfold rangesEqual. destruct (camera cfg); simpl; auto.
    + auto.
Qed.

Lemma markSearch_effect inp cfg doRecord c c' :
  markSearch inp cfg doRecord c = Some c' ->
  fills markSearchTypes cfg (samples c) (samples c') /\
  (doRecord = false -> samples c' = samples c /\ countersEqual c c' /\
                       rangesEqual (camera cfg) c c') /\
  rangesStep (camera cfg) c c' /\
  rangesEqual (otherCamera (camera cfg)) c c' /\
  (countersBounded c -> countersBounded c').
Proof.
  unfold markSearch. intros H.
  destruct (pairLoop _ _ _ _ _ _) as [s|] eqn:Hloop; [|discriminate]. simpl in H.
  pose proof (pairLoop_fills _ _ _ _ _ _ _ Hloop) as Hf. simpl in Hf.
  destruct doRecord.
  - destruct (INCREASE_RANGE (discardedGoalAreaLine s) _ _ _) as [n1 r1] eqn:Hinc1.
    destruct (INCREASE_RANGE (discardedGroundLine s) _ _ _) as [n2 r2] eqn:Hinc2.
    inversion H; subst c'. clear H. simpl in Hinc1, Hinc2.
    split; [destruct (camera cfg); exact Hf|].
    split; [discriminate|].
    pose proof (INCREASE_RANGE_cases _ _ _ _ _ _ Hinc1) as Hc1.
    pose proof (INCREASE_RANGE_cases _ _ _ _ _ _ Hinc2) as Hc2.
    split; [|split].
    + unfold rangesStep, rangeStep.
      destruct (camera cfg); simpl in *; repeat split; auto;
        destruct Hc1 as [(_ & _ & ->)|(_ & _ & ->)];
        destruct Hc2 as [(_ & _ & ->)|(_ & _ & ->)]; auto.
    + unfold rangesEqual. destruct (camera cfg); simpl; auto.
    + intros (Hp & Hg & Hl). unfold countersBounded.
      pose proof (INCREASE_RANGE_bounded _ _ _ _ _ _ Hg Hinc1).
      pose proof (INCREASE_RANGE_bounded _ _ _ _ _ _ Hl Hinc2).
      destruct (camera cfg); simpl; auto.
  - inversion H; subst c'. clear H. simpl.
    pose proof (pairLoop_not_recording _ _ _ _ _ _ Hloop) as Hs. simpl in Hs.
    split; [exact Hf|].
    split; [intros _; unfold countersEqual, rangesEqual; destruct (camera cfg); simpl; auto|].
    split; [|split].
    + unfold rangesStep, rangeStep. destruct (camera cfg); simpl; auto.
    + unfold rangesEqual. destruct (camera cfg); simpl; auto.
    + auto.
Qed.

(** The steps of a cycle for the camera of the configuration. *)
Lemma recordSamples_steps inp cfg req c c' :
  recordSamples inp cfg req c = Some c' ->
  c' = c \/
  exists g1 c1 g2 c2 g3,
    let doRecord := SampleConfigurationRequest.doRecord req in
    let c0 := setVisible c false in
    cornerGuard inp cfg c0 = Some g1 /\
    (if g1 : bool then cornerSearch inp cfg doRecord c0 else Some c0) = Some c1 /\
    markGuard inp cfg c1 = Some g2 /\
    (if g2 : bool then markSearch inp cfg doRecord c1 else Some c1) = Some c2 /\
    nothingOutstanding cfg c2 = Some g3 /\
    c' = (if g3 : bool then setVisible (setDiscardCounters c2 0 0 0) true else c2).
Proof.
  unfold recordSamples. intros H.
  destruct (negb _); [inversion H; auto|]. right.
  destruct (cornerGuard _ _ _) as [g1|] eqn:G1; [|discriminate]. simpl in H.
  destruct (if g1 then _ else _) as [c1|] eqn:H1; [|discriminate]. simpl in H.
  destruct (markGuard _ _ _) as [g2|] eqn:G2; [|discriminate]. simpl in H.
  destruct (if g2 then _ else _) as [c2|] eqn:H2; [|discriminate]. simpl in H.
  destruct (nothingOutstanding cfg c2) as [g3|] eqn:G3; [|discriminate]. simpl in H.
  inversion H. exists g1, c1, g2, c2, g3. simpl. repeat split; trivial.
Qed.

(** A relation between collectors that the steps of a cycle respect holds
    between the collector before and after the cycle. *)
Lemma recordSamples_relates (R : Collector -> Collector -> Prop) inp cfg req :
  (forall c, R c c) ->
  (forall a b c, R a b -> R b c -> R a c) ->
  (forall c, R c (setVisible c false)) ->
  (forall c c', cornerSearch inp cfg (SampleConfigurationRequest.doRecord req) c = Some c' -> R c c') ->
  (forall c c', markSearch inp cfg (SampleConfigurationRequest.doRecord req) c = Some c' -> R c c') ->
  (forall c, R c (setVisible (setDiscardCounters c 0 0 0) true)) ->
  forall c c', recordSamples inp cfg req c = Some c' -> R c c'.
Proof.
  intros Hrefl Htrans Hvis Hcorner Hmark Hreset c c' H.
  destruct (recordSamples_steps _ _ _ _ _ H)
    as [->|(g1 & c1 & g2 & c2 & g3 & _ & H1 & _ & H2 & _ & ->)]; [apply Hrefl|].
  apply (Htrans _ (setVisible c false)); [apply Hvis|].
  apply (Htrans _ c1).
  { destruct g1; [now apply Hcorner|inversion H1; apply Hrefl]. }
  apply (Htrans _ c2).
  { destruct g2; [now apply Hmark|inversion H2; apply Hrefl]. }
  destruct g3; [apply Hreset|apply Hrefl].
Qed.
End PairInvariants.
(** ** Recording cycles *)

Section CycleFacts.
Context `{Ext : Externals} `{MP : ModuleParameters}.

Lemma cornerSearch_other_ranges inp cfg doRecord c c' cam :
  cornerSearch inp cfg doRecord c = Some c' ->
  goalAreaDisRange cam c' = goalAreaDisRange cam c /\
  groundLineDisRange cam c' = groundLineDisRange cam c.
Proof.
  unfold cornerSearch. intros H.
  destruct (tripleLoop _ _ _ _ _) as [s|]; [|discriminate]. simpl in H.
  destruct doRecord; [destruct (INCREASE_RANGE _ _ _ _) as [n1 r1]|];
    inversion H; subst c'; destruct (camera cfg), cam; simpl; auto.
Qed.

Lemma markSearch_other_ranges inp cfg doRecord c c' cam :
  markSearch inp cfg doRecord c = Some c' ->
  parallelLinesRange cam c' = parallelLinesRange cam c.
Proof.
  unfold markSearch. intros H.
  destruct (pairLoop _ _ _ _ _ _) as [s|]; [|discriminate]. simpl in H.
  destruct doRecord;
    [destruct (INCREASE_RANGE (discardedGoalAreaLine s) _ _ _) as [n1 r1];
     destruct (INCREASE_RANGE (discardedGroundLine s) _ _ _) as [n2 r2]|];
    inversion H; subst c'; destruct (camera cfg), cam; simpl; auto.
Qed.

Lemma orElse_false a b : orElse a b = Some false -> a = Some false /\ b = Some false.
Proof. destruct a as [[|]|]; simpl; auto; discriminate. Qed.

Lemma orElse_true a b : orElse a b = Some true -> a = Some true \/ b = Some true.
Proof. destruct a as [[|]|]; simpl; auto; discriminate. Qed.

Lemma cornerGuard_true inp cfg c :
  cornerGuard inp cfg c = Some true ->
  (3 <= length (theLinesPercept inp) <= 8)%nat /\
  needToRecord cfg (samples c) goalAreaDistance = Some false /\
  needToRecord cfg (samples c) groundLineDistance = Some false.
Proof.
  unfold cornerGuard. intros H.
  destruct ((3 <=? _)%nat && (_ <=? 8)%nat) eqn:E; [|discriminate].
  apply andb_true_iff in E as [E1 E2]. apply Nat.leb_le in E1, E2.
  split; [lia|].
  unfold andAlso in H.
  destruct (orElse (needToRecord cfg (samples c) cornerAngle) _) as [[|]|]; simpl in H;
    try discriminate.
  destruct (orElse (needToRecord cfg (samples c) goalAreaDistance) _) as [[|]|] eqn:Ho;
    simpl in H; try discriminate.
  now apply orElse_false.
Qed.

Lemma markGuard_true inp cfg c :
  markGuard inp cfg c = Some true ->
  PenaltyMarkPercept.wasSeen (thePenaltyMarkPercept inp) = true /\
  (2 <= length (theLinesPercept inp) <= 8)%nat.
Proof.
  unfold markGuard. intros H.
  destruct (_ && (2 <=? _)%nat && (_ <=? 8)%nat) eqn:E; [|discriminate].
  apply andb_true_iff in E as [E E2]. apply andb_true_iff in E as [E0 E1].
  apply Nat.leb_le in E1, E2. split; [exact E0|lia].
Qed.

Lemma cornerGuard_total inp cfg c : tableFits cfg (samples c) -> is_Some (cornerGuard inp cfg c).
Proof.
  intros Hfit. unfold cornerGuard, andAlso, orElse.
  destruct (_ && _); [|eauto].
  destruct (needToRecord_total cfg (samples c) cornerAngle Hfit) as [b1 ->].
  destruct (needToRecord_total cfg (samples c) parallelAngle Hfit) as [b2 ->].
  destruct (needToRecord_total cfg (samples c) parallelLinesDistance Hfit) as [b3 ->].
  destruct (needToRecord_total cfg (samples c) goalAreaDistance Hfit) as [b4 ->].
  destruct (needToRecord_total cfg (samples c) groundLineDistance Hfit) as [b5 ->].
  destruct b1, b2, b3, b4, b5; simpl; eauto.
Qed.

Lemma markGuard_total inp cfg c : tableFits cfg (samples c) -> is_Some (markGuard inp cfg c).
Proof.
  intros Hfit. unfold markGuard, orElse.
  destruct (_ && _ && _); [|eauto].
  destruct (needToRecord_total cfg (samples c) goalAreaDistance Hfit) as [b4 ->].
  destruct (needToRecord_total cfg (samples c) groundLineDistance Hfit) as [b5 ->].
  destruct b4, b5; simpl; eauto.
Qed.

Lemma nothingOutstanding_total cfg c :
  tableFits cfg (samples c) -> is_Some (nothingOutstanding cfg c).
Proof.
  intros Hfit. unfold nothingOutstanding, andAlso.
  destruct (needToRecord_total cfg (samples c) cornerAngle Hfit) as [b1 ->].
  destruct (needToRecord_total cfg (samples c) parallelAngle Hfit) as [b2 ->].
  destruct (needToRecord_total cfg (samples c) parallelLinesDistance Hfit) as [b3 ->].
  destruct (needToRecord_total cfg (samples c) goalAreaDistance Hfit) as [b4 ->].
  destruct (needToRecord_total cfg (samples c) groundLineDistance Hfit) as [b5 ->].
  destruct b1, b2, b3, b4, b5; simpl; eauto.
Qed.

Lemma cornerSearch_total inp cfg doRecord c :
  windowsFit inp -> tableFits cfg (samples c) -> is_Some (cornerSearch inp cfg doRecord c).
Proof.
  intros Hw Hfit. unfold cornerSearch.
  destruct (tripleLoop_returns inp cfg doRecord (parallelLinesRange (camera cfg) c)
              (mkTripleScan (samples c) (allRequiredFeaturesVisible c) false false) Hw Hfit)
    as [s ->].
  simpl. destruct doRecord; [destruct (INCREASE_RANGE _ _ _ _)|]; eauto.
Qed.

Lemma markSearch_total inp cfg doRecord c :
  windowsFit inp -> tableFits cfg (samples c) -> is_Some (markSearch inp cfg doRecord c).
Proof.
  intros Hw Hfit. unfold markSearch.
  destruct (pairLoop_returns inp cfg doRecord (goalAreaDisRange (camera cfg) c)
              (groundLineDisRange (camera cfg) c)
              (mkPairScan (samples c) (allRequiredFeaturesVisible c) false false false false) Hw Hfit)
    as [s ->].
  simpl.
  destruct doRecord;
    [destruct (INCREASE_RANGE (discardedGoalAreaLine s) _ _ _);
     destruct (INCREASE_RANGE (discardedGroundLine s) _ _ _)|]; eauto.
Qed.

(** One cycle writes the table only by filling empty slots of the
    configuration. *)
Lemma recordSamples_fills inp cfg req c c' :
  recordSamples inp cfg req c = Some c' ->
  fills (fun _ => True) cfg (samples c) (samples c').
Proof.
  apply (recordSamples_relates (fun a b => fills (fun _ => True) cfg (samples a) (samples b))).
  - intros a. apply fills_refl.
  - intros a b d. apply fills_trans.
  - intros a. apply fills_refl.
  - intros a b H. eapply fills_weaken; [|apply (cornerSearch_effect _ _ _ _ _ H)]. auto.
  - intros a b H. eapply fills_weaken; [|apply (markSearch_effect _ _ _ _ _ H)]. auto.
  - intros a. apply fills_refl.
Qed.

Lemma recordSamples_total inp cfg req c :
  windowsFit inp -> tableFits cfg (samples c) -> is_Some (recordSamples inp cfg req c).
Proof.
  intros Hw Hfit. unfold recordSamples.
  destruct (negb _); [eauto|].
  assert (F0 : tableFits cfg (samples (setVisible c false))) by exact Hfit.
  destruct (cornerGuard_total inp cfg _ F0) as [g1 ->]. simpl.
  assert (H1 : exists c1, (if g1 then cornerSearch inp cfg (SampleConfigurationRequest.doRecord req)
                                       (setVisible c false)
                           else Some (setVisible c false)) = Some c1 /\
                          tableFits cfg (samples c1)).
  { destruct g1; [|eauto].
    destruct (cornerSearch_total inp cfg (SampleConfigurationRequest.doRecord req) _ Hw F0)
      as [c1 H1].
    exists c1. split; trivial.
    eapply fills_tableFits; [apply (cornerSearch_effect _ _ _ _ _ H1)|exact F0]. }
  destruct H1 as (c1 & -> & F1). simpl.
  destruct (markGuard_total inp cfg _ F1) as [g2 ->]. simpl.
  assert (H2 : exists c2, (if g2 then markSearch inp cfg (SampleConfigurationRequest.doRecord req) c1
                           else Some c1) = Some c2 /\
                          tableFits cfg (samples c2)).
  { destruct g2; [|eauto].
    destruct (markSearch_total inp cfg (SampleConfigurationRequest.doRecord req) _ Hw F1)
      as [c2 H2].
    exists c2. split; trivial.
    eapply fills_tableFits; [apply (markSearch_effect _ _ _ _ _ H2)|exact F1]. }
  destruct H2 as (c2 & -> & F2). simpl.
  destruct (nothingOutstanding_total cfg _ F2) as [g3 ->]. simpl. eauto.
Qed.

(** X4. Over any run of recording cycles for a configuration the table
    keeps its length, a sample once recorded stays in its slot unchanged,
    and only slots of the requested types of the configuration are
    written. *)
Theorem recorded_samples_are_kept (cycles : list (Inputs * SampleConfigurationRequest.t))
        (cfg : SampleConfiguration) (c c' : Collector) :
  recordCycles cycles cfg c = Some c' ->
  length (samples c') = length (samples c) /\
  (forall i s, samples c !! i = Some (Some s) -> samples c' !! i = Some (Some s)) /\
  (forall i, (forall t, requested cfg t = true -> i <> sampleIndexOf cfg t) ->
             samples c' !! i = samples c !! i).
Proof.
  intros H.
  assert (Hf : fills (fun _ => True) cfg (samples c) (samples c')).
  { revert c H. induction cycles as [|[inp req] rest IH]; intros c H; simpl in H.
    - inversion H. apply fills_refl.
    - destruct (recordSamples inp cfg req c) as [c1|] eqn:H1; [|discriminate]. simpl in H.
      eapply fills_trans; [apply (recordSamples_fills _ _ _ _ _ H1)|apply IH, H]. }
  destruct Hf as (L & K & O). repeat split; auto.
Qed.

(** X5. When the sectors that [fitLine] looks at lie inside the Hough
    table and the sample table has a slot for every requested type, no
    assertion fails in a run of recording cycles: every cycle returns, and
    the table still has the slots afterwards. *)
Theorem recording_cycles_return (cycles : list (Inputs * SampleConfigurationRequest.t))
        (cfg : SampleConfiguration) (c : Collector) :
  (forall inp req, (inp, req) ∈ cycles -> windowsFit inp) ->
  tableFits cfg (samples c) ->
  exists c', recordCycles cycles cfg c = Some c' /\ tableFits cfg (samples c').
Proof.
  revert c. induction cycles as [|[inp req] rest IH]; intros c Hw Hfit; simpl.
  - eauto.
  - destruct (recordSamples_total inp cfg req c (Hw inp req ltac:(left)) Hfit) as [c1 H1].
    rewrite H1. simpl. apply IH.
    + intros inp' req' Hin. apply (Hw inp' req'). now right.
    + eapply fills_tableFits; [apply (recordSamples_fills _ _ _ _ _ H1)|exact Hfit].
Qed.


Lemma rangeStep_within (r r' : Rangef) : (0 <= increase)%Q -> rangeStep r r' -> rangeWithin r r'.
Proof.
  intros Hinc [->| ->]; unfold rangeWithin, widened; simpl; split; lra.
Qed.

(** X7. In one cycle each of the three ranges of the configuration's
    camera stays as it is or is widened once, by [increase] on both sides;
    the ranges of the other camera are not touched. With an [increase] that
    is not negative no range gets narrower. *)
Theorem ranges_widen_one_step (inp : Inputs) (cfg : SampleConfiguration)
        (req : SampleConfigurationRequest.t) (c c' : Collector) :
  recordSamples inp cfg req c = Some c' ->
  rangesStep (camera cfg) c c' /\
  rangesEqual (otherCamera (camera cfg)) c c' /\
  ((0 <= increase)%Q -> rangesWiden (camera cfg) c c').
Proof.
  intros H.
  assert (Hstep : rangesStep (camera cfg) c c' /\ rangesEqual (otherCamera (camera cfg)) c c').
  { destruct (recordSamples_steps _ _ _ _ _ H)
      as [->|(g1 & c1 & g2 & c2 & g3 & _ & H1 & _ & H2 & _ & ->)].
    { unfold rangesStep, rangeStep, rangesEqual. auto 10. }
    assert (R1 : rangeStep (parallelLinesRange (camera cfg) c) (parallelLinesRange (camera cfg) c1) /\
                 (forall cam, goalAreaDisRange cam c1 = goalAreaDisRange cam c /\
                              groundLineDisRange cam c1 = groundLineDisRange cam c) /\
                 rangesEqual (otherCamera (camera cfg)) c c1).
    { destruct g1.
      - destruct (cornerSearch_effect _ _ _ _ _ H1) as (_ & _ & (St & _) & Ho & _).
        split; [|split].
        + destruct (camera cfg); exact St.
        + intros cam. destruct (cornerSearch_other_ranges _ _ _ _ _ cam H1) as [E1 E2].
          rewrite E1, E2. destruct cam; auto.
        + destruct (camera cfg); exact Ho.
      - inversion H1; subst c1. unfold rangeStep, rangesEqual.
        split; [|split]; [destruct (camera cfg); auto| intros []; auto |
                          destruct (camera cfg); simpl; auto]. }
    assert (R2 : rangeStep (goalAreaDisRange (camera cfg) c1) (goalAreaDisRange (camera cfg) c2) /\
                 rangeStep (groundLineDisRange (camera cfg) c1) (groundLineDisRange (camera cfg) c2) /\
                 (forall cam, parallelLinesRange cam c2 = parallelLinesRange cam c1) /\
                 rangesEqual (otherCamera (camera cfg)) c1 c2).
    { destruct g2.
      - destruct (markSearch_effect _ _ _ _ _ H2) as (_ & _ & (_ & St1 & St2) & Ho & _).
        repeat split; trivial; try apply Ho.
        intros cam. apply (markSearch_other_ranges _ _ _ _ _ cam H2).
      - inversion H2; subst c2. unfold rangeStep, rangesEqual. auto 10. }
    destruct R1 as (P1 & O1 & (E1 & E1' & E1'')). destruct R2 as (G2 & L2 & O2 & (E2 & E2' & E2'')).
    assert (Hlast : forall cam,
               parallelLinesRange cam (if g3 then setVisible (setDiscardCounters c2 0 0 0) true else c2)
               = parallelLinesRange cam c2 /\
               goalAreaDisRange cam (if g3 then setVisible (setDiscardCounters c2 0 0 0) true else c2)
               = goalAreaDisRange cam c2 /\
               groundLineDisRange cam (if g3 then setVisible (setDiscardCounters c2 0 0 0) true else c2)
               = groundLineDisRange cam c2).
    { intros cam. destruct g3, cam; simpl; auto. }
    split.
    - destruct (Hlast (camera cfg)) as (A & B & D).
      destruct (O1 (camera cfg)) as [Eg El].
      unfold rangesStep. rewrite A, B, D, O2. rewrite <- Eg, <- El. auto.
    - destruct (Hlast (otherCamera (camera cfg))) as (A & B & D).
      unfold rangesEqual. rewrite A, B, D. repeat split; congruence. }
  destruct Hstep as [(S1 & S2 & S3) Ho]. split; [now repeat split|]. split; [exact Ho|].
  intros Hinc. repeat split; now apply rangeStep_within.
Qed.

(** X8. The three discard counters stay in the interval from 0 up to, but
    not including, [discardsUntilIncrease] over any run of recording
    cycles. *)
Theorem discard_counters_stay_bounded (cycles : list (Inputs * SampleConfigurationRequest.t))
        (cfg : SampleConfiguration) (c c' : Collector) :
  countersBounded c ->
  recordCycles cycles cfg c = Some c' ->
  countersBounded c'.
Proof.
  revert c. induction cycles as [|[inp req] rest IH]; intros c Hb H; simpl in H.
  - now inversion H; subst.
  - destruct (recordSamples inp cfg req c) as [c1|] eqn:H1; [|discriminate]. simpl in H.
    apply (IH c1); trivial. clear H IH. revert Hb. revert c c1 H1.
    apply (recordSamples_relates (fun a b => countersBounded a -> countersBounded b)); auto.
    + intros a b Hs. apply (cornerSearch_effect _ _ _ _ _ Hs).
    + intros a b Hs. apply (markSearch_effect _ _ _ _ _ Hs).
    + intros a (Hp & _). unfold countersBounded. simpl. lia.
Qed.

(** X9. A corner-angle sample is recorded only in a cycle that asks to
    record, sees between 3 and 8 lines, and has no mark distance
    outstanding: the distances to the penalty mark come first. *)
Theorem corner_sample_after_mark_distances (inp : Inputs) (cfg : SampleConfiguration)
        (req : SampleConfigurationRequest.t) (c c' : Collector) :
  recordSamples inp cfg req c = Some c' ->
  needToRecord cfg (samples c) cornerAngle = Some true ->
  needToRecord cfg (samples c') cornerAngle = Some false ->
  SampleConfigurationRequest.doRecord req = true /\
  (3 <= length (theLinesPercept inp) <= 8)%nat /\
  needToRecord cfg (samples c) goalAreaDistance = Some false /\
  needToRecord cfg (samples c) groundLineDistance = Some false.
Proof.
  intros H Hbefore Hafter.
  destruct (recordSamples_steps _ _ _ _ _ H)
    as [->|(g1 & c1 & g2 & c2 & g3 & G1 & H1 & _ & H2 & _ & ->)]; [congruence|].
  assert (E3 : samples (if g3 then setVisible (setDiscardCounters c2 0 0 0) true else c2) = samples c2)
    by (destruct g3; reflexivity).
  rewrite E3 in Hafter.
  assert (E2 : needToRecord cfg (samples c2) cornerAngle = needToRecord cfg (samples c1) cornerAngle).
  { destruct g2; [|now inversion H2].
    apply (fills_needToRecord markSearchTypes); [apply (markSearch_effect _ _ _ _ _ H2)|].
    unfold markSearchTypes. intros [?|[?|[?|?]]]; discriminate. }
  rewrite E2 in Hafter.
  destruct g1; [|inversion H1; subst c1; simpl in Hafter; congruence].
  destruct (cornerGuard_true _ _ _ G1) as (Hn & Hga & Hgl). simpl in Hga, Hgl.
  split; [|auto].
  destruct (SampleConfigurationRequest.doRecord req); trivial.
  destruct (cornerSearch_effect _ _ _ _ _ H1) as (_ & Hno & _).
  destruct (Hno eq_refl) as (Hs & _). rewrite Hs in Hafter. simpl in Hafter. congruence.
Qed.

(** X10. A distance to the penalty mark is recorded only in a cycle that
    asks to record, in which the penalty mark was seen and between 2 and 8
    lines. *)
Theorem mark_distance_needs_the_mark (inp : Inputs) (cfg : SampleConfiguration)
        (req : SampleConfigurationRequest.t) (c c' : Collector) (t : SampleType) :
  t = goalAreaDistance \/ t = groundLineDistance ->
  recordSamples inp cfg req c = Some c' ->
  needToRecord cfg (samples c) t = Some true ->
  needToRecord cfg (samples c') t = Some false ->
  SampleConfigurationRequest.doRecord req = true /\
  PenaltyMarkPercept.wasSeen (thePenaltyMarkPercept inp) = true /\
  (2 <= length (theLinesPercept inp) <= 8)%nat.
Proof.
  intros Ht H Hbefore Hafter.
  destruct (recordSamples_steps _ _ _ _ _ H)
    as [->|(g1 & c1 & g2 & c2 & g3 & _ & H1 & G2 & H2 & _ & ->)]; [congruence|].
  assert (E3 : samples (if g3 then setVisible (setDiscardCounters c2 0 0 0) true else c2) = samples c2)
    by (destruct g3; reflexivity).
  rewrite E3 in Hafter.
  assert (E1 : needToRecord cfg (samples c1) t = needToRecord cfg (samples c) t).
  { destruct g1; [|now inversion H1].
    change (samples c) with (samples (setVisible c false)).
    apply (fills_needToRecord cornerSearchTypes); [apply (cornerSearch_effect _ _ _ _ _ H1)|].
    unfold cornerSearchTypes. destruct Ht as [-> | ->]; intros [?|[?|?]]; discriminate. }
  destruct g2; [|inversion H2; subst c2; congruence].
  destruct (markGuard_true _ _ _ G2) as (Hseen & Hn).
  split; [|auto].
  destruct (SampleConfigurationRequest.doRecord req); trivial.
  destruct (markSearch_effect _ _ _ _ _ H2) as (_ & Hno & _).
  destruct (Hno eq_refl) as (Hs & _). rewrite Hs in Hafter. congruence.
Qed.
End CycleFacts.
(** ** The adaptive ranges in a recording cycle *)

(** A flag of the loop state that a step can only set: after the loop it
    is set exactly when it was set before or a step had the event. *)
Lemma forM_flag {A St : Type} (flag : St -> bool) (ev : A -> Prop) (xs : list A)
      (body : St -> A -> option St) :
  (forall x s s', x ∈ xs -> body s x = Some s' -> (flag s' = true <-> flag s = true \/ ev x)) ->
  forall s s', forM xs body s = Some s' ->
               (flag s' = true <-> flag s = true \/ exists x, x ∈ xs /\ ev x).
Proof.
  induction xs as [|x xs IH]; intros Hbody s s' Hrun; simpl in Hrun.
  - inversion Hrun; subst. split; [auto|]. intros [H|(x & Hx & _)]; [exact H|inversion Hx].
  - destruct (body s x) as [s1|] eqn:Hb; [|discriminate]. simpl in Hrun.
    pose proof (Hbody x s s1 ltac:(left) Hb) as H1.
    pose proof (IH (fun y a b Hy => Hbody y a b (list_elem_of_further _ _ _ Hy)) s1 s' Hrun) as H2.
    rewrite H2, H1. split.
    + intros [[H|H]|(y & Hy & He)]; [auto| |].
      * right. exists x. split; [left|trivial].
      * right. exists y. split; [now right|trivial].
    + intros [H|(y & Hy & He)]; [auto|].
      apply elem_of_cons in Hy as [->|Hy]; [auto|right; eauto].
Qed.

Section PolicyFacts.
Context `{Ext : Externals} `{MP : ModuleParameters}.

(** *** The flags of the triple search *)

(** The lines [li], [lj], [lk] reach the range test with the result
    [inside]. *)
Lemma tripleBody_flags inp cfg range li lj lk s s' :
  tripleBody inp cfg true range li lj lk s = Some s' ->
  let reaches (inside : bool) :=
    endNear lj li = true /\ endNear lk li = true /\
    shortLineClosest li lj lk = true /\ anglesReasonable li lj lk = true /\
    exists c1 c2 c3,
      fitLine inp (correctedLineOf (firstImg li) (lastImg li)) = Some (true, c1) /\
      fitLine inp (correctedLineOf (firstImg lj) (lastImg lj)) = Some (true, c2) /\
      fitLine inp (correctedLineOf (firstImg lk) (lastImg lk)) = Some (true, c3) /\
      isInside range (parallelLinesMeasure c2 c3) = inside in
  (discardedParallelLines s' = true <-> discardedParallelLines s = true \/ reaches false) /\
  (foundParallelLines s' = true <-> foundParallelLines s = true \/ reaches true).
Proof.
  intros H reaches.
  assert (Hskip : forall s1,
             discardedParallelLines s1 = discardedParallelLines s ->
             foundParallelLines s1 = foundParallelLines s ->
             (forall b, ~ reaches b) ->
             (discardedParallelLines s1 = true <-> discardedParallelLines s = true \/ reaches false) /\
             (foundParallelLines s1 = true <-> foundParallelLines s = true \/ reaches true)).
  { intros s1 -> -> Hno. split; (split; [auto|intros [?|Hr]; [trivial|destruct (Hno _ Hr)]]). }
  unfold tripleBody in H.
  destruct (endNear lj li) eqn:E1; simpl in H.
  2:{ inversion H; subst s'. apply Hskip; trivial. intros b (? & _). congruence. }
  destruct (endNear lk li) eqn:E2; simpl in H.
  2:{ inversion H; subst s'. apply Hskip; trivial. intros b (_ & ? & _). congruence. }
  destruct (shortLineClosest li lj lk) eqn:E3; simpl in H.
  2:{ inversion H; subst s'. apply Hskip; trivial. intros b (_ & _ & ? & _). congruence. }
  destruct (anglesReasonable li lj lk) eqn:E4; simpl in H.
  2:{ inversion H; subst s'. apply Hskip; trivial. intros b (_ & _ & _ & ? & _). congruence. }
  destruct (fitLine inp (correctedLineOf (firstImg li) (lastImg li))) as [[b1 c1]|] eqn:F1;
    [|discriminate].
  simpl in H. destruct b1; simpl in H.
  2:{ inversion H; subst s'. apply Hskip; trivial.
      intros b (_ & _ & _ & _ & ? & ? & ? & ? & _). congruence. }
  destruct (fitLine inp (correctedLineOf (firstImg lj) (lastImg lj))) as [[b2 c2]|] eqn:F2;
    [|discriminate].
  simpl in H. destruct b2; simpl in H.
  2:{ inversion H; subst s'. apply Hskip; trivial.
      intros b (_ & _ & _ & _ & ? & ? & ? & _ & ? & _). congruence. }
  destruct (fitLine inp (correctedLineOf (firstImg lk) (lastImg lk))) as [[b3 c3]|] eqn:F3;
    [|discriminate].
  simpl in H. destruct b3; simpl in H.
  2:{ inversion H; subst s'. apply Hskip; trivial.
      intros b (_ & _ & _ & _ & ? & ? & ? & _ & _ & ? & _). congruence. }
  assert (Hr : forall b, reaches b <-> isInside range (parallelLinesMeasure c2 c3) = b).
  { intros b. split.
    - intros (_ & _ & _ & _ & d1 & d2 & d3 & _ & G2 & G3 & Hin). congruence.
    - intros Hin. repeat split; trivial. exists c1, c2, c3. auto. }
  unfold acceptTriple in H. fold (parallelLinesMeasure c2 c3) in H.
  destruct (isInside range (parallelLinesMeasure c2 c3)) eqn:Hin.
  - destruct (ADD_SAMPLE cfg _ cornerAngle _) as [t1|]; [|discriminate]. simpl in H.
    destruct (ADD_SAMPLE cfg t1 parallelAngle _) as [t2|]; [|discriminate]. simpl in H.
    destruct (ADD_SAMPLE cfg t2 parallelLinesDistance _) as [t3|]; [|discriminate]. simpl in H.
    inversion H; subst s'. simpl. rewrite !Hr. split; split; auto.
    intros [?|?]; [trivial|discriminate].
  - inversion H; subst s'. simpl. rewrite !Hr. split; split; auto.
    intros [?|?]; [trivial|discriminate].
Qed.

(** The three nested loops set a flag exactly when it was set before or
    three lines at indices the loops visit have the event. *)
Lemma tripleLoop_flag (flag : TripleScan -> bool)
      (ev : PerceptLine -> PerceptLine -> PerceptLine -> Prop) inp cfg doRecord range :
  (forall li lj lk s s',
      tripleBody inp cfg doRecord range li lj lk s = Some s' ->
      (flag s' = true <-> flag s = true \/ ev li lj lk)) ->
  forall s0 s',
    tripleLoop inp cfg doRecord range s0 = Some s' ->
    (flag s' = true <->
     flag s0 = true \/
     exists i j k li lj lk,
       i <> j /\ i <> k /\ (j < k)%nat /\
       theLinesPercept inp !! i = Some li /\
       theLinesPercept inp !! j = Some lj /\
       theLinesPercept inp !! k = Some lk /\ ev li lj lk).
Proof.
  intros Hbody s0 s' Hrun. unfold tripleLoop in Hrun.
  set (lines := theLinesPercept inp) in *. set (n := length lines) in *.
  pose (evK := fun i j k : nat =>
                 exists li lj lk,
                   i <> j /\ i <> k /\ (j < k)%nat /\
                   lines !! i = Some li /\ lines !! j = Some lj /\ lines !! k = Some lk /\
                   ev li lj lk).
  pose (evJ := fun i j : nat => exists k, evK i j k).
  pose (evI := fun i : nat => exists j, evJ i j).
  apply (forM_flag flag evI) in Hrun.
  { rewrite Hrun. split; (intros [H|H]; [auto|right]).
    - destruct H as (i & _ & j & k & li & lj & lk & H). exists i, j, k, li, lj, lk. exact H.
    - destruct H as (i & j & k & li & lj & lk & H). exists i. split.
      + apply elem_of_seq. destruct H as (_ & _ & _ & Hi & _).
        apply lookup_lt_Some in Hi. fold n in Hi. lia.
      + exists j, k, li, lj, lk. exact H. }
  intros i s1 s2 Hi H1.
  apply (forM_flag flag (evJ i)) in H1.
  { rewrite H1. split; (intros [H|H]; [auto|right]).
    - destruct H as (j & _ & H). exists j. exact H.
    - destruct H as (j & k & li & lj & lk & H). exists j. split.
      + apply elem_of_seq. destruct H as (_ & _ & _ & _ & Hj & _).
        apply lookup_lt_Some in Hj. fold n in Hj. lia.
      + exists k, li, lj, lk. exact H. }
  intros j s3 s4 Hj H3.
  destruct (decide (i = j)) as [Eij|Nij].
  { inversion H3; subst s4. split; [auto|].
    intros [H|(k & li & lj & lk & Hne & _)]; [trivial|contradiction]. }
  apply (forM_flag flag (evK i j)) in H3.
  { rewrite H3. split; (intros [H|H]; [auto|right]).
    - destruct H as (k & _ & H). exists k. exact H.
    - destruct H as (k & li & lj & lk & H). exists k. split.
      + apply elem_of_seq. destruct H as (_ & _ & Hjk & _ & _ & Hk & _).
        apply lookup_lt_Some in Hk. fold n in Hk. lia.
      + exists li, lj, lk. exact H. }
  intros k s5 s6 Hk H5.
  destruct (decide (i = k)) as [Eik|Nik].
  { inversion H5; subst s6. split; [auto|].
    intros [H|(li & lj & lk & _ & Hne & _)]; [trivial|contradiction]. }
  destruct (lines !! i) as [li|] eqn:Li; [|discriminate]. simpl in H5.
  destruct (lines !! j) as [lj|] eqn:Lj; [|discriminate]. simpl in H5.
  destruct (lines !! k) as [lk|] eqn:Lk; [|discriminate]. simpl in H5.
  rewrite (Hbody _ _ _ _ _ H5).
  apply elem_of_seq in Hk.
  split; (intros [H|H]; [auto|right]).
  - exists li, lj, lk. repeat split; trivial. lia.
  - destruct H as (li' & lj' & lk' & _ & _ & _ & Ei & Ej & Ek & H). congruence.
Qed.

(** After the triple search the two flags tell whether the cycle had a
    discard and an acceptance for the range. *)
Lemma tripleLoop_flags inp cfg range s0 s :
  tripleLoop inp cfg true range s0 = Some s ->
  (discardedParallelLines s = true <->
   discardedParallelLines s0 = true \/ parallelLinesDiscarded inp range) /\
  (foundParallelLines s = true <->
   foundParallelLines s0 = true \/ parallelLinesAccepted inp range).
Proof.
  intros Hrun.
  pose (reaches := fun (inside : bool) (li lj lk : PerceptLine) =>
    endNear lj li = true /\ endNear lk li = true /\
    shortLineClosest li lj lk = true /\ anglesReasonable li lj lk = true /\
    exists c1 c2 c3,
      fitLine inp (correctedLineOf (firstImg li) (lastImg li)) = Some (true, c1) /\
      fitLine inp (correctedLineOf (firstImg lj) (lastImg lj)) = Some (true, c2) /\
      fitLine inp (correctedLineOf (firstImg lk) (lastImg lk)) = Some (true, c3) /\
      isInside range (parallelLinesMeasure c2 c3) = inside).
  assert (Hev : forall inside,
             (exists i j k li lj lk,
                 i <> j /\ i <> k /\ (j < k)%nat /\
                 theLinesPercept inp !! i = Some li /\
                 theLinesPercept inp !! j = Some lj /\
                 theLinesPercept inp !! k = Some lk /\ reaches inside li lj lk) <->
             (exists i j k cLine2 cLine3,
                 tripleMeasured inp i j k cLine2 cLine3 /\
                 isInside range (parallelLinesMeasure cLine2 cLine3) = inside)).
  { intros inside. split.
    - intros (i & j & k & li & lj & lk & ? & ? & ? & ? & ? & ? &
              ? & ? & ? & ? & c1 & c2 & c3 & ? & ? & ? & ?).
      exists i, j, k, c2, c3. split; trivial.
      exists li, lj, lk, c1. repeat split; trivial.
    - intros (i & j & k & c2 & c3 & (li & lj & lk & c1 & ? & ? & ? & ? & ? & ? &
                                     ? & ? & ? & ? & ? & ? & ?) & ?).
      exists i, j, k, li, lj, lk. repeat split; trivial.
      exists c1, c2, c3. auto. }
  split.
  - rewrite (tripleLoop_flag discardedParallelLines (reaches false) inp cfg true range
               (fun li lj lk a b Hb => proj1 (tripleBody_flags _ _ _ _ _ _ _ _ Hb)) _ _ Hrun).
    unfold parallelLinesDiscarded. now rewrite Hev.
  - rewrite (tripleLoop_flag foundParallelLines (reaches true) inp cfg true range
               (fun li lj lk a b Hb => proj2 (tripleBody_flags _ _ _ _ _ _ _ _ Hb)) _ _ Hrun).
    unfold parallelLinesAccepted. now rewrite Hev.
Qed.

(** Without an acceptance the triple search records nothing. *)
Lemma tripleLoop_unaccepted inp cfg doRecord range s0 s :
  tripleLoop inp cfg doRecord range s0 = Some s ->
  foundParallelLines s = true \/ tsSamples s = tsSamples s0.
Proof.
  apply (tripleLoop_invariant
           (fun s => foundParallelLines s = true \/ tsSamples s = tsSamples s0)); [|auto].
  intros li lj lk s1 s2 Hs Hb.
  destruct (tripleBody_cases _ _ _ _ _ _ _ _ _ Hb) as [->|[->|(_ & c1 & c2 & c3 & Ha)]];
    trivial.
  unfold acceptTriple in Ha.
  destruct (isInside range _).
  - destruct (ADD_SAMPLE cfg _ cornerAngle _) as [t1|]; [|discriminate]. simpl in Ha.
    destruct (ADD_SAMPLE cfg t1 parallelAngle _) as [t2|]; [|discriminate]. simpl in Ha.
    destruct (ADD_SAMPLE cfg t2 parallelLinesDistance _) as [t3|]; [|discriminate]. simpl in Ha.
    inversion Ha; subst s2. left. reflexivity.
  - inversion Ha; subst s2. exact Hs.
Qed.

(** *** The flags of the mark search *)

(** The lines [li] and [lj] reach the range tests with fitted lines that
    satisfy [P]. *)
Lemma pairBody_flags inp cfg goalRange groundRange li lj s s' :
  pairBody inp cfg true goalRange groundRange li lj s = Some s' ->
  let reaches (P : CorrectedLine -> CorrectedLine -> Prop) :=
    spansHalfImage inp li = true /\ spansHalfImage inp lj = true /\
    sameSide li lj = true /\ behindMark inp li lj = true /\
    exists c1 c2,
      fitLine inp (if Qltb (squaredDistanceTo lj) (squaredDistanceTo li)
                   then correctedLineOf (firstImg lj) (lastImg lj)
                   else correctedLineOf (firstImg li) (lastImg li)) = Some (true, c1) /\
      fitLine inp (if Qltb (squaredDistanceTo lj) (squaredDistanceTo li)
                   then correctedLineOf (firstImg li) (lastImg li)
                   else correctedLineOf (firstImg lj) (lastImg lj)) = Some (true, c2) /\
      P c1 c2 in
  (discardedGoalAreaLine s' = true <->
   discardedGoalAreaLine s = true \/
   reaches (fun c1 _ => isInside goalRange (markDistanceMeasure inp c1) = false)) /\
  (foundGoalAreaLine s' = true <->
   foundGoalAreaLine s = true \/
   reaches (fun c1 _ => isInside goalRange (markDistanceMeasure inp c1) = true)) /\
  (discardedGroundLine s' = true <->
   discardedGroundLine s = true \/
   reaches (fun _ c2 => isInside groundRange (markDistanceMeasure inp c2) = false)) /\
  (foundGroundLine s' = true <->
   foundGroundLine s = true \/
   reaches (fun _ c2 => isInside groundRange (markDistanceMeasure inp c2) = true)).
Proof.
  intros H reaches.
  assert (Hskip : forall s1,
             discardedGoalAreaLine s1 = discardedGoalAreaLine s ->
             foundGoalAreaLine s1 = foundGoalAreaLine s ->
             discardedGroundLine s1 = discardedGroundLine s ->
             foundGroundLine s1 = foundGroundLine s ->
             (forall P, ~ reaches P) ->
             (discardedGoalAreaLine s1 = true <->
              discardedGoalAreaLine s = true \/
              reaches (fun c1 _ => isInside goalRange (markDistanceMeasure inp c1) = false)) /\
             (foundGoalAreaLine s1 = true <->
              foundGoalAreaLine s = true \/
              reaches (fun c1 _ => isInside goalRange (markDistanceMeasure inp c1) = true)) /\
             (discardedGroundLine s1 = true <->
              discardedGroundLine s = true \/
              reaches (fun _ c2 => isInside groundRange (markDistanceMeasure inp c2) = false)) /\
             (foundGroundLine s1 = true <->
              foundGroundLine s = true \/
              reaches (fun _ c2 => isInside groundRange (markDistanceMeasure inp c2) = true))).
  { intros s1 -> -> -> -> Hno.
    repeat split; auto; intros [?|Hr]; trivial; destruct (Hno _ Hr). }
  unfold pairBody in H.
  destruct (spansHalfImage inp li) eqn:E1; simpl in H.
  2:{ inversion H; subst s'. apply Hskip; trivial. intros P (? & _). congruence. }
  destruct (spansHalfImage inp lj) eqn:E2; simpl in H.
  2:{ inversion H; subst s'. apply Hskip; trivial. intros P (_ & ? & _). congruence. }
  destruct (sameSide li lj) eqn:E3; simpl in H.
  2:{ inversion H; subst s'. apply Hskip; trivial. intros P (_ & _ & ? & _). congruence. }
  destruct (behindMark inp li lj) eqn:E4; simpl in H.
  2:{ inversion H; subst s'. apply Hskip; trivial. intros P (_ & _ & _ & ? & _). congruence. }
  destruct (fitLine inp (if Qltb (squaredDistanceTo lj) (squaredDistanceTo li)
                         then correctedLineOf (firstImg lj) (lastImg lj)
                         else correctedLineOf (firstImg li) (lastImg li)))
    as [[b1 c1]|] eqn:F1; [|discriminate].
  simpl in H. destruct b1; simpl in H.
  2:{ inversion H; subst s'. apply Hskip; trivial.
      intros P (_ & _ & _ & _ & ? & ? & ? & _). congruence. }
  destruct (fitLine inp (if Qltb (squaredDistanceTo lj) (squaredDistanceTo li)
                         then correctedLineOf (firstImg li) (lastImg li)
                         else correctedLineOf (firstImg lj) (lastImg lj)))
    as [[b2 c2]|] eqn:F2; [|discriminate].
  simpl in H. destruct b2; simpl in H.
  2:{ inversion H; subst s'. apply Hskip; trivial.
      intros P (_ & _ & _ & _ & ? & ? & _ & ? & _). congruence. }
  assert (Hr : forall P, reaches P <-> P c1 c2).
  { intros P. split.
    - intros (_ & _ & _ & _ & d1 & d2 & G1 & G2 & HP). congruence.
    - intros HP. repeat split; trivial. exists c1, c2. auto. }
  unfold acceptPair in H.
  fold (markDistanceMeasure inp c1) in H. fold (markDistanceMeasure inp c2) in H.
  destruct (isInside goalRange (markDistanceMeasure inp c1)) eqn:Hin1;
    destruct (isInside groundRange (markDistanceMeasure inp c2)) eqn:Hin2; simpl in H.
  - destruct (ADD_SAMPLE cfg _ goalAreaDistance _) as [t1|]; [|discriminate]. simpl in H.
    destruct (ADD_SAMPLE cfg t1 groundLineDistance _) as [t2|]; [|discriminate]. simpl in H.
    destruct (ADD_SAMPLE cfg t2 parallelAngle _) as [t3|]; [|discriminate]. simpl in H.
    destruct (ADD_SAMPLE cfg t3 parallelLinesDistance _) as [t4|]; [|discriminate]. simpl in H.
    inversion H; subst s'. simpl. rewrite !Hr, Hin1, Hin2.
    repeat split; auto; intros [?|?]; trivial; discriminate.
  - inversion H; subst s'. simpl. rewrite !Hr, Hin1, Hin2.
    repeat split; auto; intros [?|?]; trivial; discriminate.
  - inversion H; subst s'. simpl. rewrite !Hr, Hin1, Hin2.
    repeat split; auto; intros [?|?]; trivial; discriminate.
  - inversion H; subst s'. simpl. rewrite !Hr, Hin1, Hin2.
    repeat split; auto; intros [?|?]; trivial; discriminate.
Qed.

(** The two nested loops set a flag exactly when it was set before or two
    lines at indices the loops visit have the event. *)
Lemma pairLoop_flag (flag : PairScan -> bool) (ev : PerceptLine -> PerceptLine -> Prop)
      inp cfg doRecord goalRange groundRange :
  (forall li lj s s',
      pairBody inp cfg doRecord goalRange groundRange li lj s = Some s' ->
      (flag s' = true <-> flag s = true \/ ev li lj)) ->
  forall s0 s',
    pairLoop inp cfg doRecord goalRange groundRange s0 = Some s' ->
    (flag s' = true <->
     flag s0 = true \/
     exists i j li lj,
       (i < j)%nat /\
       theLinesPercept inp !! i = Some li /\
       theLinesPercept inp !! j = Some lj /\ ev li lj).
Proof.
  intros Hbody s0 s' Hrun. unfold pairLoop in Hrun.
  set (lines := theLinesPercept inp) in *. set (n := length lines) in *.
  pose (evJ := fun i j : nat =>
                 exists li lj,
                   (i < j)%nat /\ lines !! i = Some li /\ lines !! j = Some lj /\ ev li lj).
  pose (evI := fun i : nat => exists j, evJ i j).
  apply (forM_flag flag evI) in Hrun.
  { rewrite Hrun. split; (intros [H|H]; [auto|right]).
    - destruct H as (i & _ & j & li & lj & H). exists i, j, li, lj. exact H.
    - destruct H as (i & j & li & lj & H). exists i. split.
      + apply elem_of_seq. destruct H as (_ & Hi & _).
        apply lookup_lt_Some in Hi. fold n in Hi. lia.
      + exists j, li, lj. exact H. }
  intros i s1 s2 Hi H1.
  apply (forM_flag flag (evJ i)) in H1.
  { rewrite H1. split; (intros [H|H]; [auto|right]).
    - destruct H as (j & _ & H). exists j. exact H.
    - destruct H as (j & li & lj & H). exists j. split.
      + apply elem_of_seq. destruct H as (Hij & _ & Hj & _).
        apply lookup_lt_Some in Hj. fold n in Hj. lia.
      + exists li, lj. exact H. }
  intros j s3 s4 Hj H3.
  destruct (lines !! i) as [li|] eqn:Li; [|discriminate]. simpl in H3.
  destruct (lines !! j) as [lj|] eqn:Lj; [|discriminate]. simpl in H3.
  rewrite (Hbody _ _ _ _ H3).
  apply elem_of_seq in Hj.
  split; (intros [H|H]; [auto|right]).
  - exists li, lj. repeat split; trivial. lia.
  - destruct H as (li' & lj' & _ & Ei & Ej & H). congruence.
Qed.

(** After the mark search the four flags tell whether the cycle had a
    discard and an acceptance for each of the two ranges. *)
Lemma pairLoop_flags inp cfg goalRange groundRange s0 s :
  pairLoop inp cfg true goalRange groundRange s0 = Some s ->
  (discardedGoalAreaLine s = true <->
   discardedGoalAreaLine s0 = true \/ goalAreaLineDiscarded inp goalRange) /\
  (foundGoalAreaLine s = true <->
   foundGoalAreaLine s0 = true \/ goalAreaLineAccepted inp goalRange) /\
  (discardedGroundLine s = true <->
   discardedGroundLine s0 = true \/ groundLineDiscarded inp groundRange) /\
  (foundGroundLine s = true <->
   foundGroundLine s0 = true \/ groundLineAccepted inp groundRange).
Proof.
  intros Hrun.
  pose (reaches := fun (P : CorrectedLine -> CorrectedLine -> Prop) (li lj : PerceptLine) =>
    spansHalfImage inp li = true /\ spansHalfImage inp lj = true /\
    sameSide li lj = true /\ behindMark inp li lj = true /\
    exists c1 c2,
      fitLine inp (if Qltb (squaredDistanceTo lj) (squaredDistanceTo li)
                   then correctedLineOf (firstImg lj) (lastImg lj)
                   else correctedLineOf (firstImg li) (lastImg li)) = Some (true, c1) /\
      fitLine inp (if Qltb (squaredDistanceTo lj) (squaredDistanceTo li)
                   then correctedLineOf (firstImg li) (lastImg li)
                   else correctedLineOf (firstImg lj) (lastImg lj)) = Some (true, c2) /\
      P c1 c2).
  assert (Hev : forall P : CorrectedLine -> CorrectedLine -> Prop,
             (exists i j li lj,
                 (i < j)%nat /\
                 theLinesPercept inp !! i = Some li /\
                 theLinesPercept inp !! j = Some lj /\ reaches P li lj) <->
             (exists i j cLineGoalArea cLineGroundLine,
                 pairMeasured inp i j cLineGoalArea cLineGroundLine /\
                 P cLineGoalArea cLineGroundLine)).
  { intros P. split.
    - intros (i & j & li & lj & ? & ? & ? & ? & ? & ? & ? & c1 & c2 & ? & ? & ?).
      exists i, j, c1, c2. split; trivial.
      exists li, lj. repeat split; trivial.
    - intros (i & j & c1 & c2 & (li & lj & ? & ? & ? & ? & ? & ? & ? & ? & ?) & ?).
      exists i, j, li, lj. repeat split; trivial.
      exists c1, c2. auto. }
  split; [|split; [|split]].
  - rewrite (pairLoop_flag discardedGoalAreaLine
               (reaches (fun c1 _ => isInside goalRange (markDistanceMeasure inp c1) = false))
               inp cfg true goalRange groundRange
               (fun li lj a b Hb => proj1 (pairBody_flags _ _ _ _ _ _ _ _ Hb)) _ _ Hrun).
    unfold goalAreaLineDiscarded. now rewrite Hev.
  - rewrite (pairLoop_flag foundGoalAreaLine
               (reaches (fun c1 _ => isInside goalRange (markDistanceMeasure inp c1) = true))
               inp cfg true goalRange groundRange
               (fun li lj a b Hb => proj1 (proj2 (pairBody_flags _ _ _ _ _ _ _ _ Hb))) _ _ Hrun).
    unfold goalAreaLineAccepted. now rewrite Hev.
  - rewrite (pairLoop_flag discardedGroundLine
               (reaches (fun _ c2 => isInside groundRange (markDistanceMeasure inp c2) = false))
               inp cfg true goalRange groundRange
               (fun li lj a b Hb => proj1 (proj2 (proj2 (pairBody_flags _ _ _ _ _ _ _ _ Hb))))
               _ _ Hrun).
    unfold groundLineDiscarded. now rewrite Hev.
  - rewrite (pairLoop_flag foundGroundLine
               (reaches (fun _ c2 => isInside groundRange (markDistanceMeasure inp c2) = true))
               inp cfg true goalRange groundRange
               (fun li lj a b Hb => proj2 (proj2 (proj2 (pairBody_flags _ _ _ _ _ _ _ _ Hb))))
               _ _ Hrun).
    unfold groundLineAccepted. now rewrite Hev.
Qed.

(** The mark search records only for a pair that both ranges accept. *)
Lemma pairLoop_unaccepted inp cfg doRecord goalRange groundRange s0 s :
  pairLoop inp cfg doRecord goalRange groundRange s0 = Some s ->
  (foundGoalAreaLine s = true /\ foundGroundLine s = true) \/ psSamples s = psSamples s0.
Proof.
  apply (pairLoop_invariant
           (fun s => (foundGoalAreaLine s = true /\ foundGroundLine s = true) \/
                     psSamples s = psSamples s0)); [|auto].
  intros li lj s1 s2 Hs Hb.
  destruct (pairBody_cases _ _ _ _ _ _ _ _ _ Hb) as [->|[->|(_ & c1 & c2 & Ha)]]; trivial.
  unfold acceptPair in Ha.
  destruct (isInside goalRange _); destruct (isInside groundRange _); simpl in Ha.
  - destruct (ADD_SAMPLE cfg _ goalAreaDistance _) as [t1|]; [|discriminate]. simpl in Ha.
    destruct (ADD_SAMPLE cfg t1 groundLineDistance _) as [t2|]; [|discriminate]. simpl in Ha.
    destruct (ADD_SAMPLE cfg t2 parallelAngle _) as [t3|]; [|discriminate]. simpl in Ha.
    destruct (ADD_SAMPLE cfg t3 parallelLinesDistance _) as [t4|]; [|discriminate]. simpl in Ha.
    inversion Ha; subst s2. left. auto.
  - inversion Ha; subst s2. simpl. destruct Hs as [[? ?]|?]; auto.
  - inversion Ha; subst s2. simpl. destruct Hs as [[? ?]|?]; auto.
  - inversion Ha; subst s2. simpl. destruct Hs as [[? ?]|?]; auto.
Qed.

(** *** One recording cycle *)

Lemma nothingOutstanding_iff cfg c b :
  nothingOutstanding cfg c = Some b -> (b = true <-> noneOutstanding cfg (samples c)).
Proof.
  unfold nothingOutstanding, andAlso, noneOutstanding. intros H.
  destruct (needToRecord cfg (samples c) cornerAngle) as [[|]|] eqn:E1; simpl in H;
    try discriminate.
  { inversion H. split; [discriminate|]. intros Hn. specialize (Hn cornerAngle). congruence. }
  destruct (needToRecord cfg (samples c) parallelAngle) as [[|]|] eqn:E2; simpl in H;
    try discriminate.
  { inversion H. split; [discriminate|]. intros Hn. specialize (Hn parallelAngle). congruence. }
  destruct (needToRecord cfg (samples c) parallelLinesDistance) as [[|]|] eqn:E3; simpl in H;
    try discriminate.
  { inversion H. split; [discriminate|]. intros Hn. specialize (Hn parallelLinesDistance).
    congruence. }
  destruct (needToRecord cfg (samples c) goalAreaDistance) as [[|]|] eqn:E4; simpl in H;
    try discriminate.
  { inversion H. split; [discriminate|]. intros Hn. specialize (Hn goalAreaDistance).
    congruence. }
  destruct (needToRecord cfg (samples c) groundLineDistance) as [[|]|] eqn:E5; simpl in H;
    try discriminate.
  { inversion H. split; [discriminate|]. intros Hn. specialize (Hn groundLineDistance).
    congruence. }
  inversion H. split; trivial. intros _ t. destruct t; assumption.
Qed.

(** A search runs only while a sample type is outstanding. *)
Lemma cornerGuard_needs inp cfg c :
  cornerGuard inp cfg c = Some true -> ~ noneOutstanding cfg (samples c).
Proof.
  unfold cornerGuard, andAlso, orElse. intros H Hn.
  rewrite !Hn in H. simpl in H. destruct (_ && _); discriminate.
Qed.

Lemma markGuard_needs inp cfg c :
  markGuard inp cfg c = Some true -> ~ noneOutstanding cfg (samples c).
Proof.
  unfold markGuard, orElse. intros H Hn.
  rewrite !Hn in H. simpl in H. destruct (_ && _ && _); discriminate.
Qed.

(** The two searches never run in the same cycle: the first one runs
    only when no distance to the mark is outstanding, and it records
    none. *)
Lemma cornerGuard_excludes_mark inp cfg c c1 :
  cornerGuard inp cfg c = Some true ->
  fills cornerSearchTypes cfg (samples c) (samples c1) ->
  markGuard inp cfg c1 = Some false.
Proof.
  intros Hg Hf. destruct (cornerGuard_true _ _ _ Hg) as (_ & H4 & H5).
  unfold markGuard.
  rewrite (fills_needToRecord cornerSearchTypes cfg (samples c) (samples c1) goalAreaDistance Hf),
          (fills_needToRecord cornerSearchTypes cfg (samples c) (samples c1) groundLineDistance Hf),
          H4, H5.
  - simpl. destruct (_ && _ && _); reflexivity.
  - intros [E|[E|E]]; discriminate.
  - intros [E|[E|E]]; discriminate.
Qed.

(** A sample type that is not outstanding stays so when slots are
    filled. *)
Lemma fills_done (allowed : SampleType -> Prop) cfg (T T' : list (option Sample)) t :
  fills allowed cfg T T' -> needToRecord cfg T t = Some false ->
  needToRecord cfg T' t = Some false.
Proof.
  intros (_ & K & _) H. destruct (requested cfg t) eqn:Hr.
  - rewrite needToRecord_requested in * by assumption.
    destruct (T !! sampleIndexOf cfg t) as [[s|]|] eqn:E; try discriminate.
    now rewrite (K _ _ E).
  - now apply needToRecord_unrequested.
Qed.

Lemma ADD_SAMPLE_done cfg T t s T' :
  ADD_SAMPLE cfg T t s = Some T' -> needToRecord cfg T' t = Some false.
Proof.
  unfold ADD_SAMPLE. intros H.
  destruct (needToRecord cfg T t) as [[|]|] eqn:E; simpl in H; try discriminate.
  - apply (record_writes _ _ _ _ _ H).
  - inversion H; subst. exact E.
Qed.

(** After an acceptance of the triple search none of its three sample
    types is outstanding. *)
Lemma tripleLoop_accepted inp cfg doRecord range s0 s :
  tripleLoop inp cfg doRecord range s0 = Some s ->
  foundParallelLines s0 = false ->
  foundParallelLines s = true ->
  forall t, cornerSearchTypes t -> needToRecord cfg (tsSamples s) t = Some false.
Proof.
  intros Hrun H0.
  refine (tripleLoop_invariant
            (fun s => foundParallelLines s = true ->
                      forall t, cornerSearchTypes t ->
                                needToRecord cfg (tsSamples s) t = Some false)
            inp cfg doRecord range _ s0 s _ Hrun).
  2:{ intros Hf. congruence. }
  intros li lj lk s1 s2 Hs Hb.
  destruct (tripleBody_cases _ _ _ _ _ _ _ _ _ Hb) as [->|[->|(_ & c1 & c2 & c3 & Ha)]];
    trivial.
  unfold acceptTriple in Ha.
  destruct (isInside range _).
  - destruct (ADD_SAMPLE cfg _ cornerAngle _) as [t1|] eqn:A1; [|discriminate]. simpl in Ha.
    destruct (ADD_SAMPLE cfg t1 parallelAngle _) as [t2|] eqn:A2; [|discriminate]. simpl in Ha.
    destruct (ADD_SAMPLE cfg t2 parallelLinesDistance _) as [t3|] eqn:A3; [|discriminate].
    simpl in Ha. inversion Ha; subst s2. simpl. intros _ t [-> | [-> | ->]].
    + eapply fills_done; [eapply (ADD_SAMPLE_fills (fun _ => True)); [exact I|exact A3]|].
      eapply fills_done; [eapply (ADD_SAMPLE_fills (fun _ => True)); [exact I|exact A2]|].
      exact (ADD_SAMPLE_done _ _ _ _ _ A1).
    + eapply fills_done; [eapply (ADD_SAMPLE_fills (fun _ => True)); [exact I|exact A3]|].
      exact (ADD_SAMPLE_done _ _ _ _ _ A2).
    + exact (ADD_SAMPLE_done _ _ _ _ _ A3).
  - inversion Ha; subst s2. exact Hs.
Qed.

(** What the triple search leaves of the collector while recording. *)
Lemma cornerSearch_policy inp cfg c c1 :
  cornerSearch inp cfg true c = Some c1 ->
  exists dP fP : bool,
    (dP = true <-> parallelLinesDiscarded inp (parallelLinesRange (camera cfg) c)) /\
    (fP = true <-> parallelLinesAccepted inp (parallelLinesRange (camera cfg) c)) /\
    (numOfDiscardedParallelLines c1, parallelLinesRange (camera cfg) c1) =
      INCREASE_RANGE dP fP (numOfDiscardedParallelLines c) (parallelLinesRange (camera cfg) c) /\
    numOfDiscardedGoalAreaLines c1 = numOfDiscardedGoalAreaLines c /\
    numOfDiscardedGroundLines c1 = numOfDiscardedGroundLines c /\
    goalAreaDisRange (camera cfg) c1 = goalAreaDisRange (camera cfg) c /\
    groundLineDisRange (camera cfg) c1 = groundLineDisRange (camera cfg) c /\
    (fP = false -> samples c1 = samples c) /\
    (fP = true -> forall t, cornerSearchTypes t -> needToRecord cfg (samples c1) t = Some false) /\
    fills cornerSearchTypes cfg (samples c) (samples c1).
Proof.
  intros H.
  pose proof (proj1 (cornerSearch_effect _ _ _ _ _ H)) as Hfills.
  destruct (cornerSearch_other_ranges _ _ _ _ _ (camera cfg) H) as [Rg Rl].
  unfold cornerSearch in H.
  destruct (tripleLoop _ _ _ _ _) as [s|] eqn:Hloop; [|discriminate]. simpl in H.
  destruct (tripleLoop_flags _ _ _ _ _ Hloop) as [Hd Hf]. simpl in Hd, Hf.
  pose proof (tripleLoop_unaccepted _ _ _ _ _ _ Hloop) as Hu. simpl in Hu.
  pose proof (tripleLoop_accepted _ _ _ _ _ _ Hloop eq_refl) as Ha. simpl in Ha.
  destruct (INCREASE_RANGE _ _ _ _) as [n1 r1] eqn:Hinc.
  inversion H; subst c1. clear H.
  exists (discardedParallelLines s), (foundParallelLines s).
  split; [rewrite Hd; split; [intros [?|?]; [discriminate|trivial]|auto]|].
  split; [rewrite Hf; split; [intros [?|?]; [discriminate|trivial]|auto]|].
  split; [simpl in Hinc; rewrite Hinc; destruct (camera cfg); reflexivity|].
  split; [destruct (camera cfg); reflexivity|].
  split; [destruct (camera cfg); reflexivity|].
  split; [exact Rg|]. split; [exact Rl|].
  split; [|split; [|exact Hfills]].
  - intros Hnf. destruct Hu as [Hu|Hu]; [congruence|].
    destruct (camera cfg); exact Hu.
  - intros Hfound. destruct (camera cfg); exact (Ha Hfound).
Qed.

(** What the mark search leaves of the collector while recording. *)
Lemma markSearch_policy inp cfg c c2 :
  markSearch inp cfg true c = Some c2 ->
  exists dG fG dL fL : bool,
    (dG = true <-> goalAreaLineDiscarded inp (goalAreaDisRange (camera cfg) c)) /\
    (fG = true <-> goalAreaLineAccepted inp (goalAreaDisRange (camera cfg) c)) /\
    (dL = true <-> groundLineDiscarded inp (groundLineDisRange (camera cfg) c)) /\
    (fL = true <-> groundLineAccepted inp (groundLineDisRange (camera cfg) c)) /\
    (numOfDiscardedGoalAreaLines c2, goalAreaDisRange (camera cfg) c2) =
      INCREASE_RANGE dG fG (numOfDiscardedGoalAreaLines c) (goalAreaDisRange (camera cfg) c) /\
    (numOfDiscardedGroundLines c2, groundLineDisRange (camera cfg) c2) =
      INCREASE_RANGE dL fL (numOfDiscardedGroundLines c) (groundLineDisRange (camera cfg) c) /\
    numOfDiscardedParallelLines c2 = numOfDiscardedParallelLines c /\
    parallelLinesRange (camera cfg) c2 = parallelLinesRange (camera cfg) c /\
    (fG = false \/ fL = false -> samples c2 = samples c).
Proof.
  intros H.
  pose proof (markSearch_other_ranges _ _ _ _ _ (camera cfg) H) as Rp.
  unfold markSearch in H.
  destruct (pairLoop _ _ _ _ _ _) as [s|] eqn:Hloop; [|discriminate]. simpl in H.
  destruct (pairLoop_flags _ _ _ _ _ _ Hloop) as (HdG & HfG & HdL & HfL).
  simpl in HdG, HfG, HdL, HfL.
  pose proof (pairLoop_unaccepted _ _ _ _ _ _ _ Hloop) as Hu. simpl in Hu.
  destruct (INCREASE_RANGE (discardedGoalAreaLine s) _ _ _) as [n1 r1] eqn:Hinc1.
  destruct (INCREASE_RANGE (discardedGroundLine s) _ _ _) as [n2 r2] eqn:Hinc2.
  inversion H; subst c2. clear H.
  exists (discardedGoalAreaLine s), (foundGoalAreaLine s),
         (discardedGroundLine s), (foundGroundLine s).
  split; [rewrite HdG; split; [intros [?|?]; [discriminate|trivial]|auto]|].
  split; [rewrite HfG; split; [intros [?|?]; [discriminate|trivial]|auto]|].
  split; [rewrite HdL; split; [intros [?|?]; [discriminate|trivial]|auto]|].
  split; [rewrite HfL; split; [intros [?|?]; [discriminate|trivial]|auto]|].
  split; [simpl in Hinc1; rewrite Hinc1; destruct (camera cfg); reflexivity|].
  split; [simpl in Hinc2; rewrite Hinc2; destruct (camera cfg); reflexivity|].
  split; [destruct (camera cfg); reflexivity|].
  split; [exact Rp|].
  intros Hnf. destruct Hu as [[Hu1 Hu2]|Hu].
  - destruct Hnf; congruence.
  - destruct (camera cfg); exact Hu.
Qed.

(** The last block of [recordSamples]. *)
Lemma lastBlock_effect (g3 : bool) c2 cam :
  let c' := if g3 then setVisible (setDiscardCounters c2 0 0 0) true else c2 in
  samples c' = samples c2 /\
  numOfDiscardedParallelLines c' = (if g3 then 0 else numOfDiscardedParallelLines c2) /\
  numOfDiscardedGoalAreaLines c' = (if g3 then 0 else numOfDiscardedGoalAreaLines c2) /\
  numOfDiscardedGroundLines c' = (if g3 then 0 else numOfDiscardedGroundLines c2) /\
  parallelLinesRange cam c' = parallelLinesRange cam c2 /\
  goalAreaDisRange cam c' = goalAreaDisRange cam c2 /\
  groundLineDisRange cam c' = groundLineDisRange cam c2.
Proof. destruct g3, cam; simpl; auto 10. Qed.

(** The policy for a range whose search ran with the flags [d] and [f],
    and for a range whose search did not run. *)
Lemma rangePolicy_searched (ran discarded accepted finished : Prop) (d f g3 : bool)
      num range num1 range1 num' range' :
  0 <= num < discardsUntilIncrease ->
  ran -> (d = true <-> discarded) -> (f = true <-> accepted) ->
  (num1, range1) = INCREASE_RANGE d f num range ->
  (g3 = true <-> finished) ->
  (f = false -> ~ finished) ->
  num' = (if g3 then 0 else num1) -> range' = range1 ->
  rangePolicy (ran /\ discarded /\ ~ accepted) finished num range num' range'.
Proof.
  intros Hn Hran Hd Hf Hinc Hg Hnf -> ->. unfold rangePolicy.
  unfold INCREASE_RANGE in Hinc.
  destruct d, f; simpl in Hinc.
  - rewrite (proj2 (Z.leb_gt _ _)) in Hinc by lia. inversion Hinc; subst.
    assert (Ha : accepted) by (apply Hf; reflexivity).
    destruct g3; repeat split; intros; try tauto; try lia;
      try (exfalso; intuition congruence).
  - assert (Hnot : ~ finished) by auto.
    assert (Hg3 : g3 = false) by (destruct g3; trivial; exfalso; apply Hnot, Hg; reflexivity).
    subst g3.
    assert (Hdis : discarded) by (apply Hd; reflexivity).
    assert (Hna : ~ accepted) by (intros Ha; apply Hf in Ha; discriminate).
    destruct (discardsUntilIncrease <=? num + 1) eqn:E; inversion Hinc; subst.
    + apply Z.leb_le in E. repeat split; intros; try tauto; try lia.
    + apply Z.leb_gt in E. repeat split; intros; try tauto; try lia.
  - rewrite (proj2 (Z.leb_gt _ _)) in Hinc by lia. inversion Hinc; subst.
    assert (Hnd : ~ discarded) by (intros Ha; apply Hd in Ha; discriminate).
    destruct g3; repeat split; intros; try tauto; try lia;
      try (exfalso; intuition congruence).
  - rewrite (proj2 (Z.leb_gt _ _)) in Hinc by lia. inversion Hinc; subst.
    assert (Hnd : ~ discarded) by (intros Ha; apply Hd in Ha; discriminate).
    destruct g3; repeat split; intros; try tauto; try lia;
      try (exfalso; intuition congruence).
Qed.

Lemma rangePolicy_idle (counted finished : Prop) (g3 : bool) num range num' range' :
  0 <= num < discardsUntilIncrease ->
  ~ counted -> (g3 = true <-> finished) ->
  num' = (if g3 then 0 else num) -> range' = range ->
  rangePolicy counted finished num range num' range'.
Proof.
  intros Hn Hnc Hg -> ->. unfold rangePolicy.
  destruct g3; repeat split; intros; try tauto; try lia;
    try (exfalso; intuition congruence).
Qed.

(** C3, as amended. A recording cycle for the camera of the configuration
    returns when the sectors of [fitLine] lie inside the Hough table and
    the sample table has the slots of the configuration. For each of the
    three adaptive ranges, with its counter below the threshold at the
    start: the counter is incremented exactly in the cycles in which the
    search of the range ran and had a discard (a measurement that reached
    the range test and lay outside the range) and no acceptance (one
    inside), as long as the threshold is not reached; when it is reached,
    the range is widened by [increase] on both sides and the counter is 0;
    no other cycle changes the range. An acceptance does not set the
    counter to 0: a cycle with an acceptance leaves the counter as it is,
    unless no sample type is outstanding when the cycle ends, which sets
    all counters to 0 (and which is always so after an acceptance of the
    triple search). *)
Theorem adaptive_range_policy (inp : Inputs) (cfg : SampleConfiguration)
        (req : SampleConfigurationRequest.t) (c : Collector) :
  SampleConfigurationRequest.doRecord req = true ->
  CameraInfo.camera (theCameraInfo inp) = camera cfg ->
  countersBounded c ->
  let cam := camera cfg in
  (windowsFit inp -> tableFits cfg (samples c) -> is_Some (recordSamples inp cfg req c)) /\
  forall c',
    recordSamples inp cfg req c = Some c' ->
    let finished := noneOutstanding cfg (samples c') in
    rangePolicy
      (cornerGuard inp cfg c = Some true /\
       parallelLinesDiscarded inp (parallelLinesRange cam c) /\
       ~ parallelLinesAccepted inp (parallelLinesRange cam c))
      finished
      (numOfDiscardedParallelLines c) (parallelLinesRange cam c)
      (numOfDiscardedParallelLines c') (parallelLinesRange cam c') /\
    rangePolicy
      (markGuard inp cfg c = Some true /\
       goalAreaLineDiscarded inp (goalAreaDisRange cam c) /\
       ~ goalAreaLineAccepted inp (goalAreaDisRange cam c))
      finished
      (numOfDiscardedGoalAreaLines c) (goalAreaDisRange cam c)
      (numOfDiscardedGoalAreaLines c') (goalAreaDisRange cam c') /\
    rangePolicy
      (markGuard inp cfg c = Some true /\
       groundLineDiscarded inp (groundLineDisRange cam c) /\
       ~ groundLineAccepted inp (groundLineDisRange cam c))
      finished
      (numOfDiscardedGroundLines c) (groundLineDisRange cam c)
      (numOfDiscardedGroundLines c') (groundLineDisRange cam c') /\
    (cornerGuard inp cfg c = Some true ->
     parallelLinesAccepted inp (parallelLinesRange cam c) -> finished).
Proof.
  intros Hdo Hcam (Bp & Bg & Bl) cam. split.
  { intros Hw Hfit. now apply recordSamples_total. }
  intros c' Hrun finished.
  unfold recordSamples in Hrun.
  rewrite bool_decide_eq_true_2 in Hrun by assumption. simpl in Hrun. rewrite Hdo in Hrun.
  destruct (cornerGuard inp cfg (setVisible c false)) as [g1|] eqn:G1; [|discriminate].
  simpl in Hrun. change (cornerGuard inp cfg c = Some g1) in G1.
  destruct g1.
  - (* the triple search runs *)
    destruct (cornerSearch inp cfg true (setVisible c false)) as [c1|] eqn:H1; [|discriminate].
    simpl in Hrun.
    destruct (cornerSearch_policy _ _ _ _ H1)
      as (dP & fP & HdP & HfP & Hinc & Ng & Nl & Rg & Rl & Hsame & Hdone & Hfills).
    change (samples (setVisible c false)) with (samples c) in Hsame, Hfills.
    change (parallelLinesRange (camera cfg) (setVisible c false))
      with (parallelLinesRange cam c) in HdP, HfP, Hinc.
    change (numOfDiscardedParallelLines (setVisible c false))
      with (numOfDiscardedParallelLines c) in Hinc.
    change (numOfDiscardedGoalAreaLines (setVisible c false))
      with (numOfDiscardedGoalAreaLines c) in Ng.
    change (numOfDiscardedGroundLines (setVisible c false))
      with (numOfDiscardedGroundLines c) in Nl.
    change (goalAreaDisRange (camera cfg) (setVisible c false))
      with (goalAreaDisRange cam c) in Rg.
    change (groundLineDisRange (camera cfg) (setVisible c false))
      with (groundLineDisRange cam c) in Rl.
    pose proof (cornerGuard_excludes_mark inp cfg c c1 G1 Hfills) as G2.
    pose proof (cornerGuard_excludes_mark inp cfg c c G1 (fills_refl _ _ _)) as G2'.
    rewrite G2 in Hrun. simpl in Hrun.
    destruct (nothingOutstanding cfg c1) as [g3|] eqn:G3; [|discriminate]. simpl in Hrun.
    inversion Hrun; subst c'. clear Hrun.
    destruct (lastBlock_effect g3 c1 cam) as (Ls & Lp & Lg & Ll & Rp' & Rg' & Rl').
    assert (Hfin : g3 = true <-> finished).
    { unfold finished. rewrite Ls. exact (nothingOutstanding_iff _ _ _ G3). }
    split; [|split; [|split]].
    + apply (rangePolicy_searched _ _ _ _ dP fP g3 _ _
               (numOfDiscardedParallelLines c1) (parallelLinesRange cam c1) _ _
               Bp G1 HdP HfP Hinc Hfin); [|exact Lp|exact Rp'].
      intros Hnf Hf. unfold finished in Hf. rewrite Ls, (Hsame Hnf) in Hf.
      exact (cornerGuard_needs _ _ _ G1 Hf).
    + apply (rangePolicy_idle _ _ g3 _ _ _ _ Bg); [|exact Hfin| |].
      * intros (Hm & _). congruence.
      * now rewrite Lg, Ng.
      * exact (eq_trans Rg' Rg).
    + apply (rangePolicy_idle _ _ g3 _ _ _ _ Bl); [|exact Hfin| |].
      * intros (Hm & _). congruence.
      * now rewrite Ll, Nl.
      * exact (eq_trans Rl' Rl).
    + intros _ Hacc. apply HfP in Hacc. specialize (Hdone Hacc).
      destruct (cornerGuard_true _ _ _ G1) as (_ & H4 & H5).
      unfold finished. rewrite Ls. intros t.
      destruct t; try (apply Hdone; unfold cornerSearchTypes; solve [auto]).
      * exact (fills_done _ _ _ _ _ Hfills H4).
      * exact (fills_done _ _ _ _ _ Hfills H5).
  - (* the triple search does not run *)
    inversion Hrun as [Hrun']. clear Hrun. rename Hrun' into Hrun.
    destruct (markGuard inp cfg (setVisible c false)) as [g2|] eqn:G2; [|discriminate].
    simpl in Hrun. change (markGuard inp cfg c = Some g2) in G2.
    destruct g2.
    + (* the mark search runs *)
      destruct (markSearch inp cfg true (setVisible c false)) as [c2|] eqn:H2; [|discriminate].
      simpl in Hrun.
      destruct (markSearch_policy _ _ _ _ H2)
        as (dG & fG & dL & fL & HdG & HfG & HdL & HfL & Hinc1 & Hinc2 & Np & Rp & Hsame).
      change (samples (setVisible c false)) with (samples c) in Hsame.
      change (goalAreaDisRange (camera cfg) (setVisible c false))
        with (goalAreaDisRange cam c) in HdG, HfG, Hinc1.
      change (groundLineDisRange (camera cfg) (setVisible c false))
        with (groundLineDisRange cam c) in HdL, HfL, Hinc2.
      change (numOfDiscardedGoalAreaLines (setVisible c false))
        with (numOfDiscardedGoalAreaLines c) in Hinc1.
      change (numOfDiscardedGroundLines (setVisible c false))
        with (numOfDiscardedGroundLines c) in Hinc2.
      change (numOfDiscardedParallelLines (setVisible c false))
        with (numOfDiscardedParallelLines c) in Np.
      change (parallelLinesRange (camera cfg) (setVisible c false))
        with (parallelLinesRange cam c) in Rp.
      destruct (nothingOutstanding cfg c2) as [g3|] eqn:G3; [|discriminate]. simpl in Hrun.
      inversion Hrun; subst c'. clear Hrun.
      destruct (lastBlock_effect g3 c2 cam) as (Ls & Lp & Lg & Ll & Rp' & Rg' & Rl').
      assert (Hfin : g3 = true <-> finished).
      { unfold finished. rewrite Ls. exact (nothingOutstanding_iff _ _ _ G3). }
      split; [|split; [|split]].
      * apply (rangePolicy_idle _ _ g3 _ _ _ _ Bp); [|exact Hfin| |].
        -- intros (Hm & _). congruence.
        -- now rewrite Lp, Np.
        -- exact (eq_trans Rp' Rp).
      * apply (rangePolicy_searched _ _ _ _ dG fG g3 _ _
                 (numOfDiscardedGoalAreaLines c2) (goalAreaDisRange cam c2) _ _
                 Bg G2 HdG HfG Hinc1 Hfin); [|exact Lg|exact Rg'].
        intros Hnf Hf. unfold finished in Hf. rewrite Ls, (Hsame (or_introl Hnf)) in Hf.
        exact (markGuard_needs _ _ _ G2 Hf).
      * apply (rangePolicy_searched _ _ _ _ dL fL g3 _ _
                 (numOfDiscardedGroundLines c2) (groundLineDisRange cam c2) _ _
                 Bl G2 HdL HfL Hinc2 Hfin); [|exact Ll|exact Rl'].
        intros Hnf Hf. unfold finished in Hf. rewrite Ls, (Hsame (or_intror Hnf)) in Hf.
        exact (markGuard_needs _ _ _ G2 Hf).
      * intros Hm. congruence.
    + (* no search runs *)
      simpl in Hrun.
      destruct (nothingOutstanding cfg (setVisible c false)) as [g3|] eqn:G3; [|discriminate].
      simpl in Hrun. inversion Hrun; subst c'. clear Hrun.
      destruct (lastBlock_effect g3 (setVisible c false) cam)
        as (Ls & Lp & Lg & Ll & Rp' & Rg' & Rl').
      assert (Hfin : g3 = true <-> finished).
      { unfold finished. rewrite Ls. exact (nothingOutstanding_iff _ _ _ G3). }
      split; [|split; [|split]].
      * apply (rangePolicy_idle _ _ g3 _ _ _ _ Bp); [|exact Hfin|exact Lp|exact Rp'].
        intros (Hm & _). congruence.
      * apply (rangePolicy_idle _ _ g3 _ _ _ _ Bg); [|exact Hfin|exact Lg|exact Rg'].
        intros (Hm & _). congruence.
      * apply (rangePolicy_idle _ _ g3 _ _ _ _ Bl); [|exact Hfin|exact Ll|exact Rl'].
        intros (Hm & _). congruence.
      * intros Hm. congruence.
Qed.
End PolicyFacts.
(** ** The cycle of the module *)

Section MachineFacts.
Context `{Ext : Externals} `{MP : ModuleParameters} `{Opt : Optimizer}.

Lemma sameRecording_refl cal : sameRecording cal cal.
Proof. unfold sameRecording. auto. Qed.

Lemma sameRecording_trans a b c : sameRecording a b -> sameRecording b c -> sameRecording a c.
Proof.
  unfold sameRecording. intros (? & ? & ? & ? & ?) (? & ? & ? & ? & ?).
  repeat split; congruence.
Qed.

Lemma resetOptimization_frame inp finished cal :
  sameRecording cal (resetOptimization inp finished cal) /\
  state (resetOptimization inp finished cal) =
    (if finished then CameraCalibrationStatus.idle else state cal) /\
  optimizer (optimization (resetOptimization inp finished cal)) = false.
Proof. unfold sameRecording. destruct finished; simpl; auto 10. Qed.

Lemma acceptStep_frame inp cal delta params cal' :
  acceptStep inp cal delta params = Some cal' ->
  sameRecording cal cal' /\
  (state cal' = state cal \/ state cal' = CameraCalibrationStatus.idle).
Proof.
  unfold acceptStep. intros H.
  destruct (if 0 <? _ then _ else _) as [tracked|]; [|discriminate]. simpl in H.
  destruct (minSuccessiveConvergences <=? _); inversion H; subst cal'; clear H.
  - match goal with |- context [resetOptimization inp true ?c] =>
      destruct (resetOptimization_frame inp true c) as (F & S & _) end.
    split; [|right; exact S].
    eapply sameRecording_trans; [|exact F]. unfold sameRecording. simpl. auto.
  - unfold sameRecording. simpl. auto 10.
Qed.

Lemma optimize_frame inp cal cal' :
  optimize inp cal = Some cal' ->
  sameRecording cal cal' /\
  (state cal' = state cal \/ state cal' = CameraCalibrationStatus.idle).
Proof.
  unfold optimize. intros H.
  destruct (negb (optimizer (optimization cal))).
  { inversion H; subst cal'. unfold sameRecording. simpl. auto 10. }
  destruct (iterate _ _ _) as [[delta params]|]; [|discriminate]. simpl in H.
  destruct delta as [delta|].
  - destruct (anyNotValid _ _) as [invalid|]; [|discriminate]. simpl in H.
    destruct invalid.
    + inversion H; subst cal'.
      match goal with |- context [resetOptimization inp false ?c] =>
        destruct (resetOptimization_frame inp false c) as (F & S & _) end.
      split; [|left; exact S].
      eapply sameRecording_trans; [|exact F]. unfold sameRecording. simpl. auto.
    + destruct (acceptStep_frame _ _ _ _ _ H) as [F S]. split; [|exact S].
      eapply sameRecording_trans; [|exact F]. unfold sameRecording. simpl. auto.
  - inversion H; subst cal'.
    match goal with |- context [resetOptimization inp false ?c] =>
      destruct (resetOptimization_frame inp false c) as (F & S & _) end.
    split; [|left; exact S].
    eapply sameRecording_trans; [|exact F]. unfold sameRecording. simpl. auto.
Qed.

Lemma convergeResponse_frame inp cal :
  sameRecording cal (convergeResponse inp cal) /\
  (state (convergeResponse inp cal) = state cal \/
   state (convergeResponse inp cal) = CameraCalibrationStatus.idle) /\
  (optimizer (optimization cal) = false -> convergeResponse inp cal = cal).
Proof.
  unfold convergeResponse.
  destruct (debugConverge inp); [|split; [apply sameRecording_refl|auto]].
  destruct (optimizer (optimization cal)) eqn:Ho; simpl;
    [|split; [apply sameRecording_refl|auto]].
  destruct (negb _); [|split; [apply sameRecording_refl|split; [auto|discriminate]]].
  match goal with |- context [resetOptimization inp true ?c] =>
    destruct (resetOptimization_frame inp true c) as (F & S & _) end.
  split; [|split; [right; exact S|discriminate]].
  eapply sameRecording_trans; [|exact F]. unfold sameRecording. simpl. auto.
Qed.

Lemma recordStep_frame inp cal cal' :
  recordStep inp cal = Some cal' ->
  state cal' = state cal /\ inStateSince cal' = inStateSince cal /\
  numOfSamples cal' = numOfSamples cal /\
  currentSampleConfiguration cal' = currentSampleConfiguration cal /\
  optimization cal' = optimization cal /\
  nextCameraCalibration cal' = nextCameraCalibration cal /\
  (state cal <> CameraCalibrationStatus.recordSamples -> cal' = cal) /\
  (cal' = cal \/
   exists cfg req c,
     currentSampleConfiguration cal = Some cfg /\
     CalibrationRequest.sampleConfigurationRequest (theCalibrationRequest inp) = Some req /\
     recordSamples inp cfg req (collector cal) = Some c /\ cal' = setCollector cal c).
Proof.
  unfold recordStep. intros H.
  destruct (bool_decide _) eqn:Hs.
  2:{ inversion H; subst. auto 10. }
  apply bool_decide_eq_true in Hs.
  destruct (currentSampleConfiguration cal) as [cfg|] eqn:Hc.
  2:{ inversion H; subst. rewrite Hc. repeat split; auto. }
  destruct (CalibrationRequest.sampleConfigurationRequest _) as [req|] eqn:Hr.
  2:{ inversion H; subst. rewrite Hc. repeat split; auto. }
  destruct (theOptionalECImage inp).
  2:{ inversion H; subst. rewrite Hc. repeat split; auto. }
  destruct (recordSamples inp cfg req (collector cal)) as [c|] eqn:Hrec; [|discriminate].
  simpl in H. inversion H; subst cal'. simpl.
  repeat split; auto; [congruence|]. right. exists cfg, req, c. auto.
Qed.

(** A slot belongs to a requested type of the configuration, or to none. *)
Lemma slot_owner (cfg : SampleConfiguration) (i : nat) :
  (exists t, requested cfg t = true /\ i = sampleIndexOf cfg t) \/
  (forall t, requested cfg t = true -> i <> sampleIndexOf cfg t).
Proof.
  assert (H : forall t, (requested cfg t = true /\ i = sampleIndexOf cfg t) \/
                        (requested cfg t = true -> i <> sampleIndexOf cfg t)).
  { intros t. destruct (requested cfg t); [|right; discriminate].
    destruct (decide (i = sampleIndexOf cfg t)); [left|right]; auto. }
  destruct (H cornerAngle) as [?|H1]; [left; eauto|].
  destruct (H parallelAngle) as [?|H2]; [left; eauto|].
  destruct (H parallelLinesDistance) as [?|H3]; [left; eauto|].
  destruct (H goalAreaDistance) as [?|H4]; [left; eauto|].
  destruct (H groundLineDistance) as [?|H5]; [left; eauto|].
  right. intros []; assumption.
Qed.

Lemma updateSampleConfiguration_new inp cal request :
  CalibrationRequest.sampleConfigurationRequest (theCalibrationRequest inp) = Some request ->
  SampleConfigurationRequest.index request <> lastSampleConfigurationIndex cal ->
  updateSampleConfiguration inp cal =
    mkCalibrator (state cal) (inStateSince cal)
      (numOfSamples cal + numRequested (configurationOf request (numOfSamples cal)))
      (SampleConfigurationRequest.index request)
      (Some (configurationOf request (numOfSamples cal)))
      (collector cal) (optimization cal) (nextCameraCalibration cal).
Proof.
  intros Hreq Hne. unfold updateSampleConfiguration. rewrite Hreq.
  rewrite (proj2 (Z.eqb_neq _ _) Hne). f_equal.
  apply (fold_count_shift (configurationOf request (numOfSamples cal))).
Qed.

(** X11. A request with a new index gets a configuration whose slots are
    fresh: its block starts at the old [numOfSamples], the new
    [numOfSamples] is the end of the block, and every requested type has
    its slot in between. A second call in the same cycle changes nothing
    more, and a request with the index of the last one changes nothing,
    whatever it asks for. *)
Theorem new_configuration_gets_fresh_slots (inp : Inputs) (cal : Calibrator)
        (request : SampleConfigurationRequest.t) :
  CalibrationRequest.sampleConfigurationRequest (theCalibrationRequest inp) = Some request ->
  (SampleConfigurationRequest.index request = lastSampleConfigurationIndex cal ->
   updateSampleConfiguration inp cal = cal) /\
  (SampleConfigurationRequest.index request <> lastSampleConfigurationIndex cal ->
   exists cfg,
     currentSampleConfiguration (updateSampleConfiguration inp cal) = Some cfg /\
     camera cfg = SampleConfigurationRequest.camera request /\
     sampleTypes cfg = SampleConfigurationRequest.sampleTypes request /\
     sampleIndexBase cfg = numOfSamples cal /\
     numOfSamples (updateSampleConfiguration inp cal) = (numOfSamples cal + numRequested cfg)%nat /\
     lastSampleConfigurationIndex (updateSampleConfiguration inp cal) =
       SampleConfigurationRequest.index request /\
     (forall t, requested cfg t = true ->
        (numOfSamples cal <= sampleIndexOf cfg t
         < numOfSamples (updateSampleConfiguration inp cal))%nat) /\
     updateSampleConfiguration inp (updateSampleConfiguration inp cal) =
       updateSampleConfiguration inp cal).
Proof.
  intros Hreq. split.
  - intros E. unfold updateSampleConfiguration. rewrite Hreq.
    now rewrite (proj2 (Z.eqb_eq _ _) E).
  - intros Hne. rewrite (updateSampleConfiguration_new inp cal request Hreq Hne).
    exists (configurationOf request (numOfSamples cal)).
    split; [reflexivity|]. split; [reflexivity|]. split; [reflexivity|].
    split; [reflexivity|]. split; [reflexivity|]. split; [reflexivity|]. split.
    + intros t Ht.
      apply (slot_rank (configurationOf request (numOfSamples cal)) t t Ht Ht).
    + unfold updateSampleConfiguration at 1. rewrite Hreq.
      cbn [lastSampleConfigurationIndex]. now rewrite Z.eqb_refl.
Qed.

(** X12. An abort cannot fail: with the target state idle the cycle
    returns from every state, the module is idle afterwards and the sample
    collector is as before. [inStateSince] is the time of the cycle when
    the module was not idle, and unchanged otherwise. *)
Theorem abort_always_succeeds (inp : Inputs) (cal : Calibrator) :
  CalibrationRequest.targetState (theCalibrationRequest inp) = CameraCalibrationStatus.idle ->
  exists cal',
    update inp cal = Some (cal', nextCameraCalibration cal') /\
    state cal' = CameraCalibrationStatus.idle /\
    collector cal' = collector cal /\
    inStateSince cal' =
      (if bool_decide (state cal = CameraCalibrationStatus.idle)
       then inStateSince cal else theFrameInfoTime inp).
Proof.
  intros Htarget. unfold update.
  set (cal1 := setNextCameraCalibration cal (theCameraCalibration inp)).
  destruct (updateSampleConfiguration_frame inp cal1) as (Hs & Hi & Hc & _).
  set (cal2 := updateSampleConfiguration inp cal1) in *.
  assert (H3 : startRequested inp cal2 = cal2).
  { unfold startRequested. rewrite Htarget. rewrite andb_false_r. reflexivity. }
  rewrite H3.
  assert (H4 : state (abortRequested inp cal2) = CameraCalibrationStatus.idle /\
               collector (abortRequested inp cal2) = collector cal /\
               inStateSince (abortRequested inp cal2) =
                 (if bool_decide (state cal = CameraCalibrationStatus.idle)
                  then inStateSince cal else theFrameInfoTime inp)).
  { unfold abortRequested. rewrite Htarget, Hs. simpl.
    destruct (bool_decide (state cal = CameraCalibrationStatus.idle)) eqn:E; simpl.
    - apply bool_decide_eq_true in E. rewrite Hs, Hc, Hi. auto.
    - rewrite Hc. auto. }
  destruct H4 as (Hs4 & Hc4 & Hi4).
  set (cal4 := abortRequested inp cal2) in *.
  destruct (convergeResponse_frame inp cal4) as ((Hc5 & _ & _ & _ & Hi5) & Hs5 & _).
  set (cal5 := convergeResponse inp cal4) in *.
  assert (Hs5' : state cal5 = CameraCalibrationStatus.idle) by (destruct Hs5; congruence).
  assert (H6 : recordStep inp cal5 = Some cal5).
  { unfold recordStep. rewrite Hs5'. reflexivity. }
  rewrite H6. simpl.
  assert (H7 : optimizeRequested inp cal5 = cal5).
  { unfold optimizeRequested. rewrite Htarget. reflexivity. }
  rewrite H7, Hs5'. simpl. exists cal5. repeat split; congruence.
Qed.

(** X13. A start from idle empties the table: after a cycle that starts
    idle with the target state [recordSamples] the module records, since
    the time of the cycle; the table has [totalNumOfSamples] slots, and
    a slot that holds a sample is a slot of a requested type of the current
    configuration, filled in this cycle. The optimizer is gone, both of its
    counters are 0, and the calibration written is the input calibration. *)
Theorem start_empties_the_table (inp : Inputs) (cal cal' : Calibrator) (out : CameraCalibration) :
  state cal = CameraCalibrationStatus.idle ->
  CalibrationRequest.targetState (theCalibrationRequest inp) = CameraCalibrationStatus.recordSamples ->
  update inp cal = Some (cal', out) ->
  state cal' = CameraCalibrationStatus.recordSamples /\
  inStateSince cal' = theFrameInfoTime inp /\
  length (samples (collector cal')) =
    CalibrationRequest.totalNumOfSamples (theCalibrationRequest inp) /\
  (forall i s, samples (collector cal') !! i = Some (Some s) ->
     exists cfg t, currentSampleConfiguration cal' = Some cfg /\
                   requested cfg t = true /\ i = sampleIndexOf cfg t) /\
  optimizer (optimization cal') = false /\
  successiveConvergences (optimization cal') = 0 /\
  optimizationSteps (optimization cal') = 0 /\
  out = theCameraCalibration inp.
Proof.
  intros Hidle Htarget. unfold update.
  set (cal1 := setNextCameraCalibration cal (theCameraCalibration inp)).
  destruct (updateSampleConfiguration_frame inp cal1) as (Hs & Hi & Hc & Ho & Hn).
  set (cal2 := updateSampleConfiguration inp cal1) in *.
  set (cal3 := startRequested inp cal2).
  assert (H3 : state cal3 = CameraCalibrationStatus.recordSamples /\
               inStateSince cal3 = theFrameInfoTime inp /\
               samples (collector cal3) =
                 replicate (CalibrationRequest.totalNumOfSamples (theCalibrationRequest inp)) None /\
               optimizer (optimization cal3) = false /\
               successiveConvergences (optimization cal3) = 0 /\
               optimizationSteps (optimization cal3) = 0 /\
               nextCameraCalibration cal3 = theCameraCalibration inp /\
               currentSampleConfiguration cal3 = currentSampleConfiguration cal2).
  { unfold cal3, startRequested. rewrite Hs. simpl. rewrite Hidle, Htarget. simpl. auto 10. }
  destruct H3 as (Hs3 & Hi3 & Ht3 & Ho3 & Hsc3 & Hst3 & Hn3 & Hcfg3).
  assert (H4 : abortRequested inp cal3 = cal3).
  { unfold abortRequested. rewrite Htarget. reflexivity. }
  rewrite H4.
  rewrite (proj2 (proj2 (convergeResponse_frame inp cal3)) Ho3).
  destruct (recordStep inp cal3) as [cal6|] eqn:H6; [|discriminate]. simpl.
  destruct (recordStep_frame _ _ _ H6) as (Hs6 & Hi6 & _ & Hcfg6 & Ho6 & Hn6 & _ & Hcases).
  assert (H7 : optimizeRequested inp cal6 = cal6).
  { unfold optimizeRequested. rewrite Htarget. reflexivity. }
  rewrite H7. rewrite Hs6, Hs3. simpl. intros H. inversion H; subst cal' out. clear H.
  split; [congruence|]. split; [congruence|].
  assert (Htable : length (samples (collector cal6)) =
                     CalibrationRequest.totalNumOfSamples (theCalibrationRequest inp) /\
                   forall i s, samples (collector cal6) !! i = Some (Some s) ->
                     exists cfg t, currentSampleConfiguration cal6 = Some cfg /\
                                   requested cfg t = true /\ i = sampleIndexOf cfg t).
  { destruct Hcases as [->|(cfg & req & c & Hcfg & _ & Hrec & ->)].
    - rewrite Ht3, length_replicate. split; trivial.
      intros i s Hl. apply lookup_replicate in Hl as [Hl _]. discriminate.
    - simpl. destruct (recordSamples_fills _ _ _ _ _ Hrec) as (L & _ & O).
      rewrite L, Ht3, length_replicate. split; trivial.
      intros i s Hl.
      destruct (slot_owner cfg i) as [(t & Hr & Hi')|Hno].
      + exists cfg, t. auto.
      + exfalso. rewrite O in Hl.
        * rewrite Ht3 in Hl. apply lookup_replicate in Hl as [Hl _]. discriminate.
        * intros t _ Hr. now apply Hno. }
  destruct Htable as [HL HT]. split; [exact HL|]. split; [exact HT|].
  rewrite Ho6, Hn6. auto.
Qed.

(** X14. While the module optimizes the samples are frozen: a cycle that
    starts in the state [optimize] leaves the sample collector as it is,
    whatever the target state, the lines and the image, and the module in
    the state [optimize] or idle. *)
Theorem samples_frozen_while_optimizing (inp : Inputs) (cal cal' : Calibrator)
        (out : CameraCalibration) :
  state cal = CameraCalibrationStatus.optimize ->
  update inp cal = Some (cal', out) ->
  collector cal' = collector cal /\
  (state cal' = CameraCalibrationStatus.optimize \/ state cal' = CameraCalibrationStatus.idle).
Proof.
  intros Hopt. unfold update.
  set (cal1 := setNextCameraCalibration cal (theCameraCalibration inp)).
  destruct (updateSampleConfiguration_frame inp cal1) as (Hs & _ & Hc & _).
  set (cal2 := updateSampleConfiguration inp cal1) in *.
  assert (H3 : startRequested inp cal2 = cal2).
  { unfold startRequested. rewrite Hs. simpl. rewrite Hopt. reflexivity. }
  rewrite H3.
  assert (H4 : collector (abortRequested inp cal2) = collector cal /\
               (state (abortRequested inp cal2) = CameraCalibrationStatus.optimize \/
                state (abortRequested inp cal2) = CameraCalibrationStatus.idle)).
  { unfold abortRequested. destruct (_ && _); simpl; rewrite ?Hs, Hc; simpl; auto. }
  destruct H4 as (Hc4 & Hs4).
  set (cal4 := abortRequested inp cal2) in *.
  destruct (convergeResponse_frame inp cal4) as ((Hc5 & _) & Hs5 & _).
  set (cal5 := convergeResponse inp cal4) in *.
  assert (Hs5' : state cal5 = CameraCalibrationStatus.optimize \/
                 state cal5 = CameraCalibrationStatus.idle)
    by (destruct Hs5 as [E|E]; rewrite E; auto).
  assert (H6 : recordStep inp cal5 = Some cal5).
  { unfold recordStep. destruct Hs5' as [E|E]; rewrite E; reflexivity. }
  rewrite H6. simpl.
  assert (H7 : collector (optimizeRequested inp cal5) = collector cal /\
               (state (optimizeRequested inp cal5) = CameraCalibrationStatus.optimize \/
                state (optimizeRequested inp cal5) = CameraCalibrationStatus.idle)).
  { unfold optimizeRequested. destruct (_ && _); simpl; split; auto; congruence. }
  destruct H7 as (Hc7 & Hs7).
  set (cal7 := optimizeRequested inp cal5) in *.
  destruct (bool_decide (state cal7 = CameraCalibrationStatus.optimize)) eqn:E.
  - destruct (optimize inp cal7) as [cal8|] eqn:H8; [|discriminate]. simpl.
    intros H. inversion H; subst cal' out.
    destruct (optimize_frame _ _ _ H8) as ((Hc8 & _) & Hs8).
    split; [congruence|]. destruct Hs8 as [E8|E8]; rewrite E8; auto.
  - simpl. intros H. inversion H; subst cal' out. auto.
Qed.

(** X15. A cycle with the target state [optimize] that finds no optimizer,
    the first one of an optimization or the one after a restart, creates
    the optimizer: the module is in the state [optimize], the vector is the
    packed input calibration, the convergence counter is 0 and the
    calibration written is the input calibration. *)
Theorem optimizer_starts_from_the_input (inp : Inputs) (cal cal' : Calibrator)
        (out : CameraCalibration) :
  optimizer (optimization cal) = false ->
  CalibrationRequest.targetState (theCalibrationRequest inp) = CameraCalibrationStatus.optimize ->
  update inp cal = Some (cal', out) ->
  state cal' = CameraCalibrationStatus.optimize /\
  optimizer (optimization cal') = true /\
  optimizationParameters (optimization cal') = pack (theCameraCalibration inp) /\
  successiveConvergences (optimization cal') = 0 /\
  out = theCameraCalibration inp.
Proof.
  intros Hnone Htarget. unfold update.
  set (cal1 := setNextCameraCalibration cal (theCameraCalibration inp)).
  destruct (updateSampleConfiguration_frame inp cal1) as (Hs & _ & _ & Ho & Hn).
  set (cal2 := updateSampleConfiguration inp cal1) in *.
  assert (H3 : startRequested inp cal2 = cal2).
  { unfold startRequested. rewrite Htarget. rewrite andb_false_r. reflexivity. }
  rewrite H3.
  assert (H4 : abortRequested inp cal2 = cal2).
  { unfold abortRequested. rewrite Htarget. reflexivity. }
  rewrite H4.
  assert (Ho2 : optimizer (optimization cal2) = false) by (rewrite Ho; exact Hnone).
  rewrite (proj2 (proj2 (convergeResponse_frame inp cal2)) Ho2).
  destruct (recordStep inp cal2) as [cal6|] eqn:H6; [|discriminate]. simpl.
  destruct (recordStep_frame _ _ _ H6) as (_ & _ & _ & _ & Ho6 & Hn6 & _).
  assert (H7 : state (optimizeRequested inp cal6) = CameraCalibrationStatus.optimize /\
               optimization (optimizeRequested inp cal6) = optimization cal6 /\
               nextCameraCalibration (optimizeRequested inp cal6) = nextCameraCalibration cal6).
  { unfold optimizeRequested. rewrite Htarget. simpl.
    destruct (bool_decide (state cal6 = CameraCalibrationStatus.optimize)) eqn:E; simpl; auto.
    apply bool_decide_eq_true in E. auto. }
  destruct H7 as (Hs7 & Ho7 & Hn7).
  set (cal7 := optimizeRequested inp cal6) in *.
  rewrite Hs7. simpl. unfold optimize.
  rewrite Ho7, Ho6, Ho2. simpl. intros H. inversion H; subst cal' out. simpl.
  repeat split; trivial. rewrite Hn7, Hn6, Hn. reflexivity.
Qed.
End MachineFacts.
(** ** The Hough transform *)

Section SectorLoop.
Context {St : Type} (body : St -> Z -> option St) (n : Z).

(** A run of the loop that does not wrap: [k] rows from [a] to
    [maxIndex]. *)
Lemma sectorLoop_run minIndex maxIndex (k : nat) : forall fuel a s,
  a + Z.of_nat k = maxIndex ->
  (k < fuel)%nat ->
  (maxIndex <= minIndex -> maxIndex <= n - 1) ->
  sectorLoop fuel body n minIndex maxIndex a s = forM (seqZ a (Z.of_nat k)) body s.
Proof.
  induction k as [|k IH]; intros fuel a s Ha Hf Hw.
  - destruct fuel as [|fuel]; [lia|]. simpl.
    now rewrite (proj2 (Z.eqb_eq a maxIndex)) by lia.
  - destruct fuel as [|fuel]; [lia|]. simpl sectorLoop.
    rewrite (proj2 (Z.eqb_neq a maxIndex)) by lia.
    assert (Hnw : (maxIndex <? minIndex) && (a =? n - 1) = false).
    { destruct (Z.ltb_spec maxIndex minIndex); simpl; trivial. apply Z.eqb_neq. lia. }
    rewrite Hnw.
    rewrite (seqZ_cons a) by lia.
    replace (Z.pred (Z.of_nat (S k))) with (Z.of_nat k) by lia.
    replace (Z.succ a) with (a + 1) by lia.
    simpl. destruct (body s a) as [s'|]; simpl; trivial.
    apply IH; lia.
Qed.

Lemma forM_app (xs ys : list Z) (s : St) :
  forM (xs ++ ys) body s = forM xs body s ≫= forM ys body.
Proof.
  revert s. induction xs as [|x xs IH]; intros s; simpl; trivial.
  destruct (body s x) as [s'|]; simpl; trivial.
Qed.

(** A run that starts above [maxIndex]: up to [n - 1], then from 0. *)
Lemma sectorLoop_wrap minIndex maxIndex (k : nat) : forall fuel a s,
  0 <= maxIndex < minIndex -> minIndex <= a ->
  a + Z.of_nat k = n - 1 ->
  (S k + Z.to_nat maxIndex < fuel)%nat ->
  sectorLoop fuel body n minIndex maxIndex a s =
    forM (seqZ a (Z.of_nat (S k)) ++ seqZ 0 maxIndex) body s.
Proof.
  induction k as [|k IH]; intros fuel a s Hm Ha Hk Hf;
    (destruct fuel as [|fuel]; [lia|]); simpl sectorLoop;
    rewrite (proj2 (Z.eqb_neq a maxIndex)) by lia;
    rewrite (proj2 (Z.ltb_lt maxIndex minIndex)) by lia; simpl andb.
  - rewrite (proj2 (Z.eqb_eq a (n - 1))) by lia.
    change (Z.of_nat 1) with 1. rewrite (seqZ_cons a) by lia.
    change (Z.pred 1) with 0. rewrite (seqZ_nil (Z.succ a) 0) by lia.
    simpl. destruct (body s a) as [s'|]; simpl; trivial.
    rewrite (sectorLoop_run minIndex maxIndex (Z.to_nat maxIndex)) by lia.
    now rewrite Z2Nat.id by lia.
  - rewrite (proj2 (Z.eqb_neq a (n - 1))) by lia.
    rewrite (seqZ_cons a (Z.of_nat (S (S k)))) by lia.
    replace (Z.pred (Z.of_nat (S (S k)))) with (Z.of_nat (S k)) by lia.
    replace (Z.succ a) with (a + 1) by lia.
    simpl. destruct (body s a) as [s'|]; simpl; trivial.
    apply IH; lia.
Qed.

(** With [n + 1] units of fuel the loop ends: it runs the body on the
    buckets of the sector, in order. *)
Lemma sectorLoop_sector minIndex maxIndex s :
  0 <= minIndex < n -> 0 <= maxIndex < n ->
  sectorLoop (S (Z.to_nat n)) body n minIndex maxIndex minIndex s =
    forM (sector n minIndex maxIndex) body s.
Proof.
  intros Hmin Hmax. unfold sector.
  destruct (Z.ltb_spec maxIndex minIndex) as [Hw|Hw].
  - rewrite (sectorLoop_wrap minIndex maxIndex (Z.to_nat (n - 1 - minIndex))) by lia.
    do 3 f_equal. lia.
  - rewrite (sectorLoop_run minIndex maxIndex (Z.to_nat (maxIndex - minIndex))) by lia.
    do 2 f_equal. lia.
Qed.
End SectorLoop.

Section VoteFacts.

Lemma sum_insert_succ (row : list Z) : forall (j : nat) (v : Z),
  row !! j = Some v ->
  fold_right Z.add 0 (<[j := v + 1]> row) = fold_right Z.add 0 row + 1.
Proof.
  induction row as [|x row IH]; intros j v Hj; [discriminate|].
  destruct j as [|j]; simpl in *.
  - inversion Hj; subst. lia.
  - rewrite (IH j v Hj). lia.
Qed.

Lemma vote_is_Some houghSpace index d rows cols :
  tableShape houghSpace rows cols -> 0 <= index < rows -> 0 <= d < cols ->
  is_Some (vote houghSpace index d).
Proof.
  intros [Hlen Hrows] Hi Hd. unfold vote.
  rewrite (proj2 (Z.ltb_ge index 0)), (proj2 (Z.ltb_ge d 0)) by lia. simpl.
  destruct (lookup_lt_is_Some_2 houghSpace (Z.to_nat index) ltac:(lia)) as [row Hrow].
  rewrite Hrow. simpl.
  pose proof (proj1 (Forall_lookup _ _) Hrows _ _ Hrow) as Hcols. simpl in Hcols.
  destruct (lookup_lt_is_Some_2 row (Z.to_nat d) ltac:(lia)) as [v Hv].
  rewrite Hv. simpl. eauto.
Qed.

Lemma vote_inv houghSpace index d houghSpace' :
  vote houghSpace index d = Some houghSpace' ->
  0 <= index /\ 0 <= d /\
  exists row v,
    houghSpace !! Z.to_nat index = Some row /\ row !! Z.to_nat d = Some v /\
    houghSpace' = <[Z.to_nat index := <[Z.to_nat d := v + 1]> row]> houghSpace.
Proof.
  unfold vote. intros H.
  destruct (Z.ltb_spec index 0); [discriminate|].
  destruct (Z.ltb_spec d 0); [discriminate|]. simpl in H.
  destruct (houghSpace !! Z.to_nat index) as [row|] eqn:Hrow; [|discriminate]. simpl in H.
  destruct (row !! Z.to_nat d) as [v|] eqn:Hv; [|discriminate]. simpl in H.
  inversion H. split; [lia|]. split; [lia|]. eauto.
Qed.

Lemma vote_shape houghSpace index d houghSpace' rows cols :
  tableShape houghSpace rows cols -> vote houghSpace index d = Some houghSpace' ->
  tableShape houghSpace' rows cols.
Proof.
  intros [Hlen Hrows] H.
  destruct (vote_inv _ _ _ _ H) as (_ & _ & row & v & Hrow & Hv & ->).
  split; [now rewrite length_insert|].
  apply Forall_insert; trivial. rewrite length_insert.
  apply (proj1 (Forall_lookup _ _) Hrows _ _ Hrow).
Qed.

(** A vote adds one to its cell and leaves every other cell. *)
Lemma vote_houghAt houghSpace index d houghSpace' a j :
  vote houghSpace index d = Some houghSpace' ->
  houghAt houghSpace' a j =
    houghAt houghSpace a j + (if (a =? index) && (j =? d) then 1 else 0).
Proof.
  intros H. destruct (vote_inv _ _ _ _ H) as (Hi & Hd & row & v & Hrow & Hv & ->).
  unfold houghAt.
  destruct (Z.ltb_spec a 0) as [Ha|Ha]; simpl.
  { rewrite (proj2 (Z.eqb_neq a index)) by lia. reflexivity. }
  destruct (Z.ltb_spec j 0) as [Hj|Hj]; simpl.
  { rewrite (proj2 (Z.eqb_neq j d)) by lia. rewrite andb_false_r. reflexivity. }
  destruct (Z.eqb_spec a index) as [->|Hne]; simpl.
  - rewrite list_lookup_insert_eq by (apply lookup_lt_is_Some_1; eauto).
    rewrite Hrow. simpl.
    destruct (Z.eqb_spec j d) as [->|Hnd].
    + rewrite list_lookup_insert_eq by (apply lookup_lt_is_Some_1; eauto).
      rewrite Hv. reflexivity.
    + rewrite list_lookup_insert_ne by lia. lia.
  - rewrite list_lookup_insert_ne by lia. lia.
Qed.

Lemma vote_rowVotes houghSpace index d houghSpace' a :
  0 <= a -> vote houghSpace index d = Some houghSpace' ->
  rowVotes houghSpace' a = rowVotes houghSpace a + (if a =? index then 1 else 0).
Proof.
  intros Ha H. destruct (vote_inv _ _ _ _ H) as (Hi & Hd & row & v & Hrow & Hv & ->).
  unfold rowVotes.
  destruct (Z.eqb_spec a index) as [->|Hne].
  - rewrite list_lookup_insert_eq by (apply lookup_lt_is_Some_1; eauto).
    rewrite Hrow. simpl. now apply sum_insert_succ.
  - rewrite list_lookup_insert_ne by lia. lia.
Qed.

(** The votes of one pixel: one in every row of the sector. *)
Lemma voteSector_effect (dist : Z -> Z) (rows : list Z) : forall houghSpace houghSpace',
  NoDup rows -> (forall a, a ∈ rows -> 0 <= a) ->
  forM rows (fun houghSpace index => vote houghSpace index (dist index)) houghSpace
    = Some houghSpace' ->
  (forall a j, houghAt houghSpace a j <= houghAt houghSpace' a j) /\
  (forall a j, a ∉ rows -> houghAt houghSpace' a j = houghAt houghSpace a j) /\
  (forall a, 0 <= a ->
     rowVotes houghSpace' a = rowVotes houghSpace a + (if decide (a ∈ rows) then 1 else 0)).
Proof.
  induction rows as [|r rows IH]; intros hs hs' Hnd Hpos H; simpl in H.
  - inversion H; subst. repeat split; intros; try lia.
    destruct (decide (a ∈ [])) as [Hin|_]; [inversion Hin|lia].
  - destruct (vote hs r (dist r)) as [hs1|] eqn:Hv; [|discriminate]. simpl in H.
    apply NoDup_cons in Hnd as [Hr Hnd].
    destruct (IH hs1 hs' Hnd (fun a Ha => Hpos a (list_elem_of_further _ _ _ Ha)) H)
      as (Hmono & Hout & Hsum).
    split; [|split].
    + intros a j. specialize (Hmono a j). rewrite (vote_houghAt _ _ _ _ a j Hv) in Hmono.
      destruct ((a =? r) && (j =? dist r)); lia.
    + intros a j Ha. rewrite Hout by (intros ?; apply Ha; now right).
      rewrite (vote_houghAt _ _ _ _ a j Hv).
      rewrite (proj2 (Z.eqb_neq a r)); [simpl; lia|]. intros ->. apply Ha. left.
    + intros a Ha. rewrite (Hsum a Ha), (vote_rowVotes _ _ _ _ a Ha Hv).
      destruct (Z.eqb_spec a r) as [->|Hne].
      * destruct (decide (r ∈ rows)); [contradiction|].
        destruct (decide (r ∈ r :: rows)) as [_|Hn]; [lia|]. exfalso. apply Hn. left.
      * destruct (decide (a ∈ rows)) as [Hin|Hin];
          destruct (decide (a ∈ r :: rows)) as [Hin'|Hin']; try lia.
        -- exfalso. apply Hin'. now right.
        -- exfalso. apply elem_of_cons in Hin' as [?|?]; [congruence|contradiction].
Qed.

Lemma voteSector_total (dist : Z -> Z) (rows : list Z) houghSpace nrows cols :
  tableShape houghSpace nrows cols ->
  (forall a, a ∈ rows -> 0 <= a < nrows /\ 0 <= dist a < cols) ->
  exists houghSpace',
    forM rows (fun houghSpace index => vote houghSpace index (dist index)) houghSpace
      = Some houghSpace' /\
    tableShape houghSpace' nrows cols.
Proof.
  intros Hshape Hin.
  apply (forM_total (fun hs => tableShape hs nrows cols)); trivial.
  intros a hs Ha Hs. destruct (Hin a Ha) as [Hr Hd].
  destruct (vote_is_Some hs a (dist a) nrows cols Hs Hr Hd) as [hs' Hv].
  exists hs'. split; trivial. eapply vote_shape; eauto.
Qed.
End VoteFacts.

Lemma forM_ext {A St : Type} (f g : St -> A -> option St) (xs : list A) :
  (forall s x, f s x = g s x) -> forall s, forM xs f s = forM xs g s.
Proof.
  intros H. induction xs as [|x xs IH]; intros s; simpl; trivial.
  rewrite H. destruct (g s x); simpl; trivial.
Qed.

Section HoughFacts.
Context `{MP : ModuleParameters} `{SP : SobelParameters}.

Lemma elem_of_interior sobelImage y x :
  (y, x) ∈ interior sobelImage <->
  1 <= y <= sobelHeight sobelImage - 2 /\ 1 <= x <= sobelWidth sobelImage - 2.
Proof.
  unfold interior. rewrite list_elem_of_bind. split.
  - intros (y' & Hx & Hy). apply list_elem_of_bind in Hx as (x' & Hp & Hx).
    apply list_elem_of_singleton in Hp. inversion Hp; subst.
    apply elem_of_seqZ in Hx, Hy. lia.
  - intros [Hy Hx]. exists y. split; [|apply elem_of_seqZ; lia].
    apply list_elem_of_bind. exists x. split; [now left|apply elem_of_seqZ; lia].
Qed.

(** The distance bucket of an interior pixel lies inside a row of
    [2 * dMax + 1] cells when [dMax] is at least the diagonal of the image. *)
Lemma distanceOf_bound sobelImage y x index dMax :
  tablesBounded -> 0 <= index < numOfAngles ->
  (y, x) ∈ interior sobelImage ->
  sobelHeight sobelImage * sobelHeight sobelImage + sobelWidth sobelImage * sobelWidth sobelImage
    <= dMax * dMax ->
  0 <= dMax ->
  0 <= distanceOf x y index + dMax < 2 * dMax + 1.
Proof.
  intros Htab Hi Hin Hdiag Hd. apply elem_of_interior in Hin as [Hy Hx].
  specialize (Htab index Hi). unfold distanceOf.
  set (c := cosAngles index) in *. set (s := sinAngles index) in *.
  set (v := (inject_Z x * c + inject_Z y * s)%Q).
  assert (Hxy : x * x + y * y < dMax * dMax) by nia.
  assert (HxyQ : (inject_Z x * inject_Z x + inject_Z y * inject_Z y
                  < inject_Z dMax * inject_Z dMax)%Q).
  { rewrite <- !inject_Z_mult, <- inject_Z_plus. now rewrite <- Zlt_Qlt. }
  assert (HdQ : (0 <= inject_Z dMax)%Q) by (change 0%Q with (inject_Z 0); now rewrite <- Zle_Qle).
  assert (Hbound : (- inject_Z dMax < v /\ v < inject_Z dMax)%Q).
  { unfold v. revert Htab HxyQ HdQ.
    generalize (inject_Z x) (inject_Z y) (inject_Z dMax) c s. clear.
    intros X Y D c s Htab HxyQ HdQ.
    assert (E : ((X * c + Y * s) * (X * c + Y * s)
                 == (X * X + Y * Y) * (c * c + s * s) - (X * s - Y * c) * (X * s - Y * c))%Q)
      by ring.
    assert (Hsq : (0 <= (X * s - Y * c) * (X * s - Y * c))%Q).
    { generalize (X * s - Y * c)%Q. intros t. nra. }
    assert (H0 : (0 <= X * X + Y * Y)%Q) by nra.
    assert (H1 : ((X * X + Y * Y) * (c * c + s * s) <= X * X + Y * Y)%Q) by nra.
    assert (Hv : ((X * c + Y * s) * (X * c + Y * s) < D * D)%Q) by lra.
    revert Hv HdQ. generalize (X * c + Y * s)%Q. clear. intros v Hv HdQ. split; nra. }
  destruct Hbound as [Hlo Hhi].
  pose proof (Qle_ceiling v) as Hc1. pose proof (Qceiling_lt v) as Hc2.
  assert (H1 : (inject_Z (- dMax) < inject_Z (Qceiling v))%Q).
  { rewrite inject_Z_opp. lra. }
  assert (H2 : (inject_Z (Qceiling v - 1) < inject_Z dMax)%Q) by lra.
  rewrite <- Zlt_Qlt in H1, H2. lia.
Qed.

(** The body of the loops of [calcHoughSpace] for one pixel, on the
    buckets of the sector. *)
Lemma calcHoughSpace_sector sobelImage minIndex maxIndex dMax houghSpace :
  0 <= minIndex < numOfAngles -> 0 <= maxIndex < numOfAngles ->
  calcHoughSpace sobelImage minIndex maxIndex dMax houghSpace =
    forM (interior sobelImage) (fun houghSpace '(y, x) =>
      if votes sobelImage y x then
        forM (sector numOfAngles minIndex maxIndex)
             (fun houghSpace index => vote houghSpace index (distanceOf x y index + dMax))
             houghSpace
      else Some houghSpace) houghSpace.
Proof.
  intros Hmin Hmax. unfold calcHoughSpace. apply forM_ext.
  intros hs [y x]. destruct (votes sobelImage y x); trivial.
  now apply sectorLoop_sector.
Qed.

Lemma sector_bounds minIndex maxIndex a :
  0 <= minIndex < numOfAngles -> 0 <= maxIndex < numOfAngles ->
  a ∈ sector numOfAngles minIndex maxIndex -> 0 <= a < numOfAngles.
Proof.
  intros Hmin Hmax Ha. apply elem_of_sector in Ha; trivial.
  destruct (maxIndex <? minIndex); lia.
Qed.

Lemma calcHoughSpace_total sobelImage minIndex maxIndex dMax houghSpace :
  0 <= minIndex < numOfAngles -> 0 <= maxIndex < numOfAngles ->
  tablesBounded ->
  sobelHeight sobelImage * sobelHeight sobelImage + sobelWidth sobelImage * sobelWidth sobelImage
    <= dMax * dMax ->
  0 <= dMax ->
  tableShape houghSpace numOfAngles (2 * dMax + 1) ->
  exists houghSpace',
    calcHoughSpace sobelImage minIndex maxIndex dMax houghSpace = Some houghSpace' /\
    tableShape houghSpace' numOfAngles (2 * dMax + 1).
Proof.
  intros Hmin Hmax Htab Hdiag Hd Hshape.
  rewrite calcHoughSpace_sector by assumption.
  apply (forM_total (fun hs => tableShape hs numOfAngles (2 * dMax + 1))); trivial.
  intros [y x] hs Hin Hs. destruct (votes sobelImage y x); [|eauto].
  apply (voteSector_total (fun index => distanceOf x y index + dMax)); trivial.
  intros a Ha. pose proof (sector_bounds minIndex maxIndex a Hmin Hmax Ha) as Hb.
  split; trivial. now apply (distanceOf_bound sobelImage).
Qed.

(** What the transform does to a table: every pixel that votes adds one
    vote to every row of the sector. *)
Lemma calcHoughSpace_effect sobelImage minIndex maxIndex dMax houghSpace houghSpace' :
  0 <= minIndex < numOfAngles -> 0 <= maxIndex < numOfAngles ->
  calcHoughSpace sobelImage minIndex maxIndex dMax houghSpace = Some houghSpace' ->
  (forall a j, houghAt houghSpace a j <= houghAt houghSpace' a j) /\
  (forall a j, a ∉ sector numOfAngles minIndex maxIndex ->
               houghAt houghSpace' a j = houghAt houghSpace a j) /\
  (forall a, a ∈ sector numOfAngles minIndex maxIndex ->
             rowVotes houghSpace' a = rowVotes houghSpace a + votingPixels sobelImage).
Proof.
  intros Hmin Hmax. rewrite calcHoughSpace_sector by assumption.
  unfold votingPixels. generalize (interior sobelImage) as pixels. intros pixels.
  revert houghSpace. induction pixels as [|[y x] pixels IH]; intros hs H; simpl in H.
  - inversion H; subst. simpl. repeat split; intros; lia.
  - destruct (votes sobelImage y x) eqn:Hv.
    + destruct (forM (sector numOfAngles minIndex maxIndex) _ hs) as [hs1|] eqn:H1;
        [|discriminate]. simpl in H.
      destruct (voteSector_effect _ _ _ _ (NoDup_sector numOfAngles minIndex maxIndex Hmin Hmax)
                  (fun a Ha => proj1 (sector_bounds minIndex maxIndex a Hmin Hmax Ha)) H1)
        as (M1 & O1 & S1).
      destruct (IH hs1 H) as (M2 & O2 & S2).
      split; [|split].
      * intros a j. specialize (M1 a j). specialize (M2 a j). lia.
      * intros a j Ha. rewrite O2, O1; trivial.
      * intros a Ha. rewrite (S2 a Ha).
        rewrite (S1 a (proj1 (sector_bounds minIndex maxIndex a Hmin Hmax Ha))).
        destruct (decide (a ∈ sector numOfAngles minIndex maxIndex)); [|contradiction].
        simpl. rewrite Hv. simpl length. lia.
    + simpl in H. destruct (IH hs H) as (M2 & O2 & S2).
      split; [exact M2|]. split; [exact O2|].
      intros a Ha. rewrite (S2 a Ha). simpl. rewrite Hv. reflexivity.
Qed.

Lemma fold_max_spec {A : Type} (g : A -> Z) (l : list A) : forall acc,
  acc <= fold_left (fun t p => if t <? g p then g p else t) l acc /\
  (forall p, p ∈ l -> g p <= fold_left (fun t p => if t <? g p then g p else t) l acc) /\
  (fold_left (fun t p => if t <? g p then g p else t) l acc = acc \/
   exists p, p ∈ l /\ g p = fold_left (fun t p => if t <? g p then g p else t) l acc).
Proof.
  induction l as [|a l IH]; intros acc; cbn [fold_left].
  - split; [lia|]. split; [intros ? H; inversion H|]. now left.
  - destruct (IH (if acc <? g a then g a else acc)) as (H1 & H2 & H3).
    split; [|split].
    + destruct (Z.ltb_spec acc (g a)); lia.
    + intros p Hin. apply elem_of_cons in Hin as [->|Hin]; [|now apply H2].
      destruct (Z.ltb_spec acc (g a)); lia.
    + destruct H3 as [E|(p & Hin & E)].
      * destruct (Z.ltb_spec acc (g a)).
        -- right. exists a. split; [left|]. congruence.
        -- now left.
      * right. exists p. split; [now right|exact E].
Qed.

(** The loop of [determineSobelThresh] finds the largest squared gradient
    of the interior. *)
Lemma maxGradient_fold sobelImage :
  (forall y x, (y, x) ∈ interior sobelImage ->
               gradientSquared (sobelAt sobelImage y x) <= maxGradient sobelImage) /\
  (maxGradient sobelImage = 0 \/
   exists y x, (y, x) ∈ interior sobelImage /\
               gradientSquared (sobelAt sobelImage y x) = maxGradient sobelImage).
Proof.
  assert (E : forall l acc,
             fold_left (fun thresh '(y, x) =>
                          let value := gradientSquared (sobelAt sobelImage y x) in
                          if thresh <? value then value else thresh) l acc =
             fold_left (fun t p => if t <? gradientSquared (sobelAt sobelImage (fst p) (snd p))
                                   then gradientSquared (sobelAt sobelImage (fst p) (snd p))
                                   else t) l acc).
  { induction l as [|[y x] l IH]; intros acc; cbn [fold_left]; auto. }
  unfold maxGradient.
  rewrite E.
  destruct (fold_max_spec (fun p => gradientSquared (sobelAt sobelImage (fst p) (snd p)))
                          (interior sobelImage) 0) as (_ & H2 & H3).
  split.
  - intros y x Hin. apply (H2 (y, x) Hin).
  - destruct H3 as [H3|([y x] & Hin & H3)]; [now left|]. right. eauto.
Qed.

Lemma gradientSquared_nonneg pixel : 0 <= gradientSquared pixel.
Proof. unfold gradientSquared. nia. Qed.

Lemma maxGradient_attained sobelImage :
  interior sobelImage <> [] ->
  exists y x, (y, x) ∈ interior sobelImage /\
              gradientSquared (sobelAt sobelImage y x) = maxGradient sobelImage.
Proof.
  intros Hne. destruct (maxGradient_fold sobelImage) as (H2 & H3).
  destruct H3 as [E|H3]; [|exact H3].
  destruct (interior sobelImage) as [|[y x] pixels] eqn:Hi; [congruence|].
  exists y, x. split; [left|].
  pose proof (H2 y x ltac:(left)). pose proof (gradientSquared_nonneg (sobelAt sobelImage y x)).
  lia.
Qed.

Lemma determineSobelThresh_le sobelImage :
  thresholdBelowMaximum sobelImage ->
  (determineSobelThresh sobelImage <= inject_Z (maxGradient sobelImage))%Q.
Proof.
  intros ([Ht0 Ht1] & Hr & Hsq). unfold determineSobelThresh, sqr in *.
  revert Ht0 Ht1 Hr Hsq.
  generalize (sqrtf (inject_Z (maxGradient sobelImage))).
  generalize (inject_Z (maxGradient sobelImage)). generalize sobelThreshValue.
  intros t m r Ht0 Ht1 Hr Hsq.
  assert (H1 : (r * t <= r)%Q) by nra.
  assert (H2 : (0 <= r * t)%Q) by nra.
  assert (H3 : (r * t * (r * t) <= r * r)%Q) by nra.
  lra.
Qed.

(** A strongest pixel of the interior always votes. *)
Lemma votingPixels_pos sobelImage :
  thresholdBelowMaximum sobelImage -> interior sobelImage <> [] ->
  0 < votingPixels sobelImage.
Proof.
  intros Hthr Hne. destruct (maxGradient_attained sobelImage Hne) as (y & x & Hin & Hmax).
  assert (Hv : votes sobelImage y x = true).
  { unfold votes. apply Qleb_le. rewrite Hmax. now apply determineSobelThresh_le. }
  unfold votingPixels.
  assert (Hf : (y, x) ∈ List.filter (fun p : Z * Z => votes sobelImage (fst p) (snd p))
                                    (interior sobelImage)).
  { apply list_elem_of_In, filter_In. split; [now apply list_elem_of_In|exact Hv]. }
  destruct (List.filter _ _); [inversion Hf|]. simpl. lia.
Qed.

Lemma emptyHoughSpace_shape dMax :
  0 <= numOfAngles -> 0 <= dMax -> tableShape (emptyHoughSpace dMax) numOfAngles (2 * dMax + 1).
Proof.
  intros Hn Hd. unfold emptyHoughSpace. split.
  - rewrite length_replicate. lia.
  - apply Forall_replicate. rewrite length_replicate. lia.
Qed.

Lemma emptyHoughSpace_houghAt dMax a j : houghAt (emptyHoughSpace dMax) a j = 0.
Proof.
  unfold houghAt, emptyHoughSpace. destruct ((a <? 0) || (j <? 0)); trivial.
  destruct (replicate _ _ !! Z.to_nat a) as [row|] eqn:Hrow; simpl; trivial.
  apply lookup_replicate in Hrow as [-> _].
  destruct (replicate _ _ !! Z.to_nat j) as [v|] eqn:Hv; simpl; trivial.
  now apply lookup_replicate in Hv as [-> _].
Qed.

Lemma emptyHoughSpace_rowVotes dMax a : rowVotes (emptyHoughSpace dMax) a = 0.
Proof.
  unfold rowVotes, emptyHoughSpace.
  destruct (replicate _ _ !! Z.to_nat a) as [row|] eqn:Hrow; simpl; trivial.
  apply lookup_replicate in Hrow as [-> _].
  induction (Z.to_nat (2 * dMax + 1)) as [|k IH]; simpl; lia.
Qed.

Lemma sum_pos_exists (row : list Z) :
  0 < fold_right Z.add 0 row -> exists (j : nat) v, row !! j = Some v /\ 0 < v.
Proof.
  induction row as [|x row IH]; simpl; [lia|]. intros H.
  destruct (Z.ltb_spec 0 x).
  - exists 0%nat, x. auto.
  - destruct IH as (j & v & Hj & Hv); [lia|]. exists (S j), v. auto.
Qed.

Lemma entry_le_sum (row : list Z) :
  (forall (j : nat) v, row !! j = Some v -> 0 <= v) ->
  forall (j : nat) v, row !! j = Some v -> v <= fold_right Z.add 0 row.
Proof.
  induction row as [|x row IH]; intros Hpos j v Hj; [discriminate|]. simpl.
  assert (Hrest : 0 <= fold_right Z.add 0 row).
  { clear -Hpos. assert (H : forall (j : nat) v, row !! j = Some v -> 0 <= v)
      by (intros j v Hj; apply (Hpos (S j) v Hj)).
    clear Hpos. induction row as [|y row IH]; simpl; [lia|].
    pose proof (H 0%nat y eq_refl). specialize (IH (fun j v Hj => H (S j) v Hj)). lia. }
  destruct j as [|j]; simpl in Hj.
  - inversion Hj; subst. lia.
  - pose proof (Hpos 0%nat x eq_refl).
    specialize (IH (fun j v Hj => Hpos (S j) v Hj) j v Hj). lia.
Qed.

Lemma houghAt_row houghSpace a row (j : nat) v :
  0 <= a -> houghSpace !! Z.to_nat a = Some row -> row !! j = Some v ->
  houghAt houghSpace a (Z.of_nat j) = v.
Proof.
  intros Ha Hrow Hj. unfold houghAt.
  rewrite (proj2 (Z.ltb_ge a 0)), (proj2 (Z.ltb_ge (Z.of_nat j) 0)) by lia. simpl.
  rewrite Hrow. simpl. rewrite Nat2Z.id, Hj. reflexivity.
Qed.

Lemma argmax_exists {A : Type} (f : A -> Z) (l : list A) :
  l <> [] -> exists x, x ∈ l /\ forall y, y ∈ l -> f y <= f x.
Proof.
  induction l as [|a l IH]; [congruence|]. intros _.
  destruct l as [|b l].
  - exists a. split; [left|]. intros y Hy. apply list_elem_of_singleton in Hy. subst. lia.
  - destruct IH as (x & Hx & Hmax); [discriminate|].
    destruct (Z.le_gt_cases (f x) (f a)).
    + exists a. split; [left|]. intros y Hy. apply elem_of_cons in Hy as [->|Hy]; [lia|].
      specialize (Hmax y Hy). lia.
    + exists x. split; [now right|]. intros y Hy. apply elem_of_cons in Hy as [->|Hy]; [lia|].
      now apply Hmax.
Qed.

(** The maxima of a transform of the empty table, for a sector that is
    not empty and an image with a pixel that votes. *)
Lemma houghMaxima_spec sobelImage minIndex maxIndex dMax :
  0 <= minIndex < numOfAngles -> 0 <= maxIndex < numOfAngles -> minIndex <> maxIndex ->
  tablesBounded ->
  sobelHeight sobelImage * sobelHeight sobelImage + sobelWidth sobelImage * sobelWidth sobelImage
    <= dMax * dMax ->
  0 <= dMax ->
  0 < votingPixels sobelImage ->
  exists localMaxima,
    houghMaxima sobelImage minIndex maxIndex dMax = Some localMaxima /\
    localMaxima <> [] /\
    forall m, m ∈ localMaxima ->
      0 < maxAcc m <= votingPixels sobelImage /\
      angleIndex m ∈ sector numOfAngles minIndex maxIndex /\
      0 <= distanceIndex m < 2 * dMax + 1.
Proof.
  intros Hmin Hmax Hne Htab Hdiag Hd Hvotes. unfold houghMaxima.
  destruct (calcHoughSpace_total sobelImage minIndex maxIndex dMax (emptyHoughSpace dMax)
              Hmin Hmax Htab Hdiag Hd (emptyHoughSpace_shape dMax ltac:(lia) Hd))
    as (hs & Hrun & [Hlen Hrows]).
  rewrite Hrun. simpl.
  destruct (calcHoughSpace_effect _ _ _ _ _ _ Hmin Hmax Hrun) as (Hmono & Hout & Hsum).
  assert (Hnonneg : forall a j, 0 <= houghAt hs a j).
  { intros a j. specialize (Hmono a j). rewrite emptyHoughSpace_houghAt in Hmono. exact Hmono. }
  assert (Hrow : forall a, 0 <= a < numOfAngles ->
                   exists row, hs !! Z.to_nat a = Some row /\
                               Z.of_nat (length row) = 2 * dMax + 1).
  { intros a Ha. destruct (lookup_lt_is_Some_2 hs (Z.to_nat a) ltac:(lia)) as [row Hr].
    exists row. split; trivial. apply (proj1 (Forall_lookup _ _) Hrows _ _ Hr). }
  assert (Hcols : maxDisIndexOf hs = 2 * dMax + 1).
  { unfold maxDisIndexOf. destruct (Hrow 0 ltac:(lia)) as (row & Hr & Hl).
    change (Z.to_nat 0) with 0%nat in Hr. rewrite Hr. exact Hl. }
  rewrite determineLocalMaxima_sector by assumption. rewrite Hcols.
  set (rows := sector numOfAngles minIndex maxIndex).
  assert (Hfirst : minIndex ∈ rows).
  { apply elem_of_sector; trivial. destruct (Z.ltb_spec maxIndex minIndex); lia. }
  eexists. split; [reflexivity|].
  assert (Hcell : forall a d, 0 <= a < numOfAngles -> 0 <= d < 2 * dMax + 1 ->
                    houghAt hs a d <= rowVotes hs a).
  { intros a d Ha Hd'. destruct (Hrow a Ha) as (row & Hr & Hl).
    destruct (lookup_lt_is_Some_2 row (Z.to_nat d) ltac:(lia)) as [v Hv].
    unfold rowVotes. rewrite Hr. simpl.
    pose proof (houghAt_row hs a row (Z.to_nat d) v ltac:(lia) Hr Hv) as E.
    rewrite Z2Nat.id in E by lia. rewrite E.
    apply (entry_le_sum row) with (j := Z.to_nat d); trivial.
    intros j w Hj. rewrite <- (houghAt_row hs a row j w ltac:(lia) Hr Hj). apply Hnonneg. }
  split.
  - (* a strongest cell of the rows of the sector is reported *)
    assert (Hpos : exists d, 0 <= d < 2 * dMax + 1 /\ 0 < houghAt hs minIndex d).
    { destruct (Hrow minIndex Hmin) as (row & Hr & Hl).
      destruct (sum_pos_exists row) as (j & v & Hj & Hv).
      { specialize (Hsum minIndex Hfirst). rewrite emptyHoughSpace_rowVotes in Hsum.
        unfold rowVotes in Hsum. rewrite Hr in Hsum. simpl in Hsum. lia. }
      exists (Z.of_nat j). split.
      - apply lookup_lt_Some in Hj. lia.
      - rewrite (houghAt_row hs minIndex row j v ltac:(lia) Hr Hj). exact Hv. }
    destruct Hpos as (d0 & Hd0 & Hv0).
    set (cells := a ← rows; d ← seqZ 0 (2 * dMax + 1); [(a, d)]).
    assert (Hcells : forall a d, (a, d) ∈ cells <-> a ∈ rows /\ 0 <= d < 2 * dMax + 1).
    { intros a d. unfold cells. rewrite list_elem_of_bind. split.
      - intros (a' & Hd' & Ha'). apply list_elem_of_bind in Hd' as (d' & Hp & Hd').
        apply list_elem_of_singleton in Hp. inversion Hp; subst.
        apply elem_of_seqZ in Hd'. split; trivial; lia.
      - intros [Ha' Hd']. exists a. split; trivial. apply list_elem_of_bind.
        exists d. split; [now left|apply elem_of_seqZ; lia]. }
    destruct (argmax_exists (fun c : Z * Z => houghAt hs (fst c) (snd c)) cells)
      as ([a d] & Hin & Hbest).
    { intros E. assert (H0 : (minIndex, d0) ∈ cells) by (apply Hcells; auto).
      rewrite E in H0. inversion H0. }
    simpl in Hbest. apply Hcells in Hin as [Ha Hd'].
    assert (Hbig : 0 < houghAt hs a d).
    { specialize (Hbest (minIndex, d0) (proj2 (Hcells minIndex d0) (conj Hfirst Hd0))).
      simpl in Hbest. lia. }
    assert (Hm : mkMaximum (houghAt hs a d) a d
                 ∈ rows ≫= rowMaxima hs (2 * dMax + 1) numOfAngles).
    { apply elem_of_sector_maxima. simpl. split; [exact Ha|]. split; [exact Hd'|].
      split; [reflexivity|]. split; [lia|].
      intros a' d' (_ & Hd'' & _).
      destruct (decide (a' ∈ rows)) as [Hin'|Hout'].
      - apply (Hbest (a', d')). apply Hcells. split; trivial. lia.
      - rewrite (Hout a' d' Hout'), emptyHoughSpace_houghAt. lia. }
    intros E. rewrite E in Hm. inversion Hm.
  - intros m Hm. apply elem_of_sector_maxima in Hm as (Ha & Hd' & Hv & [Hnz _]).
    split; [|auto]. rewrite Hv. split.
    + pose proof (Hnonneg (angleIndex m) (distanceIndex m)). lia.
    + pose proof (Hcell (angleIndex m) (distanceIndex m)
                        (sector_bounds minIndex maxIndex _ Hmin Hmax Ha) Hd') as Hle.
      rewrite (Hsum _ Ha), emptyHoughSpace_rowVotes in Hle. lia.
Qed.
End HoughFacts.
(** ** The calibration as a parameter vector *)

Section PackFacts.
Context `{MP : ModuleParameters}.

(** X16. [unpack] after [pack] gives the calibration back: for a
    calibration whose six packed angles are below 360 degrees in magnitude
    the angles written are equal to the ones read, and the third
    components, which are not packed, are untouched. A calibration that
    [unpack] wrote is such a calibration, whatever the vector was. *)
Theorem calibration_round_trip (c : CameraCalibration) (params : Parameters) :
  (0 < one_deg)%Q ->
  (Forall (fun x => (Qabs x < deg 360)%Q) (angles c) ->
   Forall2 Qeq (angles (unpack (pack c) c)) (angles c)) /\
  Forall2 Qeq (angles (unpack (pack (unpack params c)) (unpack params c)))
              (angles (unpack params c)) /\
  az (lowerCameraRotationCorrection (unpack params c)) = az (lowerCameraRotationCorrection c) /\
  az (upperCameraRotationCorrection (unpack params c)) = az (upperCameraRotationCorrection c) /\
  az (bodyRotationCorrection (unpack params c)) = az (bodyRotationCorrection c).
Proof.
  intros Hdeg.
  assert (Hpos : (0 < deg 360)%Q) by (apply deg_pos; [assumption | reflexivity]).
  assert (Hround : forall c', Forall (fun x => (Qabs x < deg 360)%Q) (angles c') ->
                              Forall2 Qeq (angles (unpack (pack c') c')) (angles c')).
  { intros c' Hb. rewrite unpack_angles.
    change (components (pack c')) with (angles c').
    induction Hb as [|x l Hx Hl IH]; simpl; constructor; trivial.
    now apply fmod_small. }
  split; [apply Hround|]. split; [|repeat split].
  apply Hround. now apply unpack_bounded.
Qed.
End PackFacts.

(** ** The Hough transform of a patch *)

Section HoughTheorems.
Context `{MP : ModuleParameters} `{SP : SobelParameters}.

(** X17. [calcHoughSpace] stays inside the table: for a sector inside the
    table, look-up tables that hold points of the unit disc, a table of
    [numOfAngles] rows of [2 * dMax + 1] cells and a [dMax] that is at
    least the diagonal of the image, no access is out of range and the
    loop over the sector ends; the table keeps its shape. *)
Theorem hough_transform_stays_in_table (sobelImage : SobelImage) (minIndex maxIndex dMax : Z)
        (houghSpace : list (list Z)) :
  0 <= minIndex < numOfAngles -> 0 <= maxIndex < numOfAngles ->
  tablesBounded ->
  sobelHeight sobelImage * sobelHeight sobelImage + sobelWidth sobelImage * sobelWidth sobelImage
    <= dMax * dMax ->
  0 <= dMax ->
  tableShape houghSpace numOfAngles (2 * dMax + 1) ->
  exists houghSpace',
    calcHoughSpace sobelImage minIndex maxIndex dMax houghSpace = Some houghSpace' /\
    tableShape houghSpace' numOfAngles (2 * dMax + 1).
Proof. apply calcHoughSpace_total. Qed.

(** X18. Every pixel that passes the threshold gives exactly one vote to
    every row of the sector: the votes in a row of the sector grow by the
    number of such pixels, the rows outside of the sector are as before,
    and no cell loses votes. *)
Theorem hough_transform_counts_votes (sobelImage : SobelImage) (minIndex maxIndex dMax : Z)
        (houghSpace houghSpace' : list (list Z)) :
  0 <= minIndex < numOfAngles -> 0 <= maxIndex < numOfAngles ->
  calcHoughSpace sobelImage minIndex maxIndex dMax houghSpace = Some houghSpace' ->
  (forall a, a ∈ sector numOfAngles minIndex maxIndex ->
             rowVotes houghSpace' a = rowVotes houghSpace a + votingPixels sobelImage) /\
  (forall a j, a ∉ sector numOfAngles minIndex maxIndex ->
               houghAt houghSpace' a j = houghAt houghSpace a j) /\
  (forall a j, houghAt houghSpace a j <= houghAt houghSpace' a j).
Proof.
  intros Hmin Hmax Hrun.
  destruct (calcHoughSpace_effect _ _ _ _ _ _ Hmin Hmax Hrun) as (M & O & S). auto.
Qed.

(** X19. The transform of an image always yields a maximum: when the
    threshold is a fraction of the largest gradient, the image has an
    interior (at least 3 by 3 pixels) and the sector is not empty, a
    strongest pixel votes, and the scan of the accumulator that
    [calcHoughSpace] fills reports at least one local maximum. Every
    maximum reported lies in the sector and holds at least 1 and at most as
    many votes as pixels voted. *)
Theorem hough_maxima_exist (sobelImage : SobelImage) (minIndex maxIndex dMax : Z) :
  0 <= minIndex < numOfAngles -> 0 <= maxIndex < numOfAngles -> minIndex <> maxIndex ->
  tablesBounded ->
  thresholdBelowMaximum sobelImage ->
  3 <= sobelWidth sobelImage -> 3 <= sobelHeight sobelImage ->
  sobelHeight sobelImage * sobelHeight sobelImage + sobelWidth sobelImage * sobelWidth sobelImage
    <= dMax * dMax ->
  0 <= dMax ->
  0 < votingPixels sobelImage /\
  exists localMaxima,
    houghMaxima sobelImage minIndex maxIndex dMax = Some localMaxima /\
    localMaxima <> [] /\
    forall m, m ∈ localMaxima ->
      0 < maxAcc m <= votingPixels sobelImage /\
      angleIndex m ∈ sector numOfAngles minIndex maxIndex /\
      0 <= distanceIndex m < 2 * dMax + 1.
Proof.
  intros Hmin Hmax Hne Htab Hthr Hw Hh Hdiag Hd.
  assert (Hvotes : 0 < votingPixels sobelImage).
  { apply votingPixels_pos; trivial. intros E.
    assert (Hin : (1, 1) ∈ interior sobelImage) by (apply elem_of_interior; lia).
    rewrite E in Hin. inversion Hin. }
  split; [exact Hvotes|]. now apply houghMaxima_spec.
Qed.
End HoughTheorems.

(** X20. The image section [fitLine] processes for a segment is at least
    32 by 32 pixels, its width is a multiple of 16 that covers the
    horizontal extent of the segment, its height covers the vertical
    extent, and [dMax] is the least integer that is not below the diagonal
    of the section: a gradient image of this size has an interior and
    meets the bound [calcHoughSpace] needs. *)
Theorem patch_of_a_segment (correctedStart correctedEnd : Vector2f) :
  let patch := patchOf correctedStart correctedEnd in
  32 <= sizeX patch /\ sizeX patch mod 16 = 0 /\
  truncate (vx correctedEnd - vx correctedStart) <= sizeX patch /\
  32 <= sizeY patch /\
  Z.abs (truncate (vy correctedEnd - vy correctedStart)) <= sizeY patch /\
  sizeY patch * sizeY patch + sizeX patch * sizeX patch <= dMaxOf patch * dMaxOf patch /\
  (dMaxOf patch - 1) * (dMaxOf patch - 1) < sizeY patch * sizeY patch + sizeX patch * sizeX patch /\
  0 < dMaxOf patch.
Proof.
  intros patch. subst patch. unfold patchOf, dMaxOf. simpl.
  set (tx := truncate (vx correctedEnd - vx correctedStart)).
  set (ty := truncate (vy correctedEnd - vy correctedStart)).
  set (m := Z.max 32 tx).
  assert (Hm : 32 <= m) by (unfold m; lia).
  assert (Hq : Z.quot (m + 15) 16 = (m + 15) / 16) by (apply Z.quot_div_nonneg; lia).
  rewrite Hq.
  pose proof (Z.div_mod (m + 15) 16 ltac:(lia)) as Hdm.
  pose proof (Z.mod_pos_bound (m + 15) 16 ltac:(lia)) as Hmod.
  set (sx := (m + 15) / 16 * 16) in *.
  set (sy := Z.max 32 (Z.abs ty)).
  assert (Hsx : m <= sx) by (unfold sx; lia).
  pose proof (Z.sqrt_up_spec (sy * sy + sx * sx) ltac:(nia)) as Hs. simpl in Hs.
  split; [lia|]. split; [unfold sx; apply Z.mod_mul; lia|].
  split; [unfold m in Hsx; lia|]. split; [unfold sy; lia|]. split; [unfold sy; lia|].
  unfold Z.pred in Hs. replace (Z.sqrt_up (sy * sy + sx * sx) + -1)
    with (Z.sqrt_up (sy * sy + sx * sx) - 1) in Hs by lia.
  split; [apply Hs|]. split; [apply Hs|].
  destruct (Z.le_gt_cases (Z.sqrt_up (sy * sy + sx * sx)) 0); [|lia]. nia.
Qed.
(** ** The errors of the samples *)

Section ErrorFacts.
Context `{Ext : Externals} `{MP : ModuleParameters} `{EM : ErrorModel}.

Lemma clamp_bounds (v : Q) : (-1 <= Qmaxf (-1) (Qminf v 1) <= 1)%Q.
Proof.
  unfold Qmaxf, Qminf.
  destruct (Qltb 1 v) eqn:E1.
  - destruct (Qltb (-1) 1) eqn:E2; [lra|]. apply Qltb_ge in E2. lra.
  - apply Qltb_ge in E1. destruct (Qltb (-1) v) eqn:E2.
    + apply Qltb_lt in E2. lra.
    + lra.
Qed.

(** [calculateAngle] calls [std::acos] inside its domain only. *)
Lemma calculateAngle_range a b c d :
  acosInRange -> (0 <= calculateAngle a b c d <= deg 180)%Q.
Proof. intros Hacos. unfold calculateAngle. apply Hacos, clamp_bounds. Qed.

Lemma projectLine_Some proj cline :
  is_Some (proj (aInImage cline)) -> is_Some (proj (bInImage cline)) ->
  is_Some (projectLine proj cline).
Proof. intros [a Ha] [b Hb]. unfold projectLine. rewrite Ha, Hb. simpl. eauto. Qed.

Lemma projectLine_None proj cline :
  proj (aInImage cline) = None \/ proj (bInImage cline) = None ->
  projectLine proj cline = None.
Proof.
  unfold projectLine. intros [H|H]; rewrite H; simpl; trivial.
  destruct (proj (aInImage cline)); reflexivity.
Qed.

Lemma withTwoLines_sentinel proj cLine1 cLine2 error p :
  p ∈ [aInImage cLine1; bInImage cLine1; aInImage cLine2; bInImage cLine2] ->
  proj p = None -> withTwoLines proj cLine1 cLine2 error = notValidError.
Proof.
  intros Hin Hp. unfold withTwoLines.
  repeat (apply elem_of_cons in Hin as [->|Hin]); [| | | |inversion Hin].
  - rewrite projectLine_None; auto.
  - rewrite projectLine_None; auto.
  - destruct (projectLine proj cLine1); trivial. rewrite projectLine_None; auto.
  - destruct (projectLine proj cLine1); trivial. rewrite projectLine_None; auto.
Qed.

Lemma withLineAndMark_sentinel proj cLine mark error p :
  p ∈ [aInImage cLine; bInImage cLine; castf mark] ->
  proj p = None -> withLineAndMark proj cLine mark error = notValidError.
Proof.
  intros Hin Hp. unfold withLineAndMark.
  repeat (apply elem_of_cons in Hin as [->|Hin]); [| | |inversion Hin].
  - rewrite projectLine_None; auto.
  - rewrite projectLine_None; auto.
  - destruct (projectLine proj cLine); trivial. now rewrite Hp.
Qed.

Lemma computeErrorOf_sentinel s c p :
  p ∈ projectedPoints s -> projectWith (snapshotOf s) c p = None ->
  computeErrorOf s c = notValidError.
Proof.
  destruct s; simpl; intros Hin Hp;
    first [now apply (withTwoLines_sentinel _ _ _ _ p)
          | now apply (withLineAndMark_sentinel _ _ _ _ p)].
Qed.

Lemma withTwoLines_projected proj cLine1 cLine2 error :
  (forall p, p ∈ [aInImage cLine1; bInImage cLine1; aInImage cLine2; bInImage cLine2] ->
             is_Some (proj p)) ->
  exists line1 line2, withTwoLines proj cLine1 cLine2 error = error line1 line2.
Proof.
  intros H. unfold withTwoLines.
  destruct (projectLine_Some proj cLine1) as [l1 ->]; [apply H; repeat constructor..|].
  destruct (projectLine_Some proj cLine2) as [l2 ->]; [apply H; repeat constructor..|].
  eauto.
Qed.

Lemma withLineAndMark_projected proj cLine mark error :
  (forall p, p ∈ [aInImage cLine; bInImage cLine; castf mark] -> is_Some (proj p)) ->
  exists line1 markOnField, withLineAndMark proj cLine mark error = error line1 markOnField.
Proof.
  intros H. unfold withLineAndMark.
  destruct (projectLine_Some proj cLine) as [l1 ->]; [apply H; repeat constructor..|].
  destruct (H (castf mark)) as [m ->]; [repeat constructor|].
  eauto.
Qed.

Lemma Qdiv_nonneg (a d : Q) : (0 <= a)%Q -> (0 < d)%Q -> (0 <= a / d)%Q.
Proof. intros Ha Hd. apply Qle_shift_div_l; trivial. lra. Qed.

Lemma Qdiv_le_compat (a b d : Q) : (a <= b)%Q -> (0 < d)%Q -> (a / d <= b / d)%Q.
Proof.
  intros Hab Hd. unfold Qdiv. apply Qmult_le_compat_r; trivial.
  apply Qlt_le_weak, Qinv_lt_0_compat, Hd.
Qed.

Lemma Qmaxf_nonneg (v : Q) : (0 <= Qmaxf 0 v)%Q.
Proof.
  unfold Qmaxf. destruct (Qltb 0 v) eqn:E; [|lra]. apply Qltb_lt in E. lra.
Qed.

Lemma maxElement_ge_first (first : Q) (rest : list Q) : (first <= maxElement first rest)%Q.
Proof.
  unfold maxElement. revert first. induction rest as [|e rest IH]; intros first; simpl; [lra|].
  destruct (Qltb first e) eqn:E.
  - apply Qltb_lt in E. specialize (IH e). lra.
  - apply IH.
Qed.

Lemma cornerAngleError_bounds l1 l2 :
  acosInRange -> (0 < angleErrorDivisor)%Q ->
  (0 <= cornerAngleError l1 l2 <= deg 90 / angleErrorDivisor)%Q.
Proof.
  intros Hacos Hdiv. unfold cornerAngleError, angleBetween.
  pose proof (calculateAngle_range (aOnField l1) (bOnField l1) (aOnField l2) (bOnField l2) Hacos)
    as Hr.
  revert Hr. generalize (calculateAngle (aOnField l1) (bOnField l1) (aOnField l2) (bOnField l2)).
  intros a Hr. unfold deg in *. split.
  - apply Qdiv_nonneg; trivial. apply Qabs_nonneg.
  - apply Qdiv_le_compat; trivial. apply Qabs_Qle_condition. lra.
Qed.

Lemma parallelAngleError_bounds l1 l2 :
  acosInRange -> (0 < angleErrorDivisor)%Q ->
  (0 <= parallelAngleError l1 l2 <= deg 90 / angleErrorDivisor)%Q.
Proof.
  intros Hacos Hdiv. unfold parallelAngleError, angleBetween.
  pose proof (calculateAngle_range (aOnField l1) (bOnField l1) (aOnField l2) (bOnField l2) Hacos)
    as Hr.
  revert Hr. generalize (calculateAngle (aOnField l1) (bOnField l1) (aOnField l2) (bOnField l2)).
  intros a Hr. unfold deg, Qminf in *.
  destruct (Qltb (180 * one_deg - a) a) eqn:E.
  - apply Qltb_lt in E. split; [apply Qdiv_nonneg|apply Qdiv_le_compat]; trivial; lra.
  - apply Qltb_ge in E. split; [apply Qdiv_nonneg|apply Qdiv_le_compat]; trivial; lra.
Qed.

Lemma parallelLinesDistanceError_nonneg l1 l2 :
  (0 < distanceErrorDivisor)%Q -> (0 <= parallelLinesDistanceError l1 l2)%Q.
Proof.
  intros Hdiv. unfold parallelLinesDistanceError. cbv zeta.
  apply Qdiv_nonneg; trivial.
  eapply Qle_trans; [apply Qmaxf_nonneg|apply maxElement_ge_first].
Qed.

Lemma markDistanceErrors_nonneg l m :
  (0 < distanceErrorDivisor)%Q ->
  (0 <= goalAreaDistanceError l m)%Q /\ (0 <= groundLineDistanceError l m)%Q.
Proof.
  intros Hdiv. unfold goalAreaDistanceError, groundLineDistanceError.
  split; apply Qdiv_nonneg; trivial; apply Qabs_nonneg.
Qed.
End ErrorFacts.

Section ErrorTheorems.
Context `{Ext : Externals} `{MP : ModuleParameters} `{EM : ErrorModel}.

(** X21. A sample whose line end points or penalty mark cannot all be
    projected to the field under a calibration has exactly the sentinel
    error [notValidError] under it, for each of the five kinds of samples. *)
Theorem projection_failure_gives_sentinel (s : Sample) (cameraCalibration : CameraCalibration)
        (p : Vector2f) :
  p ∈ projectedPoints s ->
  projectWith (snapshotOf s) cameraCalibration p = None ->
  computeErrorOf s cameraCalibration = notValidError.
Proof. apply computeErrorOf_sentinel. Qed.

(** X22. The error of a sample that can be projected is not negative, and
    the error of an angle sample is at most 90 degrees over the divisor:
    when [notValidError] is above that, an angle sample reaches the
    sentinel only by a projection that fails. *)
Theorem sample_errors_bounded (s : Sample) (cameraCalibration : CameraCalibration) :
  acosInRange -> (0 < angleErrorDivisor)%Q -> (0 < distanceErrorDivisor)%Q ->
  projectable s cameraCalibration ->
  (0 <= computeErrorOf s cameraCalibration)%Q /\
  (isAngleSample s = true ->
   (computeErrorOf s cameraCalibration <= deg 90 / angleErrorDivisor)%Q /\
   ((deg 90 / angleErrorDivisor < notValidError)%Q ->
    (computeErrorOf s cameraCalibration < notValidError)%Q)).
Proof.
  intros Hacos Ha Hd Hproj. unfold projectable in Hproj.
  destruct s; simpl in *.
  - destruct (withTwoLines_projected _ cLine1 cLine2 cornerAngleError Hproj) as (l1 & l2 & ->).
    destruct (cornerAngleError_bounds l1 l2 Hacos Ha) as [H0 H1].
    split; [exact H0|]. intros _. split; [exact H1|]. intros. lra.
  - destruct (withTwoLines_projected _ cLine1 cLine2 parallelAngleError Hproj) as (l1 & l2 & ->).
    destruct (parallelAngleError_bounds l1 l2 Hacos Ha) as [H0 H1].
    split; [exact H0|]. intros _. split; [exact H1|]. intros. lra.
  - destruct (withTwoLines_projected _ cLine1 cLine2 parallelLinesDistanceError Hproj)
      as (l1 & l2 & ->).
    split; [exact (parallelLinesDistanceError_nonneg l1 l2 Hd)|discriminate].
  - destruct (withLineAndMark_projected _ cLine penaltyMarkInImage goalAreaDistanceError Hproj)
      as (l1 & m & ->).
    split; [exact (proj1 (markDistanceErrors_nonneg l1 m Hd))|discriminate].
  - destruct (withLineAndMark_projected _ cLine penaltyMarkInImage groundLineDistanceError Hproj)
      as (l1 & m & ->).
    split; [exact (proj2 (markDistanceErrors_nonneg l1 m Hd))|discriminate].
Qed.

(** X23. A projection that fails during the optimization restarts it:
    when every slot of the table holds a sample, the step delta is finite
    and a sample cannot be projected under the vector of the step, the
    cycle still returns; the optimizer is dropped and the vector is drawn
    anew, the module stays in its state and keeps its samples. *)
Theorem projection_failure_restarts
        (iter : (Parameters -> nat -> option Q) -> nat -> Parameters -> option (fpval * Parameters))
        (inp : Inputs) (cal : Calibrator) (delta : Q) (params : Parameters)
        (i : nat) (s : Sample) (p : Vector2f) :
  optimizer (optimization cal) = true ->
  allRecorded cal ->
  iter (@functor MP (optimizerWith iter) cal) (getNumOfMeasurements cal)
       (optimizationParameters (optimization cal)) = Some (finite delta, params) ->
  samples (collector cal) !! i = Some (Some s) ->
  p ∈ projectedPoints s ->
  projectWith (snapshotOf s) (unpack params (nextCameraCalibration cal)) p = None ->
  exists cal',
    @optimize MP (optimizerWith iter) inp cal = Some cal' /\
    optimizer (optimization cal') = false /\
    optimizationParameters (optimization cal') = randomParameters inp /\
    nextCameraCalibration cal' = unpack (randomParameters inp) (nextCameraCalibration cal) /\
    state cal' = state cal /\ collector cal' = collector cal.
Proof.
  intros Hopt Hall Hit Hs Hin Hp.
  exists (@resetOptimization MP inp false (setOptimizationParameters cal params)).
  split; [|simpl; repeat split].
  unfold optimize. rewrite Hopt. simpl negb. cbv iota.
  change (@iterate (optimizerWith iter)) with iter. rewrite Hit. simpl.
  rewrite (anyNotValid_some _ (seq 0 (length (samples (collector cal))))); trivial.
  - intros j Hj. apply elem_of_seq in Hj.
    destruct (Hall j ltac:(simpl; lia)) as [sj Hsj].
    unfold functor. simpl. rewrite Hsj. eauto.
  - exists i, (computeErrorOf s (unpack params (nextCameraCalibration cal))).
    split; [|split].
    + apply elem_of_seq. pose proof (lookup_lt_Some _ _ _ Hs). lia.
    + unfold functor. simpl. now rewrite Hs.
    + rewrite (computeErrorOf_sentinel s _ p Hin Hp). apply Qle_refl.
Qed.
End ErrorTheorems.
(** ** The projection of field lines into the image *)

Section ProjectionFacts.

Lemma perspective_division (f : Q) (p : Vector3f) :
  (0 < f)%Q -> (f <= x3 p)%Q ->
  (x3 (v3div p (x3 p / f)) == f)%Q /\ v3eq (v3div p (x3 p / f)) (v3scale p (f / x3 p)).
Proof.
  intros Hf Hp. unfold v3eq, v3div, v3scale. simpl.
  assert (Hx : ~ (x3 p == 0)%Q) by lra.
  assert (Hf' : ~ (f == 0)%Q) by lra.
  repeat split; field; auto.
Qed.

Lemma intersection_on_plane (f : Q) (p1 p2 : Vector3f) :
  ~ (x3 p1 - x3 p2 == 0)%Q ->
  (x3 (v3add p1 (v3scale (v3sub p1 p2) ((f - x3 p1) / x3 (v3sub p1 p2)))) == f)%Q.
Proof. intros Hd. simpl. field. exact Hd. Qed.

Lemma intersection_on_segment (f : Q) (p1 p2 : Vector3f) :
  ((x3 p1 < f /\ f <= x3 p2) \/ (x3 p2 < f /\ f <= x3 p1))%Q ->
  onSegment p1 p2 (v3add p1 (v3scale (v3sub p1 p2) ((f - x3 p1) / x3 (v3sub p1 p2)))).
Proof.
  intros Hcase. unfold onSegment.
  destruct Hcase as [[H1 H2]|[H1 H2]].
  - exists ((f - x3 p1) / (x3 p2 - x3 p1))%Q. split.
    + split.
      * apply Qle_shift_div_l; lra.
      * apply Qle_shift_div_r; lra.
    + unfold v3eq, v3add, v3scale, v3sub. simpl. repeat split; field; lra.
  - exists ((x3 p1 - f) / (x3 p1 - x3 p2))%Q. split.
    + split.
      * apply Qle_shift_div_l; lra.
      * apply Qle_shift_div_r; lra.
    + unfold v3eq, v3add, v3scale, v3sub. simpl. repeat split; field; lra.
Qed.

(** The two ways to compute the point of the segment in the plane. *)
Lemma intersection_symmetric (f : Q) (p1 p2 : Vector3f) :
  ~ (x3 p1 - x3 p2 == 0)%Q ->
  v3eq (v3add p1 (v3scale (v3sub p1 p2) ((f - x3 p1) / x3 (v3sub p1 p2))))
       (v3add p2 (v3scale (v3sub p2 p1) ((f - x3 p2) / x3 (v3sub p2 p1)))).
Proof.
  intros Hd. unfold v3eq, v3add, v3scale, v3sub. simpl.
  assert (Hd' : ~ (x3 p2 - x3 p1 == 0)%Q) by lra.
  repeat split; field; auto.
Qed.

Lemma v3eq_refl (a : Vector3f) : v3eq a a.
Proof. unfold v3eq. repeat split; reflexivity. Qed.

Lemma clipToImagePlane_cases (f : Q) (p1 p2 : Vector3f) :
  let hit := v3add p1 (v3scale (v3sub p1 p2) ((f - x3 p1) / x3 (v3sub p1 p2))) in
  ((x3 p1 < f /\ x3 p2 < f)%Q /\ clipToImagePlane f p1 p2 = None) \/
  ((f <= x3 p1 /\ f <= x3 p2)%Q /\
   clipToImagePlane f p1 p2 = Some (v3div p1 (x3 p1 / f), v3div p2 (x3 p2 / f))) \/
  ((x3 p1 < f /\ f <= x3 p2)%Q /\
   clipToImagePlane f p1 p2 = Some (hit, v3div p2 (x3 p2 / f))) \/
  ((f <= x3 p1 /\ x3 p2 < f)%Q /\
   clipToImagePlane f p1 p2 = Some (v3div p1 (x3 p1 / f), hit)).
Proof.
  intros hit. unfold clipToImagePlane. fold hit.
  destruct (Qltb (x3 p1) f) eqn:E1, (Qltb (x3 p2) f) eqn:E2; simpl;
    try apply Qltb_lt in E1; try apply Qltb_lt in E2;
    try apply Qltb_ge in E1; try apply Qltb_ge in E2; auto 10.
Qed.
End ProjectionFacts.

(** The statement for given camera points. *)
Lemma projectLine_clipped (lineOnField : GeoLine)
        (cameraMatrixInv : Vector3f -> Vector3f) (cameraInfo : CameraOptics)
        (p1Camera p2Camera : Vector3f) :
  (0 < focalLength cameraInfo)%Q ->
  p1Camera = cameraMatrixInv (mkVector3f (vx (base lineOnField)) (vy (base lineOnField)) 0) ->
  p2Camera = cameraMatrixInv
               (mkVector3f (vx (vadd (base lineOnField) (direction lineOnField)))
                           (vy (vadd (base lineOnField) (direction lineOnField))) 0) ->
  let f := focalLength cameraInfo in
  (projectLineOnFieldIntoImage lineOnField cameraMatrixInv cameraInfo = None <->
   (x3 p1Camera < f /\ x3 p2Camera < f)%Q) /\
  (forall q1 q2, clipToImagePlane f p1Camera p2Camera = Some (q1, q2) ->
     projectLineOnFieldIntoImage lineOnField cameraMatrixInv cameraInfo =
       Some (mkGeoLine
               (mkVector2f (vx (opticalCenter cameraInfo) - y3 q1)
                           (vy (opticalCenter cameraInfo) - z3 q1))
               (vsub (mkVector2f (vx (opticalCenter cameraInfo) - y3 q2)
                                 (vy (opticalCenter cameraInfo) - z3 q2))
                     (mkVector2f (vx (opticalCenter cameraInfo) - y3 q1)
                                 (vy (opticalCenter cameraInfo) - z3 q1)))) /\
     (x3 q1 == f)%Q /\ (x3 q2 == f)%Q /\
     ((f <= x3 p1Camera)%Q -> v3eq q1 (v3scale p1Camera (f / x3 p1Camera))) /\
     ((x3 p1Camera < f)%Q -> onSegment p1Camera p2Camera q1) /\
     ((f <= x3 p2Camera)%Q -> v3eq q2 (v3scale p2Camera (f / x3 p2Camera))) /\
     ((x3 p2Camera < f)%Q -> onSegment p1Camera p2Camera q2) /\
     exists q2' q1', clipToImagePlane f p2Camera p1Camera = Some (q2', q1') /\
                     v3eq q1 q1' /\ v3eq q2 q2').
Proof.
  intros Hf E1 E2 f. split.
  - unfold projectLineOnFieldIntoImage. rewrite <- E1, <- E2. fold f.
    destruct (clipToImagePlane_cases f p1Camera p2Camera)
      as [[Hc ->]|[[Hc ->]|[[Hc ->]|[Hc ->]]]]; simpl; split; trivial; try discriminate;
      intros [? ?]; lra.
  - intros q1 q2 Hclip. split.
    { unfold projectLineOnFieldIntoImage. rewrite <- E1, <- E2. fold f.
      rewrite Hclip. reflexivity. }
    destruct (clipToImagePlane_cases f p1Camera p2Camera)
      as [[Hc H]|[[Hc H]|[[Hc H]|[Hc H]]]]; rewrite H in Hclip;
      [discriminate| | |]; inversion Hclip; subst q1 q2; clear Hclip.
    + destruct (perspective_division f p1Camera Hf (proj1 Hc)) as [X1 S1].
      destruct (perspective_division f p2Camera Hf (proj2 Hc)) as [X2 S2].
      split; [exact X1|]. split; [exact X2|].
      split; [intros _; exact S1|]. split; [intros; lra|].
      split; [intros _; exact S2|]. split; [intros; lra|].
      destruct (clipToImagePlane_cases f p2Camera p1Camera)
        as [[Hc' H']|[[Hc' H']|[[Hc' H']|[Hc' H']]]]; try lra.
      rewrite H'. do 2 eexists. split; [reflexivity|]. split; apply v3eq_refl.
    + assert (Hd : ~ (x3 p1Camera - x3 p2Camera == 0)%Q) by lra.
      destruct (perspective_division f p2Camera Hf (proj2 Hc)) as [X2 S2].
      split; [now apply intersection_on_plane|]. split; [exact X2|].
      split; [intros; lra|].
      split; [intros _; apply intersection_on_segment; lra|].
      split; [intros _; exact S2|]. split; [intros; lra|].
      destruct (clipToImagePlane_cases f p2Camera p1Camera)
        as [[Hc' H']|[[Hc' H']|[[Hc' H']|[Hc' H']]]]; try lra.
      rewrite H'. do 2 eexists. split; [reflexivity|].
      split; [|apply v3eq_refl]. apply intersection_symmetric. exact Hd.
    + assert (Hd : ~ (x3 p1Camera - x3 p2Camera == 0)%Q) by lra.
      destruct (perspective_division f p1Camera Hf (proj1 Hc)) as [X1 S1].
      split; [exact X1|]. split; [now apply intersection_on_plane|].
      split; [intros _; exact S1|]. split; [intros; lra|].
      split; [intros; lra|].
      split; [intros _; apply intersection_on_segment; lra|].
      destruct (clipToImagePlane_cases f p2Camera p1Camera)
        as [[Hc' H']|[[Hc' H']|[[Hc' H']|[Hc' H']]]]; try lra.
      rewrite H'. do 2 eexists. split; [reflexivity|].
      split; [apply v3eq_refl|]. apply intersection_symmetric. exact Hd.
Qed.


(** X24. [projectLineOnFieldIntoImage] fails exactly when both ends of
    the line are behind the image plane. For a positive focal length, both
    ends of what it draws come from points of the image plane: an end in
    front of the plane is divided by its depth over the focal length, an
    end behind it is replaced by the point where the segment meets the
    plane. The two points do not depend on the order of the ends. *)
Theorem field_line_is_clipped_to_the_image_plane (lineOnField : GeoLine)
        (cameraMatrixInv : Vector3f -> Vector3f) (cameraInfo : CameraOptics) :
  (0 < focalLength cameraInfo)%Q ->
  let f := focalLength cameraInfo in
  let p1 := base lineOnField in
  let p2 := vadd p1 (direction lineOnField) in
  let p1Camera := cameraMatrixInv (mkVector3f (vx p1) (vy p1) 0) in
  let p2Camera := cameraMatrixInv (mkVector3f (vx p2) (vy p2) 0) in
  (projectLineOnFieldIntoImage lineOnField cameraMatrixInv cameraInfo = None <->
   (x3 p1Camera < f /\ x3 p2Camera < f)%Q) /\
  (forall q1 q2, clipToImagePlane f p1Camera p2Camera = Some (q1, q2) ->
     projectLineOnFieldIntoImage lineOnField cameraMatrixInv cameraInfo =
       Some (mkGeoLine
               (mkVector2f (vx (opticalCenter cameraInfo) - y3 q1)
                           (vy (opticalCenter cameraInfo) - z3 q1))
               (vsub (mkVector2f (vx (opticalCenter cameraInfo) - y3 q2)
                                 (vy (opticalCenter cameraInfo) - z3 q2))
                     (mkVector2f (vx (opticalCenter cameraInfo) - y3 q1)
                                 (vy (opticalCenter cameraInfo) - z3 q1)))) /\
     (x3 q1 == f)%Q /\ (x3 q2 == f)%Q /\
     ((f <= x3 p1Camera)%Q -> v3eq q1 (v3scale p1Camera (f / x3 p1Camera))) /\
     ((x3 p1Camera < f)%Q -> onSegment p1Camera p2Camera q1) /\
     ((f <= x3 p2Camera)%Q -> v3eq q2 (v3scale p2Camera (f / x3 p2Camera))) /\
     ((x3 p2Camera < f)%Q -> onSegment p1Camera p2Camera q2) /\
     exists q2' q1', clipToImagePlane f p2Camera p1Camera = Some (q2', q1') /\
                     v3eq q1 q1' /\ v3eq q2 q2').
Proof.
  intros Hf f p1 p2 p1Camera p2Camera.
  exact (projectLine_clipped lineOnField cameraMatrixInv cameraInfo p1Camera p2Camera
           Hf eq_refl eq_refl).
Qed.

(** ** The status of the calibration *)

Section StatusFacts.
Context `{Ext : Externals} `{MP : ModuleParameters} `{Opt : Optimizer}.

(** X25. [update(CameraCalibrationStatus&)] reports the state of the
    module and, for a request, the progress of the current configuration:
    [finished] exactly when no sample type of it is outstanding, otherwise
    [recording] when the features were visible and the request records,
    [visible] when they were visible only, and [notVisible] when they were
    not. It returns when the table has the slots of the configuration,
    and leaves the module as [updateSampleConfiguration] leaves it. *)
Theorem status_reports_the_configuration (inp : Inputs) (cal : Calibrator)
        (request : SampleConfigurationRequest.t) :
  CalibrationRequest.sampleConfigurationRequest (theCalibrationRequest inp) = Some request ->
  (forall cfg, currentSampleConfiguration (updateSampleConfiguration inp cal) = Some cfg ->
               tableFits cfg (samples (collector cal))) ->
  exists status,
    updateStatus inp cal = Some (updateSampleConfiguration inp cal, status) /\
    statusState status = state cal /\ statusInStateSince status = inStateSince cal /\
    (sampleConfigurationStatus status = SampleConfigurationStatus.finished <->
     exists cfg, currentSampleConfiguration (updateSampleConfiguration inp cal) = Some cfg /\
                 noneOutstanding cfg (samples (collector cal))) /\
    (sampleConfigurationStatus status <> SampleConfigurationStatus.finished ->
     sampleConfigurationStatus status =
       if allRequiredFeaturesVisible (collector cal)
       then if SampleConfigurationRequest.doRecord request
            then SampleConfigurationStatus.recording else SampleConfigurationStatus.visible
       else SampleConfigurationStatus.notVisible).
Proof.
  intros Hreq Hfit. unfold updateStatus. rewrite Hreq.
  destruct (updateSampleConfiguration_frame inp cal) as (_ & _ & Hc & _).
  simpl in Hc. rewrite Hc.
  assert (Hother :
            (if allRequiredFeaturesVisible (collector cal)
                && SampleConfigurationRequest.doRecord request
             then SampleConfigurationStatus.recording
             else if allRequiredFeaturesVisible (collector cal)
                  then SampleConfigurationStatus.visible
                  else SampleConfigurationStatus.notVisible) =
            (if allRequiredFeaturesVisible (collector cal)
             then if SampleConfigurationRequest.doRecord request
                  then SampleConfigurationStatus.recording
                  else SampleConfigurationStatus.visible
             else SampleConfigurationStatus.notVisible) /\
            (if allRequiredFeaturesVisible (collector cal)
                && SampleConfigurationRequest.doRecord request
             then SampleConfigurationStatus.recording
             else if allRequiredFeaturesVisible (collector cal)
                  then SampleConfigurationStatus.visible
                  else SampleConfigurationStatus.notVisible)
            <> SampleConfigurationStatus.finished).
  { destruct (allRequiredFeaturesVisible (collector cal)),
             (SampleConfigurationRequest.doRecord request); simpl; split; trivial; discriminate. }
  destruct Hother as [Hother Hnf].
  destruct (currentSampleConfiguration (updateSampleConfiguration inp cal)) as [cfg|] eqn:Hcfg.
  - destruct (samplesExist_spec cfg (samples (collector cal)) (Hfit cfg eq_refl))
      as (b & Hb & Hiff).
    rewrite Hb. simpl. eexists. split; [reflexivity|]. simpl.
    split; trivial. split; trivial. destruct b.
    + split; [|congruence]. split; trivial. intros _. exists cfg. split; trivial.
      now apply Hiff.
    + split; [|intros _; exact Hother]. split.
      * intros E. now apply Hnf in E.
      * intros (cfg' & E & Hnone). inversion E; subst cfg'.
        apply Hiff in Hnone. discriminate.
  - eexists. split; [reflexivity|]. simpl. split; trivial. split; trivial.
    split; [|intros _; exact Hother]. split.
    + intros E. now apply Hnf in E.
    + intros (cfg' & E & _). discriminate.
Qed.
End StatusFacts.

(** ** The order of the ends of a segment *)

Section OrderFacts.
Context `{Ext : Externals} `{MP : ModuleParameters}.

(** X26. [fitLine] does not depend on the order in which the two ends of
    the segment are given, unless they have the same horizontal position:
    it works on the ends ordered from left to right. *)
Theorem fitLine_ignores_the_order_of_the_ends (inp : Inputs) (cline : CorrectedLine) :
  ~ (vx (aInImage cline) == vx (bInImage cline))%Q ->
  fitLine inp (swapEnds cline) = fitLine inp cline /\
  (vx (aInImage (ordered cline)) <= vx (bInImage (ordered cline)))%Q.
Proof.
  intros Hne.
  assert (Hord : ordered (swapEnds cline) = ordered cline /\
                 (vx (aInImage (ordered cline)) <= vx (bInImage (ordered cline)))%Q).
  { unfold ordered. simpl.
    destruct (Qltb (vx (bInImage cline)) (vx (aInImage cline))) eqn:E1;
      destruct (Qltb (vx (aInImage cline)) (vx (bInImage cline))) eqn:E2;
      try apply Qltb_lt in E1; try apply Qltb_lt in E2;
      try apply Qltb_ge in E1; try apply Qltb_ge in E2; simpl.
    - lra.
    - split; [reflexivity|lra].
    - split; [destruct cline; reflexivity|lra].
    - exfalso. apply Hne. lra. }
  destruct Hord as [Hord Hle]. split; [|exact Hle].
  unfold fitLine. now rewrite Hord.
Qed.
End OrderFacts.
(** ** A recording cycle of the module *)

Section SafetyFacts.
Context `{Ext : Externals} `{MP : ModuleParameters} `{Opt : Optimizer}.

Lemma updateSampleConfiguration_allocates inp cal :
  slotsAllocated cal -> slotsAllocated (updateSampleConfiguration inp cal).
Proof.
  intros Hinv.
  destruct (CalibrationRequest.sampleConfigurationRequest (theCalibrationRequest inp))
    as [request|] eqn:Hreq.
  2:{ unfold updateSampleConfiguration. now rewrite Hreq. }
  destruct (Z.eq_dec (SampleConfigurationRequest.index request)
                     (lastSampleConfigurationIndex cal)) as [E|Hne].
  { unfold updateSampleConfiguration. rewrite Hreq.
    now rewrite (proj2 (Z.eqb_eq _ _) E). }
  rewrite (updateSampleConfiguration_new inp cal request Hreq Hne).
  intros cfg Hcfg. simpl in Hcfg. inversion Hcfg; subst cfg. simpl. lia.
Qed.

Lemma slotsAllocated_fits cal cfg (T : list (option Sample)) :
  slotsAllocated cal -> currentSampleConfiguration cal = Some cfg ->
  (numOfSamples cal <= length T)%nat -> tableFits cfg T.
Proof.
  intros Hinv Hcfg Hlen t Ht.
  pose proof (Hinv cfg Hcfg). pose proof (proj1 (slot_rank cfg t t Ht Ht)). lia.
Qed.

(** X27. A cycle that records cannot fail: when the module is not
    optimizing, the target state is [recordSamples], the sectors of
    [fitLine] lie inside the Hough table, the slots of the current
    configuration are allocated and the table is long enough for the
    sample count of the cycle, [update] returns and no assertion of the
    sample table fails. Afterwards the slots are still allocated, the
    table still holds [numOfSamples] slots and the module is not
    optimizing. *)
Theorem recording_cycle_is_safe (inp : Inputs) (cal : Calibrator) :
  state cal <> CameraCalibrationStatus.optimize ->
  CalibrationRequest.targetState (theCalibrationRequest inp) = CameraCalibrationStatus.recordSamples ->
  windowsFit inp ->
  slotsAllocated cal ->
  (numOfSamples (updateSampleConfiguration inp cal) <= slotsInCycle inp cal)%nat ->
  exists cal' out,
    update inp cal = Some (cal', out) /\
    slotsAllocated cal' /\
    (numOfSamples cal' <= length (samples (collector cal')))%nat /\
    length (samples (collector cal')) = slotsInCycle inp cal /\
    state cal' <> CameraCalibrationStatus.optimize.
Proof.
  intros Hstate Htarget Hw Hinv Hlen. unfold update.
  set (cal1 := setNextCameraCalibration cal (theCameraCalibration inp)).
  assert (Hinv1 : slotsAllocated cal1) by exact Hinv.
  assert (E2 : numOfSamples (updateSampleConfiguration inp cal1)
               = numOfSamples (updateSampleConfiguration inp cal) /\
               currentSampleConfiguration (updateSampleConfiguration inp cal1)
               = currentSampleConfiguration (updateSampleConfiguration inp cal)).
  { unfold updateSampleConfiguration.
    destruct (CalibrationRequest.sampleConfigurationRequest _); simpl; auto.
    destruct (_ =? _); simpl; auto. }
  destruct E2 as [En Ec].
  pose proof (updateSampleConfiguration_allocates inp cal1 Hinv1) as Hinv2.
  destruct (updateSampleConfiguration_frame inp cal1) as (Hs2 & _ & Hc2 & _).
  set (cal2 := updateSampleConfiguration inp cal1) in *.
  set (cal3 := startRequested inp cal2).
  assert (H3 : numOfSamples cal3 = numOfSamples cal2 /\
               currentSampleConfiguration cal3 = currentSampleConfiguration cal2 /\
               length (samples (collector cal3)) = slotsInCycle inp cal /\
               state cal3 <> CameraCalibrationStatus.optimize).
  { unfold cal3, startRequested, slotsInCycle. rewrite Hs2. simpl.
    destruct (bool_decide (state cal = CameraCalibrationStatus.idle) && _) eqn:E; simpl.
    - rewrite length_replicate. repeat split; trivial. discriminate.
    - rewrite Hc2, Hs2. simpl. auto. }
  destruct H3 as (Hn3 & Hcfg3 & Hl3 & Hs3).
  assert (H4 : abortRequested inp cal3 = cal3).
  { unfold abortRequested. rewrite Htarget. reflexivity. }
  rewrite H4.
  destruct (convergeResponse_frame inp cal3) as ((Hc5 & Hn5 & _ & Hcfg5 & _) & Hs5 & _).
  set (cal5 := convergeResponse inp cal3) in *.
  assert (Hs5' : state cal5 <> CameraCalibrationStatus.optimize).
  { destruct Hs5 as [E|E]; rewrite E; trivial. discriminate. }
  assert (Hinv5 : slotsAllocated cal5).
  { intros cfg Hcfg. rewrite Hn5, Hn3. apply Hinv2. congruence. }
  assert (Hl5 : (numOfSamples cal5 <= length (samples (collector cal5)))%nat).
  { rewrite Hn5, Hn3, Hc5, Hl3, En. exact Hlen. }
  assert (H6 : exists cal6,
             recordStep inp cal5 = Some cal6 /\
             slotsAllocated cal6 /\
             length (samples (collector cal6)) = length (samples (collector cal5)) /\
             numOfSamples cal6 = numOfSamples cal5 /\ state cal6 = state cal5).
  { unfold recordStep.
    destruct (bool_decide (state cal5 = CameraCalibrationStatus.recordSamples)); [|eauto 10].
    destruct (currentSampleConfiguration cal5) as [cfg|] eqn:Hcfg; [|eauto 10].
    destruct (CalibrationRequest.sampleConfigurationRequest _) as [req|]; [|eauto 10].
    destruct (theOptionalECImage inp); [|eauto 10].
    destruct (recordSamples_total inp cfg req (collector cal5) Hw
                (slotsAllocated_fits cal5 cfg _ Hinv5 Hcfg Hl5)) as [c Hrec].
    rewrite Hrec. simpl. eexists. split; [reflexivity|].
    destruct (recordSamples_fills _ _ _ _ _ Hrec) as (L & _).
    simpl. repeat split; trivial. }
  destruct H6 as (cal6 & Hrun & Hinv6 & Hl6 & Hn6 & Hs6).
  rewrite Hrun. simpl.
  assert (H7 : optimizeRequested inp cal6 = cal6).
  { unfold optimizeRequested. rewrite Htarget. reflexivity. }
  rewrite H7.
  rewrite bool_decide_eq_false_2 by congruence. simpl.
  exists cal6. eexists. split; [reflexivity|].
  split; [exact Hinv6|]. split; [lia|]. split; [congruence|congruence].
Qed.
End SafetyFacts.
(** ** The calibration a cycle writes *)

Section CycleOutput.
Context `{Ext : Externals} `{MP : ModuleParameters} `{Opt : Optimizer}.

Lemma anyNotValid_total (f : nat -> option Q) (l : list nat) :
  (forall i, i ∈ l -> is_Some (f i)) -> is_Some (anyNotValid f l).
Proof.
  induction l as [|i l IH]; intros H; simpl; [eauto|].
  destruct (H i ltac:(left)) as [e He]. rewrite He. simpl.
  destruct (Qleb notValidError e); [eauto|].
  apply IH. intros j Hj. apply H. now right.
Qed.

(** The first loop of [optimize] reads a missing sample, unless an
    earlier sample reaches [notValidError]. *)
Lemma anyNotValid_fails (f : nat -> option Q) (l : list nat) :
  (exists i, i ∈ l /\ f i = None) ->
  (forall i e, i ∈ l -> f i = Some e -> (e < notValidError)%Q) ->
  anyNotValid f l = None.
Proof.
  induction l as [|i l IH]; intros (k & Hk & Hnone) Hlow.
  - inversion Hk.
  - simpl. destruct (f i) as [e|] eqn:He; simpl; trivial.
    rewrite (proj2 (Qleb_gt notValidError e) (Hlow i e ltac:(left) He)).
    apply IH.
    + apply elem_of_cons in Hk as [->|Hk]; [congruence|eauto].
    + intros j ej Hj. apply Hlow. now right.
Qed.

(** [optimize] returns when there is no optimizer yet, and when its step
    returns and every slot holds a sample. *)
Lemma optimize_returns inp cal :
  (optimizer (optimization cal) = true ->
   allRecorded cal /\
   is_Some (iterate (functor cal) (getNumOfMeasurements cal)
                    (optimizationParameters (optimization cal)))) ->
  is_Some (optimize inp cal).
Proof.
  intros H. unfold optimize.
  destruct (optimizer (optimization cal)); simpl; [|eauto].
  destruct (H eq_refl) as [Hall [[delta params] Hstep]]. rewrite Hstep. simpl.
  destruct delta as [delta|]; [|eauto].
  set (cal1 := setOptimizationParameters cal params).
  assert (Hall1 : allRecorded cal1) by exact Hall.
  destruct (anyNotValid_total (functor cal1 params) (seq 0 (getNumOfMeasurements cal1)))
    as [invalid Hinv].
  { intros i Hi. apply elem_of_seq in Hi.
    destruct (functor_recorded cal1 params i Hall1) as (s & _ & Hf).
    - unfold getNumOfMeasurements in Hi. lia.
    - rewrite Hf. eauto. }
  rewrite Hinv. simpl. destruct invalid; [eauto|].
  destruct (acceptStep_total inp cal1 delta params Hall1) as [cal' Hacc].
  rewrite Hacc. eauto.
Qed.

(** [optimize] does not return when a slot is empty after a finite step
    under which no sample reaches [notValidError]. *)
Lemma optimize_fails inp cal delta params :
  optimizer (optimization cal) = true ->
  iterate (functor cal) (getNumOfMeasurements cal) (optimizationParameters (optimization cal))
    = Some (finite delta, params) ->
  (exists i, samples (collector cal) !! i = Some None) ->
  (forall i s, samples (collector cal) !! i = Some (Some s) ->
               (computeError s (unpack params (nextCameraCalibration cal)) < notValidError)%Q) ->
  optimize inp cal = None.
Proof.
  intros Ho Hstep (k & Hk) Hlow. unfold optimize. rewrite Ho, Hstep. simpl.
  rewrite anyNotValid_fails; trivial.
  - exists k. split.
    + apply elem_of_seq. apply lookup_lt_Some in Hk. unfold getNumOfMeasurements. simpl. lia.
    + unfold functor. simpl. now rewrite Hk.
  - intros i e _. unfold functor. simpl.
    destruct (samples (collector cal) !! i) as [[s|]|] eqn:Hs; try discriminate.
    intros He. inversion He; subst e. exact (Hlow i s Hs).
Qed.

(** A table without empty slots is not changed by filling slots. *)
Lemma fills_full (allowed : SampleType -> Prop) cfg (T T' : list (option Sample)) :
  fills allowed cfg T T' ->
  (forall i, (i < length T)%nat -> exists s, T !! i = Some (Some s)) ->
  T' = T.
Proof.
  intros (L & K & _) Hfull. apply list_eq. intros i.
  destruct (decide (i < length T)%nat) as [Hi|Hi].
  - destruct (Hfull i Hi) as [s Hs]. now rewrite Hs, (K _ _ Hs).
  - rewrite !lookup_ge_None_2; trivial; lia.
Qed.

(** The call of [recordSamples] returns when the slots of the current
    configuration are allocated and the table is long enough. *)
Lemma recordStep_returns inp cal :
  windowsFit inp -> slotsAllocated cal ->
  (numOfSamples cal <= length (samples (collector cal)))%nat ->
  is_Some (recordStep inp cal).
Proof.
  intros Hw Hinv Hlen. unfold recordStep.
  destruct (bool_decide (state cal = CameraCalibrationStatus.recordSamples)); [|eauto].
  destruct (currentSampleConfiguration cal) as [cfg|] eqn:Hcfg; [|eauto].
  destruct (CalibrationRequest.sampleConfigurationRequest _) as [req|]; [|eauto].
  destruct (theOptionalECImage inp); [|eauto].
  destruct (recordSamples_total inp cfg req (collector cal) Hw
              (slotsAllocated_fits cal cfg _ Hinv Hcfg Hlen)) as [c Hrec].
  rewrite Hrec. simpl. eauto.
Qed.

(** What the first steps of a cycle leave of the module. *)
Lemma beforeRecording_facts inp cal :
  let target := CalibrationRequest.targetState (theCalibrationRequest inp) in
  let cal5 := beforeRecording inp cal in
  (state cal5 = CameraCalibrationStatus.recordSamples -> recordingCycle inp cal) /\
  (state cal5 = CameraCalibrationStatus.optimize ->
   state cal = CameraCalibrationStatus.optimize /\ target <> CameraCalibrationStatus.idle) /\
  (slotsAllocated cal -> slotsAllocated cal5) /\
  numOfSamples cal5 = numOfSamples (updateSampleConfiguration inp cal) /\
  length (samples (collector cal5)) = slotsInCycle inp cal /\
  (state cal <> CameraCalibrationStatus.idle \/ target <> CameraCalibrationStatus.recordSamples ->
   collector cal5 = collector cal) /\
  (optimizer (optimization cal5) = true ->
   convergeFires inp cal = false /\
   optimizer (optimization cal) = true /\
   optimization cal5 = optimization cal /\
   nextCameraCalibration cal5 = theCameraCalibration inp).
Proof.
  intros target cal5. unfold cal5, beforeRecording.
  set (cal1 := setNextCameraCalibration cal (theCameraCalibration inp)).
  assert (Hinv1 : slotsAllocated cal -> slotsAllocated cal1) by (intros H; exact H).
  assert (E2 : numOfSamples (updateSampleConfiguration inp cal1)
               = numOfSamples (updateSampleConfiguration inp cal)).
  { unfold updateSampleConfiguration.
    destruct (CalibrationRequest.sampleConfigurationRequest _); simpl; auto.
    destruct (_ =? _); simpl; auto. }
  pose proof (updateSampleConfiguration_allocates inp cal1) as Hinv2.
  destruct (updateSampleConfiguration_frame inp cal1) as (Hs2 & _ & Hc2 & Ho2 & Hn2).
  set (cal2 := updateSampleConfiguration inp cal1) in *.
  simpl in Hs2, Hc2, Ho2, Hn2.
  set (cal3 := startRequested inp cal2).
  assert (H3 : numOfSamples cal3 = numOfSamples cal2 /\
               currentSampleConfiguration cal3 = currentSampleConfiguration cal2 /\
               length (samples (collector cal3)) = slotsInCycle inp cal /\
               nextCameraCalibration cal3 = theCameraCalibration inp /\
               ((state cal = CameraCalibrationStatus.idle /\
                 target = CameraCalibrationStatus.recordSamples /\
                 state cal3 = CameraCalibrationStatus.recordSamples /\
                 optimizer (optimization cal3) = false) \/
                ((state cal <> CameraCalibrationStatus.idle \/
                  target <> CameraCalibrationStatus.recordSamples) /\ cal3 = cal2))).
  { unfold cal3, startRequested, slotsInCycle. rewrite Hs2. fold target.
    destruct (bool_decide (state cal = CameraCalibrationStatus.idle)) eqn:E1;
      destruct (bool_decide (target = CameraCalibrationStatus.recordSamples)) eqn:E2';
      simpl.
    - apply bool_decide_eq_true in E1, E2'. rewrite length_replicate.
      repeat split; trivial. left. auto.
    - apply bool_decide_eq_false in E2'. rewrite Hc2, Hn2. repeat split; trivial. right. auto.
    - apply bool_decide_eq_false in E1. rewrite Hc2, Hn2. repeat split; trivial. right. auto.
    - apply bool_decide_eq_false in E1. rewrite Hc2, Hn2. repeat split; trivial. right. auto. }
  destruct H3 as (Hn3 & Hcfg3 & Hl3 & Hnext3 & Hstart).
  set (cal4 := abortRequested inp cal3).
  assert (H4 : numOfSamples cal4 = numOfSamples cal3 /\
               currentSampleConfiguration cal4 = currentSampleConfiguration cal3 /\
               collector cal4 = collector cal3 /\
               optimization cal4 = optimization cal3 /\
               nextCameraCalibration cal4 = nextCameraCalibration cal3 /\
               ((target = CameraCalibrationStatus.idle /\
                 state cal4 = CameraCalibrationStatus.idle) \/
                (target <> CameraCalibrationStatus.idle /\ state cal4 = state cal3))).
  { unfold cal4, abortRequested. fold target.
    destruct (bool_decide (target = CameraCalibrationStatus.idle)) eqn:E1; simpl.
    - apply bool_decide_eq_true in E1.
      destruct (bool_decide (state cal3 = CameraCalibrationStatus.idle)) eqn:E2'; simpl.
      + apply bool_decide_eq_true in E2'. repeat split; trivial. left. auto.
      + repeat split; trivial. left. auto.
    - apply bool_decide_eq_false in E1. repeat split; trivial. right. auto. }
  destruct H4 as (Hn4 & Hcfg4 & Hc4 & Ho4 & Hnext4 & Habort).
  destruct (convergeResponse_frame inp cal4) as ((Hc5 & Hn5 & _ & Hcfg5 & _) & Hs5 & Hkeep).
  assert (Hfire : optimizer (optimization (convergeResponse inp cal4)) = true ->
                  convergeResponse inp cal4 = cal4 /\
                  debugConverge inp && optimizer (optimization cal4)
                  && negb (Qeq_bool (lowestDelta (optimization cal4)) FLT_MAX) = false).
  { unfold convergeResponse.
    destruct (debugConverge inp); simpl; [|auto].
    destruct (optimizer (optimization cal4) && _) eqn:E; simpl; [|auto].
    intros Hopt. discriminate. }
  set (cal5' := convergeResponse inp cal4) in *.
  split; [|split; [|split; [|split; [|split; [|split]]]]].
  - intros Hrec. assert (Hs4 : state cal4 = CameraCalibrationStatus.recordSamples).
    { destruct Hs5 as [E|E]; congruence. }
    destruct Habort as [[_ E]|[Hni E]]; [congruence|].
    split; [exact Hni|].
    destruct Hstart as [(Hi & Ht & _)|(_ & E3)]; [right; auto|].
    left. rewrite <- Hs2. congruence.
  - intros Hopt. assert (Hs4 : state cal4 = CameraCalibrationStatus.optimize).
    { destruct Hs5 as [E|E]; congruence. }
    destruct Habort as [[_ E]|[Hni E]]; [congruence|].
    split; [|exact Hni].
    destruct Hstart as [(_ & _ & E3 & _)|(_ & E3)]; [congruence|].
    rewrite <- Hs2. congruence.
  - intros Hinv cfg Hcfg. rewrite Hn5, Hn4, Hn3. apply (Hinv2 (Hinv1 Hinv)). congruence.
  - rewrite Hn5, Hn4, Hn3. exact E2.
  - rewrite Hc5, Hc4. exact Hl3.
  - intros Hns. rewrite Hc5, Hc4.
    destruct Hstart as [(Hi & Ht & _)|(_ & E3)]; [destruct Hns; contradiction|].
    rewrite E3. exact Hc2.
  - intros Hopt. destruct (Hfire Hopt) as [E5 Hnf]. rewrite E5 in *.
    destruct Hstart as [(_ & _ & _ & Hoff)|(_ & E3)].
    { rewrite Ho4 in Hopt. congruence. }
    assert (Eo : optimization cal4 = optimization cal) by (rewrite Ho4, E3; exact Ho2).
    rewrite Eo in Hnf, Hopt. repeat split; trivial.
    rewrite Hnext4. exact Hnext3.
Qed.

(** Unless the debug response fires, the module reaches the recording
    with the input calibration as the calibration to write. *)
Lemma beforeRecording_calibration inp cal :
  convergeFires inp cal = false ->
  nextCameraCalibration (beforeRecording inp cal) = theCameraCalibration inp.
Proof.
  intros Hnf. unfold beforeRecording.
  set (cal1 := setNextCameraCalibration cal (theCameraCalibration inp)).
  destruct (updateSampleConfiguration_frame inp cal1) as (_ & _ & _ & Ho2 & Hn2).
  set (cal2 := updateSampleConfiguration inp cal1) in *. simpl in Ho2, Hn2.
  set (cal3 := startRequested inp cal2).
  assert (H3 : nextCameraCalibration cal3 = theCameraCalibration inp /\
               (optimizer (optimization cal3) = false \/ optimization cal3 = optimization cal)).
  { unfold cal3, startRequested. destruct (_ && _); simpl; auto. }
  destruct H3 as [Hn3 Ho3].
  set (cal4 := abortRequested inp cal3).
  assert (H4 : nextCameraCalibration cal4 = nextCameraCalibration cal3 /\
               optimization cal4 = optimization cal3).
  { unfold cal4, abortRequested. destruct (_ && _); simpl; auto. }
  destruct H4 as [Hn4 Ho4].
  unfold convergeResponse. rewrite Ho4.
  destruct (debugConverge inp) eqn:Hd; [|congruence].
  destruct Ho3 as [Hoff|Eo].
  - rewrite Hoff. simpl. congruence.
  - rewrite Eo. unfold convergeFires in Hnf. rewrite Hd in Hnf. simpl in Hnf.
    rewrite Hnf. congruence.
Qed.

(** The cycle in terms of the module before the recording. *)
Lemma update_steps inp cal :
  update inp cal =
    (cal6 ← recordStep inp (beforeRecording inp cal);
     cal8 ← (if bool_decide (state (optimizeRequested inp cal6) = CameraCalibrationStatus.optimize)
             then optimize inp (optimizeRequested inp cal6)
             else Some (optimizeRequested inp cal6));
     Some (cal8, nextCameraCalibration cal8)).
Proof. reflexivity. Qed.

(** The module when the cycle reaches the call of [optimize] with an
    optimizer in place. *)
Lemma beforeOptimizing_facts inp cal cal6 :
  recordStep inp (beforeRecording inp cal) = Some cal6 ->
  let cal7 := optimizeRequested inp cal6 in
  state cal7 = CameraCalibrationStatus.optimize ->
  optimizer (optimization cal7) = true ->
  optimizerSteps inp cal /\
  optimization cal7 = optimization cal /\
  nextCameraCalibration cal7 = theCameraCalibration inp /\
  (allRecorded cal \/ state cal <> CameraCalibrationStatus.recordSamples ->
   samples (collector cal7) = samples (collector cal)).
Proof.
  intros Hrec cal7 Hs7 Ho7.
  destruct (beforeRecording_facts inp cal) as (_ & Hopt5 & _ & _ & _ & Hcol5 & Hfire5).
  destruct (recordStep_frame _ _ _ Hrec) as (Hs6 & _ & _ & _ & Ho6 & Hn6 & Hidle6 & Hcases).
  assert (E7 : optimization cal7 = optimization cal6 /\
               nextCameraCalibration cal7 = nextCameraCalibration cal6 /\
               collector cal7 = collector cal6 /\
               (CalibrationRequest.targetState (theCalibrationRequest inp)
                = CameraCalibrationStatus.optimize \/ state cal6 = CameraCalibrationStatus.optimize)).
  { unfold cal7, optimizeRequested in *.
    destruct (bool_decide (CalibrationRequest.targetState (theCalibrationRequest inp)
                           = CameraCalibrationStatus.optimize)) eqn:E1; simpl in *.
    - apply bool_decide_eq_true in E1. destruct (negb _); simpl; auto.
    - auto. }
  destruct E7 as (Eo7 & En7 & Ec7 & Hwhy).
  rewrite Eo7, Ho6 in Ho7.
  destruct (Hfire5 Ho7) as (Hnf & Hopt & Eo5 & En5).
  assert (Hsteps : optimizerSteps inp cal).
  { split; [|auto]. destruct Hwhy as [Ht|Hs]; [left; exact Ht|].
    rewrite Hs6 in Hs. destruct (Hopt5 Hs) as [Hsc Hni].
    destruct (CalibrationRequest.targetState (theCalibrationRequest inp)) eqn:Ht;
      [contradiction|right; auto|left; reflexivity]. }
  split; [exact Hsteps|].
  split; [rewrite Eo7, Ho6; exact Eo5|].
  split; [rewrite En7, Hn6; exact En5|].
  assert (Hns : state cal <> CameraCalibrationStatus.idle \/
                CalibrationRequest.targetState (theCalibrationRequest inp)
                <> CameraCalibrationStatus.recordSamples).
  { destruct Hsteps as ([Ht|[Hs _]] & _); [right; rewrite Ht; discriminate|].
    left. rewrite Hs. discriminate. }
  specialize (Hcol5 Hns).
  intros Hwhen. rewrite Ec7.
  destruct (decide (state (beforeRecording inp cal) = CameraCalibrationStatus.recordSamples))
    as [Hs5|Hs5].
  2:{ rewrite (Hidle6 Hs5). now rewrite Hcol5. }
  destruct Hcases as [->|(cfg & req & c & _ & _ & Hrun & ->)]; [now rewrite Hcol5|].
  simpl. rewrite Hcol5 in Hrun.
  destruct Hwhen as [Hall|Hnr].
  - apply (fills_full (fun _ => True) cfg).
    + exact (recordSamples_fills _ _ _ _ _ Hrun).
    + exact Hall.
  - exfalso. destruct (beforeRecording_facts inp cal) as (Hrec5 & _).
    destruct (Hrec5 Hs5) as (_ & [Hs|[Hs Ht]]); [contradiction|].
    destruct Hns; contradiction.
Qed.

(** The step of the optimizer as [optimize] calls it in the cycle. *)
Lemma stepOfCycle_spec inp cal cal7 :
  optimization cal7 = optimization cal ->
  nextCameraCalibration cal7 = theCameraCalibration inp ->
  samples (collector cal7) = samples (collector cal) ->
  iterate (functor cal7) (getNumOfMeasurements cal7) (optimizationParameters (optimization cal7))
  = stepOfCycle inp cal.
Proof.
  intros Eo En Es. unfold stepOfCycle, functor, getNumOfMeasurements.
  rewrite Eo, En, Es. reflexivity.
Qed.

(** C9, as amended. A cycle that runs to its end writes the calibration
    it leaves in [nextCameraCalibration], and it runs to its end when the
    assertions of the recording hold, if it can record, and when every
    slot of the table holds a sample and the step of the optimizer
    returns, if a step of the optimizer runs. The calibration written is
    then the input calibration, unless a step of the optimizer ran or the
    debug response [converge] was due. A cycle in which a step of
    the optimizer runs over a table with an empty slot does not run to
    its end, when the step is finite and no recorded sample reaches
    [notValidError]: it writes nothing. In a cycle that starts idle with
    the target state idle the module stays idle, and the calibration
    written is the input calibration, unless the debug response
    [converge] fires: then it is the tracked lowest-delta vector,
    unpacked into the input calibration. *)
Theorem cycle_output (inp : Inputs) (cal : Calibrator) :
  ((recordingCycle inp cal -> recordingReady inp cal) ->
   (optimizerSteps inp cal -> allRecorded cal /\ is_Some (stepOfCycle inp cal)) ->
   exists cal',
     update inp cal = Some (cal', nextCameraCalibration cal') /\
     (convergeFires inp cal = false -> ~ optimizerSteps inp cal ->
      nextCameraCalibration cal' = theCameraCalibration inp)) /\
  (optimizerSteps inp cal ->
   state cal <> CameraCalibrationStatus.recordSamples ->
   forall delta params,
     stepOfCycle inp cal = Some (finite delta, params) ->
     (exists i, samples (collector cal) !! i = Some None) ->
     (forall i s, samples (collector cal) !! i = Some (Some s) ->
                  (computeError s (unpack params (theCameraCalibration inp)) < notValidError)%Q) ->
     update inp cal = None) /\
  (state cal = CameraCalibrationStatus.idle ->
   CalibrationRequest.targetState (theCalibrationRequest inp) = CameraCalibrationStatus.idle ->
   exists cal',
     update inp cal =
       Some (cal', if convergeFires inp cal
                   then unpack (lowestDeltaParameters (optimization cal)) (theCameraCalibration inp)
                   else theCameraCalibration inp) /\
     state cal' = CameraCalibrationStatus.idle).
Proof.
  split; [|split].
  - (* the cycle runs to its end *)
    intros Hrec Hopt. rewrite update_steps.
    destruct (beforeRecording_facts inp cal) as (Hrec5 & _ & Hinv5 & Hn5 & Hl5 & _).
    assert (H6 : is_Some (recordStep inp (beforeRecording inp cal))).
    { destruct (decide (state (beforeRecording inp cal) = CameraCalibrationStatus.recordSamples))
        as [Hs5|Hs5].
      - destruct (Hrec (Hrec5 Hs5)) as (Hw & Hinv & Hlen).
        apply recordStep_returns; trivial; [now apply Hinv5|].
        rewrite Hn5, Hl5. exact Hlen.
      - unfold recordStep. rewrite bool_decide_eq_false_2 by exact Hs5. eauto. }
    destruct H6 as [cal6 Hrun]. rewrite Hrun. simpl.
    destruct (recordStep_frame _ _ _ Hrun) as (_ & _ & _ & _ & _ & Hn6 & _).
    assert (Hn7 : nextCameraCalibration (optimizeRequested inp cal6) = nextCameraCalibration cal6).
    { unfold optimizeRequested. destruct (_ && _); reflexivity. }
    destruct (bool_decide (state (optimizeRequested inp cal6) = CameraCalibrationStatus.optimize))
      eqn:Hs7.
    2:{ eexists. split; [reflexivity|]. intros Hnf _.
        rewrite Hn7, Hn6. now apply beforeRecording_calibration. }
    apply bool_decide_eq_true in Hs7.
    destruct (optimizer (optimization (optimizeRequested inp cal6))) eqn:Ho7.
    + destruct (beforeOptimizing_facts inp cal cal6 Hrun Hs7 Ho7) as (Hsteps & Eo & En & Es).
      destruct (Hopt Hsteps) as [Hall Hstep].
      specialize (Es (or_introl Hall)).
      destruct (optimize_returns inp (optimizeRequested inp cal6)) as [cal8 H8].
      { intros _. split.
        - intros i Hi. rewrite Es in *. exact (Hall i Hi).
        - rewrite (stepOfCycle_spec inp cal _ Eo En Es). exact Hstep. }
      rewrite H8. simpl. eexists. split; [reflexivity|]. intros _ Hns. contradiction.
    + unfold optimize. rewrite Ho7. simpl.
      match goal with |- exists cal', Some (?x, _) = _ /\ _ => exists x end.
      split; [reflexivity|].
      intros Hnf _. simpl. rewrite Hn7, Hn6. now apply beforeRecording_calibration.
  - (* a step over an empty slot *)
    intros Hsteps Hnr delta params Hstep Hempty Hlow. rewrite update_steps.
    destruct (recordStep inp (beforeRecording inp cal)) as [cal6|] eqn:Hrun; [|reflexivity].
    simpl.
    assert (Hs7 : state (optimizeRequested inp cal6) = CameraCalibrationStatus.optimize /\
                  optimizer (optimization (optimizeRequested inp cal6)) = true).
    { destruct (beforeRecording_facts inp cal) as (_ & _ & _ & _ & _ & _ & _).
      destruct (recordStep_frame _ _ _ Hrun) as (Hs6 & _ & _ & _ & Ho6 & _).
      destruct Hsteps as (Hwhy & Hon & Hnf).
      assert (E5 : optimization (beforeRecording inp cal) = optimization cal /\
                   (state cal = CameraCalibrationStatus.optimize ->
                    CalibrationRequest.targetState (theCalibrationRequest inp)
                    <> CameraCalibrationStatus.idle ->
                    state (beforeRecording inp cal) = CameraCalibrationStatus.optimize)).
      { unfold beforeRecording.
        set (cal1 := setNextCameraCalibration cal (theCameraCalibration inp)).
        destruct (updateSampleConfiguration_frame inp cal1) as (Hs2 & _ & _ & Ho2 & _).
        set (cal2 := updateSampleConfiguration inp cal1) in *. simpl in Hs2, Ho2.
        assert (E3 : startRequested inp cal2 = cal2).
        { unfold startRequested. rewrite Hs2.
          destruct Hwhy as [Ht|[Hs Ht]].
          - rewrite Ht. rewrite andb_false_r. reflexivity.
          - rewrite Hs. reflexivity. }
        rewrite E3.
        assert (E4 : optimization (abortRequested inp cal2) = optimization cal /\
                     (state cal = CameraCalibrationStatus.optimize ->
                      CalibrationRequest.targetState (theCalibrationRequest inp)
                      <> CameraCalibrationStatus.idle ->
                      state (abortRequested inp cal2) = CameraCalibrationStatus.optimize)).
        { unfold abortRequested.
          destruct (bool_decide (CalibrationRequest.targetState (theCalibrationRequest inp)
                                 = CameraCalibrationStatus.idle)) eqn:E; simpl.
          - apply bool_decide_eq_true in E. destruct (negb _); simpl; split; trivial;
              intros; contradiction.
          - split; trivial. intros Hs _. congruence. }
        destruct E4 as [Eo4 Es4].
        set (cal4 := abortRequested inp cal2) in *.
        unfold convergeResponse. unfold convergeFires in Hnf. rewrite Eo4.
        destruct (debugConverge inp); simpl in *; [|auto].
        rewrite Hon in *. simpl in *. rewrite Hnf. auto. }
      destruct E5 as [Eo5 Es5].
      unfold optimizeRequested.
      destruct Hwhy as [Ht|[Hs Ht]].
      - rewrite Ht. simpl.
        destruct (bool_decide (state cal6 = CameraCalibrationStatus.optimize)) eqn:E; simpl.
        + apply bool_decide_eq_true in E. split; [exact E|]. rewrite Ho6, Eo5. exact Hon.
        + split; [reflexivity|]. rewrite Ho6, Eo5. exact Hon.
      - rewrite Ht. simpl. split; [|rewrite Ho6, Eo5; exact Hon].
        rewrite Hs6. apply Es5; trivial. rewrite Ht. discriminate. }
    destruct Hs7 as [Hs7 Ho7].
    rewrite bool_decide_eq_true_2 by exact Hs7.
    destruct (beforeOptimizing_facts inp cal cal6 Hrun Hs7 Ho7) as (_ & Eo & En & Es).
    specialize (Es (or_intror Hnr)).
    rewrite (optimize_fails inp _ delta params Ho7); trivial.
    + rewrite (stepOfCycle_spec inp cal _ Eo En Es). exact Hstep.
    + rewrite Es. exact Hempty.
    + rewrite Es, En. exact Hlow.
  - (* an idle cycle *)
    intros Hidle Htarget. unfold update.
    set (cal1 := setNextCameraCalibration cal (theCameraCalibration inp)).
    destruct (updateSampleConfiguration_frame inp cal1) as (Hs & _ & _ & Ho & Hn).
    set (cal2 := updateSampleConfiguration inp cal1) in *.
    assert (H3 : startRequested inp cal2 = cal2).
    { unfold startRequested. rewrite Htarget. rewrite andb_false_r. reflexivity. }
    rewrite H3.
    assert (H4 : abortRequested inp cal2 = cal2).
    { unfold abortRequested. rewrite Hs. simpl. rewrite Hidle. rewrite andb_false_r. reflexivity. }
    rewrite H4.
    assert (H5 : state (convergeResponse inp cal2) = CameraCalibrationStatus.idle /\
                 nextCameraCalibration (convergeResponse inp cal2) =
                   (if convergeFires inp cal
                    then unpack (lowestDeltaParameters (optimization cal)) (theCameraCalibration inp)
                    else theCameraCalibration inp)).
    { unfold convergeResponse, convergeFires. rewrite Ho. simpl.
      destruct (debugConverge inp); simpl; [|rewrite Hs, Hn; auto].
      destruct (optimizer (optimization cal) && _); simpl; [|rewrite Hs, Hn; auto].
      rewrite Hn. auto. }
    destruct H5 as [Hs5 Hn5].
    set (cal5 := convergeResponse inp cal2) in *.
    assert (H6 : recordStep inp cal5 = Some cal5).
    { unfold recordStep. rewrite Hs5. reflexivity. }
    rewrite H6. simpl.
    assert (H7 : optimizeRequested inp cal5 = cal5).
    { unfold optimizeRequested. rewrite Htarget. reflexivity. }
    rewrite H7, Hs5. simpl. exists cal5. rewrite Hn5. auto.
Qed.
End CycleOutput.
(** ** The end of an optimization *)

Section ConvergenceFacts.
Context `{MP : ModuleParameters} `{Opt : Optimizer}.

Lemma proceeds_functor cal params i :
  proceeds cal params -> (i < length (samples (collector cal)))%nat ->
  exists e, functor cal params i = Some e /\ (e < notValidError)%Q.
Proof.
  intros Hok Hi. destruct (Hok i Hi) as (s & Hs & Hlt).
  exists (computeError s (unpack params (nextCameraCalibration cal))). split; trivial.
  unfold functor. now rewrite Hs.
Qed.

(** X28. A step that brings the counter of successive convergences to
    [minSuccessiveConvergences] ends the optimization: the module goes
    idle, with [inStateSince] and the samples as they were, the optimizer
    is dropped with its step counter at 0 and its lowest delta forgotten,
    and the calibration written is the vector with the lowest mean error
    that was tracked: the vector of this step when it is the first
    convergence of the run or its mean error is below the tracked one, the
    tracked vector otherwise. The tracked error is then at most the mean
    error of this step. *)
Theorem convergence_ends_the_optimization (inp : Inputs) (cal : Calibrator) (delta : Q)
        (params : Parameters) :
  optimizer (optimization cal) = true ->
  iterate (functor cal) (getNumOfMeasurements cal) (optimizationParameters (optimization cal))
    = Some (finite delta, params) ->
  proceeds cal params ->
  let steps := (optimizationSteps (optimization cal) + 1) mod 2 ^ 32 in
  let counter :=
    if belowThreshold delta steps then successiveConvergences (optimization cal) + 1 else 0 in
  0 < counter -> minSuccessiveConvergences <= counter ->
  exists cal' total,
    optimize inp cal = Some cal' /\
    sumErrors (functor cal params) (seq 0 (length (samples (collector cal)))) 0%Q = Some total /\
    let error := (total / inject_Z (Z.of_nat (length (samples (collector cal)))))%Q in
    state cal' = CameraCalibrationStatus.idle /\
    inStateSince cal' = inStateSince cal /\
    collector cal' = collector cal /\
    optimizer (optimization cal') = false /\
    optimizationSteps (optimization cal') = 0 /\
    lowestDelta (optimization cal') = FLT_MAX /\
    successiveConvergences (optimization cal') = counter /\
    nextCameraCalibration cal' =
      unpack (lowestErrorParameters (optimization cal')) (nextCameraCalibration cal) /\
    (lowestErrorParameters (optimization cal'), lowestError (optimization cal')) =
      (if (counter =? 1) || Qltb error (lowestError (optimization cal))
       then (params, error)
       else (lowestErrorParameters (optimization cal), lowestError (optimization cal))) /\
    (lowestError (optimization cal') <= error)%Q.
Proof.
  intros Hopt Hit Hok steps counter Hpos Hmin.
  destruct (sumErrors_total (functor cal params) (seq 0 (length (samples (collector cal)))) 0%Q)
    as [total Htotal].
  { intros i Hi. apply elem_of_seq in Hi.
    destruct (proceeds_functor cal params i Hok ltac:(lia)) as (e & He & _). eauto. }
  set (error := (total / inject_Z (Z.of_nat (length (samples (collector cal)))))%Q).
  set (better := (counter =? 1) || Qltb error (lowestError (optimization cal))).
  assert (Hrun : optimize inp cal =
                 acceptStep inp (setOptimizationParameters cal params) delta params).
  { unfold optimize. rewrite Hopt. simpl negb. cbv iota. rewrite Hit. simpl.
    rewrite anyNotValid_none; [reflexivity|].
    intros i Hi. apply elem_of_seq in Hi. simpl in Hi.
    apply (proceeds_functor cal params i Hok).
    unfold getNumOfMeasurements in Hi. simpl in Hi. lia. }
  rewrite Hrun. unfold acceptStep.
  change (optimizationSteps (optimization (setOptimizationParameters cal params)))
    with (optimizationSteps (optimization cal)).
  change (successiveConvergences (optimization (setOptimizationParameters cal params)))
    with (successiveConvergences (optimization cal)).
  fold steps. fold counter.
  rewrite (proj2 (Z.ltb_lt 0 counter) Hpos).
  change (samples (collector (setOptimizationParameters cal params)))
    with (samples (collector cal)).
  change (functor (setOptimizationParameters cal params) params) with (functor cal params).
  rewrite Htotal. cbn [mbind option_bind].
  change (lowestError (optimization (setOptimizationParameters cal params)))
    with (lowestError (optimization cal)).
  change (lowestErrorParameters (optimization (setOptimizationParameters cal params)))
    with (lowestErrorParameters (optimization cal)).
  fold error. fold better.
  rewrite (proj2 (Z.leb_le minSuccessiveConvergences counter) Hmin).
  destruct better eqn:Hb; unfold better in Hb;
    (eexists; exists total; split; [reflexivity|]; split; [reflexivity|]);
    fold error; rewrite Hb; cbn; repeat split; trivial.
  - apply Qle_refl.
  - apply orb_false_iff in Hb as [_ Hb]. now apply Qltb_ge in Hb.
Qed.

(** X30. A step that is accepted without ending the optimization keeps
    the module in its state with its optimizer and its samples: the vector
    is the one of the step, the step counter counts it, the calibration
    written is the vector unpacked, and the lowest delta is tracked, with
    its vector: the magnitude of the delta of the step when it is below
    the tracked one, and the tracked one otherwise. *)
Theorem accepted_step_tracks_the_lowest_delta (inp : Inputs) (cal : Calibrator) (delta : Q)
        (params : Parameters) :
  optimizer (optimization cal) = true ->
  iterate (functor cal) (getNumOfMeasurements cal) (optimizationParameters (optimization cal))
    = Some (finite delta, params) ->
  proceeds cal params ->
  let steps := (optimizationSteps (optimization cal) + 1) mod 2 ^ 32 in
  let counter :=
    if belowThreshold delta steps then successiveConvergences (optimization cal) + 1 else 0 in
  counter < minSuccessiveConvergences ->
  exists cal',
    optimize inp cal = Some cal' /\
    state cal' = state cal /\ inStateSince cal' = inStateSince cal /\
    collector cal' = collector cal /\
    optimizer (optimization cal') = true /\
    optimizationParameters (optimization cal') = params /\
    optimizationSteps (optimization cal') = steps /\
    nextCameraCalibration cal' = unpack params (nextCameraCalibration cal) /\
    (lowestDelta (optimization cal'), lowestDeltaParameters (optimization cal')) =
      (if Qltb (Qabs delta) (lowestDelta (optimization cal))
       then (Qabs delta, params)
       else (lowestDelta (optimization cal), lowestDeltaParameters (optimization cal))) /\
    (lowestDelta (optimization cal') <= lowestDelta (optimization cal))%Q /\
    (lowestDelta (optimization cal') <= Qabs delta)%Q.
Proof.
  intros Hopt Hit Hok steps counter Hmin.
  destruct (sumErrors_total (functor cal params) (seq 0 (length (samples (collector cal)))) 0%Q)
    as [total Htotal].
  { intros i Hi. apply elem_of_seq in Hi.
    destruct (proceeds_functor cal params i Hok ltac:(lia)) as (e & He & _). eauto. }
  assert (Hrun : optimize inp cal =
                 acceptStep inp (setOptimizationParameters cal params) delta params).
  { unfold optimize. rewrite Hopt. simpl negb. cbv iota. rewrite Hit. simpl.
    rewrite anyNotValid_none; [reflexivity|].
    intros i Hi. apply elem_of_seq in Hi. simpl in Hi.
    apply (proceeds_functor cal params i Hok).
    unfold getNumOfMeasurements in Hi. simpl in Hi. lia. }
  rewrite Hrun. unfold acceptStep.
  change (optimizationSteps (optimization (setOptimizationParameters cal params)))
    with (optimizationSteps (optimization cal)).
  change (successiveConvergences (optimization (setOptimizationParameters cal params)))
    with (successiveConvergences (optimization cal)).
  fold steps. fold counter.
  change (samples (collector (setOptimizationParameters cal params)))
    with (samples (collector cal)).
  change (functor (setOptimizationParameters cal params) params) with (functor cal params).
  change (lowestDelta (optimization (setOptimizationParameters cal params)))
    with (lowestDelta (optimization cal)).
  change (lowestDeltaParameters (optimization (setOptimizationParameters cal params)))
    with (lowestDeltaParameters (optimization cal)).
  rewrite Htotal. rewrite (proj2 (Z.leb_gt minSuccessiveConvergences counter) Hmin).
  assert (Hle : ((if Qltb (Qabs delta) (lowestDelta (optimization cal))
                  then Qabs delta else lowestDelta (optimization cal))
                 <= lowestDelta (optimization cal))%Q /\
                ((if Qltb (Qabs delta) (lowestDelta (optimization cal))
                  then Qabs delta else lowestDelta (optimization cal))
                 <= Qabs delta)%Q).
  { destruct (Qltb (Qabs delta) (lowestDelta (optimization cal))) eqn:E.
    - apply Qltb_lt in E. split; lra.
    - apply Qltb_ge in E. split; lra. }
  destruct Hle as [Hle1 Hle2].
  destruct (0 <? counter);
    cbn [mbind option_bind];
    [destruct ((counter =? 1) || Qltb _ _)|];
    (eexists; split; [reflexivity|]; cbn;
     split; [reflexivity|]; split; [reflexivity|]; split; [reflexivity|];
     split; [exact Hopt|]; split; [reflexivity|]; split; [reflexivity|];
     split; [reflexivity|];
     split; [destruct (Qltb (Qabs delta) (lowestDelta (optimization cal))); reflexivity|];
     split; [exact Hle1|exact Hle2]).
Qed.
End ConvergenceFacts.
(** ** The image patch *)

Section PatchFacts.
Variables (cameraInfo : CameraInfo.t) (grayscaled : Z -> Z -> Z) (start : Vector2i).

Lemma extractRow_spec (y : Z) (xs : list Z) : forall grayImage y' x',
  fold_left (fun grayImage x =>
    let currentX := ix start + x in
    if (currentX <? CameraInfo.width cameraInfo) && (0 <=? currentX)
    then setPixel grayImage y x (grayscaled (iy start + y) currentX)
    else grayImage) xs grayImage y' x' =
  if decide (y' = y /\ x' ∈ xs /\ 0 <= ix start + x' < CameraInfo.width cameraInfo)
  then grayscaled (iy start + y) (ix start + x')
  else grayImage y' x'.
Proof.
  induction xs as [|a xs IH]; intros g y' x'; cbn [fold_left].
  - destruct (decide _) as [(_ & Hin & _)|_]; trivial. inversion Hin.
  - rewrite IH. cbv zeta.
    destruct (decide (y' = y /\ x' ∈ xs /\ 0 <= ix start + x' < CameraInfo.width cameraInfo))
      as [(Hy & Hin & Hx)|Hno].
    + destruct (decide _) as [_|Hn]; trivial. exfalso. apply Hn.
      split; trivial. split; trivial. now right.
    + destruct (decide (y' = y /\ x' ∈ a :: xs /\
                        0 <= ix start + x' < CameraInfo.width cameraInfo))
        as [(Hy & Hin & Hx)|Hno'].
      * apply elem_of_cons in Hin as [->|Hin]; [|exfalso; apply Hno; auto].
        rewrite (proj2 (Z.ltb_lt _ _)), (proj2 (Z.leb_le _ _)) by lia. simpl.
        unfold setPixel. subst y'. now rewrite !Z.eqb_refl.
      * destruct ((ix start + a <? CameraInfo.width cameraInfo) && (0 <=? ix start + a)) eqn:E;
          trivial.
        apply andb_true_iff in E as [E1 E2]. apply Z.ltb_lt in E1. apply Z.leb_le in E2.
        unfold setPixel.
        destruct (Z.eqb_spec y' y) as [->|]; simpl; trivial.
        destruct (Z.eqb_spec x' a) as [->|]; simpl; trivial.
        exfalso. apply Hno'. split; trivial. split; [left|lia].
Qed.

Lemma extractRows_spec (size : Vector2i) (ys : list Z) : forall grayImage y' x',
  fold_left (fun grayImage y =>
    let currentY := iy start + y in
    if (CameraInfo.height cameraInfo <=? currentY) || (currentY <? 0) then grayImage
    else
      fold_left (fun grayImage x =>
        let currentX := ix start + x in
        if (currentX <? CameraInfo.width cameraInfo) && (0 <=? currentX)
        then setPixel grayImage y x (grayscaled currentY currentX)
        else grayImage)
        (seqZ 0 (ix size)) grayImage) ys grayImage y' x' =
  if decide (y' ∈ ys /\ 0 <= x' < ix size /\
             insideImage cameraInfo (iy start + y') (ix start + x'))
  then grayscaled (iy start + y') (ix start + x')
  else grayImage y' x'.
Proof.
  unfold insideImage.
  induction ys as [|b ys IH]; intros g y' x'; cbn [fold_left].
  - destruct (decide _) as [(Hin & _)|_]; trivial. inversion Hin.
  - rewrite IH. cbv zeta.
    destruct (decide (y' ∈ ys /\ 0 <= x' < ix size /\
                      0 <= iy start + y' < CameraInfo.height cameraInfo /\
                      0 <= ix start + x' < CameraInfo.width cameraInfo))
      as [(Hin & Hx & Hi)|Hno].
    + destruct (decide _) as [_|Hn]; trivial. exfalso. apply Hn.
      split; [now right|auto].
    + destruct ((CameraInfo.height cameraInfo <=? iy start + b) || (iy start + b <? 0)) eqn:E.
      * destruct (decide _) as [(Hin & Hx & Hi)|_]; trivial.
        apply elem_of_cons in Hin as [->|Hin]; [|exfalso; apply Hno; auto].
        apply orb_true_iff in E as [E|E]; [apply Z.leb_le in E|apply Z.ltb_lt in E]; lia.
      * apply orb_false_iff in E as [E1 E2]. apply Z.leb_gt in E1. apply Z.ltb_ge in E2.
        rewrite extractRow_spec.
        destruct (decide (y' = b /\ x' ∈ seqZ 0 (ix size) /\
                          0 <= ix start + x' < CameraInfo.width cameraInfo))
          as [(-> & Hin & Hx)|Hrow].
        -- apply elem_of_seqZ in Hin.
           destruct (decide _) as [_|Hn]; trivial. exfalso. apply Hn.
           split; [left|]. split; [lia|]. split; lia.
        -- destruct (decide _) as [(Hin & Hx & Hi)|_]; trivial.
           apply elem_of_cons in Hin as [->|Hin]; [|exfalso; apply Hno; auto].
           exfalso. apply Hrow. split; trivial. split; [apply elem_of_seqZ; lia|lia].
Qed.
End PatchFacts.

(** X29. [extractImagePatch] copies a window of the image: a pixel of the
    patch whose position in the image lies inside the image holds the
    image pixel at that position afterwards, and every other pixel of the
    patch, the part of the section that sticks out of the image, is
    left as it was; it is not cleared. For the section of a segment the
    window has the size and the place that [fitLine] computes. *)
Theorem patch_is_a_window_of_the_image (cameraInfo : CameraInfo.t) (grayscaled : Z -> Z -> Z)
        (start size : Vector2i) (grayImage : Z -> Z -> Z) (y x : Z) :
  (0 <= y < iy size -> 0 <= x < ix size ->
   insideImage cameraInfo (iy start + y) (ix start + x) ->
   extractImagePatch cameraInfo grayscaled start size grayImage y x
     = grayscaled (iy start + y) (ix start + x)) /\
  (~ (0 <= y < iy size /\ 0 <= x < ix size /\
      insideImage cameraInfo (iy start + y) (ix start + x)) ->
   extractImagePatch cameraInfo grayscaled start size grayImage y x = grayImage y x) /\
  (forall correctedStart correctedEnd,
     let patch := patchOf correctedStart correctedEnd in
     0 <= y < sizeY patch -> 0 <= x < sizeX patch ->
     insideImage cameraInfo (startY patch + y) (startX patch + x) ->
     patchImage cameraInfo grayscaled correctedStart correctedEnd grayImage y x
       = grayscaled (startY patch + y) (startX patch + x)).
Proof.
  assert (Hspec : forall st sz,
             extractImagePatch cameraInfo grayscaled st sz grayImage y x =
             if decide (y ∈ seqZ 0 (iy sz) /\ 0 <= x < ix sz /\
                        insideImage cameraInfo (iy st + y) (ix st + x))
             then grayscaled (iy st + y) (ix st + x) else grayImage y x).
  { intros st sz. unfold extractImagePatch. apply extractRows_spec. }
  split; [|split].
  - intros Hy Hx Hin. rewrite Hspec.
    destruct (decide _) as [_|Hn]; trivial. exfalso. apply Hn.
    split; [apply elem_of_seqZ; lia|auto].
  - intros Hno. rewrite Hspec.
    destruct (decide _) as [(Hy & Hx & Hin)|_]; trivial.
    exfalso. apply Hno. apply elem_of_seqZ in Hy. split; [lia|auto].
  - intros correctedStart correctedEnd patch Hy Hx Hin. unfold patchImage. fold patch.
    rewrite Hspec. cbn [ix iy].
    destruct (decide _) as [_|Hn]; trivial. exfalso. apply Hn.
    split; [apply elem_of_seqZ; lia|auto].
Qed.

(** * The statements on the scene *)

Section SceneFacts.
Import Scene.

(** ** The sample table *)

(** The round trip for the types [cornerAngle] and [parallelLinesDistance]
    over a table of two empty slots. *)
Lemma sample_table_round_trip_witness :
  let cfg := mkSampleConfiguration upper 0 0 (Z.lor (bit cornerAngle) (bit parallelLinesDistance)) 0 in
  let empty : list (option nat) := [None; None] in
  needToRecord cfg empty cornerAngle = Some true /\
  needToRecord cfg empty parallelAngle = Some false /\
  exists t1,
    record cfg empty cornerAngle 1%nat = Some t1 /\
    needToRecord cfg t1 cornerAngle = Some false /\
    samplesExist cfg t1 = Some false /\
    exists t2,
      record cfg t1 parallelLinesDistance 2%nat = Some t2 /\
      samplesExist cfg t2 = Some true.
Proof.
  intros cfg empty.
  apply (sample_table_round_trip cfg cornerAngle parallelAngle parallelLinesDistance
                                 empty 1%nat 2%nat).
  - intros []; reflexivity.
  - discriminate.
  - discriminate.
  - discriminate.
  - reflexivity.
  - reflexivity.
Defined.

(** ** Local maxima *)

Lemma twinCells_elsewhere a d :
  (a, d) <> (64, 3) -> (a, d) <> (64, 4) -> houghAt twinCells a d = 0.
Proof.
  intros H3 H4. unfold houghAt, twinCells.
  destruct ((a <? 0) || (d <? 0)) eqn:Hneg; trivial.
  apply orb_false_iff in Hneg as [Ha Hd]. apply Z.ltb_ge in Ha, Hd.
  destruct (decide (Z.to_nat a = 64%nat)) as [E|E].
  - rewrite E. rewrite list_lookup_insert_eq by (rewrite length_replicate; lia). simpl.
    assert (a = 64) by lia. subst a.
    destruct (Z.to_nat d) as [|[|[|[|[|[|[|n]]]]]]] eqn:Ed; simpl; trivial.
    + exfalso. apply H3. f_equal. lia.
    + exfalso. apply H4. f_equal. lia.
  - rewrite list_lookup_insert_ne by congruence.
    destruct (replicate 128 (replicate 7 0) !! Z.to_nat a) as [row|] eqn:Hrow; simpl; trivial.
    apply lookup_replicate in Hrow as [-> _].
    destruct (replicate 7 0 !! Z.to_nat d) as [v|] eqn:Hv; simpl; trivial.
    now apply lookup_replicate in Hv as [-> _].
Qed.

(** The scan of the accumulator with the twin cells. *)
Lemma local_maxima_reported_witness :
  exists localMaxima,
    determineLocalMaxima 129 twinCells 56 71 = Some localMaxima /\
    NoDup localMaxima /\
    length localMaxima = 2%nat.
Proof.
  destruct (local_maxima_reported twinCells 56 71) as (l & Hl & Hnd & _ & _ & Htwo).
  - simpl. lia.
  - simpl. lia.
  - exists l. split; [exact Hl|]. split; [exact Hnd|].
    apply (Htwo 64 3 64 4 5).
    + apply elem_of_sector; simpl; lia.
    + change (maxDisIndexOf twinCells) with 7. lia.
    + apply elem_of_sector; simpl; lia.
    + change (maxDisIndexOf twinCells) with 7. lia.
    + discriminate.
    + lia.
    + reflexivity.
    + reflexivity.
    + apply twinCells_elsewhere.
Defined.

(** C4, the claim as stated fails: two neighbouring cells with the same
    value are both reported. *)
Lemma adjacent_equal_cells_both_reported :
  houghAt twinCells 64 3 = 5 /\ houghAt twinCells 64 4 = 5 /\
  determineLocalMaxima 129 twinCells 56 71 =
    Some [mkMaximum 5 64 3; mkMaximum 5 64 4].
Proof. repeat split; vm_compute; reflexivity. Qed.

(** ** The line fitter *)





(** ** The optimizer *)

Lemma rand_bounded (inp : Inputs) :
  rand inp = (fun k => (Z.of_nat k * 400000000) mod 2147483648) ->
  forall k, 0 <= rand inp k <= 2147483647.
Proof.
  intros -> k. pose proof (Z.mod_pos_bound (Z.of_nat k * 400000000) 2147483648). lia.
Qed.

(** A restart after a delta that is not finite, and a restart after a
    sample at the sentinel error. *)
Lemma divergence_restarts_witness :
  (exists cal',
      @optimize parameters failingOptimizer optimizeInputs (optimizing 7) = Some cal' /\
      optimizer (optimization cal') = false /\
      optimizationSteps (optimization cal') = 0 /\
      lowestDelta (optimization cal') = FLT_MAX /\
      optimizationParameters (optimization cal') = @randomParameters parameters optimizeInputs /\
      nextCameraCalibration cal' =
        @unpack parameters (@randomParameters parameters optimizeInputs) tenDegreesCalibration) /\
  (exists cal',
      @optimize parameters rejectingOptimizer optimizeInputs (optimizing 7) = Some cal' /\
      optimizer (optimization cal') = false /\
      optimizationParameters (optimization cal') = @randomParameters parameters optimizeInputs).
Proof.
  split.
  - destruct (@divergence_restarts parameters failingOptimizer optimizeInputs (optimizing 7)
                nonfinite tenDegrees)
      as (cal' & H1 & H2 & H3 & H4 & _ & H5 & _ & H6 & _).
    + reflexivity.
    + reflexivity.
    + now apply rand_bounded.
    + reflexivity.
    + reflexivity.
    + left. reflexivity.
    + exists cal'. repeat split; assumption.
  - destruct (@divergence_restarts parameters rejectingOptimizer optimizeInputs (optimizing 7)
                (finite (1 # 100)) tenDegrees)
      as (cal' & H1 & H2 & _ & _ & _ & H5 & _).
    + reflexivity.
    + reflexivity.
    + now apply rand_bounded.
    + reflexivity.
    + reflexivity.
    + right. split.
      * intros i Hi. simpl in Hi. destruct i as [|i]; [|lia]. eexists. reflexivity.
      * exists 0%nat. eexists. split; [reflexivity|]. vm_compute. discriminate.
    + exists cal'. repeat split; assumption.
Defined.

(** C1, the claim as stated fails: the vector before the restart, the
    tracked vectors and the calibration are all at 10 degrees, and every
    component of the vector after the restart is more than 0.5 degrees
    away from that. *)
Lemma restart_is_not_a_perturbation :
  optimizationParameters (optimization (optimizing 7)) = tenDegrees /\
  lowestDeltaParameters (optimization (optimizing 7)) = tenDegrees /\
  lowestErrorParameters (optimization (optimizing 7)) = tenDegrees /\
  pack (theCameraCalibration optimizeInputs) = tenDegrees /\
  exists cal',
    @optimize parameters failingOptimizer optimizeInputs (optimizing 7) = Some cal' /\
    Forall2 (fun new old => (deg (1 # 2) < Qabs (new - old))%Q)
            (components (optimizationParameters (optimization cal')))
            (components tenDegrees).
Proof.
  repeat split; try reflexivity.
  eexists. split; [vm_compute; reflexivity|].
  repeat constructor.
Qed.

(** The 500th step of the creeping optimizer counts as a convergence. *)
Lemma convergence_counting_witness :
  exists cal',
    @optimize parameters creepingOptimizer optimizeInputs (optimizing 499) = Some cal' /\
    successiveConvergences (optimization cal') = 1 /\
    plateau 500 = 50.
Proof.
  destruct (@convergence_counting parameters creepingOptimizer optimizeInputs (optimizing 499)
              (1 # 100) tenDegrees)
    as (cal' & H1 & H2 & _ & H3 & _).
  - reflexivity.
  - reflexivity.
  - intros i Hi. simpl in Hi. destruct i as [|i]; [|lia].
    eexists. split; reflexivity.
  - exists cal'. split; [exact H1|]. split; [|exact H3].
    apply H2. reflexivity.
Defined.

(** C2, the claim as stated fails: at the 500th step a delta of ten times
    the termination criterion counts as a convergence, since the
    multiplier is 50 there and not 1 (or 2). *)
Lemma plateau_multiplier_is_fifty :
  plateau 500 = 50 /\ specPlateau 500 = 1 /\
  exists cal',
    @optimize parameters creepingOptimizer optimizeInputs (optimizing 499) = Some cal' /\
    optimizationSteps (optimization cal') = 500 /\
    successiveConvergences (optimization (optimizing 499)) = 0 /\
    successiveConvergences (optimization cal') = 1 /\
    ~ (Qabs (1 # 100) < terminationCriterion * inject_Z (specPlateau 500))%Q /\
    ~ (Qabs (1 # 100) < terminationCriterion * inject_Z (1 + 500 / 500))%Q.
Proof.
  split; [reflexivity|]. split; [reflexivity|].
  eexists. split; [vm_compute; reflexivity|].
  repeat split; try reflexivity; intros H; vm_compute in H; discriminate.
Qed.

(** The calibration written by a step that is not yet accepted. *)
Lemma written_parameters_normalised_witness :
  exists cal' raw,
    @optimize parameters creepingOptimizer optimizeInputs (optimizing 499) = Some cal' /\
    raw = optimizationParameters (optimization cal') /\
    angles (nextCameraCalibration cal') = (fun x => fmod x (deg 360)) <$> components raw /\
    Forall (fun x => (Qabs x < deg 360)%Q) (angles (nextCameraCalibration cal')).
Proof.
  destruct (@optimize parameters creepingOptimizer optimizeInputs (optimizing 499))
    as [cal'|] eqn:Hrun; [|vm_compute in Hrun; discriminate].
  destruct (@written_parameters_normalised parameters creepingOptimizer optimizeInputs
              (optimizing 499) cal')
    as (raw & Hcase & _ & Hangles & Hbound).
  - reflexivity.
  - reflexivity.
  - exact Hrun.
  - exists cal', raw. repeat split; trivial.
    destruct Hcase as [[_ ->] | [(Hopt & _) | (Hopt & _)]]; trivial;
      vm_compute in Hrun; inversion Hrun; subst cal'; discriminate.
Defined.

(** ** The update *)

(** C9, the claim as stated fails: an optimization is aborted, so that
    the module is idle with its optimizer and its lowest delta still in
    place; in the next cycle the module is idle and stays idle, no
    optimization step runs, and the calibration written is not the input
    calibration, because the debug response [converge] fired. *)
Lemma converge_response_changes_idle_output :
  exists cal1 cal2 out,
    abortThenConverge = Some (cal1, cal2, out) /\
    state cal1 = CameraCalibrationStatus.idle /\
    state cal2 = CameraCalibrationStatus.idle /\
    optimizationSteps (optimization cal1) = 7 /\
    optimizationSteps (optimization cal2) = 0 /\
    angles (theCameraCalibration (idleInputs true)) = [0; 0; 0; 0; 0; 0]%Q /\
    Forall (fun x => (x == deg 10)%Q) (angles out).
Proof.
  do 3 eexists. split; [vm_compute; reflexivity|].
  repeat split; repeat constructor.
Qed.

(** ** The sample collector *)

(** C3, the claim as stated fails: of three recording cycles in a row
    the first and the third discard the measurement for the goal area
    range and the second accepts it (while the ground line is discarded,
    so that no sample is recorded). The acceptance does not set the
    counter back: it is 1 after the first cycle, still 1 after the second
    and 2 after the third. *)
Lemma acceptance_keeps_counter :
  (exists s,
      pairLoop (markInputs 1700) markConfiguration true (mkRangef 650 750) (mkRangef 1250 1350)
               (mkPairScan [None; None] false false false false false) = Some s /\
      foundGoalAreaLine s = true /\ discardedGoalAreaLine s = false) /\
  numOfDiscardedGoalAreaLines markCollector = 0 /\
  exists c1 c2 c3,
    threeCycles markCollector = Some (c1, c2, c3) /\
    numOfDiscardedGoalAreaLines c1 = 1 /\
    numOfDiscardedGoalAreaLines c2 = 1 /\
    numOfDiscardedGoalAreaLines c3 = 2 /\
    goalAreaDisRange upper c3 = goalAreaDisRange upper markCollector /\
    samples c3 = [None; None].
Proof.
  split.
  { eexists. split; [vm_compute; reflexivity|]. split; reflexivity. }
  split; [reflexivity|].
  do 3 eexists. split; [vm_compute; reflexivity|].
  repeat split; reflexivity.
Qed.

(** With the long line [j] in the place of the short line no end is near
    the edge [k]: the triple is skipped. *)
Lemma triple_search_checks_witness :
  let s := mkTripleScan [None; None; None] false false false in
  tripleBody cornerInputs cornerConfiguration false (mkRangef 550 650)
             longLineJ shortLine longLineK s = Some s.
Proof.
  intros s.
  destruct (triple_search_checks cornerInputs cornerConfiguration false (mkRangef 550 650))
    as [Hskip _].
  apply Hskip. left. intros [_ [H2|H2]]; vm_compute in H2; apply H2; reflexivity.
Defined.

(** C5, the claim as stated fails: the far end of the short line is 600
    away from either long line, so not both of its ends are within 100 of
    both edges, for this triple or for any other of the scene; yet the
    triple passes the checks and the search marks the required features
    visible (while samples are still outstanding). *)
Lemma one_end_near_each_edge_suffices :
  (getDistanceToEdge (line longLineJ) (lastField shortLine) == 600)%Q /\
  (getDistanceToEdge (line longLineK) (firstField shortLine) == 600)%Q /\
  (forall li lj lk,
      li ∈ theLinesPercept cornerInputs -> lj ∈ theLinesPercept cornerInputs ->
      lk ∈ theLinesPercept cornerInputs -> lj <> lk ->
      ~ bothEndsNear li lj lk) /\
  needToRecord cornerConfiguration (samples cornerCollector) cornerAngle = Some true /\
  allRequiredFeaturesVisible
    <$> recordSamples cornerInputs cornerConfiguration cornerRequest cornerCollector = Some true /\
  samples <$> recordSamples cornerInputs cornerConfiguration cornerRequest cornerCollector
    = Some [None; None; None].
Proof.
  split; [reflexivity|]. split; [reflexivity|]. split.
  { intros li lj lk Hi Hj Hk Hne (H1 & H2 & H3 & H4).
    unfold cornerInputs, inputsWith in Hi, Hj, Hk. simpl in Hi, Hj, Hk.
    repeat (apply elem_of_cons in Hi as [->|Hi]); [| | |inversion Hi];
      (repeat (apply elem_of_cons in Hj as [->|Hj]); [| | |inversion Hj]);
      (repeat (apply elem_of_cons in Hk as [->|Hk]); [| | |inversion Hk]);
      try congruence;
      vm_compute in H1, H2, H3, H4;
      first [apply H1; reflexivity | apply H2; reflexivity
            | apply H3; reflexivity | apply H4; reflexivity]. }
  repeat split; vm_compute; reflexivity.
Qed.

(** Nine lines: nothing is recorded and nothing is visible. *)
Lemma many_lines_nothing_recorded_witness :
  exists c',
    recordSamples crowdedInputs cornerConfiguration cornerRequest cornerCollector = Some c' /\
    samples c' = samples cornerCollector /\
    allRequiredFeaturesVisible c' = false.
Proof.
  destruct (many_lines_nothing_recorded crowdedInputs cornerConfiguration cornerRequest
              cornerCollector) as (_ & _ & H).
  - intros t Ht. destruct t; vm_compute in Ht; try discriminate; vm_compute; lia.
  - destruct H as (c' & Hrun & Hs & _ & _ & Hvis).
    + simpl. lia.
    + exists c'. split; [exact Hrun|]. split; [exact Hs|].
      pose proof (proj1 (Hvis eq_refl)) as Hnone.
      destruct (allRequiredFeaturesVisible c'); trivial.
      specialize (Hnone eq_refl cornerAngle). vm_compute in Hnone. discriminate.
Defined.
End SceneFacts.

(** * The further properties on the scene *)

Section MoreSceneFacts.
Import Scene MoreScene.

Lemma markConfiguration_fits (smps : list (option Sample)) :
  length smps = 2%nat -> tableFits markConfiguration smps.
Proof.
  intros Hlen t Ht. rewrite Hlen.
  destruct t; vm_compute in Ht; try discriminate; vm_compute; lia.
Qed.

Lemma scene_windowsFit lines request calibration ahead converge :
  windowsFit (inputsWith lines request calibration ahead converge).
Proof. intros s e. simpl. lia. Qed.

(** The two types of the mark configuration have the slots 0 and 1. *)
Lemma slot_layout_witness :
  (sampleIndexBase markConfiguration <= sampleIndexOf markConfiguration goalAreaDistance
   < sampleIndexBase markConfiguration + numRequested markConfiguration)%nat /\
  (sampleIndexOf markConfiguration goalAreaDistance
   = sampleIndexOf markConfiguration groundLineDistance -> goalAreaDistance = groundLineDistance) /\
  ((sampleTypeIndex goalAreaDistance < sampleTypeIndex groundLineDistance)%nat <->
   (sampleIndexOf markConfiguration goalAreaDistance
    < sampleIndexOf markConfiguration groundLineDistance)%nat).
Proof.
  apply (slot_layout markConfiguration goalAreaDistance groundLineDistance); reflexivity.
Defined.

(** Recording the ground line distance into the empty table of the mark
    configuration. *)
Lemma record_effect_witness :
  exists T' : list (option nat),
    record markConfiguration [None; None] groundLineDistance 7%nat = Some T' /\
    length T' = 2%nat /\
    T' !! 1%nat = Some (Some 7%nat) /\
    T' !! 0%nat = Some None /\
    needToRecord markConfiguration T' groundLineDistance = Some false /\
    needToRecord markConfiguration T' goalAreaDistance = Some true.
Proof.
  destruct (record_effect markConfiguration ([None; None] : list (option nat))
                          groundLineDistance 7%nat) as [Hsome Heffect].
  destruct (proj2 Hsome) as [T' HT'].
  { split; [reflexivity|]. vm_compute. lia. }
  exists T'. destruct (Heffect T' HT') as (L & S & O & N & N').
  split; [exact HT'|]. split; [exact L|]. split; [exact S|].
  split; [rewrite (O 0%nat); [reflexivity|discriminate]|].
  split; [exact N|]. rewrite N' by discriminate. reflexivity.
Defined.

(** A table with both samples of the mark configuration. *)
Lemma samplesExist_iff_none_outstanding_witness :
  exists b,
    samplesExist markConfiguration [Some 1%nat; Some 2%nat] = Some b /\
    (b = true <-> noneOutstanding markConfiguration [Some 1%nat; Some 2%nat]).
Proof.
  apply (samplesExist_iff_none_outstanding markConfiguration [Some 1%nat; Some 2%nat]).
  intros t Ht. destruct t; vm_compute in Ht; try discriminate; vm_compute; lia.
Defined.

(** Two cycles of the mark search, the second of which records both
    distances. *)
Lemma recorded_samples_are_kept_witness :
  exists c',
    recordCycles twoCycles markConfiguration (wideCollector [None; None] 0) = Some c' /\
    length (samples c') = 2%nat /\
    (forall i s, samples (wideCollector [None; None] 0) !! i = Some (Some s) ->
                 samples c' !! i = Some (Some s)) /\
    (forall i, (forall t, requested markConfiguration t = true ->
                          i <> sampleIndexOf markConfiguration t) ->
               samples c' !! i = samples (wideCollector [None; None] 0) !! i).
Proof.
  destruct (recordCycles twoCycles markConfiguration (wideCollector [None; None] 0))
    as [c'|] eqn:Hrun; [|vm_compute in Hrun; discriminate].
  exists c'. split; [reflexivity|].
  exact (recorded_samples_are_kept twoCycles markConfiguration _ c' Hrun).
Defined.

Lemma recording_cycles_return_witness :
  exists c',
    recordCycles twoCycles markConfiguration (wideCollector [None; None] 0) = Some c' /\
    tableFits markConfiguration (samples c').
Proof.
  apply (recording_cycles_return twoCycles markConfiguration (wideCollector [None; None] 0)).
  - intros inp req Hin. unfold twoCycles in Hin.
    apply elem_of_cons in Hin as [E|Hin].
    + inversion E. apply scene_windowsFit.
    + apply elem_of_cons in Hin as [E|Hin]; [|inversion Hin].
      inversion E. apply scene_windowsFit.
  - now apply markConfiguration_fits.
Defined.


(** The third discard in a row for the goal area range. *)
Lemma ranges_widen_one_step_witness :
  exists c',
    recordSamples (markInputs 1800) markConfiguration markRequest (collectorWith [None; None] 2)
      = Some c' /\
    rangesStep upper (collectorWith [None; None] 2) c' /\
    rangesEqual lower (collectorWith [None; None] 2) c' /\
    rangesWiden upper (collectorWith [None; None] 2) c'.
Proof.
  destruct (recordSamples (markInputs 1800) markConfiguration markRequest
                          (collectorWith [None; None] 2))
    as [c'|] eqn:Hrun; [|vm_compute in Hrun; discriminate].
  exists c'. split; [reflexivity|].
  destruct (ranges_widen_one_step (markInputs 1800) markConfiguration markRequest
              (collectorWith [None; None] 2) c' Hrun) as (Hstep & Hother & Hwiden).
  split; [exact Hstep|]. split; [exact Hother|].
  apply Hwiden. vm_compute. discriminate.
Defined.

Lemma discard_counters_stay_bounded_witness :
  exists c',
    recordCycles twoCycles markConfiguration (collectorWith [None; None] 2) = Some c' /\
    countersBounded c'.
Proof.
  destruct (recordCycles twoCycles markConfiguration (collectorWith [None; None] 2))
    as [c'|] eqn:Hrun; [|vm_compute in Hrun; discriminate].
  exists c'. split; [reflexivity|].
  apply (discard_counters_stay_bounded twoCycles markConfiguration
           (collectorWith [None; None] 2) c'); [|exact Hrun].
  unfold countersBounded. simpl. lia.
Defined.

(** The corner of the goal area, recorded. *)
Lemma corner_sample_after_mark_distances_witness :
  exists c',
    recordSamples cornerRecordInputs cornerConfiguration cornerRecordRequest cornerCollector
      = Some c' /\
    needToRecord cornerConfiguration (samples c') cornerAngle = Some false /\
    (3 <= length (theLinesPercept cornerRecordInputs) <= 8)%nat /\
    needToRecord cornerConfiguration (samples cornerCollector) goalAreaDistance = Some false /\
    needToRecord cornerConfiguration (samples cornerCollector) groundLineDistance = Some false.
Proof.
  destruct (recordSamples cornerRecordInputs cornerConfiguration cornerRecordRequest
                          cornerCollector)
    as [c'|] eqn:Hrun; [|vm_compute in Hrun; discriminate].
  assert (Hafter : needToRecord cornerConfiguration (samples c') cornerAngle = Some false).
  { vm_compute in Hrun. inversion Hrun. reflexivity. }
  exists c'. split; [reflexivity|]. split; [exact Hafter|].
  apply (corner_sample_after_mark_distances cornerRecordInputs cornerConfiguration
           cornerRecordRequest cornerCollector c' Hrun eq_refl Hafter).
Defined.

(** The two distances to the penalty mark, recorded. *)
Lemma mark_distance_needs_the_mark_witness :
  exists c',
    recordSamples (markInputs 1700) markConfiguration markRequest (wideCollector [None; None] 0)
      = Some c' /\
    needToRecord markConfiguration (samples c') goalAreaDistance = Some false /\
    SampleConfigurationRequest.doRecord markRequest = true /\
    PenaltyMarkPercept.wasSeen (thePenaltyMarkPercept (markInputs 1700)) = true /\
    (2 <= length (theLinesPercept (markInputs 1700)) <= 8)%nat.
Proof.
  destruct (recordSamples (markInputs 1700) markConfiguration markRequest
                          (wideCollector [None; None] 0))
    as [c'|] eqn:Hrun; [|vm_compute in Hrun; discriminate].
  assert (Hafter : needToRecord markConfiguration (samples c') goalAreaDistance = Some false).
  { vm_compute in Hrun. inversion Hrun. reflexivity. }
  exists c'. split; [reflexivity|]. split; [exact Hafter|].
  apply (mark_distance_needs_the_mark (markInputs 1700) markConfiguration markRequest
           (wideCollector [None; None] 0) c' goalAreaDistance); auto.
Defined.

(** The first request after the construction of the module. *)
Lemma new_configuration_gets_fresh_slots_witness :
  exists cfg,
    currentSampleConfiguration (updateSampleConfiguration (markInputs 1700) constructed) = Some cfg /\
    sampleIndexBase cfg = 0%nat /\
    numOfSamples (updateSampleConfiguration (markInputs 1700) constructed) = 2%nat /\
    (forall t, requested cfg t = true -> (0 <= sampleIndexOf cfg t < 2)%nat).
Proof.
  destruct (new_configuration_gets_fresh_slots (markInputs 1700) constructed markRequest eq_refl)
    as [_ Hnew].
  destruct Hnew as (cfg & Hcfg & _ & _ & Hbase & Hnum & _ & Hslots & _).
  - discriminate.
  - exists cfg. split; [exact Hcfg|]. split; [exact Hbase|].
    assert (Hn : numOfSamples (updateSampleConfiguration (markInputs 1700) constructed) = 2%nat)
      by reflexivity.
    split; [exact Hn|]. intros t Ht. rewrite <- Hn. apply (Hslots t Ht).
Defined.

(** An abort in the middle of an optimization. *)
Lemma abort_always_succeeds_witness :
  exists cal',
    @update externals parameters creepingOptimizer (idleInputs false) (optimizing 7)
      = Some (cal', nextCameraCalibration cal') /\
    state cal' = CameraCalibrationStatus.idle /\
    collector cal' = collector (optimizing 7) /\
    inStateSince cal' = theFrameInfoTime (idleInputs false).
Proof.
  exact (@abort_always_succeeds externals parameters creepingOptimizer (idleInputs false)
           (optimizing 7) eq_refl).
Defined.

(** The start of a calibration on the mark scene: both distances are
    recorded in the cycle of the start. *)
Lemma start_empties_the_table_witness :
  exists cal' out,
    @update externals parameters creepingOptimizer (markInputs 1700) constructed
      = Some (cal', out) /\
    state cal' = CameraCalibrationStatus.recordSamples /\
    inStateSince cal' = 1000 /\
    length (samples (collector cal')) = 2%nat /\
    optimizer (optimization cal') = false /\
    out = zeroCalibration.
Proof.
  destruct (@update externals parameters creepingOptimizer (markInputs 1700) constructed)
    as [[cal' out]|] eqn:Hrun; [|vm_compute in Hrun; discriminate].
  exists cal', out. split; [reflexivity|].
  destruct (@start_empties_the_table externals parameters creepingOptimizer (markInputs 1700)
              constructed cal' out eq_refl eq_refl Hrun)
    as (H1 & H2 & H3 & _ & H5 & _ & _ & H8).
  repeat split; assumption.
Defined.

(** A step of the optimization. *)
Lemma samples_frozen_while_optimizing_witness :
  exists cal' out,
    @update externals parameters creepingOptimizer optimizeInputs (optimizing 7)
      = Some (cal', out) /\
    collector cal' = collector (optimizing 7) /\
    (state cal' = CameraCalibrationStatus.optimize \/ state cal' = CameraCalibrationStatus.idle).
Proof.
  destruct (@update externals parameters creepingOptimizer optimizeInputs (optimizing 7))
    as [[cal' out]|] eqn:Hrun; [|vm_compute in Hrun; discriminate].
  exists cal', out. split; [reflexivity|].
  exact (@samples_frozen_while_optimizing externals parameters creepingOptimizer optimizeInputs
           (optimizing 7) cal' out eq_refl Hrun).
Defined.

(** The cycle after a restart. *)
Lemma optimizer_starts_from_the_input_witness :
  exists cal' out,
    @update externals parameters creepingOptimizer optimizeInputs restarted = Some (cal', out) /\
    state cal' = CameraCalibrationStatus.optimize /\
    optimizer (optimization cal') = true /\
    optimizationParameters (optimization cal') = pack tenDegreesCalibration /\
    successiveConvergences (optimization cal') = 0 /\
    out = tenDegreesCalibration.
Proof.
  destruct (@update externals parameters creepingOptimizer optimizeInputs restarted)
    as [[cal' out]|] eqn:Hrun; [|vm_compute in Hrun; discriminate].
  exists cal', out. split; [reflexivity|].
  exact (@optimizer_starts_from_the_input externals parameters creepingOptimizer optimizeInputs
           restarted cal' out eq_refl eq_refl Hrun).
Defined.
End MoreSceneFacts.

(** * The Hough transform, the errors and the projection on the scene *)

Section FurtherSceneFacts.
Import Scene MoreScene FurtherScene.

Lemma scene_one_deg_pos : (0 < @one_deg parameters)%Q.
Proof. reflexivity. Qed.

Lemma calibration_round_trip_witness :
  Forall2 Qeq (angles (@unpack parameters (pack tenDegreesCalibration) tenDegreesCalibration))
              (angles tenDegreesCalibration) /\
  az (bodyRotationCorrection (@unpack parameters tenDegrees zeroCalibration)) = 0%Q.
Proof.
  destruct (@calibration_round_trip parameters tenDegreesCalibration tenDegrees scene_one_deg_pos)
    as (Hround & _).
  destruct (@calibration_round_trip parameters zeroCalibration tenDegrees scene_one_deg_pos)
    as (_ & _ & _ & _ & Hz).
  split; [|exact Hz].
  apply Hround. repeat constructor.
Defined.

Lemma scene_tablesBounded : @tablesBounded parameters.
Proof.
  intros index Hi.
  assert (H : forallb (fun k => Qle_bool (cosTable k * cosTable k + sinTable k * sinTable k) 1)
                      (seqZ 0 128) = true) by (vm_compute; reflexivity).
  rewrite forallb_forall in H. apply Qle_bool_iff. apply (H index).
  apply list_elem_of_In, elem_of_seqZ. simpl in Hi. lia.
Qed.

(** The transform of the patch with one edge pixel, for the sector of the
    scene. *)
Lemma hough_transform_stays_in_table_witness :
  exists houghSpace',
    calcHoughSpace edgePixel 56 71 8 (emptyHoughSpace 8) = Some houghSpace' /\
    tableShape houghSpace' numOfAngles (2 * 8 + 1).
Proof.
  apply (hough_transform_stays_in_table edgePixel 56 71 8 (emptyHoughSpace 8)).
  - simpl. lia.
  - simpl. lia.
  - exact scene_tablesBounded.
  - simpl. lia.
  - lia.
  - apply emptyHoughSpace_shape; simpl; lia.
Defined.

Lemma hough_transform_counts_votes_witness :
  exists houghSpace',
    calcHoughSpace edgePixel 56 71 8 (emptyHoughSpace 8) = Some houghSpace' /\
    rowVotes houghSpace' 64 = 1 /\ houghAt houghSpace' 71 10 = 0.
Proof.
  destruct (calcHoughSpace edgePixel 56 71 8 (emptyHoughSpace 8)) as [hs|] eqn:Hrun;
    [|vm_compute in Hrun; discriminate].
  exists hs. split; [reflexivity|].
  destruct (hough_transform_counts_votes edgePixel 56 71 8 (emptyHoughSpace 8) hs)
    as (Hsum & Hout & _).
  - simpl. lia.
  - simpl. lia.
  - exact Hrun.
  - split.
    + rewrite (Hsum 64).
      * rewrite emptyHoughSpace_rowVotes. reflexivity.
      * apply elem_of_sector; simpl; lia.
    + rewrite (Hout 71 10).
      * apply emptyHoughSpace_houghAt.
      * intros Hin. apply elem_of_sector in Hin; simpl in *; lia.
Defined.

Lemma hough_maxima_exist_witness :
  0 < votingPixels edgePixel /\
  exists localMaxima,
    houghMaxima edgePixel 56 71 8 = Some localMaxima /\
    localMaxima <> [] /\
    forall m, m ∈ localMaxima ->
      0 < maxAcc m <= votingPixels edgePixel /\
      angleIndex m ∈ sector 128 56 71 /\
      0 <= distanceIndex m < 2 * 8 + 1.
Proof.
  apply (hough_maxima_exist edgePixel 56 71 8).
  - simpl. lia.
  - simpl. lia.
  - discriminate.
  - exact scene_tablesBounded.
  - repeat split; vm_compute; discriminate.
  - simpl. lia.
  - simpl. lia.
  - simpl. lia.
  - lia.
Defined.

(** The sample of two lines under a calibration with a body tilt of 50
    degrees. *)
Lemma projection_failure_gives_sentinel_witness :
  computeErrorOf twoLinesSample (unpack steepParameters zeroCalibration) = notValidError.
Proof.
  apply (projection_failure_gives_sentinel twoLinesSample
           (unpack steepParameters zeroCalibration) (castf (mkVector2i 30 80))).
  - left.
  - vm_compute. reflexivity.
Defined.

Lemma scene_acosInRange : @acosInRange externals parameters.
Proof.
  intros x [H1 H2]. unfold deg. simpl. unfold acosApprox, oneDegree. split; lra.
Qed.

Lemma sample_errors_bounded_witness :
  (0 <= computeErrorOf twoLinesSample zeroCalibration)%Q /\
  (computeErrorOf twoLinesSample zeroCalibration < notValidError)%Q.
Proof.
  destruct (sample_errors_bounded twoLinesSample zeroCalibration) as [H0 H1].
  - exact scene_acosInRange.
  - reflexivity.
  - reflexivity.
  - intros p _. simpl. unfold project. destruct (Qltb 60 (vy p)); eauto.
  - split; [exact H0|]. apply (H1 eq_refl). vm_compute. reflexivity.
Defined.

(** A step of the optimization that ends at a body tilt of 50 degrees. *)
Lemma projection_failure_restarts_witness :
  exists cal',
    @optimize parameters (optimizerWith steepStep) optimizeInputs (optimizing 7) = Some cal' /\
    optimizer (optimization cal') = false /\
    state cal' = CameraCalibrationStatus.optimize /\
    collector cal' = collector (optimizing 7).
Proof.
  destruct (projection_failure_restarts steepStep optimizeInputs (optimizing 7) (1 # 100)
              steepParameters 0%nat twoLinesSample (castf (mkVector2i 30 80)))
    as (cal' & Hrun & Hopt & _ & _ & Hstate & Hcoll).
  - reflexivity.
  - intros i Hi. simpl in Hi. destruct i as [|i]; [|lia]. eexists. reflexivity.
  - reflexivity.
  - reflexivity.
  - left.
  - vm_compute. reflexivity.
  - exists cal'. repeat split; assumption.
Defined.

(** A line on the field that starts behind the image plane. *)
Lemma field_line_is_clipped_to_the_image_plane_witness :
  exists q1 q2 l,
    clipToImagePlane 100 (cameraAbove (mkVector3f 50 100 0)) (cameraAbove (mkVector3f 300 (-100) 0))
      = Some (q1, q2) /\
    projectLineOnFieldIntoImage crossingLine cameraAbove optics = Some l /\
    (x3 q1 == 100)%Q /\ (x3 q2 == 100)%Q /\
    onSegment (cameraAbove (mkVector3f 50 100 0)) (cameraAbove (mkVector3f 300 (-100) 0)) q1.
Proof.
  destruct (field_line_is_clipped_to_the_image_plane crossingLine cameraAbove optics)
    as [_ Hclip]; [reflexivity|].
  destruct (clipToImagePlane 100 (cameraAbove (mkVector3f 50 100 0))
                             (cameraAbove (mkVector3f 300 (-100) 0)))
    as [[q1 q2]|] eqn:E; [|vm_compute in E; discriminate].
  destruct (Hclip q1 q2) as (Hl & H1 & H2 & _ & Hseg & _).
  - rewrite <- E. reflexivity.
  - exists q1, q2. eexists. split; [reflexivity|]. split; [exact Hl|].
    split; [exact H1|]. split; [exact H2|]. apply Hseg. reflexivity.
Defined.

(** The status while the mark configuration is recorded and the features
    are not visible. *)
Lemma status_reports_the_configuration_witness :
  exists status,
    @updateStatus (markInputs 1700) recordingMark = Some (recordingMark, status) /\
    statusState status = CameraCalibrationStatus.recordSamples /\
    sampleConfigurationStatus status = SampleConfigurationStatus.notVisible.
Proof.
  destruct (@status_reports_the_configuration (markInputs 1700) recordingMark markRequest eq_refl)
    as (status & Hrun & Hstate & _ & Hfin & Hother).
  - intros cfg Hcfg. inversion Hcfg; subst cfg. now apply markConfiguration_fits.
  - exists status. split; [exact Hrun|]. split; [exact Hstate|].
    apply Hother. intros E. apply Hfin in E as (cfg & Hcfg & Hnone).
    inversion Hcfg; subst cfg. specialize (Hnone goalAreaDistance). discriminate.
Defined.

(** The front line of the goal area, given from right to left and from
    left to right. *)
Lemma fitLine_ignores_the_order_of_the_ends_witness :
  fitLine (markInputs 1700) (swapEnds (correctedLineOf (mkVector2i 130 80) (mkVector2i 30 80))) =
  fitLine (markInputs 1700) (correctedLineOf (mkVector2i 130 80) (mkVector2i 30 80)).
Proof.
  apply (fitLine_ignores_the_order_of_the_ends (markInputs 1700)
           (correctedLineOf (mkVector2i 130 80) (mkVector2i 30 80))).
  intros H. vm_compute in H. discriminate.
Defined.

(** The start of a calibration on the mark scene. *)
Lemma recording_cycle_is_safe_witness :
  exists cal' out,
    @update externals parameters creepingOptimizer (markInputs 1700) constructed
      = Some (cal', out) /\
    slotsAllocated cal' /\
    (numOfSamples cal' <= length (samples (collector cal')))%nat /\
    length (samples (collector cal')) = 2%nat.
Proof.
  destruct (@recording_cycle_is_safe externals parameters creepingOptimizer
              (markInputs 1700) constructed)
    as (cal' & out & Hrun & Hinv & Hlen & Hslots & _).
  - discriminate.
  - reflexivity.
  - apply scene_windowsFit.
  - intros cfg Hcfg. discriminate.
  - vm_compute. lia.
  - exists cal', out. repeat split; assumption.
Defined.

(** The fifth convergence in a row. *)
Lemma convergence_ends_the_optimization_witness :
  exists cal',
    @optimize parameters creepingOptimizer optimizeInputs converging = Some cal' /\
    state cal' = CameraCalibrationStatus.idle /\
    inStateSince cal' = 0 /\
    optimizer (optimization cal') = false /\
    successiveConvergences (optimization cal') = 5.
Proof.
  destruct (@convergence_ends_the_optimization parameters creepingOptimizer optimizeInputs
              converging (1 # 100) tenDegrees)
    as (cal' & total & Hrun & _ & Hstate & Hsince & _ & Hopt & _ & _ & Hcount & _).
  - reflexivity.
  - reflexivity.
  - intros i Hi. simpl in Hi. destruct i as [|i]; [|lia].
    eexists. split; reflexivity.
  - vm_compute. reflexivity.
  - vm_compute. discriminate.
  - exists cal'. repeat split; assumption.
Defined.

(** A pixel of the patch inside the image and one outside of it. *)
Lemma patch_is_a_window_of_the_image_witness :
  cornerPatch 1 3 = 119001 /\ cornerPatch 2 0 = 255.
Proof.
  destruct (patch_is_a_window_of_the_image cameraInfo positions (mkVector2i (-2) 118)
              (mkVector2i 4 4) (fun _ _ => 255) 1 3) as (Hin & _ & _).
  destruct (patch_is_a_window_of_the_image cameraInfo positions (mkVector2i (-2) 118)
              (mkVector2i 4 4) (fun _ _ => 255) 2 0) as (_ & Hout & _).
  split.
  - unfold cornerPatch. rewrite Hin; [reflexivity|simpl; lia|simpl; lia|].
    unfold insideImage. simpl. lia.
  - unfold cornerPatch. rewrite Hout; [reflexivity|].
    unfold insideImage. simpl. lia.
Defined.

(** The eighth step of the creeping optimizer: the delta of 0.01 is above
    the threshold and below the tracked lowest delta of 0.02. *)
Lemma accepted_step_tracks_the_lowest_delta_witness :
  exists cal',
    @optimize parameters creepingOptimizer optimizeInputs (optimizing 7) = Some cal' /\
    state cal' = CameraCalibrationStatus.optimize /\
    optimizationSteps (optimization cal') = 8 /\
    (lowestDelta (optimization cal') <= Qabs (1 # 100))%Q.
Proof.
  destruct (@accepted_step_tracks_the_lowest_delta parameters creepingOptimizer optimizeInputs
              (optimizing 7) (1 # 100) tenDegrees)
    as (cal' & Hrun & Hstate & _ & _ & _ & _ & Hsteps & _ & _ & _ & Hlow).
  - reflexivity.
  - reflexivity.
  - intros i Hi. simpl in Hi. destruct i as [|i]; [|lia].
    eexists. split; reflexivity.
  - vm_compute. reflexivity.
  - exists cal'. repeat split; assumption.
Defined.
End FurtherSceneFacts.

(** * The policy of the ranges and the cycle on the scene *)

Section CycleSceneFacts.
Import Scene MoreScene CycleScene.

(** A recording cycle of the mark search in which the goal area line is
    measured outside its range: with no discard counted before, the
    counter is 1 afterwards and the range is as it was; with two discards
    counted before, the range is widened by 10 on both sides and the
    counter is 0. *)
Lemma adaptive_range_policy_witness :
  (exists c',
      recordSamples (markInputs 1800) markConfiguration markRequest markCollector = Some c' /\
      numOfDiscardedGoalAreaLines c' = 0 + 1 /\
      goalAreaDisRange upper c' = mkRangef 650 750 /\
      ~ noneOutstanding markConfiguration (samples c')) /\
  (exists c',
      recordSamples (markInputs 1800) markConfiguration markRequest twiceDiscarded = Some c' /\
      numOfDiscardedGoalAreaLines c' = 0 /\
      goalAreaDisRange upper c' = mkRangef (650 - 10) (750 + 10)).
Proof.
  destruct (adaptive_range_policy (markInputs 1800) markConfiguration markRequest markCollector)
    as [Htotal Hpolicy].
  { reflexivity. }
  { reflexivity. }
  { unfold countersBounded. simpl. lia. }
  destruct Htotal as [c1 Hrun1].
  { apply scene_windowsFit. }
  { now apply markConfiguration_fits. }
  destruct (Hpolicy c1 Hrun1) as (_ & Hgoal & _).
  destruct Hgoal as (Hinc & _ & Hrange & Hopen & _).
  assert (Hone : numOfDiscardedGoalAreaLines c1 = 0 + 1).
  { pose proof Hrun1 as Hc. vm_compute in Hc. inversion Hc. reflexivity. }
  destruct (proj1 Hinc Hone) as [Hcounted _].
  split.
  - exists c1. split; [exact Hrun1|]. split; [exact Hone|].
    split; [|exact (Hopen Hcounted)].
    apply Hrange. intros [_ Hle]. simpl in Hle. lia.
  - destruct (adaptive_range_policy (markInputs 1800) markConfiguration markRequest
                                    twiceDiscarded)
      as [Htotal2 Hpolicy2].
    { reflexivity. }
    { reflexivity. }
    { unfold countersBounded. simpl. lia. }
    destruct Htotal2 as [c2 Hrun2].
    { apply scene_windowsFit. }
    { now apply markConfiguration_fits. }
    exists c2. split; [exact Hrun2|].
    destruct (Hpolicy2 c2 Hrun2) as (_ & (_ & Hreach & _) & _).
    apply Hreach; [exact Hcounted|]. simpl. lia.
Defined.

(** An optimization step over the full table of the scene runs to its
    end; the same step over a table whose second slot is empty does not;
    and an idle cycle without the debug request writes the input
    calibration. *)
Lemma cycle_output_witness :
  (exists cal',
      @update externals parameters creepingOptimizer optimizeInputs (optimizing 7)
      = Some (cal', nextCameraCalibration cal')) /\
  @update externals parameters creepingOptimizer optimizeInputs halfRecorded = None /\
  (exists cal',
      @update externals parameters creepingOptimizer (idleInputs false) aborted
      = Some (cal', theCameraCalibration (idleInputs false)) /\
      state cal' = CameraCalibrationStatus.idle).
Proof.
  split; [|split].
  - destruct (@cycle_output externals parameters creepingOptimizer optimizeInputs (optimizing 7))
      as (Hruns & _ & _).
    destruct Hruns as (cal' & Hrun & _).
    + intros (_ & [H|[H _]]); discriminate.
    + intros _. split.
      * intros i Hi. simpl in Hi. destruct i; [eexists; reflexivity|lia].
      * vm_compute. eauto.
    + exists cal'. exact Hrun.
  - destruct (@cycle_output externals parameters creepingOptimizer optimizeInputs halfRecorded)
      as (_ & Hfails & _).
    apply (Hfails) with (delta := 1 # 100) (params := tenDegrees).
    + split; [left; reflexivity|split; reflexivity].
    + discriminate.
    + vm_compute. reflexivity.
    + exists 1%nat. reflexivity.
    + intros i s _. reflexivity.
  - destruct (@cycle_output externals parameters creepingOptimizer (idleInputs false) aborted)
      as (_ & _ & H).
    exact (H eq_refl eq_refl).
Defined.
End CycleSceneFacts.
